(** * AgentTown: a shallow embedding of the simulation core

    The development follows the Python package [agent_town_sim]:
    [reactor.py] (the bounded accumulator), [models.py] (actions),
    [agent.py] (the decision policy), [world.py] (the tick
    orchestrator) and [seed.py] (the seeding of a world).  Python integers are unbounded, hence [Z]; the
    dictionaries whose iteration order is observable ([agents],
    [help_requests]) are insertion-ordered association lists, the ones
    that are only looked up ([occupancy], [helper_signals]) are [gmap]s.
    Exceptions are values of [Res]; the process-wide random source is an
    explicit oracle threaded through the code that draws from it. *)

From Stdlib Require Import ZArith Lia Bool Ascii.
From stdpp Require Import gmap strings list fin_maps pretty.

Local Open Scope Z_scope.

(** ** Exceptions and the simulation monad *)

Inductive exn := RuntimeError | IndexError.

Inductive Res (A : Type) : Type :=
| Ok (a : A)
| Raise (e : exn).
Arguments Ok {A} a.
Arguments Raise {A} e.

Definition res_bind {A B} (m : Res A) (k : A -> Res B) : Res B :=
  match m with
  | Ok a => k a
  | Raise e => Raise e
  end.

(** The random source: [draws] is the sequence of numbers the generator
    will produce, [cursor] how many have been consumed. *)
Record RNG := mkRNG { draws : nat -> nat; cursor : nat }.

Definition rng_next (g : RNG) : nat * RNG :=
  (draws g (cursor g), mkRNG (draws g) (S (cursor g))).

(** [random.choice(seq)]: raises [IndexError] on an empty sequence,
    otherwise returns the element at a drawn index below [len(seq)]. *)
Definition random_choice {A} (l : list A) (g : RNG) : Res (A * RNG) :=
  match l with
  | [] => Raise IndexError
  | x :: _ =>
      let '(r, g') := rng_next g in
      Ok (nth (r mod length l)%nat l x, g')
  end.

(** ** Python containers *)

(** [l[i]] with Python's negative-index wrap-around. *)
Definition py_index {A} (l : list A) (i : Z) : Res A :=
  let n := Z.of_nat (length l) in
  let j := if i <? 0 then n + i else i in
  if (0 <=? j) && (j <? n)
  then match l !! Z.to_nat j with
       | Some v => Ok v
       | None => Raise IndexError
       end
  else Raise IndexError.

(** [l[i] = v]. *)
Definition py_setitem {A} (l : list A) (i : Z) (v : A) : Res (list A) :=
  let n := Z.of_nat (length l) in
  let j := if i <? 0 then n + i else i in
  if (0 <=? j) && (j <? n)
  then Ok (<[Z.to_nat j := v]> l)
  else Raise IndexError.

(** [range(a, b)] *)
Definition py_range (a b : Z) : list Z := seqZ a (b - a).

(** An insertion-ordered dictionary with string keys. *)
Module OD.
Section Dict.
Context {V : Type}.

Definition t := list (string * V).

Fixpoint get (k : string) (d : t) : option V :=
  match d with
  | [] => None
  | (k', v) :: d' => if decide (k' = k) then Some v else get k d'
  end.

(** [d[k] = v]: an existing key keeps its place, a new one goes last. *)
Fixpoint set (k : string) (v : V) (d : t) : t :=
  match d with
  | [] => [(k, v)]
  | (k', v') :: d' =>
      if decide (k' = k) then (k, v) :: d' else (k', v') :: set k v d'
  end.

(** [d.pop(k, None)]: no entry for [k] is left. *)
Fixpoint pop (k : string) (d : t) : t :=
  match d with
  | [] => []
  | (k', v') :: d' =>
      if decide (k' = k) then pop k d' else (k', v') :: pop k d'
  end.

Definition keys (d : t) : list string := d.*1.
Definition values (d : t) : list V := d.*2.
End Dict.
Arguments t V : clear implicits.
End OD.

(** ** reactor.py *)

Abbreviation Position := (Z * Z)%type.
Abbreviation AgentID := string.

Module Reactor.
Record t := mk { position : Position; capacity : Z; energy : Z }.

Definition is_full (r : t) : bool := capacity r <=? energy r.
Definition is_empty (r : t) : bool := energy r <=? 0.

(** Returns the accepted amount and the updated reactor. *)
Definition deposit (r : t) (amount : Z) : Z * t :=
  if (amount <=? 0) || is_full r then (0, r)
  else
    let accepted := Z.min amount (capacity r - energy r) in
    (accepted, mk (position r) (capacity r) (energy r + accepted)).

Definition draw (r : t) (amount : Z) : Z * t :=
  if amount <=? 0 then (0, r)
  else
    let drained := Z.min amount (energy r) in
    (drained, mk (position r) (capacity r) (energy r - drained)).
End Reactor.

(** ** models.py *)

Inductive Act := MOVE | GATHER | DEPOSIT | REPORT | REQUEST | GIVE.

(** The [params] dictionary, restricted to the four keys the dispatcher
    reads.  ["dx"], ["dy"] and ["amount"] hold integers; ["target"] is
    [Some] only when the stored value is a string, which is what the
    dispatcher's [isinstance(target, str)] test asks for. *)
Record Params := mkParams {
  p_dx : option Z;
  p_dy : option Z;
  p_amount : option Z;
  p_target : option AgentID
}.

Definition no_params : Params := mkParams None None None None.

Record Action := mkAction { kind : Act; actor : AgentID; params : Params }.

(** ** agent.py: the [Agent] dataclass *)

Module Agent.
Record t := mk {
  id : AgentID;
  name : string;
  position : Position;
  energy : Z;
  max_capacity : option Z;
  vision_radius : Z;
  pending_action : option Action;
  pending_report : Z
}.

Definition set_position (p : Position) (a : t) : t :=
  mk (id a) (name a) p (energy a) (max_capacity a) (vision_radius a)
     (pending_action a) (pending_report a).
Definition set_energy (e : Z) (a : t) : t :=
  mk (id a) (name a) (position a) e (max_capacity a) (vision_radius a)
     (pending_action a) (pending_report a).
Definition set_pending_action (p : option Action) (a : t) : t :=
  mk (id a) (name a) (position a) (energy a) (max_capacity a)
     (vision_radius a) p (pending_report a).
Definition set_pending_report (n : Z) (a : t) : t :=
  mk (id a) (name a) (position a) (energy a) (max_capacity a)
     (vision_radius a) (pending_action a) n.
End Agent.

(** ** world.py: the [World] dataclass *)

(** The numeric knobs, fixed at construction.  [debug] only switches
    logging, [energy_regen_rate] and [min_gather_amount] are never read
    by the engine, and [resource_density] only feeds the random draws of
    the constructor, which the embedding takes as an oracle. *)
Record Config := mkConfig {
  width : Z;
  height : Z;
  max_energy : Z;
  agent_energy_decay : Z;
  reactor_capacity : Z;
  reactor_initial_energy : Z;
  reactor_agent_reserve : Z;
  reactor_dwindle_rate : Z;
  reactor_consumption_rate : Z;
  aid_request_threshold : Z;
  aid_give_buffer : Z;
  aid_request_lifetime : Z;
  aid_give_min_amount : Z;
  help_signal_duration : Z
}.

Abbreviation Report := (Z * string * Z * Z * bool)%type.
Abbreviation Request := (Position * Z * Z)%type.

Record World := mkWorld {
  cfg : Config;
  tick : Z;
  agents : OD.t Agent.t;
  energy_grid : list (list Z);
  resource_grid : list (list bool);
  occupancy : gmap Position AgentID;
  reactor : Reactor.t;
  deposit_reports : list Report;
  help_requests : OD.t Request;
  helper_signals : gmap AgentID Z
}.

Definition set_tick (t : Z) (w : World) : World :=
  mkWorld (cfg w) t (agents w) (energy_grid w) (resource_grid w)
    (occupancy w) (reactor w) (deposit_reports w) (help_requests w)
    (helper_signals w).
Definition set_agents (a : OD.t Agent.t) (w : World) : World :=
  mkWorld (cfg w) (tick w) a (energy_grid w) (resource_grid w)
    (occupancy w) (reactor w) (deposit_reports w) (help_requests w)
    (helper_signals w).
Definition set_energy_grid (g : list (list Z)) (w : World) : World :=
  mkWorld (cfg w) (tick w) (agents w) g (resource_grid w)
    (occupancy w) (reactor w) (deposit_reports w) (help_requests w)
    (helper_signals w).
Definition set_resource_grid (g : list (list bool)) (w : World) : World :=
  mkWorld (cfg w) (tick w) (agents w) (energy_grid w) g
    (occupancy w) (reactor w) (deposit_reports w) (help_requests w)
    (helper_signals w).
Definition set_occupancy (o : gmap Position AgentID) (w : World) : World :=
  mkWorld (cfg w) (tick w) (agents w) (energy_grid w) (resource_grid w)
    o (reactor w) (deposit_reports w) (help_requests w)
    (helper_signals w).
Definition set_reactor (r : Reactor.t) (w : World) : World :=
  mkWorld (cfg w) (tick w) (agents w) (energy_grid w) (resource_grid w)
    (occupancy w) r (deposit_reports w) (help_requests w)
    (helper_signals w).
Definition set_deposit_reports (l : list Report) (w : World) : World :=
  mkWorld (cfg w) (tick w) (agents w) (energy_grid w) (resource_grid w)
    (occupancy w) (reactor w) l (help_requests w)
    (helper_signals w).
Definition set_help_requests (h : OD.t Request) (w : World) : World :=
  mkWorld (cfg w) (tick w) (agents w) (energy_grid w) (resource_grid w)
    (occupancy w) (reactor w) (deposit_reports w) h
    (helper_signals w).
Definition set_helper_signals (h : gmap AgentID Z) (w : World) : World :=
  mkWorld (cfg w) (tick w) (agents w) (energy_grid w) (resource_grid w)
    (occupancy w) (reactor w) (deposit_reports w) (help_requests w)
    h.

(** An [Agent] object is referred to by the key under which the world
    holds it: [add_agent] stores every object under its own [id], and
    nothing else ever inserts into [agents].  Writing a field of the
    object is writing the dictionary entry. *)
Definition update_agent (aid : AgentID) (f : Agent.t -> Agent.t) (w : World)
  : World :=
  match OD.get aid (agents w) with
  | Some a => set_agents (OD.set aid (f a) (agents w)) w
  | None => w
  end.

#[global] Instance Res_ret : MRet Res := @Ok.
#[global] Instance Res_bind : MBind Res := fun A B k m => res_bind m k.

(** Run [f] over a list from left to right, stopping at the first raise. *)
Fixpoint res_mapM {A B} (f : A -> Res B) (l : list A) : Res (list B) :=
  match l with
  | [] => Ok []
  | x :: l' => y ← f x; ys ← res_mapM f l'; Ok (y :: ys)
  end.

Abbreviation Move := (Z * Z)%type.
Definition CARDINAL_MOVES : list Move :=
  [(0, 0); (1, 0); (-1, 0); (0, 1); (0, -1)].

Definition _clamp (w : World) (x y : Z) : Position :=
  (Z.max 0 (Z.min (width (cfg w) - 1) x),
   Z.max 0 (Z.min (height (cfg w) - 1) y)).

Definition _occupant (w : World) (x y : Z) : option AgentID :=
  occupancy w !! (x, y).

Definition is_occupied (w : World) (x y : Z) : bool :=
  match _occupant w x y with Some _ => true | None => false end.

(** The cells in the order of [for ny in range(height): for nx in
    range(width)]. *)
Definition scan_cells (wd ht : Z) : list Position :=
  ny ← py_range 0 ht; nx ← py_range 0 wd; [(nx, ny)].

Definition _ensure_free_position (w : World) (position : Position)
  : Res Position :=
  let '(x, y) := position in
  if negb (is_occupied w x y) then Ok position
  else
    match List.find (fun c => negb (is_occupied w c.1 c.2))
                    (scan_cells (width (cfg w)) (height (cfg w))) with
    | Some c => Ok c
    | None => Raise RuntimeError
    end.

Definition add_agent (w : World) (agent : Agent.t) : Res World :=
  let '(x, y) := Agent.position agent in
  let agent := Agent.set_position (_clamp w x y) agent in
  p ← _ensure_free_position w (Agent.position agent);
  let agent := Agent.set_position p agent in
  let w := set_agents (OD.set (Agent.id agent) agent (agents w)) w in
  Ok (set_occupancy (<[Agent.position agent := Agent.id agent]> (occupancy w)) w).

Definition in_bounds (w : World) (x y : Z) : bool :=
  (0 <=? x) && (x <? width (cfg w)) && (0 <=? y) && (y <? height (cfg w)).

(** [grid[y][x]] *)
Definition grid_get {A} (g : list (list A)) (x y : Z) : Res A :=
  row ← py_index g y; py_index row x.

(** [grid[y][x] = v] *)
Definition grid_set {A} (g : list (list A)) (x y : Z) (v : A)
  : Res (list (list A)) :=
  row ← py_index g y;
  row' ← py_setitem row x v;
  py_setitem g y row'.

Definition cell_energy (w : World) (x y : Z) : Res Z :=
  if negb (in_bounds w x y) then Ok 0
  else grid_get (energy_grid w) x y.

Definition visible_energy (w : World) (center : Position) (radius : Z)
  : Res (list (Position * Z)) :=
  let '(cx, cy) := center in
  let offsets :=
    dx ← py_range (- radius) (radius + 1);
    dy ← py_range (- radius) (radius + 1);
    [(dx, dy)] in
  let in_disk := List.filter (fun d => negb (radius <? Z.abs d.1 + Z.abs d.2)) offsets in
  let cells := List.map (fun d => (cx + d.1, cy + d.2)) in_disk in
  let inside := List.filter (fun c => in_bounds w c.1 c.2) cells in
  res_mapM (fun c => e ← grid_get (energy_grid w) c.1 c.2; Ok (c, e)) inside.

Definition reactor_position (w : World) : Position :=
  Reactor.position (reactor w).

Definition reactor_needs_energy (w : World) : bool :=
  negb (Reactor.is_full (reactor w)).

Definition is_recent_helper (w : World) (agent_id : AgentID) : bool :=
  match helper_signals w !! agent_id with
  | None => false
  | Some last_tick =>
      tick w - last_tick <=? Z.max 0 (help_signal_duration (cfg w))
  end.

Definition available_moves (w : World) (agent : Agent.t) : list Move :=
  let '(x, y) := Agent.position agent in
  let moves :=
    List.filter
      (fun d =>
         let '(nx, ny) := (x + d.1, y + d.2) in
         in_bounds w nx ny &&
         (((d.1 =? 0) && (d.2 =? 0)) ||
          match _occupant w nx ny with None => true | Some _ => false end))
      CARDINAL_MOVES in
  match moves with [] => [(0, 0)] | _ => moves end.

(** *** Help requests *)

Definition _request_entry (w : World) (agent_id : AgentID) : option Request :=
  match OD.get agent_id (help_requests w) with
  | None => None
  | Some (position, amount, tick_logged) =>
      if amount <=? 0 then None
      else if negb (bool_decide (is_Some (OD.get agent_id (agents w)))) then None
      else if (0 <? aid_request_lifetime (cfg w)) &&
              (aid_request_lifetime (cfg w) <? tick w - tick_logged)
      then None
      else Some (position, amount, tick_logged)
  end.

Definition _prune_help_requests (w : World) : World :=
  let stale :=
    List.filter (fun agent_id =>
                   match _request_entry w agent_id with
                   | None => true | Some _ => false end)
                (OD.keys (help_requests w)) in
  set_help_requests
    (foldl (fun h agent_id => OD.pop agent_id h) (help_requests w) stale) w.

Definition active_help_requests (w : World)
  : OD.t (Position * Z) * World :=
  let w := _prune_help_requests w in
  let requests :=
    foldl (fun (requests : OD.t (Position * Z)) agent_id =>
             match _request_entry w agent_id with
             | None => requests
             | Some (position, amount, _) =>
                 OD.set agent_id (position, amount) requests
             end)
          [] (OD.keys (help_requests w)) in
  (requests, w).

Definition has_active_request (w : World) (agent_id : AgentID)
  : bool * World :=
  let w := _prune_help_requests w in
  (match _request_entry w agent_id with Some _ => true | None => false end, w).

Definition _clear_help_request (w : World) (agent_id : AgentID) : World :=
  set_help_requests (OD.pop agent_id (help_requests w)) w.

Definition cancel_help_request (w : World) (agent_id : AgentID) : World :=
  _clear_help_request w agent_id.

Definition _register_help_request (w : World) (aid : AgentID) (amount : Z)
  : World :=
  match OD.get aid (agents w) with
  | None => w
  | Some agent =>
      let threshold :=
        Z.max (aid_request_threshold (cfg w)) (agent_energy_decay (cfg w)) in
      let desired_default := Z.max 0 (threshold - Agent.energy agent) in
      let request_cap :=
        match Agent.max_capacity agent with
        | None => Z.max 0 amount
        | Some cap =>
            Z.min (Z.max 0 amount) (Z.max 0 (cap - Agent.energy agent))
        end in
      let requested := Z.max desired_default request_cap in
      if requested <=? 0 then w
      else
        set_help_requests
          (OD.set (Agent.id agent) (Agent.position agent, requested, tick w)
                  (help_requests w)) w
  end.

Definition _update_request_position (w : World) (aid : AgentID) : World :=
  match OD.get aid (agents w) with
  | None => w
  | Some agent =>
      match OD.get (Agent.id agent) (help_requests w) with
      | None => w
      | Some (_, amount, tick_logged) =>
          set_help_requests
            (OD.set (Agent.id agent) (Agent.position agent, amount, tick_logged)
                    (help_requests w)) w
      end
  end.

Definition _maybe_clear_help_request (w : World) (aid : AgentID) : World :=
  match OD.get aid (agents w) with
  | None => w
  | Some agent =>
      match OD.get (Agent.id agent) (help_requests w) with
      | None => w
      | Some (position, amount, tick_logged) =>
          let threshold :=
            Z.max (aid_request_threshold (cfg w)) (agent_energy_decay (cfg w)) in
          if threshold <? Agent.energy agent
          then set_help_requests (OD.pop (Agent.id agent) (help_requests w)) w
          else
            let shortfall := threshold - Agent.energy agent in
            let shortfall := if shortfall <? 0 then 0 else shortfall in
            let shortfall :=
              match Agent.max_capacity agent with
              | None => shortfall
              | Some cap => Z.min shortfall (Z.max 0 (cap - Agent.energy agent))
              end in
            let desired := shortfall in
            if desired <=? 0
            then set_help_requests (OD.pop (Agent.id agent) (help_requests w)) w
            else
              set_help_requests
                (OD.set (Agent.id agent) (position, desired, tick w)
                        (help_requests w)) w
      end
  end.

Definition _decay_helper_signals (w : World) : World :=
  if help_signal_duration (cfg w) <? 0 then w
  else
    let expiry := Z.max 0 (help_signal_duration (cfg w)) in
    set_helper_signals
      (filter (fun kv => ¬ (expiry < tick w - kv.2)) (helper_signals w)) w.

(** *** Reactor deposits and the report ledger *)

Definition _deposit_energy (w : World) (aid : AgentID) : World :=
  match OD.get aid (agents w) with
  | None => w
  | Some agent =>
      if negb (bool_decide (Agent.position agent = Reactor.position (reactor w)))
      then w
      else
        let excess :=
          Z.max 0 (Agent.energy agent - reactor_agent_reserve (cfg w)) in
        if excess <=? 0 then w
        else
          let deposit_amount := excess in
          let deposit_amount :=
            if (deposit_amount <=? 0) && (0 <? excess) then 1
            else deposit_amount in
          let '(deposited, r) := Reactor.deposit (reactor w) deposit_amount in
          let w := set_reactor r w in
          if deposited <=? 0 then w
          else
            update_agent aid
              (fun a =>
                 Agent.set_pending_report (Agent.pending_report a + deposited)
                   (Agent.set_energy (Agent.energy a - deposited) a)) w
  end.

Definition _auto_deposit (w : World) (aid : AgentID) : World :=
  match OD.get aid (agents w) with
  | None => w
  | Some agent =>
      if negb (bool_decide (Agent.position agent = Reactor.position (reactor w)))
      then w
      else _deposit_energy w aid
  end.

Definition _record_deposit_report (w : World) (aid : AgentID) (amount : Z)
  : World :=
  match OD.get aid (agents w) with
  | None => w
  | Some agent =>
      let pending_before := Agent.pending_report agent in
      let claimed := Z.max 0 amount in
      if (pending_before <=? 0) && (claimed <=? 0) then w
      else
        let actual :=
          if 0 <? pending_before then Z.min pending_before claimed else 0 in
        let w :=
          if 0 <? pending_before
          then update_agent aid
                 (Agent.set_pending_report (Z.max 0 (pending_before - actual))) w
          else w in
        let lie := negb (claimed =? actual) in
        let reports :=
          deposit_reports w ++ [(tick w, Agent.id agent, actual, claimed, lie)] in
        let reports :=
          if (50 <? length reports)%nat then drop 1 reports else reports in
        set_deposit_reports reports w
  end.

(** *** Movement *)

Definition _move (w : World) (aid : AgentID) (dx dy : Z) : World :=
  match OD.get aid (agents w) with
  | None => w
  | Some agent =>
      let '(x, y) := Agent.position agent in
      let '(nx, ny) := (x + dx, y + dy) in
      let '(nx, ny) :=
        if negb (in_bounds w nx ny) then _clamp w nx ny else (nx, ny) in
      if bool_decide ((nx, ny) = (x, y)) then w
      else
        let blocked :=
          match _occupant w nx ny with
          | Some occupant => negb (bool_decide (occupant = Agent.id agent))
          | None => false
          end in
        if blocked then w
        else
          let w :=
            set_occupancy
              (<[(nx, ny) := Agent.id agent]> (delete (x, y) (occupancy w))) w in
          let w := update_agent aid (Agent.set_position (nx, ny)) w in
          let w := _update_request_position w aid in
          _auto_deposit w aid
  end.

Definition move_agent (w : World) (agent_id : AgentID) (dx dy : Z) : World :=
  match OD.get agent_id (agents w) with
  | None => w
  | Some _ => _move w agent_id dx dy
  end.

(** *** Gifts *)

(** [min(limits)] on a non-empty list. *)
Definition py_min (x : Z) (l : list Z) : Z := foldl Z.min x l.

Definition _give_energy (w : World) (donor_key target_id : AgentID) (amount : Z)
  : World :=
  match OD.get donor_key (agents w), OD.get target_id (agents w) with
  | Some donor, Some recipient =>
      if bool_decide (Agent.id recipient = Agent.id donor) then w
      else
        let dx := (Agent.position recipient).1 - (Agent.position donor).1 in
        let dy := (Agent.position recipient).2 - (Agent.position donor).2 in
        if 1 <? Z.max (Z.abs dx) (Z.abs dy) then w
        else
          let retain_floor := Z.max 0 (reactor_agent_reserve (cfg w)) in
          let give_buffer := Z.max 0 (aid_give_buffer (cfg w)) in
          let min_amount := Z.max 1 (aid_give_min_amount (cfg w)) in
          let eligible_energy :=
            Agent.energy donor - (retain_floor + give_buffer) in
          if eligible_energy <=? 0 then w
          else
            let request_entry := _request_entry w (Agent.id recipient) in
            let requested_remaining :=
              match request_entry with
              | Some (_, outstanding, _) => outstanding
              | None => Z.max 0 amount
              end in
            let desired_transfer := Z.max min_amount (Z.max 0 amount) in
            let capacity_room :=
              match Agent.max_capacity recipient with
              | None => []
              | Some cap => [Z.max 0 (cap - Agent.energy recipient)]
              end in
            let transfer_capacity :=
              py_min eligible_energy
                     ([desired_transfer; requested_remaining] ++ capacity_room) in
            if transfer_capacity <=? 0 then w
            else
              let w :=
                update_agent donor_key
                  (fun a => Agent.set_energy (Agent.energy a - transfer_capacity) a)
                  w in
              let w :=
                update_agent target_id
                  (fun a => Agent.set_energy (Agent.energy a + transfer_capacity) a)
                  w in
              let w :=
                match request_entry with
                | Some (_, outstanding, _) =>
                    let updated_amount :=
                      Z.max 0 (outstanding - transfer_capacity) in
                    if 0 <? updated_amount
                    then
                      set_help_requests
                        (OD.set (Agent.id recipient)
                           (Agent.position recipient, updated_amount, tick w)
                           (help_requests w)) w
                    else _clear_help_request w (Agent.id recipient)
                | None => w
                end in
              let w := _maybe_clear_help_request w target_id in
              set_helper_signals
                (<[Agent.id donor := tick w]> (helper_signals w)) w
  | _, _ => w
  end.

(** *** The resource field *)

Fixpoint res_filterM {A} (f : A -> Res bool) (l : list A) : Res (list A) :=
  match l with
  | [] => Ok []
  | x :: l' =>
      b ← f x; ys ← res_filterM f l'; Ok (if b : bool then x :: ys else ys)
  end.

Definition _respawn_resource (w : World) (depleted_position : Position)
    (g : RNG) : Res (World * RNG) :=
  candidates ←
    res_filterM
      (fun c => flag ← grid_get (resource_grid w) c.1 c.2;
                Ok (negb flag && negb (bool_decide (c = depleted_position))))
      (scan_cells (width (cfg w)) (height (cfg w)));
  '(target, g) ←
    match candidates with
    | [] => Ok (depleted_position, g)
    | _ => random_choice candidates g
    end;
  let '(tx, ty) := target in
  rg ← grid_set (resource_grid w) tx ty true;
  eg ← grid_set (energy_grid w) tx ty (max_energy (cfg w));
  Ok (set_energy_grid eg (set_resource_grid rg w), g).

Definition _deplete_resource (w : World) (position : Position) (g : RNG)
  : Res (World * RNG) :=
  let '(x, y) := position in
  eg ← grid_set (energy_grid w) x y 0;
  let w := set_energy_grid eg w in
  rg ← grid_set (resource_grid w) x y false;
  let w := set_resource_grid rg w in
  _respawn_resource w position g.

Definition _gather_energy (w : World) (aid : AgentID) (g : RNG)
  : Res (World * RNG) :=
  match OD.get aid (agents w) with
  | None => Ok (w, g)
  | Some agent =>
      let '(x, y) := Agent.position agent in
      available ← cell_energy w x y;
      if available <=? 0 then Ok (w, g)
      else
        let collected := available in
        eg ← grid_set (energy_grid w) x y 0;
        let w := set_energy_grid eg w in
        let w :=
          update_agent aid
            (fun a => Agent.set_energy (Agent.energy a + collected) a) w in
        let w := _maybe_clear_help_request w aid in
        _deplete_resource w (x, y) g
  end.

(** One row of [_dwindle_resources]: [x] is the column of the head of
    [row]. *)
Fixpoint dwindle_row (amount y x : Z) (row : list Z) (rg : list (list bool))
  : Res (list Z * list (list bool)) :=
  match row with
  | [] => Ok ([], rg)
  | value :: rest =>
      if value <=? 0
      then '(rest', rg') ← dwindle_row amount y (x + 1) rest rg;
           Ok (value :: rest', rg')
      else
        let new_value := Z.max 0 (value - amount) in
        rg ← (if new_value <=? 0
              then flag ← grid_get rg x y;
                   if flag : bool then grid_set rg x y false else Ok rg
              else Ok rg);
        '(rest', rg') ← dwindle_row amount y (x + 1) rest rg;
        Ok (new_value :: rest', rg')
  end.

Fixpoint dwindle_rows (amount y : Z) (eg : list (list Z)) (rg : list (list bool))
  : Res (list (list Z) * list (list bool)) :=
  match eg with
  | [] => Ok ([], rg)
  | row :: rows =>
      '(row', rg) ← dwindle_row amount y 0 row rg;
      '(rows', rg) ← dwindle_rows amount (y + 1) rows rg;
      Ok (row' :: rows', rg)
  end.

Definition _dwindle_resources (w : World) (amount : Z) : Res World :=
  if amount <=? 0 then Ok w
  else
    '(eg, rg) ← dwindle_rows amount 0 (energy_grid w) (resource_grid w);
    Ok (set_resource_grid rg (set_energy_grid eg w)).

(** *** Upkeep *)

Definition _consume_reactor_energy (w : World) : World :=
  if reactor_consumption_rate (cfg w) <=? 0 then w
  else set_reactor (Reactor.draw (reactor w) (reactor_consumption_rate (cfg w))).2 w.

Definition _apply_reactor_consequences (w : World) : Res World :=
  if negb (Reactor.is_empty (reactor w)) then Ok w
  else _dwindle_resources w (reactor_dwindle_rate (cfg w)).

Definition _decay_agent_energy (w : World) : World :=
  if agent_energy_decay (cfg w) <=? 0 then w
  else
    let snapshot := agents w in
    let decayed :=
      List.map (fun kv : AgentID * Agent.t =>
                  let next_energy :=
                    Z.max 0 (Agent.energy kv.2 - agent_energy_decay (cfg w)) in
                  (kv.1, Agent.set_energy next_energy kv.2))
               snapshot in
    let to_remove :=
      List.map fst
        (List.filter (fun kv : AgentID * Agent.t => Agent.energy kv.2 <=? 0)
                     decayed) in
    foldl
      (fun w agent_id =>
         match OD.get agent_id (agents w) with
         | None => w
         | Some agent =>
             let w := set_agents (OD.pop agent_id (agents w)) w in
             let w :=
               set_occupancy (delete (Agent.position agent) (occupancy w)) w in
             let w :=
               set_help_requests (OD.pop agent_id (help_requests w)) w in
             set_helper_signals (delete agent_id (helper_signals w)) w
         end)
      (set_agents decayed w) to_remove.

(** ** agent.py: the decision policy *)

(** [list.sort(key=...)] is stable; so is this insertion sort, and a
    stable sort has only one possible result. *)
Section Sort.
Context {A : Type} (le : A -> A -> bool).

Fixpoint insert_sorted (x : A) (l : list A) : list A :=
  match l with
  | [] => [x]
  | y :: l' => if le x y then x :: y :: l' else y :: insert_sorted x l'
  end.

Definition sort_by (l : list A) : list A := foldr insert_sorted [] l.
End Sort.

(** Comparison of the two-component keys the policy sorts by. *)
Definition key_le (a b : Z * Z) : bool :=
  (a.1 <? b.1) || ((a.1 =? b.1) && (a.2 <=? b.2)).

Definition sign (value : Z) : Z := if 0 <? value then 1 else -1.

Definition best_move_towards (x y : Z) (moves : list Move) (target : Position)
  : option Move :=
  if bool_decide (target = (x, y)) then None
  else
    let dx_total := target.1 - x in
    let dy_total := target.2 - y in
    let along_x := if dx_total =? 0 then [] else [(sign dx_total, 0)] in
    let along_y := if dy_total =? 0 then [] else [(0, sign dy_total)] in
    let ordered_candidates :=
      if Z.abs dy_total <=? Z.abs dx_total
      then along_x ++ along_y
      else along_y ++ along_x in
    match List.find (fun c => bool_decide (c ∈ moves)) ordered_candidates with
    | Some candidate => Some candidate
    | None =>
        fst
          (foldl
             (fun (best : option Move * option Z) (d : Move) =>
                let '(nx, ny) := (x + d.1, y + d.2) in
                let score := Z.abs (nx - target.1) + Z.abs (ny - target.2) in
                match best.2 with
                | None => (Some d, Some score)
                | Some best_score =>
                    if score <? best_score then (Some d, Some score) else best
                end)
             (None, None) moves)
    end.

Definition move_action (self : Agent.t) (d : Move) : Action :=
  mkAction MOVE (Agent.id self) (mkParams (Some d.1) (Some d.2) None None).

(** The entries of [request_options]. *)
Record RequestOption := mkOption {
  opt_manhattan : Z;
  opt_neg_need : Z;
  opt_chebyshev : Z;
  opt_need : Z;
  opt_target : AgentID;
  opt_pos : Position
}.

Definition request_options (self : Agent.t)
    (active_requests : OD.t (Position * Z)) : list RequestOption :=
  let '(x, y) := Agent.position self in
  omap (fun item : AgentID * (Position * Z) =>
          let '(target_id, (target_pos, target_need)) := item in
          if bool_decide (target_id = Agent.id self) then None
          else
            let dx_req := target_pos.1 - x in
            let dy_req := target_pos.2 - y in
            let manhattan_dist := Z.abs dx_req + Z.abs dy_req in
            if manhattan_dist <=? Agent.vision_radius self
            then
              let chebyshev_dist := Z.max (Z.abs dx_req) (Z.abs dy_req) in
              Some (mkOption manhattan_dist (- target_need) chebyshev_dist
                             target_need target_id target_pos)
            else None)
       active_requests.

Definition option_le (a b : RequestOption) : bool :=
  key_le (opt_manhattan a, opt_neg_need a) (opt_manhattan b, opt_neg_need b).

(** The clamped knobs the policy works with. *)
Definition policy_decay (w : World) : Z := Z.max 1 (agent_energy_decay (cfg w)).
Definition policy_reserve (w : World) : Z :=
  Z.max (policy_decay w) (reactor_agent_reserve (cfg w)).
Definition policy_request_threshold (w : World) : Z :=
  Z.max (policy_decay w) (aid_request_threshold (cfg w)).
Definition policy_give_buffer (w : World) : Z := Z.max 0 (aid_give_buffer (cfg w)).
Definition policy_give_min (w : World) : Z := Z.max 1 (aid_give_min_amount (cfg w)).
Definition shareable_energy (self : Agent.t) (w : World) : Z :=
  Z.max 0 (Agent.energy self - (policy_reserve w + policy_give_buffer w)).

(** Step 1: help nearby agents if we see a request and can spare energy. *)
Definition choose_help (self : Agent.t) (w : World) (moves : list Move)
    (active_requests : OD.t (Position * Z)) : option Action :=
  let '(x, y) := Agent.position self in
  let give_min := policy_give_min w in
  let shareable_energy := shareable_energy self w in
  if (give_min <=? shareable_energy) &&
     match active_requests with [] => false | _ => true end
  then
    match sort_by option_le (request_options self active_requests) with
    | [] => None
    | best :: _ =>
        let adjacency := opt_chebyshev best in
        if adjacency <=? 1
        then
          let transfer :=
            Z.min shareable_energy (Z.max give_min (opt_need best)) in
          if 0 <? transfer
          then Some (mkAction GIVE (Agent.id self)
                       (mkParams None None (Some transfer) (Some (opt_target best))))
          else None
        else
          match best_move_towards x y moves (opt_pos best) with
          | Some d => Some (move_action self d)
          | None => None
          end
    end
  else None.

Definition spot_le (a b : Position * Z * Z) : bool :=
  key_le (a.2, - a.1.2) (b.2, - b.1.2).

Definition helper_le (a b : Z * Z * AgentID * Position) : bool :=
  key_le (a.1.1.1, a.1.1.2) (b.1.1.1, b.1.1.2).

(** The first iteration of a [for] loop that returns. *)
Fixpoint first_some {A B} (f : A -> option B) (l : list A) : option B :=
  match l with
  | [] => None
  | x :: l' => match f x with Some b => Some b | None => first_some f l' end
  end.

(** Step 2: if we still need more energy, prioritise collecting or
    seeking help. *)
Definition choose_sustain (self : Agent.t) (w : World) (moves : list Move)
    (cell_energy : Z) (visible_cells : list (Position * Z))
    (already_requested : bool) : option Action :=
  let '(x, y) := Agent.position self in
  let decay := policy_decay w in
  let reserve := policy_reserve w in
  let request_threshold := policy_request_threshold w in
  let give_buffer := policy_give_buffer w in
  let give_min := policy_give_min w in
  let energy_spots :=
    sort_by spot_le
      (List.map (fun pe : Position * Z =>
                   (pe, Z.abs (pe.1.1 - x) + Z.abs (pe.1.2 - y)))
                (List.filter (fun pe : Position * Z => 0 <? pe.2) visible_cells)) in
  let low_on_energy := Agent.energy self <=? request_threshold in
  let comfortable_level := reserve + give_buffer + give_min in
  let needs_energy := low_on_energy || (Agent.energy self <? comfortable_level) in
  if needs_energy then
    let reachable_entries :=
      List.filter (fun entry : Position * Z * Z =>
                     (entry.2 =? 0) || (decay * entry.2 <? Agent.energy self))
                  energy_spots in
    match
      first_some
        (fun entry : Position * Z * Z =>
           if (entry.2 =? 0) && (0 <? cell_energy)
           then Some (mkAction GATHER (Agent.id self) no_params)
           else
             match best_move_towards x y moves entry.1.1 with
             | Some d => Some (move_action self d)
             | None => None
             end)
        reachable_entries
    with
    | Some a => Some a
    | None =>
        let request_amount := Z.max 0 (request_threshold - Agent.energy self) in
        if (0 <? request_amount) && negb already_requested
        then Some (mkAction REQUEST (Agent.id self)
                     (mkParams None None (Some request_amount) None))
        else
          let potential_helpers :=
            omap (fun kv : AgentID * Agent.t =>
                    let '(other_id, other_agent) := kv in
                    if bool_decide (other_id = Agent.id self) then None
                    else
                      let available :=
                        Agent.energy other_agent - (reserve + give_buffer) in
                      if available <? give_min then None
                      else
                        let dx_helper := (Agent.position other_agent).1 - x in
                        let dy_helper := (Agent.position other_agent).2 - y in
                        let helper_manhattan :=
                          Z.abs dx_helper + Z.abs dy_helper in
                        if helper_manhattan <=? Agent.vision_radius self
                        then
                          Some (helper_manhattan,
                                Z.max (Z.abs dx_helper) (Z.abs dy_helper),
                                other_id, Agent.position other_agent)
                        else None)
                 (agents w) in
          match sort_by helper_le potential_helpers with
          | [] => None
          | (_, helper_chebyshev, _, helper_pos) :: _ =>
              if 1 <? helper_chebyshev
              then match best_move_towards x y moves helper_pos with
                   | Some d => Some (move_action self d)
                   | None => None
                   end
              else None
          end
    end
  else None.

(** Step 3: deposit to the reactor when we have excess energy. *)
Definition choose_deposit (self : Agent.t) (w : World) (moves : list Move)
  : option Action :=
  let '(x, y) := Agent.position self in
  let reactor_pos := reactor_position w in
  let excess_energy := Z.max 0 (Agent.energy self - policy_reserve w) in
  if reactor_needs_energy w && (0 <? excess_energy) then
    if bool_decide (Agent.position self = reactor_pos)
    then Some (mkAction DEPOSIT (Agent.id self)
                 (mkParams None None (Some excess_energy) None))
    else match best_move_towards x y moves reactor_pos with
         | Some d => Some (move_action self d)
         | None => None
         end
  else None.

Definition choose (self : Agent.t) (w : World) (g : RNG)
  : Res (Action * World * RNG) :=
  let '(x, y) := Agent.position self in
  let moves := available_moves w self in
  let non_idle_moves :=
    List.filter (fun d : Move => negb (bool_decide (d = (0, 0)))) moves in
  if 0 <? Agent.pending_report self
  then Ok (mkAction REPORT (Agent.id self)
             (mkParams None None (Some (Agent.pending_report self)) None), w, g)
  else
    cell_energy ← cell_energy w x y;
    let '(active_requests, w) := active_help_requests w in
    let '(already_requested, w) := has_active_request w (Agent.id self) in
    visible_cells ←
      visible_energy w (Agent.position self) (Agent.vision_radius self);
    let low_on_energy := Agent.energy self <=? policy_request_threshold w in
    let '(already_requested, w) :=
      if already_requested && negb low_on_energy
      then (false, cancel_help_request w (Agent.id self))
      else (already_requested, w) in
    match choose_help self w moves active_requests with
    | Some a => Ok (a, w, g)
    | None =>
    match choose_sustain self w moves cell_energy visible_cells
                         already_requested with
    | Some a => Ok (a, w, g)
    | None =>
    match choose_deposit self w moves with
    | Some a => Ok (a, w, g)
    | None =>
        if 0 <? cell_energy
        then Ok (mkAction GATHER (Agent.id self) no_params, w, g)
        else
          let fallback_moves :=
            match non_idle_moves with
            | [] => match moves with [] => [(0, 0)] | _ => moves end
            | _ => non_idle_moves
            end in
          '(d, g) ← random_choice fallback_moves g;
          Ok (move_action self d, w, g)
    end end end.

(** ** world.py: dispatch, tick and construction *)

Definition apply (w : World) (action : Action) (g : RNG) : Res (World * RNG) :=
  match OD.get (actor action) (agents w) with
  | None => Ok (w, g)
  | Some _ =>
      let aid := actor action in
      let p := params action in
      match kind action with
      | MOVE => Ok (_move w aid (default 0 (p_dx p)) (default 0 (p_dy p)), g)
      | GATHER => _gather_energy w aid g
      | DEPOSIT => Ok (_deposit_energy w aid, g)
      | REPORT => Ok (_record_deposit_report w aid (default 0 (p_amount p)), g)
      | REQUEST => Ok (_register_help_request w aid (default 0 (p_amount p)), g)
      | GIVE =>
          match p_target p with
          | Some target => Ok (_give_energy w aid target (default 0 (p_amount p)), g)
          | None => Ok (w, g)
          end
      end
  end.

Fixpoint res_foldM {S A} (f : S -> A -> Res S) (s : S) (l : list A) : Res S :=
  match l with
  | [] => Ok s
  | x :: l' => s' ← f s x; res_foldM f s' l'
  end.

(** The body of the decision loop of [step] for one agent of the
    snapshot. *)
Definition decide_one (s : World * RNG) (aid : AgentID) : Res (World * RNG) :=
  let '(w, g) := s in
  let w := _auto_deposit w aid in
  match OD.get aid (agents w) with
  | None => Ok (w, g)
  | Some agent =>
      '(action, w, g) ← choose agent w g;
      Ok (update_agent aid (Agent.set_pending_action (Some action)) w, g)
  end.

(** The body of the apply loop of [step]. *)
Definition apply_one (s : World * RNG) (aid : AgentID) : Res (World * RNG) :=
  let '(w, g) := s in
  match OD.get aid (agents w) with
  | None => Ok (w, g)
  | Some agent =>
      match Agent.pending_action agent with
      | None => Ok (w, g)
      | Some action =>
          '(w, g) ← apply w action g;
          Ok (update_agent aid (Agent.set_pending_action None) w, g)
      end
  end.

Definition step (w : World) (g : RNG) : Res (World * RNG) :=
  let w := set_tick (tick w + 1) w in
  let w := _prune_help_requests w in
  let w := _decay_helper_signals w in
  '(w, g) ← res_foldM decide_one (w, g) (OD.keys (agents w));
  '(w, g) ← res_foldM apply_one (w, g) (OD.keys (agents w));
  let w := _decay_agent_energy w in
  let w := _consume_reactor_energy w in
  w ← _apply_reactor_consequences w;
  Ok (w, g).

(** The dataclass constructor, called with the numeric knobs only,
    followed by [__post_init__].  [spawn x y] is the outcome of the draw
    [random.random() < resource_density] made for the cell. *)
Definition __post_init__ (c : Config) (spawn : Z -> Z -> bool) : Res World :=
  let resource_grid :=
    List.map (fun y => List.map (fun x => spawn x y) (py_range 0 (width c)))
             (py_range 0 (height c)) in
  let energy_grid :=
    List.map (List.map (fun has_resource : bool =>
                          if has_resource then max_energy c else 0))
             resource_grid in
  let '(cx, cy) := (width c `div` 2, height c `div` 2) in
  let initial_energy :=
    Z.max 0 (Z.min (reactor_initial_energy c) (reactor_capacity c)) in
  let w :=
    mkWorld c 0 [] energy_grid resource_grid ∅
            (Reactor.mk (cx, cy) (reactor_capacity c) initial_energy)
            [] [] ∅ in
  if in_bounds w cx cy then
    rg ← grid_set (resource_grid) cx cy false;
    eg ← grid_set (energy_grid) cx cy 0;
    Ok (set_energy_grid eg (set_resource_grid rg w))
  else Ok w.

(** The worlds a client can obtain: construct, then [add_agent] objects
    with fresh ids and [step]. *)
Inductive reachable (c : Config) : World -> Prop :=
| reach_init spawn w :
    __post_init__ c spawn = Ok w -> reachable c w
| reach_add w agent w' :
    reachable c w ->
    OD.get (Agent.id agent) (agents w) = None ->
    add_agent w agent = Ok w' ->
    reachable c w'
| reach_step w g w' g' :
    reachable c w ->
    step w g = Ok (w', g') ->
    reachable c w'.

(** ** Invariants *)

(** Both grids have [height] rows of [width] cells. *)
Definition rows_wf {A} (c : Config) (g : list (list A)) : Prop :=
  length g = Z.to_nat (height c) /\
  Forall (fun row => length row = Z.to_nat (width c)) g.

Definition grid_wf (w : World) : Prop :=
  rows_wf (cfg w) (energy_grid w) /\ rows_wf (cfg w) (resource_grid w).

Definition reactor_ok (r : Reactor.t) : Prop :=
  0 <= Reactor.energy r <= Reactor.capacity r.

(** Every object is stored once, under its own id. *)
Definition agents_wf (w : World) : Prop :=
  NoDup (OD.keys (agents w)) /\
  forall k a, OD.get k (agents w) = Some a -> Agent.id a = k.

Definition occupancy_consistent (w : World) : Prop :=
  (forall k a, OD.get k (agents w) = Some a ->
               occupancy w !! Agent.position a = Some (Agent.id a)) /\
  (forall p k, occupancy w !! p = Some k ->
               exists a, OD.get k (agents w) = Some a /\ Agent.position a = p) /\
  (forall k1 k2 a1 a2,
      OD.get k1 (agents w) = Some a1 -> OD.get k2 (agents w) = Some a2 ->
      Agent.position a1 = Agent.position a2 -> k1 = k2).

(** The value stored for a cell, when the grid has it. *)
Definition stored {A} (g : list (list A)) (x y : Z) : option A :=
  row ← g !! Z.to_nat y; row !! Z.to_nat x.

(** What the occupancy invariant reads of an agent. *)
Definition place_of (w : World) (k : AgentID) : option (AgentID * Position) :=
  (fun a => (Agent.id a, Agent.position a)) <$> OD.get k (agents w).

(** Frames: the parts of the world an operation leaves alone. *)
Definition eq_grid (w w' : World) : Prop :=
  cfg w' = cfg w /\ energy_grid w' = energy_grid w /\
  resource_grid w' = resource_grid w.

Definition eq_reactor (w w' : World) : Prop :=
  cfg w' = cfg w /\ reactor w' = reactor w.

Definition eq_places (w w' : World) : Prop :=
  occupancy w' = occupancy w /\
  OD.keys (agents w') = OD.keys (agents w) /\
  forall k, place_of w' k = place_of w k.

Definition eq_all (w w' : World) : Prop :=
  eq_grid w w' /\ eq_reactor w w' /\ eq_places w w'.

(** The operations [step] is composed of. *)
Inductive prim : World -> World -> Prop :=
| prim_tick w t : prim w (set_tick t w)
| prim_prune w : prim w (_prune_help_requests w)
| prim_cancel w a : prim w (cancel_help_request w a)
| prim_signals w : prim w (_decay_helper_signals w)
| prim_auto w a : prim w (_auto_deposit w a)
| prim_pending w a x : prim w (update_agent a (Agent.set_pending_action x) w)
| prim_move w a dx dy : prim w (_move w a dx dy)
| prim_gather w a g w' g' : _gather_energy w a g = Ok (w', g') -> prim w w'
| prim_deposit w a : prim w (_deposit_energy w a)
| prim_report w a n : prim w (_record_deposit_report w a n)
| prim_request w a n : prim w (_register_help_request w a n)
| prim_give w a b n : prim w (_give_energy w a b n)
| prim_decay w : prim w (_decay_agent_energy w)
| prim_consume w : prim w (_consume_reactor_energy w)
| prim_dwindle w w' : _apply_reactor_consequences w = Ok w' -> prim w w'.

Definition places_inv (w : World) : Prop :=
  agents_wf w /\ occupancy_consistent w.

(** The structural invariants of a running world. *)
Definition world_inv (w : World) : Prop :=
  grid_wf w /\ places_inv w.



(** The world after [agent] has been registered on cell [p]. *)
Definition placed (w : World) (agent : Agent.t) (p : Position) : World :=
  set_occupancy (<[p := Agent.id agent]> (occupancy w))
    (set_agents
       (OD.set (Agent.id agent) (Agent.set_position p agent) (agents w)) w).

(** The REPORT action an agent submits for [claimed] units. *)
Definition report_action (aid : AgentID) (claimed : Z) : Action :=
  mkAction REPORT aid (mkParams None None (Some claimed) None).

(** [list.append] followed by the eviction of the oldest entry once the
    ledger holds more than 50. *)
Definition ledger_push (ledger : list Report) (entry : Report) : list Report :=
  if (50 <? length (ledger ++ [entry]))%nat
  then drop 1 (ledger ++ [entry]) else ledger ++ [entry].

(** The GIVE action of [donor_key] for [target] and [amount]. *)
Definition give_action (donor_key target : AgentID) (amount : Z) : Action :=
  mkAction GIVE donor_key (mkParams None None (Some amount) (Some target)).

Definition chebyshev (p q : Position) : Z :=
  Z.max (Z.abs (q.1 - p.1)) (Z.abs (q.2 - p.2)).

Definition manhattan (p q : Position) : Z :=
  Z.abs (q.1 - p.1) + Z.abs (q.2 - p.2).

(** The amount a gift moves, in the words of the dispatch contract: the
    least of the donor's spare energy above reserve and buffer, the
    amount asked for raised to the minimum gift, the recipient's
    outstanding request (the amount asked for when there is none) and,
    for a bounded recipient, its remaining room.  Reserve and buffer
    count as 0 when negative, the minimum gift as 1 when below 1. *)
Definition gift_amount (w : World) (donor recipient : Agent.t) (amount : Z) : Z :=
  let spare :=
    Agent.energy donor -
    (Z.max 0 (reactor_agent_reserve (cfg w)) + Z.max 0 (aid_give_buffer (cfg w))) in
  let wanted := Z.max (Z.max 1 (aid_give_min_amount (cfg w))) (Z.max 0 amount) in
  let outstanding :=
    match _request_entry w (Agent.id recipient) with
    | Some (_, outstanding, _) => outstanding
    | None => Z.max 0 amount
    end in
  let least := Z.min spare (Z.min wanted outstanding) in
  match Agent.max_capacity recipient with
  | None => least
  | Some cap => Z.min least (Z.max 0 (cap - Agent.energy recipient))
  end.

(** What remains of an entry of the request table once its owner holds
    [energy]: nothing above the aid threshold, else the shortfall. *)
Definition reevaluated (w : World) (recipient : Agent.t) (energy : Z)
    (entry : option Request) : option Request :=
  match entry with
  | None => None
  | Some (position, _, _) =>
      let threshold :=
        Z.max (aid_request_threshold (cfg w)) (agent_energy_decay (cfg w)) in
      if threshold <? energy then None
      else
        let shortfall := Z.max 0 (threshold - energy) in
        let desired :=
          match Agent.max_capacity recipient with
          | None => shortfall
          | Some cap => Z.min shortfall (Z.max 0 (cap - energy))
          end in
        if desired <=? 0 then None else Some (position, desired, tick w)
  end.

(** The recipient's entry in the request table after a gift of
    [transfer]. *)
Definition request_after_gift (w : World) (recipient : Agent.t) (transfer : Z)
  : option Request :=
  let energy := Agent.energy recipient + transfer in
  match _request_entry w (Agent.id recipient) with
  | Some (_, outstanding, _) =>
      if 0 <? outstanding - transfer
      then reevaluated w recipient energy
             (Some (Agent.position recipient, outstanding - transfer, tick w))
      else None
  | None =>
      reevaluated w recipient energy
        (OD.get (Agent.id recipient) (help_requests w))
  end.

(** ** Concrete scenarios *)

(** The dataclass defaults of [World] and [Agent]. *)
Definition default_config : Config :=
  mkConfig 16 12 200 1 1000 200 80 1 1 40 10 (-1) 5 (-1).

Definition new_agent (id : AgentID) (position : Position) (energy : Z) : Agent.t :=
  Agent.mk id id position energy None 100 None 0.

(** A generator that always draws 0, and a field without resources. *)
Definition zero_rng : RNG := mkRNG (fun _ => 0%nat) 0.
Definition barren (x y : Z) : bool := false.

Definition from_Ok {A} (d : A) (r : Res A) : A :=
  match r with Ok a => a | Raise _ => d end.

Definition void_world : World :=
  mkWorld default_config 0 [] [] [] ∅ (Reactor.mk (8, 6) 1000 200) [] [] ∅.

(** The default world as constructed, without resources or agents. *)
Definition blank_world : World :=
  from_Ok void_world (__post_init__ default_config barren).

(** A donor with 200 units next to an agent with 5, on the default
    16 x 12 world, run for [n] ticks. *)
Definition duo_start : Res World :=
  w ← __post_init__ default_config barren;
  w ← add_agent w (new_agent "donor" (0, 0) 200);
  add_agent w (new_agent "needy" (1, 0) 5).

Definition duo_run (n : nat) : Res (World * RNG) :=
  w ← duo_start;
  Nat.iter n (fun r => s ← r; step s.1 s.2) (Ok (w, zero_rng)).

Definition helper_view (w : World)
  : Z * Z * option Z * option Z * bool :=
  (tick w, help_signal_duration (cfg w), helper_signals w !! "donor",
   Agent.energy <$> OD.get "donor" (agents w), is_recent_helper w "donor").

(** Two agents placed by hand on a blank default world at tick 7: the
    donor on (0, 0), the other on (1, 0) with a request on file. *)
Definition pair_world (donor_energy needy_energy outstanding : Z) : World :=
  set_help_requests [("needy", ((1, 0), outstanding, 3))]
    (set_occupancy (<[(1, 0) := "needy"]> (<[(0, 0) := "donor"]> ∅))
       (set_agents
          [("donor", new_agent "donor" (0, 0) donor_energy);
           ("needy", new_agent "needy" (1, 0) needy_energy)]
          (set_tick 7 blank_world))).

Definition duo_world (n : nat) : World :=
  (from_Ok (blank_world, zero_rng) (duo_run n)).1.
Definition duo_rng (n : nat) : RNG :=
  (from_Ok (blank_world, zero_rng) (duo_run n)).2.


(** An agent with 7 units deposited and not yet reported. *)
Definition owing_world : World :=
  set_agents
    [("a", Agent.set_pending_report 7 (new_agent "a" (8, 6) 80))]
    (set_tick 4 blank_world).

(** A well-stocked agent on (5, 5) and two agents asking for 10 units
    each, both at Manhattan distance 2: "far" two columns to the right,
    filed first, and "near" on the diagonal. *)
Definition trio_helper : Agent.t := new_agent "helper" (5, 5) 200.

Definition trio_world : World :=
  set_help_requests
    [("far", ((7, 5), 10, 3)); ("near", ((6, 6), 10, 3))]
    (set_occupancy
       (<[(6, 6) := "near"]> (<[(7, 5) := "far"]> (<[(5, 5) := "helper"]> ∅)))
       (set_agents
          [("helper", trio_helper);
           ("far", new_agent "far" (7, 5) 20);
           ("near", new_agent "near" (6, 6) 20)]
          blank_world)).

(** A request the agent [self] may answer: an entry of the request table
    that is active, belongs to another agent [k] and lies, at [p], within
    the vision radius of [self]; [n] is the amount outstanding. *)
Definition answerable (self : Agent.t) (w : World)
    (k : AgentID) (p : Position) (n : Z) : Prop :=
  (exists logged, _request_entry w k = Some (p, n, logged)) /\
  k <> Agent.id self /\
  manhattan (Agent.position self) p <= Agent.vision_radius self.

(** The entry [active_help_requests] lists for an entry of the table. *)
Definition listed (w : World) (kv : AgentID * Request)
  : option (AgentID * (Position * Z)) :=
  (fun e : Request => (kv.1, (e.1.1, e.1.2))) <$> _request_entry w kv.1.

(** A helper on (5, 5) with four requests in sight.  The first of the
    table is farther away than the others, the second asks for less than
    the last two, and the last two tie on distance and amount; of these
    the one that comes first in the table carries the later tick. *)
Definition crowd_helper : Agent.t := new_agent "helper" (5, 5) 200.

Definition crowd_world : World :=
  set_help_requests
    [("distant", ((8, 5), 50, 1)); ("modest", ((5, 7), 5, 1));
     ("ahead", ((6, 6), 10, 3)); ("behind", ((7, 5), 10, 2))]
    (set_occupancy
       (<[(7, 5) := "behind"]> (<[(6, 6) := "ahead"]>
          (<[(5, 7) := "modest"]> (<[(8, 5) := "distant"]>
             (<[(5, 5) := "helper"]> ∅)))))
       (set_agents
          [("helper", crowd_helper);
           ("distant", new_agent "distant" (8, 5) 20);
           ("modest", new_agent "modest" (5, 7) 20);
           ("ahead", new_agent "ahead" (6, 6) 20);
           ("behind", new_agent "behind" (7, 5) 20)]
          (set_tick 3 blank_world))).

Definition gather_action (aid : AgentID) : Action :=
  mkAction GATHER aid no_params.

(** A cell of the grid whose resource flag is off. *)
Definition free_cell (w : World) (c : Position) : bool :=
  match stored (resource_grid w) c.1 c.2 with
  | Some false => true
  | _ => false
  end.

(** The cells a resource may respawn on after [depleted] has been
    emptied: those without a resource, [depleted] itself left out, in
    the order of the scan. *)
Definition respawn_candidates (w : World) (depleted : Position) : list Position :=
  List.filter
    (fun c => free_cell w c && negb (bool_decide (c = depleted)))
    (scan_cells (width (cfg w)) (height (cfg w))).

(** The cell [random.choice] returns for the next draw of [g]. *)
Definition drawn {A} (g : RNG) (l : list A) : option A :=
  l !! (draws g (cursor g) mod length l)%nat.

(** One agent standing on the only resource cell, (1, 1), of a default
    world. *)
Definition gather_world : World :=
  set_occupancy (<[(1, 1) := "a"]> ∅)
    (set_agents [("a", new_agent "a" (1, 1) 30)]
       (from_Ok void_world
          (__post_init__ default_config (fun x y => (x =? 1) && (y =? 1))))).

(** A donor with 103 units in the far corner of the default world and an
    agent with 30 units in the near one, run for [n] ticks. *)
Definition apart_run (n : nat) : Res (World * RNG) :=
  w ← __post_init__ default_config barren;
  w ← add_agent w (new_agent "donor" (15, 0) 103);
  w ← add_agent w (new_agent "needy" (0, 0) 30);
  Nat.iter n (fun r => s ← r; step s.1 s.2) (Ok (w, zero_rng)).

Definition request_view (w : World)
  : Z * option Z * option Z * option Request * option Z :=
  (tick w,
   Agent.energy <$> OD.get "donor" (agents w),
   Agent.energy <$> OD.get "needy" (agents w),
   OD.get "needy" (help_requests w),
   helper_signals w !! "donor").

(** ** Further frames and invariants *)

(** The tick counter and the report ledger are left alone. *)
Definition eq_log (w w' : World) : Prop :=
  tick w' = tick w /\ deposit_reports w' = deposit_reports w.

(** An operation of [step] other than the increment of the counter. *)
Definition quiet (w w' : World) : Prop := prim w w' /\ tick w' = tick w.

(** Every agent stands on a cell of the grid. *)
Definition agents_in_bounds (w : World) : Prop :=
  forall k a, OD.get k (agents w) = Some a ->
    in_bounds w (Agent.position a).1 (Agent.position a).2 = true.

(** The body of the loop of [_decay_agent_energy] that removes the
    depleted agents. *)
Definition purge (w : World) (agent_id : AgentID) : World :=
  match OD.get agent_id (agents w) with
  | None => w
  | Some agent =>
      let w := set_agents (OD.pop agent_id (agents w)) w in
      let w :=
        set_occupancy (delete (Agent.position agent) (occupancy w)) w in
      let w :=
        set_help_requests (OD.pop agent_id (help_requests w)) w in
      set_helper_signals (delete agent_id (helper_signals w)) w
  end.

(** What the first loop of [_decay_agent_energy] makes of an agent. *)
Definition decayed (c : Config) (a : Agent.t) : Agent.t :=
  Agent.set_energy (Z.max 0 (Agent.energy a - agent_energy_decay c)) a.

(** What [_dwindle_resources] makes of a cell that holds [e] units and
    the flag [flag]. *)
Definition dwindled (amount e : Z) : Z :=
  if e <=? 0 then e else Z.max 0 (e - amount).

Definition dwindled_flag (amount e : Z) (flag : bool) : bool :=
  if (0 <? e) && (Z.max 0 (e - amount) <=? 0) then false else flag.

(** The resource flag and the energy of a cell agree, and the energy is
    within the limit of a node. *)
Definition cell_ok (w : World) (x y : Z) : Prop :=
  exists e flag,
    stored (energy_grid w) x y = Some e /\
    stored (resource_grid w) x y = Some flag /\
    0 <= e <= max_energy (cfg w) /\
    (flag = true <-> 0 < e).

Definition cells_ok (w : World) : Prop :=
  forall x y, in_bounds w x y = true -> cell_ok w x y.

(** The cell [_move] aims at: the cell [dx], [dy] away, clamped into the
    grid when it lies outside. *)
Definition move_target (w : World) (p : Position) (dx dy : Z) : Position :=
  if in_bounds w (p.1 + dx) (p.2 + dy) then (p.1 + dx, p.2 + dy)
  else _clamp w (p.1 + dx) (p.2 + dy).

(** What the policy may emit for [self] in world [w] when [moves] are
    the moves on offer. *)
Definition legal_action (self : Agent.t) (w : World) (moves : list Move)
    (a : Action) : Prop :=
  actor a = Agent.id self /\
  match kind a with
  | MOVE =>
      exists d, d ∈ moves /\
        params a = mkParams (Some d.1) (Some d.2) None None
  | GATHER =>
      params a = no_params /\
      exists e,
        cell_energy w (Agent.position self).1 (Agent.position self).2 = Ok e /\
        0 < e
  | DEPOSIT =>
      Agent.position self = reactor_position w /\
      reactor_needs_energy w = true /\
      0 < Agent.energy self - policy_reserve w /\
      params a =
        mkParams None None (Some (Agent.energy self - policy_reserve w)) None
  | REPORT =>
      0 < Agent.pending_report self /\
      params a = mkParams None None (Some (Agent.pending_report self)) None
  | REQUEST =>
      0 < policy_request_threshold w - Agent.energy self /\
      params a =
        mkParams None None
          (Some (policy_request_threshold w - Agent.energy self)) None
  | GIVE =>
      exists target amount,
        target <> Agent.id self /\
        0 < amount <= shareable_energy self w /\
        params a = mkParams None None (Some amount) (Some target)
  end.

(** Every help request belongs to a live agent, is filed at the cell the
    agent stands on, asks for a positive amount and was logged no later
    than now. *)
Definition requests_ok (w : World) : Prop :=
  forall k p amount logged,
    OD.get k (help_requests w) = Some (p, amount, logged) ->
    0 < amount /\ logged <= tick w /\
    exists a, OD.get k (agents w) = Some a /\ Agent.position a = p.

(** What [_register_help_request] files for [agent] when it is asked for
    [amount]: the shortfall below the request threshold, or the amount
    asked for (bounded by the room left) when that is more. *)
Definition requested_amount (w : World) (agent : Agent.t) (amount : Z) : Z :=
  Z.max
    (Z.max 0
       (Z.max (aid_request_threshold (cfg w)) (agent_energy_decay (cfg w))
        - Agent.energy agent))
    match Agent.max_capacity agent with
    | None => Z.max 0 amount
    | Some cap => Z.min (Z.max 0 amount) (Z.max 0 (cap - Agent.energy agent))
    end.

(** What a deposit moves from [agent] into the reactor: the energy above
    the reserve, as far as the reactor has room for it, on the reactor's
    cell only. *)
Definition deposit_amount (w : World) (agent : Agent.t) : Z :=
  if bool_decide (Agent.position agent = Reactor.position (reactor w))
  then
    Z.max 0
      (Z.min (Agent.energy agent - reactor_agent_reserve (cfg w))
             (Reactor.capacity (reactor w) - Reactor.energy (reactor w)))
  else 0.

(** What an agent is, as opposed to what it has and where it stands. *)
Definition identity (a : Agent.t) : AgentID * string * option Z * Z :=
  (Agent.id a, Agent.name a, Agent.max_capacity a, Agent.vision_radius a).

(** Every agent of [w'] was an agent of [w], under the same key and with
    the same identity. *)
Definition same_agents (w w' : World) : Prop :=
  forall k a', OD.get k (agents w') = Some a' ->
    exists a, OD.get k (agents w) = Some a /\ identity a' = identity a.

(** ** seed.py *)

(** [World(width=width, height=height)]: the remaining knobs keep their
    defaults. *)
Definition seed_config (width height : Z) : Config :=
  mkConfig width height 200 1 1000 200 80 1 1 40 10 (-1) 5 (-1).

(** The list [free_cells] of [_random_empty_cell]. *)
Definition free_cells (width height : Z) (occupied : gset Position)
  : list Position :=
  x ← py_range 0 width; y ← py_range 0 height;
  if bool_decide ((x, y) ∈ occupied) then [] else [(x, y)].

Definition _random_empty_cell (width height : Z) (occupied : gset Position)
    (g : RNG) : Res (Position * RNG) :=
  match free_cells width height occupied with
  | [] => Ok ((0, 0), g)
  | cells => random_choice cells g
  end.

(** [f"{index:02d}"] for an index of [range]. *)
Definition format_02d (index : Z) : string :=
  let digits := pretty (Z.to_N index) in
  if (String.length digits <? 2)%nat then "0" +:+ digits else digits.

(** [Agent(id=agent_id, name=f"Agent {index}", position=(x, y))] *)
Definition seeded_agent (id_prefix : string) (index : Z) (p : Position)
  : Agent.t :=
  Agent.mk (id_prefix +:+ format_02d index)
           ("Agent " +:+ pretty (Z.to_N index)) p 30 None 100 None 0.

(** The body of the loop of [seed_world]. *)
Definition seed_one (width height : Z) (id_prefix : string)
    (s : World * gset Position * RNG) (index : Z)
  : Res (World * gset Position * RNG) :=
  let '(world, occupied, g) := s in
  '(p, g) ← _random_empty_cell width height occupied g;
  let occupied := {[p]} ∪ occupied in
  world ← add_agent world (seeded_agent id_prefix index p);
  Ok (world, occupied, g).

Definition seed_world (agent_count width height : Z) (id_prefix : string)
    (spawn : Z -> Z -> bool) (g : RNG) : Res (World * RNG) :=
  world ← __post_init__ (seed_config width height) spawn;
  '(world, _, g) ←
    res_foldM (seed_one width height id_prefix) (world, ∅, g)
              (py_range 0 agent_count);
  Ok (world, g).

(** The state of the loop of [seed_world] after [n] rounds: the world is
    one a client can obtain, at tick 0; [occupied] is the set of its
    occupied cells, [n] cells of the grid; its agents are the [n] seeded
    ones, in the order of their indices. *)
Definition seeded (width height : Z) (id_prefix : string) (n : nat)
    (s : World * gset Position * RNG) : Prop :=
  let '(w, occupied, _) := s in
  reachable (seed_config width height) w /\
  tick w = 0 /\
  dom (occupancy w) = occupied /\
  size occupied = n /\
  (forall p, p ∈ occupied -> 0 <= p.1 < width /\ 0 <= p.2 < height) /\
  OD.keys (agents w) =
    (fun i => id_prefix +:+ format_02d i) <$> seqZ 0 (Z.of_nat n) /\
  (forall i, 0 <= i < Z.of_nat n ->
     exists p, OD.get (id_prefix +:+ format_02d i) (agents w) =
                 Some (seeded_agent id_prefix i p) /\
               0 <= p.1 < width /\ 0 <= p.2 < height).

(** ** Further scenarios *)

(** A helper signal logged at tick 2, seen at tick 9 in a world whose
    signals last 3 ticks. *)
Definition stale_signal_world : World :=
  mkWorld (mkConfig 16 12 200 1 1000 200 80 1 1 40 10 (-1) 5 3)
          9 [] [] [] ∅ (Reactor.mk (8, 6) 1000 200) [] []
          {["donor" := 2]}.

(** An agent with 100 units on the reactor's cell of the default
    world. *)
Definition surplus_world : World :=
  set_agents [("a", new_agent "a" (8, 6) 100)] blank_world.

(** What the donor of [pair_world] decides. *)
Definition pair_choice : Action * World * RNG :=
  from_Ok (gather_action "donor", blank_world, zero_rng)
    (choose (new_agent "donor" (0, 0) 200) (pair_world 200 5 20) zero_rng).

(** The helper of [trio_world] gives 10 units to its neighbour. *)
Definition trio_gift : World * RNG :=
  from_Ok (blank_world, zero_rng)
    (apply trio_world (give_action "helper" "near" 10) zero_rng).

(** * Properties *)

(** ** Ordered dictionaries *)

Section OD_facts.
Context {V : Type}.
Implicit Types (d : OD.t V) (k : string) (v : V).

Lemma od_get_set_eq d k v : OD.get k (OD.set k v d) = Some v.
Proof.
  induction d as [|[k' v'] d IH]; simpl.
  - by rewrite decide_True.
  - destruct (decide (k' = k)); simpl.
    + by rewrite decide_True.
    + by rewrite decide_False.
Qed.

Lemma od_get_set_ne d k k' v :
  k <> k' -> OD.get k' (OD.set k v d) = OD.get k' d.
Proof.
  intros Hne. induction d as [|[k0 v0] d IH]; simpl.
  - by rewrite decide_False.
  - destruct (decide (k0 = k)) as [->|]; simpl.
    + by rewrite !decide_False.
    + destruct (decide (k0 = k')); auto.
Qed.

Lemma od_get_set d k k' v :
  OD.get k' (OD.set k v d) = if decide (k = k') then Some v else OD.get k' d.
Proof.
  destruct (decide (k = k')) as [->|].
  - apply od_get_set_eq.
  - by apply od_get_set_ne.
Qed.

Lemma od_get_None d k : OD.get k d = None <-> k ∉ OD.keys d.
Proof.
  unfold OD.keys. induction d as [|[k' v'] d IH]; simpl.
  - split; [intros _; apply not_elem_of_nil | done].
  - rewrite not_elem_of_cons. destruct (decide (k' = k)); split.
    + done.
    + intros [? _]; congruence.
    + intros H; split; [congruence | by apply IH].
    + intros [_ H]. by apply IH.
Qed.

Lemma od_get_Some_elem d k v : OD.get k d = Some v -> (k, v) ∈ d.
Proof.
  induction d as [|[k' v'] d IH]; simpl; [done|].
  destruct (decide (k' = k)) as [->|].
  - intros [= ->]. apply elem_of_cons; by left.
  - intros H. apply elem_of_cons; right; auto.
Qed.

Lemma od_get_is_Some d k : is_Some (OD.get k d) <-> k ∈ OD.keys d.
Proof.
  destruct (OD.get k d) eqn:E.
  - split; [intros _|eauto].
    destruct (decide (k ∈ OD.keys d)) as [|Hn]; [done|].
    apply od_get_None in Hn. congruence.
  - split; [intros [? ?]; done|].
    intros Hin. apply od_get_None in E. done.
Qed.

Lemma od_elem_get d k v : NoDup (OD.keys d) -> (k, v) ∈ d -> OD.get k d = Some v.
Proof.
  unfold OD.keys. induction d as [|[k' v'] d IH]; simpl.
  - intros _ H. by apply elem_of_nil in H.
  - intros Hnd Hin. apply NoDup_cons in Hnd as [Hk Hnd].
    apply elem_of_cons in Hin as [[= <- <-]|Hin].
    + by rewrite decide_True.
    + destruct (decide (k' = k)) as [->|]; [|auto].
      exfalso. apply Hk. apply list_elem_of_fmap. by exists (k, v).
Qed.

Lemma od_keys_set_in d k v :
  k ∈ OD.keys d -> OD.keys (OD.set k v d) = OD.keys d.
Proof.
  unfold OD.keys. induction d as [|[k' v'] d IH]; simpl.
  - intros H. by apply elem_of_nil in H.
  - intros Hin. destruct (decide (k' = k)) as [->|]; simpl; [done|].
    f_equal. apply IH. apply elem_of_cons in Hin as [|]; [congruence|done].
Qed.

Lemma od_keys_set_notin d k v :
  k ∉ OD.keys d -> OD.keys (OD.set k v d) = OD.keys d ++ [k].
Proof.
  unfold OD.keys. induction d as [|[k' v'] d IH]; simpl; [done|].
  intros Hin. apply not_elem_of_cons in Hin as [? ?].
  rewrite decide_False by congruence. simpl. f_equal. auto.
Qed.

Lemma od_NoDup_set d k v : NoDup (OD.keys d) -> NoDup (OD.keys (OD.set k v d)).
Proof.
  intros Hnd. destruct (decide (k ∈ OD.keys d)).
  - by rewrite od_keys_set_in.
  - rewrite od_keys_set_notin by done.
    apply NoDup_app. split; [done|]. split; [|apply NoDup_singleton].
    intros x Hx Hx'. apply list_elem_of_singleton in Hx'. congruence.
Qed.

Lemma od_keys_pop_subset d k x : x ∈ OD.keys (OD.pop k d) -> x ∈ OD.keys d.
Proof.
  unfold OD.keys. induction d as [|[k' v'] d IH]; simpl; [done|].
  destruct (decide (k' = k)); simpl.
  - intros. apply elem_of_cons; right; auto.
  - rewrite !elem_of_cons. intros [|]; auto.
Qed.

Lemma od_NoDup_pop d k : NoDup (OD.keys d) -> NoDup (OD.keys (OD.pop k d)).
Proof.
  unfold OD.keys. induction d as [|[k' v'] d IH]; simpl; [done|].
  intros Hnd. apply NoDup_cons in Hnd as [Hk Hnd].
  destruct (decide (k' = k)); simpl; [auto|].
  apply NoDup_cons. split; [|auto].
  intros Hin. apply Hk. by apply (od_keys_pop_subset d k).
Qed.

Lemma od_get_pop_ne d k k' : k <> k' -> OD.get k' (OD.pop k d) = OD.get k' d.
Proof.
  intros Hne. induction d as [|[k0 v0] d IH]; simpl; [done|].
  destruct (decide (k0 = k)) as [->|]; simpl.
  - by rewrite decide_False.
  - destruct (decide (k0 = k')); auto.
Qed.

Lemma od_get_pop_eq d k : OD.get k (OD.pop k d) = None.
Proof.
  induction d as [|[k0 v0] d IH]; simpl; [done|].
  destruct (decide (k0 = k)) as [->|]; simpl; [done|].
  by rewrite decide_False.
Qed.

Lemma od_get_pop d k k' :
  OD.get k' (OD.pop k d) = if decide (k = k') then None else OD.get k' d.
Proof.
  destruct (decide (k = k')) as [->|].
  - apply od_get_pop_eq.
  - by apply od_get_pop_ne.
Qed.

Lemma od_pop_notin d k : k ∉ OD.keys d -> OD.pop k d = d.
Proof.
  unfold OD.keys. induction d as [|[k0 v0] d IH]; simpl; [done|].
  intros Hin. apply not_elem_of_cons in Hin as [? ?].
  rewrite decide_False by congruence. f_equal. auto.
Qed.
End OD_facts.

(** ** Reactor *)

Lemma deposit_ok r amount :
  reactor_ok r -> reactor_ok (Reactor.deposit r amount).2.
Proof.
  unfold reactor_ok, Reactor.deposit, Reactor.is_full.
  intros H. destruct (amount <=? 0) eqn:Ha; simpl; [done|].
  destruct (Reactor.capacity r <=? Reactor.energy r) eqn:Hf; simpl; [done|].
  lia.
Qed.

Lemma draw_ok r amount :
  reactor_ok r -> reactor_ok (Reactor.draw r amount).2.
Proof.
  unfold reactor_ok, Reactor.draw.
  intros H. destruct (amount <=? 0) eqn:Ha; simpl; lia.
Qed.

Lemma deposit_capacity r amount :
  Reactor.capacity (Reactor.deposit r amount).2 = Reactor.capacity r /\
  Reactor.position (Reactor.deposit r amount).2 = Reactor.position r.
Proof. unfold Reactor.deposit. by repeat case_match. Qed.

Lemma draw_capacity r amount :
  Reactor.capacity (Reactor.draw r amount).2 = Reactor.capacity r /\
  Reactor.position (Reactor.draw r amount).2 = Reactor.position r.
Proof. unfold Reactor.draw. by repeat case_match. Qed.

(** C6.  [deposit] and [draw] do nothing and return 0 on a non-positive
    amount ([deposit] also on a full reactor); otherwise [deposit] adds
    and returns [min amount (capacity - energy)] and [draw] removes and
    returns [min amount energy].  A draw from an empty reactor returns 0,
    and neither operation leaves the interval [0, capacity]. *)
Theorem reactor_deposit_draw_spec (r : Reactor.t) (amount : Z) :
  (amount <= 0 \/ Reactor.capacity r <= Reactor.energy r ->
     Reactor.deposit r amount = (0, r)) /\
  (0 < amount -> Reactor.energy r < Reactor.capacity r ->
     Reactor.deposit r amount =
       (Z.min amount (Reactor.capacity r - Reactor.energy r),
        Reactor.mk (Reactor.position r) (Reactor.capacity r)
          (Reactor.energy r + Z.min amount (Reactor.capacity r - Reactor.energy r)))) /\
  (amount <= 0 -> Reactor.draw r amount = (0, r)) /\
  (0 < amount ->
     Reactor.draw r amount =
       (Z.min amount (Reactor.energy r),
        Reactor.mk (Reactor.position r) (Reactor.capacity r)
          (Reactor.energy r - Z.min amount (Reactor.energy r)))) /\
  (Reactor.energy r = 0 ->
     (Reactor.draw r amount).1 = 0 /\
     Reactor.energy (Reactor.draw r amount).2 = 0) /\
  (reactor_ok r ->
     reactor_ok (Reactor.deposit r amount).2 /\
     reactor_ok (Reactor.draw r amount).2).
Proof.
  split_and!.
  - unfold Reactor.deposit, Reactor.is_full. intros [H|H].
    + by replace (amount <=? 0) with true by lia.
    + replace (Reactor.capacity r <=? Reactor.energy r) with true by lia.
      by rewrite orb_true_r.
  - unfold Reactor.deposit, Reactor.is_full. intros H1 H2.
    replace (amount <=? 0) with false by lia.
    by replace (Reactor.capacity r <=? Reactor.energy r) with false by lia.
  - unfold Reactor.draw. intros H.
    by replace (amount <=? 0) with true by lia.
  - unfold Reactor.draw. intros H.
    by replace (amount <=? 0) with false by lia.
  - unfold Reactor.draw. intros H. destruct (amount <=? 0) eqn:E; simpl; lia.
  - intros H. split; [by apply deposit_ok | by apply draw_ok].
Qed.

(** ** Frames *)

Lemma res_bind_Ok {A B} (m : Res A) (k : A -> Res B) b :
  m ≫= k = Ok b <-> exists a, m = Ok a /\ k a = Ok b.
Proof.
  destruct m; simpl; split.
  - eauto.
  - by intros (? & [= ->] & ?).
  - done.
  - by intros (? & ? & ?).
Qed.

Ltac inv_res :=
  repeat match goal with
  | H : Ok _ = Ok _ |- _ => injection H as H; subst
  | H : Raise _ = Ok _ |- _ => discriminate H
  | H : mbind _ _ = Ok _ |- _ =>
      apply res_bind_Ok in H as (? & ? & H)
  | H : res_bind _ _ = Ok _ |- _ =>
      apply res_bind_Ok in H as (? & ? & H)
  | H : (let '(_, _) := ?p in _) = Ok _ |- _ => destruct p
  | H : (_, _) = (_, _) |- _ => injection H as ? ?; subst
  end.

#[global] Instance eq_grid_refl : Reflexive eq_grid.
Proof. by intros w. Qed.
#[global] Instance eq_grid_trans : Transitive eq_grid.
Proof. intros a b c (?&?&?) (?&?&?). unfold eq_grid. split_and!; congruence. Qed.
#[global] Instance eq_reactor_refl : Reflexive eq_reactor.
Proof. by intros w. Qed.
#[global] Instance eq_reactor_trans : Transitive eq_reactor.
Proof. intros a b c (?&?) (?&?). unfold eq_reactor. split; congruence. Qed.
#[global] Instance eq_places_refl : Reflexive eq_places.
Proof. by intros w. Qed.
#[global] Instance eq_places_trans : Transitive eq_places.
Proof.
  intros a b c (?&?&H1) (?&?&H2). unfold eq_places.
  split_and!; [congruence..|]. intros k. by rewrite H2, H1.
Qed.

Lemma update_agent_fields aid f w :
  let w' := update_agent aid f w in
  cfg w' = cfg w /\ tick w' = tick w /\ energy_grid w' = energy_grid w /\
  resource_grid w' = resource_grid w /\ occupancy w' = occupancy w /\
  reactor w' = reactor w /\ deposit_reports w' = deposit_reports w /\
  help_requests w' = help_requests w /\ helper_signals w' = helper_signals w.
Proof. unfold update_agent. destruct (OD.get aid (agents w)); simpl; auto 10. Qed.

Lemma update_agent_get aid f w k :
  OD.get k (agents (update_agent aid f w)) =
  if decide (aid = k) then f <$> OD.get k (agents w) else OD.get k (agents w).
Proof.
  unfold update_agent. destruct (OD.get aid (agents w)) eqn:E; simpl.
  - rewrite od_get_set. destruct (decide (aid = k)) as [<-|]; [|done].
    by rewrite E.
  - destruct (decide (aid = k)) as [<-|]; [|done]. by rewrite E.
Qed.

Lemma update_agent_keys aid f w :
  OD.keys (agents (update_agent aid f w)) = OD.keys (agents w).
Proof.
  unfold update_agent. destruct (OD.get aid (agents w)) eqn:E; simpl; [|done].
  apply od_keys_set_in. apply od_get_is_Some. eauto.
Qed.

Lemma update_agent_eq_grid aid f w : eq_grid w (update_agent aid f w).
Proof. unfold eq_grid. destruct (update_agent_fields aid f w) as (?&?&?&?&?). auto. Qed.

Lemma update_agent_eq_reactor aid f w : eq_reactor w (update_agent aid f w).
Proof. unfold eq_reactor. destruct (update_agent_fields aid f w) as (?&?&?&?&?&?&?). auto. Qed.

Lemma update_agent_eq_places aid f w :
  (forall a, Agent.id (f a) = Agent.id a /\ Agent.position (f a) = Agent.position a) ->
  eq_places w (update_agent aid f w).
Proof.
  intros Hf. unfold eq_places. split_and!.
  - apply update_agent_fields.
  - apply update_agent_keys.
  - intros k. unfold place_of. rewrite update_agent_get.
    destruct (decide (aid = k)); [|done].
    destruct (OD.get k (agents w)) as [a|]; simpl; [|done].
    by destruct (Hf a) as [-> ->].
Qed.

Lemma update_agent_cfg aid f w : cfg (update_agent aid f w) = cfg w.
Proof. apply update_agent_fields. Qed.
Lemma update_agent_tick aid f w : tick (update_agent aid f w) = tick w.
Proof. apply update_agent_fields. Qed.
Lemma update_agent_energy_grid aid f w :
  energy_grid (update_agent aid f w) = energy_grid w.
Proof. apply update_agent_fields. Qed.
Lemma update_agent_resource_grid aid f w :
  resource_grid (update_agent aid f w) = resource_grid w.
Proof. apply update_agent_fields. Qed.
Lemma update_agent_occupancy aid f w :
  occupancy (update_agent aid f w) = occupancy w.
Proof. apply update_agent_fields. Qed.
Lemma update_agent_reactor aid f w : reactor (update_agent aid f w) = reactor w.
Proof. apply update_agent_fields. Qed.
Lemma update_agent_deposit_reports aid f w :
  deposit_reports (update_agent aid f w) = deposit_reports w.
Proof. apply update_agent_fields. Qed.
Lemma update_agent_help_requests aid f w :
  help_requests (update_agent aid f w) = help_requests w.
Proof. apply update_agent_fields. Qed.
Lemma update_agent_helper_signals aid f w :
  helper_signals (update_agent aid f w) = helper_signals w.
Proof. apply update_agent_fields. Qed.

Lemma update_agent_place aid f w k :
  (forall a, Agent.id (f a) = Agent.id a /\ Agent.position (f a) = Agent.position a) ->
  (fun a => (Agent.id a, Agent.position a)) <$> OD.get k (agents (update_agent aid f w)) =
  (fun a => (Agent.id a, Agent.position a)) <$> OD.get k (agents w).
Proof. intros Hf. by apply update_agent_eq_places. Qed.

Create Rewrite HintDb upd.
#[global] Hint Rewrite update_agent_cfg update_agent_tick update_agent_energy_grid
  update_agent_resource_grid update_agent_occupancy update_agent_reactor
  update_agent_deposit_reports update_agent_help_requests
  update_agent_helper_signals update_agent_keys : upd.
#[global] Hint Rewrite update_agent_place using (intros ?; split; reflexivity) : upd.

(** Unfold an operation down to setters and [update_agent], split on
    every test it makes, and read the fields off. *)
Ltac crush_frame :=
  repeat case_match; simpl;
  unfold set_tick, set_agents, set_energy_grid, set_resource_grid,
    set_occupancy, set_reactor, set_deposit_reports, set_help_requests,
    set_helper_signals, place_of; simpl;
  autorewrite with upd; simpl; auto.

Lemma place_of_agents w w' k :
  agents w' = agents w -> place_of w' k = place_of w k.
Proof. unfold place_of. by intros ->. Qed.

Ltac frames :=
  unfold eq_grid, eq_reactor, eq_places;
  repeat split; try (intros ?); crush_frame;
  try (apply place_of_agents; crush_frame).

#[global] Instance eq_all_refl : Reflexive eq_all.
Proof. by intros w. Qed.
#[global] Instance eq_all_trans : Transitive eq_all.
Proof.
  intros a b c (?&?&?) (?&?&?). unfold eq_all. split_and!; by etrans.
Qed.

Ltac frames_all := unfold eq_all; frames.

Lemma set_tick_frame w t : eq_all w (set_tick t w).
Proof. frames_all. Qed.

Lemma _prune_help_requests_frame w : eq_all w (_prune_help_requests w).
Proof. unfold _prune_help_requests. frames_all. Qed.

Lemma _clear_help_request_frame w a : eq_all w (_clear_help_request w a).
Proof. unfold _clear_help_request. frames_all. Qed.

Lemma cancel_help_request_frame w a : eq_all w (cancel_help_request w a).
Proof. apply _clear_help_request_frame. Qed.

Lemma _decay_helper_signals_frame w : eq_all w (_decay_helper_signals w).
Proof. unfold _decay_helper_signals. frames_all. Qed.

Lemma update_agent_frame w a f :
  (forall a, Agent.id (f a) = Agent.id a /\ Agent.position (f a) = Agent.position a) ->
  eq_all w (update_agent a f w).
Proof.
  intros Hf. split_and!.
  - apply update_agent_eq_grid.
  - apply update_agent_eq_reactor.
  - by apply update_agent_eq_places.
Qed.

Lemma set_pending_action_frame w a x :
  eq_all w (update_agent a (Agent.set_pending_action x) w).
Proof. by apply update_agent_frame. Qed.

Lemma _register_help_request_frame w a n :
  eq_all w (_register_help_request w a n).
Proof. unfold _register_help_request. frames_all. Qed.

Lemma _maybe_clear_help_request_frame w a :
  eq_all w (_maybe_clear_help_request w a).
Proof. unfold _maybe_clear_help_request. frames_all. Qed.

Lemma _update_request_position_frame w a :
  eq_all w (_update_request_position w a).
Proof. unfold _update_request_position. frames_all. Qed.

Lemma _record_deposit_report_frame w a n :
  eq_all w (_record_deposit_report w a n).
Proof. unfold _record_deposit_report. frames_all. Qed.

Lemma set_help_requests_frame w h : eq_all w (set_help_requests h w).
Proof. frames_all. Qed.

Lemma set_helper_signals_frame w h : eq_all w (set_helper_signals h w).
Proof. frames_all. Qed.

(** Peel one early [return] off an operation. *)
Ltac early_return :=
  match goal with
  | |- _ ?w (if ?c then ?w else _) => destruct c eqn:?; [reflexivity|]
  end.

Lemma _give_energy_frame w a b n : eq_all w (_give_energy w a b n).
Proof.
  unfold _give_energy.
  destruct (OD.get a (agents w)) as [donor|]; [|reflexivity].
  destruct (OD.get b (agents w)) as [recipient|]; [|reflexivity].
  do 4 early_return.
  etrans; [|apply set_helper_signals_frame].
  etrans; [|apply _maybe_clear_help_request_frame].
  match goal with
  | |- context [update_agent b ?f (update_agent a ?f' w)] =>
      set (w1 := update_agent a f' w); set (w2 := update_agent b f w1)
  end.
  assert (eq_all w w2) as Hw2.
  { trans w1; by apply update_agent_frame. }
  destruct (_request_entry w (Agent.id recipient)) as [[[? ?] ?]|]; [|done].
  etrans; [exact Hw2|].
  match goal with |- _ _ (if ?c then _ else _) => destruct c end;
    [apply set_help_requests_frame | apply _clear_help_request_frame].
Qed.

Lemma _deposit_energy_frame w a :
  let w' := _deposit_energy w a in
  eq_grid w w' /\ eq_places w w'.
Proof. unfold _deposit_energy. frames. Qed.

Lemma _auto_deposit_frame w a :
  let w' := _auto_deposit w a in
  eq_grid w w' /\ eq_places w w'.
Proof.
  unfold _auto_deposit. repeat case_match; try done. apply _deposit_energy_frame.
Qed.

Lemma _consume_reactor_energy_frame w :
  let w' := _consume_reactor_energy w in
  eq_grid w w' /\ eq_places w w'.
Proof. unfold _consume_reactor_energy. frames. Qed.

(** ** [step] as a sequence of primitive operations *)

Lemma choose_world self w g act w' g' :
  choose self w g = Ok (act, w', g') ->
  let w2 := _prune_help_requests (_prune_help_requests w) in
  w' = w \/ w' = w2 \/ w' = cancel_help_request w2 (Agent.id self).
Proof.
  unfold choose, active_help_requests, has_active_request.
  destruct (Agent.position self) as [x y].
  destruct (0 <? Agent.pending_report self).
  { intros [= <- <- <-]. by left. }
  intros H. apply res_bind_Ok in H as (ce & _ & H).
  apply res_bind_Ok in H as (vis & _ & H).
  right.
  match type of H with
  | (let '(_, _) := (if ?c then _ else _) in _) = _ => destruct c
  end; repeat case_match; inv_res; auto.
Qed.

Lemma choose_prims self w g act w' g' :
  choose self w g = Ok (act, w', g') -> rtc prim w w'.
Proof.
  intros H. apply choose_world in H as [->|[->| ->]].
  - done.
  - eapply rtc_l; [apply prim_prune|]. apply rtc_once, prim_prune.
  - eapply rtc_l; [apply prim_prune|].
    eapply rtc_l; [apply prim_prune|]. apply rtc_once, prim_cancel.
Qed.

Lemma apply_prims w action g w' g' :
  apply w action g = Ok (w', g') -> rtc prim w w'.
Proof.
  unfold apply. destruct (OD.get (actor action) (agents w)).
  2:{ by intros [= <- <-]. }
  destruct (kind action).
  - intros [= <- <-]. apply rtc_once, prim_move.
  - intros H. eapply rtc_once, prim_gather, H.
  - intros [= <- <-]. apply rtc_once, prim_deposit.
  - intros [= <- <-]. apply rtc_once, prim_report.
  - intros [= <- <-]. apply rtc_once, prim_request.
  - destruct (p_target (params action)); intros [= <- <-]; [|done].
    apply rtc_once, prim_give.
Qed.

Lemma decide_one_prims w g aid w' g' :
  decide_one (w, g) aid = Ok (w', g') -> rtc prim w w'.
Proof.
  unfold decide_one.
  destruct (OD.get aid (agents (_auto_deposit w aid))) as [agent|].
  2:{ intros [= <- <-]. apply rtc_once, prim_auto. }
  intros H. apply res_bind_Ok in H as ([[act w1] g1] & Hc & [= <- <-]).
  eapply rtc_l; [apply prim_auto|].
  etrans; [eapply choose_prims, Hc|]. apply rtc_once, prim_pending.
Qed.

Lemma apply_one_prims w g aid w' g' :
  apply_one (w, g) aid = Ok (w', g') -> rtc prim w w'.
Proof.
  unfold apply_one. destruct (OD.get aid (agents w)) as [agent|].
  2:{ by intros [= <- <-]. }
  destruct (Agent.pending_action agent) as [action|].
  2:{ by intros [= <- <-]. }
  intros H. apply res_bind_Ok in H as ([w1 g1] & Hc & [= <- <-]).
  etrans; [eapply apply_prims, Hc|]. apply rtc_once, prim_pending.
Qed.

Lemma foldM_prims (f : World * RNG -> AgentID -> Res (World * RNG)) l :
  (forall w g aid w' g', f (w, g) aid = Ok (w', g') -> rtc prim w w') ->
  forall w g w' g', res_foldM f (w, g) l = Ok (w', g') -> rtc prim w w'.
Proof.
  intros Hf. induction l as [|aid l IH]; simpl; intros w g w' g' H.
  - by injection H as <- <-.
  - apply res_bind_Ok in H as ([w1 g1] & H1 & H2).
    etrans; [eapply Hf, H1 | eapply IH, H2].
Qed.

Lemma step_prims w g w' g' : step w g = Ok (w', g') -> rtc prim w w'.
Proof.
  unfold step. intros H.
  apply res_bind_Ok in H as ([w1 g1] & H1 & H).
  apply res_bind_Ok in H as ([w2 g2] & H2 & H).
  apply res_bind_Ok in H as (w3 & H3 & [= <- <-]).
  eapply rtc_l; [apply prim_tick|].
  eapply rtc_l; [apply prim_prune|].
  eapply rtc_l; [apply prim_signals|].
  etrans; [eapply (foldM_prims decide_one), H1; apply decide_one_prims|].
  etrans; [eapply (foldM_prims apply_one), H2; apply apply_one_prims|].
  eapply rtc_l; [apply prim_decay|].
  eapply rtc_l; [apply prim_consume|].
  eapply rtc_once, prim_dwindle, H3.
Qed.

Lemma prims_preserve (P : World -> Prop) :
  (forall w w', prim w w' -> P w -> P w') ->
  forall w w', rtc prim w w' -> P w -> P w'.
Proof. intros HP w w' H. induction H; eauto. Qed.

(** ** The resource field keeps its shape *)

Lemma py_index_Ok {A} (l : list A) i v :
  py_index l i = Ok v ->
  exists j : nat, l !! j = Some v /\
    Z.of_nat j = (if i <? 0 then Z.of_nat (length l) + i else i).
Proof.
  unfold py_index.
  set (j := if i <? 0 then Z.of_nat (length l) + i else i).
  destruct ((0 <=? j) && (j <? Z.of_nat (length l))) eqn:Hj; [|done].
  destruct (l !! Z.to_nat j) eqn:E; [|done].
  intros [= ->]. exists (Z.to_nat j). split; [done|]. lia.
Qed.

Lemma py_index_in_range {A} (l : list A) i :
  0 <= i < Z.of_nat (length l) ->
  exists v, py_index l i = Ok v /\ l !! Z.to_nat i = Some v.
Proof.
  intros Hi. unfold py_index.
  replace (i <? 0) with false by lia.
  replace ((0 <=? i) && (i <? Z.of_nat (length l))) with true by lia.
  destruct (l !! Z.to_nat i) eqn:E; [eauto|].
  apply lookup_ge_None in E. lia.
Qed.

Lemma py_setitem_Ok {A} (l : list A) i v l' :
  py_setitem l i v = Ok l' ->
  exists j : nat, l' = <[j := v]> l /\ (j < length l)%nat /\
    Z.of_nat j = (if i <? 0 then Z.of_nat (length l) + i else i).
Proof.
  unfold py_setitem.
  set (j := if i <? 0 then Z.of_nat (length l) + i else i).
  destruct ((0 <=? j) && (j <? Z.of_nat (length l))) eqn:Hj; [|done].
  intros [= <-]. exists (Z.to_nat j). split; [done|]. lia.
Qed.

Lemma py_setitem_in_range {A} (l : list A) i v :
  0 <= i < Z.of_nat (length l) ->
  py_setitem l i v = Ok (<[Z.to_nat i := v]> l).
Proof.
  intros Hi. unfold py_setitem.
  replace (i <? 0) with false by lia.
  by replace ((0 <=? i) && (i <? Z.of_nat (length l))) with true by lia.
Qed.

Lemma grid_set_rows_wf {A} c (g g' : list (list A)) x y v :
  grid_set g x y v = Ok g' -> rows_wf c g -> rows_wf c g'.
Proof.
  unfold grid_set, rows_wf. intros H [Hlen Hrows].
  apply res_bind_Ok in H as (row & Hrow & H).
  apply res_bind_Ok in H as (row' & Hrow' & H).
  apply py_index_Ok in Hrow as (j & Hj & _).
  apply py_setitem_Ok in Hrow' as (i & -> & _ & _).
  apply py_setitem_Ok in H as (j' & -> & _ & _).
  split; [by rewrite length_insert|].
  apply Forall_insert; [done|]. rewrite length_insert.
  eapply Forall_lookup_1 in Hrows; eauto.
Qed.

(** In-bounds cells of a well-formed grid are there. *)
Lemma rows_wf_stored {A} c (g : list (list A)) x y :
  rows_wf c g -> 0 <= x < width c -> 0 <= y < height c ->
  exists v, stored g x y = Some v /\ grid_get g x y = Ok v.
Proof.
  intros [Hlen Hrows] Hx Hy. unfold stored, grid_get.
  destruct (py_index_in_range g y) as (row & -> & Hrow); [lia|].
  rewrite Hrow. simpl.
  eapply Forall_lookup_1 in Hrows; eauto.
  destruct (py_index_in_range row x) as (v & -> & Hv); [lia|].
  eauto.
Qed.

Lemma grid_set_in_range {A} c (g : list (list A)) x y v :
  rows_wf c g -> 0 <= x < width c -> 0 <= y < height c ->
  exists row,
    g !! Z.to_nat y = Some row /\
    grid_set g x y v = Ok (<[Z.to_nat y := <[Z.to_nat x := v]> row]> g).
Proof.
  intros [Hlen Hrows] Hx Hy. unfold grid_set.
  destruct (py_index_in_range g y) as (row & -> & Hrow); [lia|].
  exists row. split; [done|]. simpl.
  eapply Forall_lookup_1 in Hrows; eauto.
  rewrite py_setitem_in_range by lia. simpl.
  by rewrite py_setitem_in_range by lia.
Qed.

Lemma set_grids_frame w eg rg :
  eq_reactor w (set_energy_grid eg w) /\ eq_places w (set_energy_grid eg w) /\
  eq_reactor w (set_resource_grid rg w) /\ eq_places w (set_resource_grid rg w).
Proof. frames. Qed.

Lemma eq_all_reactor w w' : eq_all w w' -> eq_reactor w w'.
Proof. by intros (?&?&?). Qed.
Lemma eq_all_places w w' : eq_all w w' -> eq_places w w'.
Proof. by intros (?&?&?). Qed.
Lemma eq_all_grid w w' : eq_all w w' -> eq_grid w w'.
Proof. by intros (?&?&?). Qed.

Lemma grid_wf_eq_grid w w' : eq_grid w w' -> grid_wf w -> grid_wf w'.
Proof. unfold grid_wf. by intros (-> & -> & ->). Qed.

Lemma _respawn_resource_spec w p g w' g' :
  _respawn_resource w p g = Ok (w', g') ->
  eq_reactor w w' /\ eq_places w w' /\ (grid_wf w -> grid_wf w').
Proof.
  unfold _respawn_resource. intros H.
  apply res_bind_Ok in H as (cands & _ & H).
  apply res_bind_Ok in H as ([[tx ty] g1] & _ & H).
  apply res_bind_Ok in H as (rg & Hrg & H).
  apply res_bind_Ok in H as (eg & Heg & [= <- <-]).
  split_and!.
  - frames.
  - frames.
  - unfold grid_wf. simpl. intros [? ?].
    split; eapply grid_set_rows_wf; eauto.
Qed.

Lemma _deplete_resource_spec w p g w' g' :
  _deplete_resource w p g = Ok (w', g') ->
  eq_reactor w w' /\ eq_places w w' /\ (grid_wf w -> grid_wf w').
Proof.
  unfold _deplete_resource. destruct p as [x y]. intros H.
  apply res_bind_Ok in H as (eg & Heg & H).
  apply res_bind_Ok in H as (rg & Hrg & H).
  apply _respawn_resource_spec in H as (Hr & Hp & Hg).
  split_and!.
  - etrans; [|exact Hr]. frames.
  - etrans; [|exact Hp]. frames.
  - intros [? ?]. apply Hg. unfold grid_wf. simpl.
    split; eapply grid_set_rows_wf; eauto.
Qed.

Lemma _gather_energy_spec w a g w' g' :
  _gather_energy w a g = Ok (w', g') ->
  eq_reactor w w' /\ eq_places w w' /\ (grid_wf w -> grid_wf w').
Proof.
  unfold _gather_energy. destruct (OD.get a (agents w)) as [agent|].
  2:{ by intros [= <- <-]. }
  destruct (Agent.position agent) as [x y]. intros H.
  apply res_bind_Ok in H as (avail & _ & H).
  destruct (avail <=? 0). { by injection H as <- <-. }
  apply res_bind_Ok in H as (eg & Heg & H).
  apply _deplete_resource_spec in H as (Hr & Hp & Hg).
  match type of Hr with
  | eq_reactor (_maybe_clear_help_request (update_agent _ ?f ?w0) _) _ =>
      pose proof (update_agent_frame w0 a f (fun _ => conj eq_refl eq_refl)) as Hu;
      pose proof (_maybe_clear_help_request_frame (update_agent a f w0) a) as Hm
  end.
  split_and!.
  - etrans; [|exact Hr]. etrans; [|apply eq_all_reactor, Hm].
    etrans; [|apply eq_all_reactor, Hu]. frames.
  - etrans; [|exact Hp]. etrans; [|apply eq_all_places, Hm].
    etrans; [|apply eq_all_places, Hu]. frames.
  - intros [? ?]. apply Hg.
    eapply grid_wf_eq_grid; [apply eq_all_grid, Hm|].
    eapply grid_wf_eq_grid; [apply eq_all_grid, Hu|].
    unfold grid_wf. simpl. split; [|done]. eapply grid_set_rows_wf; eauto.
Qed.

Lemma dwindle_row_spec c amount y row : forall x rg row' rg',
  dwindle_row amount y x row rg = Ok (row', rg') ->
  length row' = length row /\ (rows_wf c rg -> rows_wf c rg').
Proof.
  induction row as [|v row IH]; simpl; intros x rg row' rg' H.
  - by injection H as <- <-.
  - destruct (v <=? 0).
    + apply res_bind_Ok in H as ([r1 g1] & H1 & [= <- <-]).
      apply IH in H1 as [Hl ?]. simpl. by rewrite Hl.
    + apply res_bind_Ok in H as (rg1 & Hrg & H).
      apply res_bind_Ok in H as ([r1 g1] & H1 & [= <- <-]).
      apply IH in H1 as [Hl Hwf]. split; [simpl; by rewrite Hl|].
      intros Hrg0. apply Hwf.
      destruct (Z.max 0 (v - amount) <=? 0); [|by injection Hrg as <-].
      apply res_bind_Ok in Hrg as (flag & _ & Hrg).
      destruct flag; [|by injection Hrg as <-].
      eapply grid_set_rows_wf; eauto.
Qed.

Lemma dwindle_rows_spec c amount eg : forall y rg eg' rg',
  dwindle_rows amount y eg rg = Ok (eg', rg') ->
  length eg' = length eg /\
  (Forall (fun row => length row = Z.to_nat (width c)) eg ->
   Forall (fun row => length row = Z.to_nat (width c)) eg') /\
  (rows_wf c rg -> rows_wf c rg').
Proof.
  induction eg as [|row eg IH]; simpl; intros y rg eg' rg' H.
  - by injection H as <- <-.
  - apply res_bind_Ok in H as ([row1 rg1] & H1 & H).
    apply res_bind_Ok in H as ([rows1 rg2] & H2 & [= <- <-]).
    apply (dwindle_row_spec c) in H1 as [Hl Hw1].
    apply IH in H2 as (Hl2 & Hf & Hw2).
    split_and!; simpl; [by rewrite Hl2| |auto].
    intros Hall. apply Forall_cons in Hall as [? ?].
    apply Forall_cons. split; [congruence|auto].
Qed.

Lemma _apply_reactor_consequences_spec w w' :
  _apply_reactor_consequences w = Ok w' ->
  eq_reactor w w' /\ eq_places w w' /\ (grid_wf w -> grid_wf w').
Proof.
  unfold _apply_reactor_consequences, _dwindle_resources.
  destruct (negb (Reactor.is_empty (reactor w))). { by intros [= <-]. }
  destruct (reactor_dwindle_rate (cfg w) <=? 0). { by intros [= <-]. }
  intros H. apply res_bind_Ok in H as ([eg rg] & H & [= <-]).
  apply (dwindle_rows_spec (cfg w)) in H as (Hl & Hf & Hw).
  split_and!.
  - frames.
  - frames.
  - unfold grid_wf, rows_wf at 1 3. simpl. intros [[? ?] ?].
    split; [split|]; auto. congruence.
Qed.

(** ** Occupancy and positions *)

Lemma place_of_Some w k a :
  OD.get k (agents w) = Some a ->
  place_of w k = Some (Agent.id a, Agent.position a).
Proof. unfold place_of. by intros ->. Qed.

Lemma place_of_inv w k i p :
  place_of w k = Some (i, p) ->
  exists a, OD.get k (agents w) = Some a /\ Agent.id a = i /\ Agent.position a = p.
Proof.
  unfold place_of. destruct (OD.get k (agents w)) as [a|]; [|done].
  intros [= <- <-]. eauto.
Qed.

Lemma places_inv_eq_places w w' : eq_places w w' -> places_inv w -> places_inv w'.
Proof.
  intros (Hocc & Hkeys & Hpl) [[Hnd Hid] (H1 & H2 & H3)].
  assert (forall k a', OD.get k (agents w') = Some a' ->
            exists a, OD.get k (agents w) = Some a /\
                      Agent.id a = Agent.id a' /\
                      Agent.position a = Agent.position a') as Hback.
  { intros k a' Ha'. apply place_of_Some in Ha'. rewrite Hpl in Ha'.
    by apply place_of_inv in Ha'. }
  split; [split|split_and!].
  - by rewrite Hkeys.
  - intros k a' Ha'. destruct (Hback _ _ Ha') as (a & Ha & <- & _). eauto.
  - intros k a' Ha'. destruct (Hback _ _ Ha') as (a & Ha & <- & <-).
    rewrite Hocc. eauto.
  - intros p k Hp. rewrite Hocc in Hp. destruct (H2 _ _ Hp) as (a & Ha & Hpos).
    apply place_of_Some in Ha. rewrite <- Hpl in Ha.
    apply place_of_inv in Ha as (a' & ? & ? & ?). exists a'. split; congruence.
  - intros k1 k2 a1 a2 Ha1 Ha2 Hpos.
    destruct (Hback _ _ Ha1) as (b1 & Hb1 & _ & Hp1).
    destruct (Hback _ _ Ha2) as (b2 & Hb2 & _ & Hp2).
    eapply H3; eauto. congruence.
Qed.

(** Two objects on one cell would be one occupancy entry with two ids. *)
Lemma positions_injective w :
  agents_wf w ->
  (forall k a, OD.get k (agents w) = Some a ->
               occupancy w !! Agent.position a = Some (Agent.id a)) ->
  forall k1 k2 a1 a2,
    OD.get k1 (agents w) = Some a1 -> OD.get k2 (agents w) = Some a2 ->
    Agent.position a1 = Agent.position a2 -> k1 = k2.
Proof.
  intros [_ Hid] H1 k1 k2 a1 a2 Ha1 Ha2 Hpos.
  pose proof (H1 _ _ Ha1) as E1. pose proof (H1 _ _ Ha2) as E2.
  rewrite Hpos in E1. rewrite E1 in E2. injection E2 as E2.
  rewrite <- (Hid _ _ Ha1), <- (Hid _ _ Ha2). done.
Qed.

Lemma relocate_inv w aid agent (p : Position) :
  places_inv w ->
  OD.get aid (agents w) = Some agent ->
  p <> Agent.position agent ->
  occupancy w !! p = None ->
  places_inv
    (update_agent aid (Agent.set_position p)
       (set_occupancy
          (<[p := Agent.id agent]> (delete (Agent.position agent) (occupancy w))) w)).
Proof.
  intros [[Hnd Hid] (H1 & H2 & H3)] Hget Hne Hfree.
  set (w1 := set_occupancy _ w).
  assert (forall k, OD.get k (agents (update_agent aid (Agent.set_position p) w1)) =
                    if decide (aid = k) then Some (Agent.set_position p agent)
                    else OD.get k (agents w)) as Hlook.
  { intros k. rewrite update_agent_get. simpl.
    destruct (decide (aid = k)) as [<-|]; [|done]. by rewrite Hget. }
  assert (agents_wf (update_agent aid (Agent.set_position p) w1)) as Hwf.
  { split.
    - by rewrite update_agent_keys.
    - intros k a. rewrite Hlook. destruct (decide (aid = k)) as [<-|]; [|eauto].
      intros [= <-]. simpl. eauto. }
  assert (forall k a,
            OD.get k (agents (update_agent aid (Agent.set_position p) w1)) = Some a ->
            occupancy (update_agent aid (Agent.set_position p) w1) !! Agent.position a
            = Some (Agent.id a)) as Hone.
  { intros k a. rewrite Hlook, update_agent_occupancy. simpl.
    destruct (decide (aid = k)) as [<-|Hk].
    - intros [= <-]. simpl. by rewrite lookup_insert_eq.
    - intros Ha. pose proof (H1 _ _ Ha) as Hocc.
      rewrite lookup_insert_ne by (intros ->; congruence).
      rewrite lookup_delete_ne; [done|].
      intros Hpos. apply Hk. eapply H3; eauto. }
  split; [done|]. split_and!; [done| |by apply positions_injective].
  intros q k. rewrite update_agent_occupancy. simpl.
  destruct (decide (p = q)) as [<-|Hq].
  - rewrite lookup_insert_eq. intros [= <-].
    exists (Agent.set_position p agent). rewrite Hlook.
    rewrite (Hid _ _ Hget). by rewrite decide_True.
  - rewrite lookup_insert_ne by done.
    destruct (decide (Agent.position agent = q)) as [<-|Hq'].
    + by rewrite lookup_delete_eq.
    + rewrite lookup_delete_ne by done. intros Hocc.
      destruct (H2 _ _ Hocc) as (a & Ha & Hpos). exists a. split; [|done].
      rewrite Hlook. destruct (decide (aid = k)) as [<-|]; [|done].
      congruence.
Qed.

Lemma _move_places w aid dx dy : places_inv w -> places_inv (_move w aid dx dy).
Proof.
  intros Hinv. unfold _move.
  destruct (OD.get aid (agents w)) as [agent|] eqn:Hget; [|done].
  destruct (Agent.position agent) as [x y] eqn:Hpos.
  match goal with
  | |- context [let '(nx, ny) := ?t in _] => destruct t as [nx ny] eqn:Hn
  end.
  destruct (bool_decide ((nx, ny) = (x, y))) eqn:Hsame; [done|].
  apply bool_decide_eq_false in Hsame.
  unfold _occupant.
  destruct (occupancy w !! (nx, ny)) as [occupant|] eqn:Hocc.
  - destruct (bool_decide (occupant = Agent.id agent)) eqn:Hme; simpl; [|done].
    apply bool_decide_eq_true in Hme. subst occupant. exfalso.
    destruct Hinv as [[_ Hid] (_ & H2 & _)].
    destruct (H2 _ _ Hocc) as (a & Ha & Hp).
    rewrite (Hid _ _ Hget) in Ha. congruence.
  - simpl.
    eapply places_inv_eq_places; [apply _auto_deposit_frame|].
    eapply places_inv_eq_places;
      [apply eq_all_places, _update_request_position_frame|].
    rewrite <- Hpos. apply relocate_inv; auto. congruence.
Qed.

(** Removing one depleted agent. *)
Lemma remove_inv w k agent :
  places_inv w ->
  OD.get k (agents w) = Some agent ->
  places_inv
    (set_helper_signals (delete k (helper_signals w))
       (set_help_requests (OD.pop k (help_requests w))
          (set_occupancy (delete (Agent.position agent) (occupancy w))
             (set_agents (OD.pop k (agents w)) w)))).
Proof.
  intros [[Hnd Hid] (H1 & H2 & H3)] Hget.
  assert (forall k' a, OD.get k' (OD.pop k (agents w)) = Some a ->
                       k' <> k /\ OD.get k' (agents w) = Some a) as Hlook.
  { intros k' a. destruct (decide (k = k')) as [<-|Hne].
    - by rewrite od_get_pop_eq.
    - rewrite od_get_pop_ne by done. auto. }
  split; [split|split_and!]; simpl.
  - by apply od_NoDup_pop.
  - intros k' a Ha. apply Hlook in Ha as [_ Ha]. eauto.
  - intros k' a Ha. apply Hlook in Ha as [Hne Ha].
    rewrite lookup_delete_ne; [eauto|].
    intros Hpos. apply Hne. symmetry. eapply H3; eauto.
  - intros p k'. destruct (decide (Agent.position agent = p)) as [<-|Hp].
    + by rewrite lookup_delete_eq.
    + rewrite lookup_delete_ne by done. intros Hocc.
      destruct (H2 _ _ Hocc) as (a & Ha & Hpos). exists a. split; [|done].
      rewrite od_get_pop_ne; [done|]. intros <-. congruence.
  - intros k1 k2 a1 a2 Ha1 Ha2. apply Hlook in Ha1 as [_ Ha1].
    apply Hlook in Ha2 as [_ Ha2]. eauto.
Qed.

Lemma od_get_map {V} (f : V -> V) (d : OD.t V) k :
  OD.get k (List.map (fun kv => (kv.1, f kv.2)) d) = f <$> OD.get k d.
Proof.
  induction d as [|[k' v] d IH]; simpl; [done|].
  destruct (decide (k' = k)); done.
Qed.

Lemma od_keys_map {V} (f : V -> V) (d : OD.t V) :
  OD.keys (List.map (fun kv => (kv.1, f kv.2)) d) = OD.keys d.
Proof.
  unfold OD.keys. induction d as [|[k' v] d IH]; simpl; [done|]. by f_equal.
Qed.

Lemma _decay_agent_energy_places w :
  places_inv w -> places_inv (_decay_agent_energy w).
Proof.
  unfold _decay_agent_energy. destruct (agent_energy_decay (cfg w) <=? 0); [done|].
  intros Hinv.
  match goal with |- context [foldl ?f ?w0 ?l] => generalize l; set (w1 := w0) end.
  assert (places_inv w1) as Hw1.
  { eapply places_inv_eq_places; [|exact Hinv].
    set (f := fun a : Agent.t =>
                Agent.set_energy
                  (Z.max 0 (Agent.energy a - agent_energy_decay (cfg w))) a).
    unfold eq_places, w1, place_of. simpl.
    split_and!; [done|apply (od_keys_map f)|].
    intros k. rewrite (od_get_map f). by destruct (OD.get k (agents w)). }
  clearbody w1. clear Hinv. intros l. revert w1 Hw1.
  induction l as [|k l IH]; simpl; intros w1 Hw1; [done|].
  apply IH. destruct (OD.get k (agents w1)) eqn:Hget; [|done].
  by apply remove_inv.
Qed.

Lemma _decay_agent_energy_frame w :
  eq_grid w (_decay_agent_energy w) /\ eq_reactor w (_decay_agent_energy w).
Proof.
  unfold _decay_agent_energy. destruct (agent_energy_decay (cfg w) <=? 0); [done|].
  match goal with |- context [foldl ?f ?w0 ?l] => generalize l; set (w1 := w0) end.
  assert (eq_grid w w1 /\ eq_reactor w w1) as Hw1 by done.
  clearbody w1. intros l. revert w1 Hw1.
  induction l as [|k l IH]; simpl; intros w1 Hw1; [done|].
  apply IH. destruct (OD.get k (agents w1)); [|done].
  destruct Hw1 as [(?&?&?) (?&?)]. by repeat split.
Qed.

(** ** The reactor stays within its capacity *)

(** Whatever [deposit] and [draw] preserve, the world operations
    preserve of the world's reactor. *)
Section ReactorClosed.
Variable Q : Reactor.t -> Prop.
Hypothesis Q_deposit : forall r n, Q r -> Q (Reactor.deposit r n).2.
Hypothesis Q_draw : forall r n, Q r -> Q (Reactor.draw r n).2.

Lemma _deposit_energy_reactor w a :
Q (reactor w) -> Q (reactor (_deposit_energy w a)).
Proof.
intros Hok. unfold _deposit_energy.
destruct (OD.get a (agents w)) as [agent|]; [|done].
destruct (negb _); [done|].
destruct (_ <=? 0); [done|].
match goal with
| |- context [Reactor.deposit ?r ?n] =>
    pose proof (Q_deposit r n Hok) as Hd;
    destruct (Reactor.deposit r n) as [deposited r']
end.
destruct (deposited <=? 0); [done|]. by rewrite update_agent_reactor.
Qed.

Lemma _auto_deposit_reactor w a :
Q (reactor w) -> Q (reactor (_auto_deposit w a)).
Proof.
intros Hok. unfold _auto_deposit. repeat (case_match; try done).
by apply _deposit_energy_reactor.
Qed.

Lemma _move_reactor w a dx dy :
Q (reactor w) -> Q (reactor (_move w a dx dy)).
Proof.
intros Hok. unfold _move.
destruct (OD.get a (agents w)) as [agent|]; [|done].
destruct (Agent.position agent) as [x y].
match goal with
| |- context [let '(nx, ny) := ?t in _] => destruct t as [nx ny]
end.
destruct (bool_decide ((nx, ny) = (x, y))); [done|].
match goal with |- context [if ?c then w else _] => destruct c; [done|] end.
apply _auto_deposit_reactor.
destruct (_update_request_position_frame
            (update_agent a (Agent.set_position (nx, ny))
               (set_occupancy
                  (<[(nx, ny) := Agent.id agent]> (delete (x, y) (occupancy w))) w))
            a) as (_ & (_ & ->) & _).
by rewrite update_agent_reactor.
Qed.

Lemma _consume_reactor_energy_reactor w :
Q (reactor w) -> Q (reactor (_consume_reactor_energy w)).
Proof.
intros Hok. unfold _consume_reactor_energy. case_match; [done|].
simpl. by apply Q_draw.
Qed.
End ReactorClosed.

Lemma _move_grid w a dx dy : eq_grid w (_move w a dx dy).
Proof.
  unfold _move.
  destruct (OD.get a (agents w)) as [agent|]; [|done].
  destruct (Agent.position agent) as [x y].
  match goal with
  | |- context [let '(nx, ny) := ?t in _] => destruct t as [nx ny]
  end.
  destruct (bool_decide ((nx, ny) = (x, y))); [done|].
  match goal with |- context [if ?c then w else _] => destruct c; [done|] end.
  etrans; [|apply _auto_deposit_frame].
  etrans; [|apply eq_all_grid, _update_request_position_frame].
  etrans; [|apply update_agent_eq_grid]. done.
Qed.


(** ** Every primitive operation keeps the invariants *)

Lemma prim_grid_wf w w' : prim w w' -> grid_wf w -> grid_wf w'.
Proof.
  destruct 1; intros Hwf.
  - eapply grid_wf_eq_grid; [apply set_tick_frame|done].
  - eapply grid_wf_eq_grid; [apply _prune_help_requests_frame|done].
  - eapply grid_wf_eq_grid; [apply cancel_help_request_frame|done].
  - eapply grid_wf_eq_grid; [apply _decay_helper_signals_frame|done].
  - eapply grid_wf_eq_grid; [apply _auto_deposit_frame|done].
  - eapply grid_wf_eq_grid; [apply set_pending_action_frame|done].
  - eapply grid_wf_eq_grid; [apply _move_grid|done].
  - eapply _gather_energy_spec; eauto.
  - eapply grid_wf_eq_grid; [apply _deposit_energy_frame|done].
  - eapply grid_wf_eq_grid; [apply _record_deposit_report_frame|done].
  - eapply grid_wf_eq_grid; [apply _register_help_request_frame|done].
  - eapply grid_wf_eq_grid; [apply _give_energy_frame|done].
  - eapply grid_wf_eq_grid; [apply _decay_agent_energy_frame|done].
  - eapply grid_wf_eq_grid; [apply _consume_reactor_energy_frame|done].
  - eapply _apply_reactor_consequences_spec; eauto.
Qed.

Lemma prim_reactor (Q : Reactor.t -> Prop) w w' :
  (forall r n, Q r -> Q (Reactor.deposit r n).2) ->
  (forall r n, Q r -> Q (Reactor.draw r n).2) ->
  prim w w' -> Q (reactor w) -> Q (reactor w').
Proof.
  intros Hd Hw H Hok.
  assert (forall w1 w2, eq_reactor w1 w2 -> Q (reactor w1) -> Q (reactor w2)) as Heq.
  { by intros w1 w2 (_ & ->). }
  destruct H.
  - eapply Heq; [apply set_tick_frame|done].
  - eapply Heq; [apply _prune_help_requests_frame|done].
  - eapply Heq; [apply cancel_help_request_frame|done].
  - eapply Heq; [apply _decay_helper_signals_frame|done].
  - by apply _auto_deposit_reactor.
  - eapply Heq; [apply set_pending_action_frame|done].
  - by apply _move_reactor.
  - eapply Heq; [|done]. eapply _gather_energy_spec; eauto.
  - by apply _deposit_energy_reactor.
  - eapply Heq; [apply _record_deposit_report_frame|done].
  - eapply Heq; [apply _register_help_request_frame|done].
  - eapply Heq; [apply _give_energy_frame|done].
  - eapply Heq; [apply _decay_agent_energy_frame|done].
  - by apply _consume_reactor_energy_reactor.
  - eapply Heq; [|done]. eapply _apply_reactor_consequences_spec; eauto.
Qed.

Lemma prim_places_inv w w' : prim w w' -> places_inv w -> places_inv w'.
Proof.
  destruct 1; intros Hinv.
  - eapply places_inv_eq_places; [apply set_tick_frame|done].
  - eapply places_inv_eq_places; [apply _prune_help_requests_frame|done].
  - eapply places_inv_eq_places; [apply cancel_help_request_frame|done].
  - eapply places_inv_eq_places; [apply _decay_helper_signals_frame|done].
  - eapply places_inv_eq_places; [apply _auto_deposit_frame|done].
  - eapply places_inv_eq_places; [apply set_pending_action_frame|done].
  - by apply _move_places.
  - eapply places_inv_eq_places; [|done]. eapply _gather_energy_spec; eauto.
  - eapply places_inv_eq_places; [apply _deposit_energy_frame|done].
  - eapply places_inv_eq_places; [apply _record_deposit_report_frame|done].
  - eapply places_inv_eq_places; [apply _register_help_request_frame|done].
  - eapply places_inv_eq_places; [apply _give_energy_frame|done].
  - by apply _decay_agent_energy_places.
  - eapply places_inv_eq_places; [apply _consume_reactor_energy_frame|done].
  - eapply places_inv_eq_places; [|done]. eapply _apply_reactor_consequences_spec; eauto.
Qed.

Lemma prim_cfg w w' : prim w w' -> cfg w' = cfg w.
Proof.
  intros H.
  assert (eq_grid w w' \/ eq_reactor w w') as [(? & _)|(? & _)]; [|done..].
  destruct H.
  - left; apply set_tick_frame.
  - left; apply _prune_help_requests_frame.
  - left; apply cancel_help_request_frame.
  - left; apply _decay_helper_signals_frame.
  - left; apply _auto_deposit_frame.
  - left; apply set_pending_action_frame.
  - left; apply _move_grid.
  - right; eapply _gather_energy_spec; eauto.
  - left; apply _deposit_energy_frame.
  - left; apply _record_deposit_report_frame.
  - left; apply _register_help_request_frame.
  - left; apply _give_energy_frame.
  - left; apply _decay_agent_energy_frame.
  - left; apply _consume_reactor_energy_frame.
  - right; eapply _apply_reactor_consequences_spec; eauto.
Qed.

Lemma step_world_inv w g w' g' :
  step w g = Ok (w', g') -> world_inv w -> world_inv w'.
Proof.
  intros H [Hg Hp]. apply step_prims in H. split.
  - eapply (prims_preserve grid_wf); eauto using prim_grid_wf.
  - eapply (prims_preserve places_inv); eauto using prim_places_inv.
Qed.

Lemma step_reactor (Q : Reactor.t -> Prop) w g w' g' :
  (forall r n, Q r -> Q (Reactor.deposit r n).2) ->
  (forall r n, Q r -> Q (Reactor.draw r n).2) ->
  step w g = Ok (w', g') -> Q (reactor w) -> Q (reactor w').
Proof.
  intros Hd Hw H. apply step_prims in H.
  eapply (prims_preserve (fun w => Q (reactor w))); [|exact H].
  intros w1 w2. by apply prim_reactor.
Qed.

Lemma step_reactor_ok w g w' g' :
  step w g = Ok (w', g') -> reactor_ok (reactor w) -> reactor_ok (reactor w').
Proof. apply step_reactor; [apply deposit_ok|apply draw_ok]. Qed.

Lemma step_reactor_capacity w g w' g' :
  step w g = Ok (w', g') ->
  Reactor.capacity (reactor w') = Reactor.capacity (reactor w).
Proof.
  intros H.
  apply (step_reactor (fun r => Reactor.capacity r = Reactor.capacity (reactor w))
           _ _ _ _) in H; [done| | |done].
  - intros r n <-. apply deposit_capacity.
  - intros r n <-. apply draw_capacity.
Qed.

Lemma step_cfg w g w' g' : step w g = Ok (w', g') -> cfg w' = cfg w.
Proof.
  intros H. apply step_prims in H.
  induction H as [|w1 w2 w3 H1 _ IH]; [done|].
  rewrite IH. by apply prim_cfg.
Qed.

(** ** [add_agent] *)


Lemma elem_of_scan_cells wd ht (c : Position) :
  c ∈ scan_cells wd ht <-> 0 <= c.1 < wd /\ 0 <= c.2 < ht.
Proof.
  unfold scan_cells, py_range. split.
  - intros Hin.
    apply list_elem_of_bind in Hin as (ny & Hin & Hny).
    apply list_elem_of_bind in Hin as (nx & Hin & Hnx).
    apply list_elem_of_singleton in Hin as ->. simpl.
    apply elem_of_seqZ in Hny, Hnx. lia.
  - intros [Hx Hy]. destruct c as [x y]. simpl in *.
    apply list_elem_of_bind. exists y. split; [|apply elem_of_seqZ; lia].
    apply list_elem_of_bind. exists x. split; [|apply elem_of_seqZ; lia].
    by apply list_elem_of_singleton.
Qed.

Lemma _ensure_free_position_free w p q :
  _ensure_free_position w p = Ok q -> occupancy w !! q = None.
Proof.
  unfold _ensure_free_position. destruct p as [x y].
  unfold is_occupied, _occupant.
  destruct (occupancy w !! (x, y)) eqn:E; simpl.
  - destruct (List.find _ _) as [c|] eqn:Hf; [|done].
    intros [= <-]. apply find_some in Hf as [_ Hf].
    destruct c as [cx cy]. simpl in Hf.
    by destruct (occupancy w !! (cx, cy)).
  - by intros [= <-].
Qed.

Lemma add_agent_spec w agent w' :
  add_agent w agent = Ok w' ->
  exists p,
    _ensure_free_position w
      (_clamp w (Agent.position agent).1 (Agent.position agent).2) = Ok p /\
    w' = set_occupancy (<[p := Agent.id agent]> (occupancy w))
           (set_agents
              (OD.set (Agent.id agent) (Agent.set_position p agent) (agents w)) w).
Proof.
  unfold add_agent. destruct (Agent.position agent) as [x y]. simpl.
  intros H. apply res_bind_Ok in H as (p & Hp & [= <-]). eauto.
Qed.

Lemma add_agent_places w agent w' :
  OD.get (Agent.id agent) (agents w) = None ->
  add_agent w agent = Ok w' ->
  places_inv w -> places_inv w'.
Proof.
  intros Hfresh H [[Hnd Hid] (H1 & H2 & H3)].
  apply add_agent_spec in H as (p & Hp & ->).
  apply _ensure_free_position_free in Hp.
  set (a' := Agent.set_position p agent).
  assert (forall k a,
            OD.get k (OD.set (Agent.id agent) a' (agents w)) = Some a ->
            (k = Agent.id agent /\ a = a') \/
            (k <> Agent.id agent /\ OD.get k (agents w) = Some a)) as Hlook.
  { intros k a. rewrite od_get_set.
    destruct (decide (Agent.id agent = k)) as [<-|]; [|auto].
    intros [= <-]. auto. }
  assert (agents_wf
            (set_occupancy (<[p := Agent.id agent]> (occupancy w))
               (set_agents (OD.set (Agent.id agent) a' (agents w)) w))) as Hwf.
  { split; simpl.
    - by apply od_NoDup_set.
    - intros k a Ha. apply Hlook in Ha as [[-> ->]|[_ Ha]]; eauto. }
  split; [done|]. split_and!; [| |apply positions_injective; [done|]]; simpl.
  - intros k a Ha. apply Hlook in Ha as [[-> ->]|[Hne Ha]]; simpl.
    + by rewrite lookup_insert_eq.
    + pose proof (H1 _ _ Ha) as Hocc.
      rewrite lookup_insert_ne; [done|]. intros ->. congruence.
  - intros q k. destruct (decide (p = q)) as [<-|Hq].
    + rewrite lookup_insert_eq. intros [= <-]. exists a'.
      by rewrite od_get_set_eq.
    + rewrite lookup_insert_ne by done. intros Hocc.
      destruct (H2 _ _ Hocc) as (a & Ha & Hpos). exists a. split; [|done].
      rewrite od_get_set_ne; [done|]. intros <-. congruence.
  - intros k a Ha. apply Hlook in Ha as [[-> ->]|[Hne Ha]]; simpl.
    + by rewrite lookup_insert_eq.
    + pose proof (H1 _ _ Ha) as Hocc.
      rewrite lookup_insert_ne; [done|]. intros ->. congruence.
Qed.

Lemma add_agent_frame w agent w' :
  add_agent w agent = Ok w' -> eq_grid w w' /\ eq_reactor w w'.
Proof. intros H. apply add_agent_spec in H as (p & _ & ->). done. Qed.

(** ** Construction *)

Lemma __post_init___spec c spawn :
  exists w, __post_init__ c spawn = Ok w /\ cfg w = c /\ tick w = 0 /\
    agents w = [] /\ occupancy w = ∅ /\ grid_wf w /\
    reactor w =
      Reactor.mk (width c `div` 2, height c `div` 2) (reactor_capacity c)
        (Z.max 0 (Z.min (reactor_initial_energy c) (reactor_capacity c))).
Proof.
  unfold __post_init__.
  set (rg := List.map _ (py_range 0 (height c))).
  set (eg := List.map _ rg).
  assert (rows_wf c rg) as Hrg.
  { unfold rows_wf, rg, py_range. split.
    - rewrite length_map, length_seqZ. lia.
    - apply Forall_map, Forall_forall. intros y _. simpl.
      rewrite length_map, length_seqZ. lia. }
  assert (rows_wf c eg) as Heg.
  { destruct Hrg as [Hl Hr]. unfold rows_wf, eg. split.
    - by rewrite length_map.
    - apply Forall_map. eapply Forall_impl; [exact Hr|]. intros row Hrow.
      simpl. by rewrite length_map. }
  set (w0 := mkWorld _ _ _ _ _ _ _ _ _ _).
  destruct (in_bounds w0 (width c `div` 2) (height c `div` 2)) eqn:Hb.
  - unfold in_bounds in Hb. simpl in Hb.
    destruct (grid_set_in_range c rg (width c `div` 2) (height c `div` 2) false)
      as (r1 & _ & Hset1); [done|lia..|].
    destruct (grid_set_in_range c eg (width c `div` 2) (height c `div` 2) 0)
      as (r2 & _ & Hset); [done|lia..|].
    rewrite Hset1. simpl. rewrite Hset. simpl. eexists. split; [done|].
    split_and!; try done. split; simpl.
    + eapply grid_set_rows_wf; [exact Hset|exact Heg].
    + eapply grid_set_rows_wf; [exact Hset1|exact Hrg].
  - exists w0. by split_and!.
Qed.

(** ** Reachable worlds *)

Lemma reachable_cfg c w : reachable c w -> cfg w = c.
Proof.
  induction 1 as [spawn w H|w agent w' _ IH _ H|w g w' g' _ IH H].
  - destruct (__post_init___spec c spawn) as (w0 & Hw0 & Hc & _). congruence.
  - apply add_agent_frame in H as [(-> & _) _]. done.
  - apply step_cfg in H. congruence.
Qed.

Lemma reachable_world_inv c w : reachable c w -> world_inv w.
Proof.
  induction 1 as [spawn w H|w agent w' _ IH Hfresh H|w g w' g' _ IH H].
  - destruct (__post_init___spec c spawn)
      as (w0 & Hw0 & _ & _ & Hag & Hocc & Hwf & _).
    assert (w0 = w) as <- by congruence.
    split; [done|]. unfold places_inv, agents_wf, occupancy_consistent.
    rewrite Hag, Hocc. simpl.
    split_and!; try done; try apply NoDup_nil_2.
  - destruct IH as [Hg Hp]. split.
    + eapply grid_wf_eq_grid; [|exact Hg]. apply add_agent_frame in H. tauto.
    + eapply add_agent_places; eauto.
  - eapply step_world_inv; eauto.
Qed.

Lemma reachable_reactor_ok c w :
  0 <= reactor_capacity c -> reachable c w -> reactor_ok (reactor w).
Proof.
  intros Hcap.
  induction 1 as [spawn w H|w agent w' _ IH Hfresh H|w g w' g' _ IH H].
  - destruct (__post_init___spec c spawn) as (w0 & Hw0 & _ & _ & _ & _ & _ & Hr).
    assert (w0 = w) as <- by congruence.
    rewrite Hr. unfold reactor_ok. simpl. lia.
  - apply add_agent_frame in H as [_ (_ & ->)]. done.
  - eapply step_reactor_ok; eauto.
Qed.

Lemma reachable_reactor_capacity c w :
  reachable c w -> Reactor.capacity (reactor w) = reactor_capacity c.
Proof.
  induction 1 as [spawn w H|w agent w' _ IH Hfresh H|w g w' g' _ IH H].
  - destruct (__post_init___spec c spawn) as (w0 & Hw0 & _ & _ & _ & _ & _ & Hr).
    assert (w0 = w) as <- by congruence. by rewrite Hr.
  - apply add_agent_frame in H as [_ (_ & ->)]. done.
  - apply step_reactor_capacity in H. congruence.
Qed.

(** C1.  In every world reached from a fresh one by [add_agent] calls
    with fresh ids and by [step] calls, each live agent's cell is
    recorded for it in the occupancy table, each occupancy entry names a
    live agent standing on that cell, and no two live agents share a
    cell. *)
Theorem occupancy_positions_consistent (c : Config) (w : World) :
  reachable c w ->
  (forall k a, OD.get k (agents w) = Some a ->
     Agent.id a = k /\
     occupancy w !! Agent.position a = Some (Agent.id a)) /\
  (forall p k, occupancy w !! p = Some k ->
     exists a, OD.get k (agents w) = Some a /\ Agent.position a = p) /\
  (forall k1 k2 a1 a2,
     OD.get k1 (agents w) = Some a1 -> OD.get k2 (agents w) = Some a2 ->
     Agent.position a1 = Agent.position a2 -> k1 = k2).
Proof.
  intros H. apply reachable_world_inv in H as (_ & [_ Hid] & H1 & H2 & H3).
  split_and!; [|exact H2|exact H3].
  intros k a Ha. split; [by apply Hid | by eapply H1].
Qed.

(** C2.  With a non-negative capacity, the reactor of every reachable
    world holds an energy within [0, capacity]; this is so right after
    construction, and a deposit, a draw or a [step] never leaves the
    interval. *)
Theorem reactor_energy_bounded (c : Config) (w : World) :
  0 <= reactor_capacity c ->
  reachable c w ->
  Reactor.capacity (reactor w) = reactor_capacity c /\
  0 <= Reactor.energy (reactor w) <= reactor_capacity c /\
  (forall amount,
     reactor_ok (Reactor.deposit (reactor w) amount).2 /\
     reactor_ok (Reactor.draw (reactor w) amount).2) /\
  (forall g w' g', step w g = Ok (w', g') -> reactor_ok (reactor w')).
Proof.
  intros Hcap H. pose proof (reachable_reactor_ok c w Hcap H) as Hok.
  pose proof (reachable_reactor_capacity c w H) as Hc.
  destruct Hok as [Hlo Hhi]. split_and!; [done|done|by rewrite <- Hc| |].
  - intros amount. split; [by apply deposit_ok|by apply draw_ok].
  - intros g w' g' Hs. eapply step_reactor_ok; eauto. by split.
Qed.

(** ** [cell_energy] *)

Lemma cell_energy_grid_wf w x y :
  grid_wf w ->
  exists e, cell_energy w x y = Ok e /\
    (in_bounds w x y = true -> stored (energy_grid w) x y = Some e) /\
    (in_bounds w x y = false -> e = 0).
Proof.
  intros [Hwf _]. unfold cell_energy.
  destruct (in_bounds w x y) eqn:Hb; simpl.
  - unfold in_bounds in Hb.
    destruct (rows_wf_stored (cfg w) (energy_grid w) x y) as (e & He & Hg);
      [done|lia..|].
    exists e. by split_and!.
  - exists 0. by split_and!.
Qed.

(** C10.  In any world the program can build, [cell_energy] returns for
    every pair of integers: the stored energy of the cell when the pair
    is within bounds, and 0 otherwise; it never raises. *)
Theorem cell_energy_total (c : Config) (w : World) (x y : Z) :
  reachable c w ->
  exists e, cell_energy w x y = Ok e /\
    (in_bounds w x y = true -> stored (energy_grid w) x y = Some e) /\
    (in_bounds w x y = false -> e = 0).
Proof.
  intros H. apply cell_energy_grid_wf. by apply reachable_world_inv in H as [? _].
Qed.

(** ** [add_agent] never fails on a grid with room *)

Lemma in_bounds_iff w x y :
  in_bounds w x y = true <-> 0 <= x < width (cfg w) /\ 0 <= y < height (cfg w).
Proof. unfold in_bounds. lia. Qed.



(** ** Deposits and reports *)

Lemma ledger_push_last ledger entry : last (ledger_push ledger entry) = Some entry.
Proof.
  unfold ledger_push. case_match eqn:E.
  - destruct ledger as [|e ledger]; [by vm_compute in E|].
    simpl. rewrite drop_0. apply last_snoc.
  - apply last_snoc.
Qed.

Lemma _record_deposit_report_credit w aid agent claimed :
  OD.get aid (agents w) = Some agent ->
  0 < Agent.pending_report agent ->
  Agent.pending_report agent <= claimed ->
  _record_deposit_report w aid claimed =
    set_deposit_reports
      (ledger_push (deposit_reports w)
         (tick w, Agent.id agent, Agent.pending_report agent, claimed,
          negb (claimed =? Agent.pending_report agent)))
      (update_agent aid (Agent.set_pending_report 0) w).
Proof.
  intros Hget Hpos Hle. unfold _record_deposit_report. rewrite Hget.
  replace (Agent.pending_report agent <=? 0) with false by lia. simpl.
  replace (0 <? Agent.pending_report agent) with true by lia.
  autorewrite with upd.
  replace (Z.max 0 claimed) with claimed by lia.
  replace (Z.min (Agent.pending_report agent) claimed)
    with (Agent.pending_report agent) by lia.
  replace (Z.max 0 (Agent.pending_report agent - Agent.pending_report agent))
    with 0 by lia.
  done.
Qed.

Lemma _deposit_energy_credit w aid agent :
  OD.get aid (agents w) = Some agent ->
  exists d, 0 <= d /\
    Reactor.energy (reactor (_deposit_energy w aid)) = Reactor.energy (reactor w) + d /\
    OD.get aid (agents (_deposit_energy w aid)) =
      Some (Agent.set_pending_report (Agent.pending_report agent + d)
              (Agent.set_energy (Agent.energy agent - d) agent)).
Proof.
  intros Hget.
  assert (Agent.set_pending_report (Agent.pending_report agent + 0)
            (Agent.set_energy (Agent.energy agent - 0) agent) = agent) as Hsame.
  { destruct agent. unfold Agent.set_pending_report, Agent.set_energy. simpl.
    f_equal; lia. }
  unfold _deposit_energy. rewrite Hget.
  destruct (negb _).
  { exists 0. rewrite Hsame. split_and!; [lia|lia|done]. }
  destruct (_ <=? 0) eqn:Hex.
  { exists 0. rewrite Hsame. split_and!; [lia|lia|done]. }
  match goal with
  | |- context [Reactor.deposit ?r ?n] =>
      destruct (Reactor.deposit r n) as [deposited r'] eqn:Hd
  end.
  destruct (deposited <=? 0) eqn:Hdep.
  - exists 0. rewrite Hsame. simpl. split_and!; [lia| |done].
    unfold Reactor.deposit, Reactor.is_full in Hd.
    repeat case_match; inv_res; simpl; lia.
  - exists deposited. rewrite update_agent_reactor, update_agent_get. simpl.
    rewrite decide_True by done. rewrite Hget. simpl.
    split_and!; [lia| |done].
    unfold Reactor.deposit, Reactor.is_full in Hd.
    repeat case_match; inv_res; simpl; lia.
Qed.

(** C3.  When an agent's pending-report balance is [A > 0], a REPORT
    claiming [A] appends a ledger entry that credits [A] with the lie
    flag off and empties the balance; a REPORT claiming more than [A]
    credits [A] only and the entry carries the lie flag; with no pending
    balance and a non-positive claim REPORT changes nothing.  A DEPOSIT
    made with an empty balance leaves as balance exactly what the
    reactor accepted. *)
Theorem report_after_deposit (w : World) (aid : AgentID) (agent : Agent.t)
    (g : RNG) :
  OD.get aid (agents w) = Some agent ->
  let A := Agent.pending_report agent in
  let reported claimed lie :=
    set_deposit_reports
      (ledger_push (deposit_reports w) (tick w, Agent.id agent, A, claimed, lie))
      (update_agent aid (Agent.set_pending_report 0) w) in
  (0 < A ->
     apply w (report_action aid A) g = Ok (reported A false, g) /\
     last (deposit_reports (reported A false)) =
       Some (tick w, Agent.id agent, A, A, false) /\
     OD.get aid (agents (reported A false)) =
       Some (Agent.set_pending_report 0 agent)) /\
  (forall claimed, 0 < A -> A < claimed ->
     apply w (report_action aid claimed) g = Ok (reported claimed true, g) /\
     last (deposit_reports (reported claimed true)) =
       Some (tick w, Agent.id agent, A, claimed, true) /\
     OD.get aid (agents (reported claimed true)) =
       Some (Agent.set_pending_report 0 agent)) /\
  (forall claimed, A = 0 -> claimed <= 0 ->
     apply w (report_action aid claimed) g = Ok (w, g)) /\
  (A = 0 ->
   exists d, 0 <= d /\
     Reactor.energy (reactor (_deposit_energy w aid)) =
       Reactor.energy (reactor w) + d /\
     exists agent',
       OD.get aid (agents (_deposit_energy w aid)) = Some agent' /\
       Agent.pending_report agent' = d /\
       Agent.energy agent' = Agent.energy agent - d).
Proof.
  intros Hget A reported.
  assert (forall claimed lie,
            last (deposit_reports (reported claimed lie)) =
              Some (tick w, Agent.id agent, A, claimed, lie) /\
            OD.get aid (agents (reported claimed lie)) =
              Some (Agent.set_pending_report 0 agent)) as Hrep.
  { intros claimed lie. unfold reported. simpl. split.
    - apply ledger_push_last.
    - rewrite update_agent_get, decide_True by done. by rewrite Hget. }
  split_and!.
  - intros HA. split; [|apply Hrep].
    unfold apply, report_action. simpl. rewrite Hget. simpl.
    rewrite (_record_deposit_report_credit w aid agent A Hget) by (fold A; lia).
    fold A. by rewrite Z.eqb_refl.
  - intros claimed HA Hc. split; [|apply Hrep].
    unfold apply, report_action. simpl. rewrite Hget. simpl.
    rewrite (_record_deposit_report_credit w aid agent claimed Hget)
      by (fold A; lia).
    fold A. by replace (claimed =? A) with false by lia.
  - intros claimed HA Hc. unfold apply, report_action. simpl. rewrite Hget.
    simpl. unfold _record_deposit_report. rewrite Hget. fold A.
    by replace ((A <=? 0) && (Z.max 0 claimed <=? 0)) with true by lia.
  - intros HA. destruct (_deposit_energy_credit w aid agent Hget)
      as (d & Hd & Hr & Ha).
    exists d. split_and!; [done..|]. eexists. split; [exact Ha|].
    simpl. fold A. split; lia.
Qed.

(** ** Gifts *)

Lemma _maybe_clear_help_request_lookup w aid agent :
  OD.get aid (agents w) = Some agent ->
  OD.get (Agent.id agent) (help_requests (_maybe_clear_help_request w aid)) =
  reevaluated w agent (Agent.energy agent)
    (OD.get (Agent.id agent) (help_requests w)).
Proof.
  intros Hget. unfold _maybe_clear_help_request, reevaluated. rewrite Hget.
  destruct (OD.get (Agent.id agent) (help_requests w)) as [[[pos amt] tl]|] eqn:E;
    [|by rewrite E].
  destruct (_ <? Agent.energy agent) eqn:Hth; simpl.
  { apply od_get_pop_eq. }
  replace (Z.max (aid_request_threshold (cfg w)) (agent_energy_decay (cfg w)) -
           Agent.energy agent <? 0) with false by lia.
  replace (Z.max 0 (Z.max (aid_request_threshold (cfg w))
                      (agent_energy_decay (cfg w)) - Agent.energy agent))
    with (Z.max (aid_request_threshold (cfg w)) (agent_energy_decay (cfg w)) -
          Agent.energy agent) by lia.
  destruct (Agent.max_capacity agent);
    (case_match; simpl; [apply od_get_pop_eq | apply od_get_set_eq]).
Qed.

Lemma py_min_gift w donor recipient amount :
  py_min
    (Agent.energy donor -
     (Z.max 0 (reactor_agent_reserve (cfg w)) + Z.max 0 (aid_give_buffer (cfg w))))
    ([Z.max (Z.max 1 (aid_give_min_amount (cfg w))) (Z.max 0 amount);
      match _request_entry w (Agent.id recipient) with
      | Some (_, outstanding, _) => outstanding
      | None => Z.max 0 amount
      end] ++
     match Agent.max_capacity recipient with
     | None => []
     | Some cap => [Z.max 0 (cap - Agent.energy recipient)]
     end) = gift_amount w donor recipient amount.
Proof.
  unfold gift_amount, py_min.
  destruct (_request_entry w (Agent.id recipient)) as [[[? ?] ?]|];
    destruct (Agent.max_capacity recipient); simpl; lia.
Qed.

(** C4, as the code has it.  GIVE does nothing when the target does not
    exist, is the donor, or stands further than Chebyshev distance 1, and
    when [gift_amount] is not positive.  Otherwise exactly [gift_amount]
    leaves the donor and reaches the recipient, the donor is marked as
    helper at the current tick, and the recipient's request entry
    becomes [request_after_gift]: reduced by the gift or dropped, then
    re-evaluated against the recipient's new energy. *)
Theorem give_transfers_gift_amount (w : World) (donor_key target : AgentID)
    (amount : Z) (donor : Agent.t) (g : RNG) :
  OD.get donor_key (agents w) = Some donor ->
  (OD.get target (agents w) = None ->
     apply w (give_action donor_key target amount) g = Ok (w, g)) /\
  (forall recipient,
     OD.get target (agents w) = Some recipient ->
     let far := chebyshev (Agent.position donor) (Agent.position recipient) in
     let transfer := gift_amount w donor recipient amount in
     (Agent.id recipient = Agent.id donor \/ 1 < far \/ transfer <= 0 ->
        apply w (give_action donor_key target amount) g = Ok (w, g)) /\
     (Agent.id recipient <> Agent.id donor -> far <= 1 -> 0 < transfer ->
        exists w',
          apply w (give_action donor_key target amount) g = Ok (w', g) /\
          OD.get donor_key (agents w') =
            Some (Agent.set_energy (Agent.energy donor - transfer) donor) /\
          OD.get target (agents w') =
            Some (Agent.set_energy (Agent.energy recipient + transfer) recipient) /\
          (forall k, k <> donor_key -> k <> target ->
             OD.get k (agents w') = OD.get k (agents w)) /\
          helper_signals w' !! Agent.id donor = Some (tick w) /\
          OD.get (Agent.id recipient) (help_requests w') =
            request_after_gift w recipient transfer)).
Proof.
  intros Hdonor.
  assert (forall w', apply w (give_action donor_key target amount) g = Ok (w', g)
                     <-> _give_energy w donor_key target amount = w') as Happ.
  { intros w'. unfold apply, give_action. simpl. rewrite Hdonor. simpl.
    split; [by intros [= ->]|by intros ->]. }
  split.
  { intros Hnone. apply Happ. unfold _give_energy. by rewrite Hdonor, Hnone. }
  intros recipient Hrec far transfer.
  assert (_give_energy w donor_key target amount =
          if bool_decide (Agent.id recipient = Agent.id donor) then w
          else if 1 <? far then w
          else if Agent.energy donor -
                  (Z.max 0 (reactor_agent_reserve (cfg w)) +
                   Z.max 0 (aid_give_buffer (cfg w))) <=? 0 then w
          else if transfer <=? 0 then w
          else
            let w1 :=
              update_agent target
                (fun a => Agent.set_energy (Agent.energy a + transfer) a)
                (update_agent donor_key
                   (fun a => Agent.set_energy (Agent.energy a - transfer) a) w) in
            let w2 :=
              match _request_entry w (Agent.id recipient) with
              | Some (_, outstanding, _) =>
                  if 0 <? Z.max 0 (outstanding - transfer)
                  then set_help_requests
                         (OD.set (Agent.id recipient)
                            (Agent.position recipient,
                             Z.max 0 (outstanding - transfer), tick w1)
                            (help_requests w1)) w1
                  else _clear_help_request w1 (Agent.id recipient)
              | None => w1
              end in
            let w3 := _maybe_clear_help_request w2 target in
            set_helper_signals (<[Agent.id donor := tick w3]> (helper_signals w3)) w3)
    as Hgive.
  { unfold _give_energy. rewrite Hdonor, Hrec.
    unfold far, chebyshev, transfer. rewrite <- py_min_gift.
    destruct (_request_entry w (Agent.id recipient)) as [[[? ?] ?]|]; done. }
  assert (transfer <=
          Agent.energy donor -
          (Z.max 0 (reactor_agent_reserve (cfg w)) +
           Z.max 0 (aid_give_buffer (cfg w)))) as Hspare.
  { unfold transfer, gift_amount.
    destruct (_request_entry w (Agent.id recipient)) as [[[? ?] ?]|];
      destruct (Agent.max_capacity recipient); lia. }
  split.
  - intros Hno. apply Happ. rewrite Hgive.
    destruct (bool_decide _) eqn:Hid; [done|].
    destruct (1 <? far) eqn:Hfar; [done|].
    destruct (_ <=? 0) eqn:Hel; [done|].
    destruct (transfer <=? 0) eqn:Htr; [done|].
    apply bool_decide_eq_false in Hid. destruct Hno as [?|[?|?]]; [done|lia..].
  - intros Hid Hfar Htr.
    eexists. split; [apply Happ; reflexivity|]. rewrite Hgive.
    rewrite bool_decide_false by done.
    replace (1 <? far) with false by lia.
    replace (_ <=? 0) with false by lia.
    replace (transfer <=? 0) with false by lia.
    assert (donor_key <> target) as Hkeys by congruence.
    cbv zeta.
    set (w1 := update_agent target _ (update_agent donor_key _ w)).
    assert (OD.get target (agents w1) =
            Some (Agent.set_energy (Agent.energy recipient + transfer) recipient))
      as Hrec1.
    { unfold w1. rewrite !update_agent_get, decide_True, decide_False by done.
      by rewrite Hrec. }
    assert (help_requests w1 = help_requests w /\ tick w1 = tick w /\
            cfg w1 = cfg w /\ helper_signals w1 = helper_signals w)
      as (Hh1 & Ht1 & Hc1 & Hs1).
    { unfold w1. by autorewrite with upd. }
    set (w2 := match _request_entry w (Agent.id recipient) with
               | Some _ => _ | None => w1 end).
    assert (agents w2 = agents w1 /\ tick w2 = tick w /\ cfg w2 = cfg w /\
            helper_signals w2 = helper_signals w /\
            OD.get (Agent.id recipient) (help_requests w2) =
              match _request_entry w (Agent.id recipient) with
              | Some (_, outstanding, _) =>
                  if 0 <? outstanding - transfer
                  then Some (Agent.position recipient, outstanding - transfer, tick w)
                  else None
              | None => OD.get (Agent.id recipient) (help_requests w)
              end) as (Ha2 & Ht2 & Hc2 & Hs2 & Hr2).
    { unfold w2.
      destruct (_request_entry w (Agent.id recipient)) as [[[? out] ?]|].
      - destruct (0 <? out - transfer) eqn:Hout.
        + replace (0 <? Z.max 0 (out - transfer)) with true by lia. simpl.
          rewrite od_get_set_eq, Ht1, Hc1, Hs1.
          by replace (Z.max 0 (out - transfer)) with (out - transfer) by lia.
        + replace (0 <? Z.max 0 (out - transfer)) with false by lia. simpl.
          by rewrite od_get_pop_eq, Ht1, Hc1, Hs1.
      - by rewrite Ht1, Hc1, Hs1, Hh1. }
    pose proof (_maybe_clear_help_request_frame w2 target)
      as (_ & _ & (_ & _ & Hpl)).
    assert (forall k, OD.get k (agents (_maybe_clear_help_request w2 target)) =
                      OD.get k (agents w2)) as Ha3.
    { intros k. unfold _maybe_clear_help_request. by repeat case_match. }
    simpl. split_and!.
    + rewrite Ha3, Ha2. unfold w1.
      rewrite !update_agent_get, decide_False, decide_True by done.
      by rewrite Hdonor.
    + by rewrite Ha3, Ha2.
    + intros k Hk1 Hk2. rewrite Ha3, Ha2. unfold w1.
      by rewrite !update_agent_get, !decide_False by done.
    + rewrite lookup_insert_eq. f_equal.
      transitivity (tick w2); [|done].
      unfold _maybe_clear_help_request. by repeat case_match.
    + replace (Agent.id recipient)
        with (Agent.id (Agent.set_energy (Agent.energy recipient + transfer) recipient))
        at 1 by done.
      rewrite _maybe_clear_help_request_lookup by (by rewrite Ha2).
      simpl. rewrite Hr2. unfold request_after_gift, reevaluated.
      rewrite Hc2, Ht2. simpl.
      destruct (_request_entry w (Agent.id recipient)) as [[[? out] ?]|];
        [destruct (0 <? out - transfer)|]; done.
Qed.

(** ** Scenarios for gifts and helper signals *)

(** The scenario of the contract: donor at 200 with reserve 80, buffer
    10 and minimum gift 5, neighbour at 5 asking for 20.  The gift is
    20, the donor ends at 180, the neighbour at 25, and the request is
    gone. *)
Lemma give_scenario :
  let w := pair_world 200 5 20 in
  gift_amount w (new_agent "donor" (0, 0) 200) (new_agent "needy" (1, 0) 5) 20 = 20 /\
  exists w',
    apply w (give_action "donor" "needy" 20) zero_rng = Ok (w', zero_rng) /\
    Agent.energy <$> OD.get "donor" (agents w') = Some 180 /\
    Agent.energy <$> OD.get "needy" (agents w') = Some 25 /\
    helper_signals w' !! "donor" = Some 7 /\
    OD.get "needy" (help_requests w') = None.
Proof.
  intros w. split; [reflexivity|].
  destruct (give_transfers_gift_amount w "donor" "needy" 20
              (new_agent "donor" (0, 0) 200) zero_rng eq_refl) as [_ H].
  destruct (H (new_agent "needy" (1, 0) 5) eq_refl) as [_ Hgive].
  destruct Hgive as (w' & Happ & Hd & Hn & _ & Hs & Hr).
  - vm_compute. congruence.
  - vm_compute. congruence.
  - reflexivity.
  - exists w'. split_and!; [exact Happ| | |exact Hs|].
    + by rewrite Hd.
    + by rewrite Hn.
    + etrans; [exact Hr|reflexivity].
Defined.

(** C4 as stated fails: a gift can leave the recipient with a larger
    request than before.  The recipient holds 20 and has 10 outstanding;
    the donor can spare 5.  After the gift of 5 the recipient holds 25,
    and its request is re-evaluated to the shortfall 40 - 25 = 15. *)
Lemma give_request_can_grow :
  let w := pair_world 95 20 10 in
  let w' := _give_energy w "donor" "needy" 10 in
  apply w (give_action "donor" "needy" 10) zero_rng = Ok (w', zero_rng) /\
  Agent.energy <$> OD.get "donor" (agents w') = Some 90 /\
  Agent.energy <$> OD.get "needy" (agents w') = Some 25 /\
  OD.get "needy" (help_requests w) = Some ((1, 0), 10, 3) /\
  OD.get "needy" (help_requests w') = Some ((1, 0), 15, 7) /\
  ~ (forall p amount t,
       OD.get "needy" (help_requests w') = Some (p, amount, t) -> amount < 10).
Proof.
  intros w w'. split_and!; try reflexivity.
  intros H. specialize (H (1, 0) 15 7 eq_refl). lia.
Qed.

(** The same growth in a run from a fresh world.  The request for 10 is
    filed at tick 1; the two agents walk towards each other; at tick 9
    the donor, down to 95, gives the 5 it can spare, and the request
    stands at 40 - 27 = 13 when the tick ends (each agent then loses one
    unit to decay). *)
Lemma request_grows_in_a_run :
  (s ← apart_run 8; Ok (request_view s.1)) =
    Ok (8, Some 95, Some 22, Some ((6, 0), 10, 1), None) /\
  (s ← apart_run 9; Ok (request_view s.1)) =
    Ok (9, Some 89, Some 26, Some ((5, 0), 13, 9), Some 9).
Proof. split; vm_compute; reflexivity. Qed.

(** C8, evaluated.  With the default [help_signal_duration = -1], which
    is documented to disable expiry, the donor gives at tick 2 and is
    reported as a recent helper during that tick.  One tick
    later the donor is alive, its signal is still on file with tick 2,
    and [is_recent_helper] answers no. *)
Lemma helper_signal_unseen_next_tick :
  (s ← duo_run 2; Ok (helper_view s.1)) = Ok (2, -1, Some 2, Some 163, true) /\
  (s ← duo_run 3; Ok (helper_view s.1)) = Ok (3, -1, Some 2, Some 162, false).
Proof. split; vm_compute; reflexivity. Qed.

(** The same in general: once the tick has moved on, a signal is never
    seen when expiry is disabled, although it is never removed. *)
Lemma disabled_expiry_hides_signal w a t :
  help_signal_duration (cfg w) < 0 ->
  helper_signals w !! a = Some t -> t < tick w ->
  is_recent_helper w a = false /\ _decay_helper_signals w = w.
Proof.
  intros Hd Ht Hlt. unfold is_recent_helper, _decay_helper_signals.
  rewrite Ht. replace (help_signal_duration (cfg w) <? 0) with true by lia.
  split; [lia|done].
Qed.

(** ** The theorems at work on concrete worlds *)

Lemma duo_reachable : reachable default_config (duo_world 1).
Proof.
  eapply (reach_step _ (duo_world 0) (duo_rng 0) _ (duo_rng 1));
    [|vm_compute; reflexivity].
  eapply (reach_add _
            (from_Ok blank_world
               (w ← __post_init__ default_config barren;
                add_agent w (new_agent "donor" (0, 0) 200)))
            (new_agent "needy" (1, 0) 5));
    [|vm_compute; reflexivity..].
  eapply (reach_add _
            (from_Ok blank_world (__post_init__ default_config barren))
            (new_agent "donor" (0, 0) 200));
    [|vm_compute; reflexivity..].
  eapply (reach_init _ barren). vm_compute; reflexivity.
Qed.

Lemma occupancy_positions_consistent_witness :
  occupancy (duo_world 1) !! (0, 1) = Some "donor" /\
  occupancy (duo_world 1) !! (1, 0) = Some "needy" /\
  (forall p k, occupancy (duo_world 1) !! p = Some k ->
     exists a, OD.get k (agents (duo_world 1)) = Some a /\ Agent.position a = p).
Proof.
  destruct (occupancy_positions_consistent default_config (duo_world 1)
              duo_reachable) as (H1 & H2 & _).
  split_and!; [| |exact H2].
  - apply (H1 "donor" (Agent.set_energy 199 (new_agent "donor" (0, 1) 200))).
    vm_compute; reflexivity.
  - apply (H1 "needy" (Agent.set_energy 4 (new_agent "needy" (1, 0) 5))).
    vm_compute; reflexivity.
Defined.

Lemma reactor_energy_bounded_witness :
  0 <= Reactor.energy (reactor (duo_world 1)) <= 1000.
Proof.
  destruct (reactor_energy_bounded default_config (duo_world 1))
    as (_ & H & _).
  - vm_compute. discriminate.
  - exact duo_reachable.
  - exact H.
Defined.

Lemma cell_energy_total_witness :
  (exists e, cell_energy (duo_world 1) 3 2 = Ok e) /\
  (exists e, cell_energy (duo_world 1) (-1) 40 = Ok e /\ e = 0).
Proof.
  split.
  - destruct (cell_energy_total default_config (duo_world 1) 3 2 duo_reachable)
      as (e & He & _). exists e. exact He.
  - destruct (cell_energy_total default_config (duo_world 1) (-1) 40 duo_reachable)
      as (e & He & _ & Hz). exists e. split; [exact He|].
    apply Hz. vm_compute. reflexivity.
Defined.

Lemma reactor_deposit_draw_witness :
  Reactor.deposit (Reactor.mk (8, 6) 1000 990) 25 =
    (10, Reactor.mk (8, 6) 1000 1000) /\
  Reactor.deposit (Reactor.mk (8, 6) 1000 1000) 25 =
    (0, Reactor.mk (8, 6) 1000 1000) /\
  Reactor.draw (Reactor.mk (8, 6) 1000 4) 9 = (4, Reactor.mk (8, 6) 1000 0) /\
  (Reactor.draw (Reactor.mk (8, 6) 1000 0) 9).1 = 0.
Proof.
  split_and!.
  - destruct (reactor_deposit_draw_spec (Reactor.mk (8, 6) 1000 990) 25)
      as (_ & H & _). rewrite H; [reflexivity|reflexivity..].
  - destruct (reactor_deposit_draw_spec (Reactor.mk (8, 6) 1000 1000) 25)
      as (H & _). apply H. right. reflexivity.
  - destruct (reactor_deposit_draw_spec (Reactor.mk (8, 6) 1000 4) 9)
      as (_ & _ & _ & H & _). rewrite H; reflexivity.
  - destruct (reactor_deposit_draw_spec (Reactor.mk (8, 6) 1000 0) 9)
      as (_ & _ & _ & _ & H & _). apply H. reflexivity.
Defined.


Lemma report_after_deposit_witness :
  exists w',
    apply owing_world (report_action "a" 7) zero_rng = Ok (w', zero_rng) /\
    last (deposit_reports w') = Some (4, "a", 7, 7, false) /\
    Agent.pending_report <$> OD.get "a" (agents w') = Some 0.
Proof.
  destruct (report_after_deposit owing_world "a"
              (Agent.set_pending_report 7 (new_agent "a" (8, 6) 80)) zero_rng
              eq_refl) as (H & _).
  destruct H as (Happ & Hlast & Hget); [reflexivity|].
  eexists. split_and!; [exact Happ|exact Hlast|].
  etrans; [exact (f_equal (fmap Agent.pending_report) Hget)|reflexivity].
Defined.

(** ** The altruistic step of the policy *)

Section SortHead.
Context {A : Type} (le : A -> A -> bool).
Hypothesis le_total : forall a b, le a b = false -> le b a = true.
Hypothesis le_trans : forall a b c, le a b = true -> le b c = true -> le a c = true.

Lemma le_refl_total a : le a a = true.
Proof. pose proof (le_total a a) as H. destruct (le a a); auto. Qed.

(** The head of a stable sort is the first least element. *)
Lemma sort_by_head l :
  l <> [] ->
  exists best rest before after,
    sort_by le l = best :: rest /\
    l = before ++ best :: after /\
    (forall o, o ∈ l -> le best o = true) /\
    (forall o, o ∈ before -> le o best = false).
Proof.
  induction l as [|x l IH]; [done|]. intros _.
  destruct l as [|y l].
  { exists x, [], [], []. simpl. split_and!; try done.
    - intros o Ho. apply list_elem_of_singleton in Ho as ->. apply le_refl_total.
    - intros o Ho. by apply elem_of_nil in Ho. }
  destruct IH as (b & r & bf & af & Hs & Hl & Hmin & Hbf); [done|].
  change (sort_by le (x :: y :: l)) with (insert_sorted le x (sort_by le (y :: l))).
  rewrite Hs. simpl. destruct (le x b) eqn:Hxb.
  - exists x, (b :: r), [], (y :: l). split_and!; try done.
    + intros o Ho. apply elem_of_cons in Ho as [->|Ho]; [apply le_refl_total|].
      eapply le_trans; [exact Hxb|]. by apply Hmin.
    + intros o Ho. by apply elem_of_nil in Ho.
  - exists b, (insert_sorted le x r), (x :: bf), af. split_and!.
    + done.
    + by rewrite Hl.
    + intros o Ho. apply elem_of_cons in Ho as [->|Ho]; [by apply le_total|].
      by apply Hmin.
    + intros o Ho. apply elem_of_cons in Ho as [->|Ho]; [done|]. by apply Hbf.
Qed.
End SortHead.

Lemma option_le_total a b : option_le a b = false -> option_le b a = true.
Proof. unfold option_le, key_le. simpl. lia. Qed.

Lemma option_le_trans a b c :
  option_le a b = true -> option_le b c = true -> option_le a c = true.
Proof. unfold option_le, key_le. simpl. lia. Qed.

Lemma request_options_spec self reqs o :
  o ∈ request_options self reqs <->
  (opt_target o, (opt_pos o, opt_need o)) ∈ reqs /\
  opt_target o <> Agent.id self /\
  opt_manhattan o = manhattan (Agent.position self) (opt_pos o) /\
  opt_manhattan o <= Agent.vision_radius self /\
  opt_chebyshev o = chebyshev (Agent.position self) (opt_pos o) /\
  opt_neg_need o = - opt_need o.
Proof.
  unfold request_options, manhattan, chebyshev.
  destruct (Agent.position self) as [x y]. rewrite list_elem_of_omap. simpl. split.
  - intros ([tid [tpos need]] & Hin & Ho).
    destruct (bool_decide (tid = Agent.id self)) eqn:Hid; [done|].
    apply bool_decide_eq_false in Hid.
    destruct (_ <=? Agent.vision_radius self) eqn:Hv; [|done].
    injection Ho as <-. simpl. split_and!; try done. lia.
  - intros (Hin & Hid & Hm & Hv & Hc & Hn).
    exists (opt_target o, (opt_pos o, opt_need o)). split; [done|].
    rewrite bool_decide_false by done.
    rewrite <- Hm. replace (opt_manhattan o <=? Agent.vision_radius self) with true by lia.
    destruct o. simpl in *. by subst.
Qed.

Lemma bind_Ok_l {A B} (a : A) (k : A -> Res B) : Ok a ≫= k = k a.
Proof. reflexivity. Qed.

Lemma res_mapM_Ok {A B} (f : A -> Res B) l :
  (forall x, x ∈ l -> exists y, f x = Ok y) -> exists ys, res_mapM f l = Ok ys.
Proof.
  induction l as [|x l IH]; intros H; simpl; [eauto|].
  destruct (H x) as (y & ->); [by left|].
  destruct IH as (ys & ->); [intros ? ?; apply H; by right|].
  simpl. eauto.
Qed.

Lemma visible_energy_Ok w center radius :
  grid_wf w -> exists cells, visible_energy w center radius = Ok cells.
Proof.
  intros [Hwf _]. unfold visible_energy. destruct center as [cx cy].
  apply res_mapM_Ok. intros c Hc.
  apply list_elem_of_In, filter_In in Hc as [_ Hb].
  apply in_bounds_iff in Hb.
  destruct (rows_wf_stored (cfg w) (energy_grid w) c.1 c.2) as (e & _ & ->);
    [done|lia..|].
  simpl. eauto.
Qed.

Lemma available_moves_nonempty w agent : available_moves w agent <> [].
Proof.
  unfold available_moves. destruct (Agent.position agent).
  by destruct (List.filter _ CARDINAL_MOVES).
Qed.

Lemma best_move_towards_Some x y moves target :
  moves <> [] -> target <> (x, y) ->
  exists d, best_move_towards x y moves target = Some d.
Proof.
  intros Hm Ht. unfold best_move_towards.
  rewrite bool_decide_false by done.
  destruct (List.find _ _); [eauto|].
  destruct moves as [|d moves]; [done|]. simpl.
  match goal with
  | |- context [foldl ?f ?s moves] =>
      assert (forall l s0, is_Some s0.1 -> is_Some s0.2 ->
                is_Some (foldl f s0 l).1) as Hfold
  end.
  { induction l as [|m l IH]; intros [b1 b2] H1 H2; simpl in *; [done|].
    destruct H1 as [m1 ->], H2 as [s1 ->].
    destruct (_ <? s1); apply IH; simpl; eauto. }
  match goal with
  | |- context [foldl ?f ?s moves] => destruct (Hfold moves s) as [d' Hd']
  end; simpl; eauto.
Qed.

Lemma choose_help_cfg self w w' moves reqs :
  cfg w' = cfg w -> choose_help self w' moves reqs = choose_help self w moves reqs.
Proof.
  intros H. unfold choose_help, shareable_energy, policy_give_min,
    policy_reserve, policy_give_buffer, policy_decay. by rewrite H.
Qed.

(** The help step on the list of options it builds.  When the agent has
    nothing to report, can spare at least the minimum gift and the list
    is not empty, the option it acts on is nearest by Manhattan
    distance; among the nearest it asks for the most; among those it is
    the first of the list.  At Chebyshev distance at most 1 the agent
    emits GIVE for [min shareable (max give_min need)], otherwise it
    moves towards it. *)
Lemma choose_help_first_least_option (self : Agent.t) (w : World) (g : RNG) :
  grid_wf w ->
  Agent.pending_report self <= 0 ->
  policy_give_min w <= shareable_energy self w ->
  let options := request_options self (active_help_requests w).1 in
  options <> [] ->
  exists best before after,
    options = before ++ best :: after /\
    (forall o, o ∈ options -> opt_manhattan best <= opt_manhattan o) /\
    (forall o, o ∈ options -> opt_manhattan o = opt_manhattan best ->
               opt_need o <= opt_need best) /\
    (forall o, o ∈ before ->
               ~ (opt_manhattan o = opt_manhattan best /\
                  opt_need o = opt_need best)) /\
    (opt_chebyshev best <= 1 ->
       exists w',
         choose self w g =
           Ok (give_action (Agent.id self) (opt_target best)
                 (Z.min (shareable_energy self w)
                        (Z.max (policy_give_min w) (opt_need best))),
               w', g)) /\
    (1 < opt_chebyshev best ->
       exists d w',
         best_move_towards (Agent.position self).1 (Agent.position self).2
           (available_moves w self) (opt_pos best) = Some d /\
         choose self w g = Ok (move_action self d, w', g)).
Proof.
  intros Hwf Hpend Hshare options Hne.
  destruct (sort_by_head option_le option_le_total option_le_trans options Hne)
    as (best & rest & before & after & Hsort & Hsplit & Hmin & Hbefore).
  assert (forall o, o ∈ options -> opt_neg_need o = - opt_need o) as Hneg.
  { intros o Ho. apply request_options_spec in Ho. tauto. }
  assert (best ∈ options) as Hbest.
  { rewrite Hsplit. apply elem_of_app. right. by left. }
  exists best, before, after.
  assert (forall o, o ∈ options -> opt_manhattan best <= opt_manhattan o) as H1.
  { intros o Ho. specialize (Hmin o Ho). unfold option_le, key_le in Hmin.
    simpl in Hmin. lia. }
  (* what [choose] computes once the help step answers *)
  assert (forall act,
            choose_help self w (available_moves w self)
              (active_help_requests w).1 = Some act ->
            exists w', choose self w g = Ok (act, w', g)) as Hchoose.
  { intros act Hact. unfold choose.
    destruct (visible_energy_Ok w (Agent.position self)
                (Agent.vision_radius self) Hwf) as (cells & Hcells).
    assert (forall w', eq_grid w w' ->
              visible_energy w' (Agent.position self) (Agent.vision_radius self)
              = Ok cells) as Hvis.
    { intros w' (Hc & He & _). rewrite <- Hcells.
      unfold visible_energy, in_bounds. by rewrite Hc, He. }
    destruct (Agent.position self) as [x y] eqn:Hpos.
    replace (0 <? Agent.pending_report self) with false by lia.
    destruct (cell_energy_grid_wf w x y Hwf) as (ce & Hce & _).
    rewrite Hce, bind_Ok_l.
    unfold active_help_requests in *. unfold has_active_request.
    cbn [fst] in Hact. cbv beta iota zeta in Hact. cbv beta iota zeta.
    pose proof (_prune_help_requests_frame w) as (Hg1 & _).
    pose proof (_prune_help_requests_frame (_prune_help_requests w)) as (Hg2 & _).
    assert (eq_grid w (_prune_help_requests (_prune_help_requests w))) as Hg
      by (by etrans).
    rewrite (Hvis _ Hg), bind_Ok_l.
    match goal with
    | |- context [if ?c then (false, cancel_help_request ?w2 _) else _] =>
        destruct c
    end; cbv beta iota.
    - rewrite (choose_help_cfg self w _); [rewrite Hact; eauto|].
      pose proof (cancel_help_request_frame
                    (_prune_help_requests (_prune_help_requests w))
                    (Agent.id self)) as (Hg3 & _).
      assert (eq_grid w (cancel_help_request
                (_prune_help_requests (_prune_help_requests w)) (Agent.id self)))
        as (? & _) by (by etrans). done.
    - rewrite (choose_help_cfg self w _); [rewrite Hact; eauto|].
      by destruct Hg. }
  assert (choose_help self w (available_moves w self) (active_help_requests w).1 =
          if opt_chebyshev best <=? 1
          then Some (give_action (Agent.id self) (opt_target best)
                       (Z.min (shareable_energy self w)
                              (Z.max (policy_give_min w) (opt_need best))))
          else move_action self <$>
                 best_move_towards (Agent.position self).1 (Agent.position self).2
                   (available_moves w self) (opt_pos best)) as Hhelp.
  { assert (match (active_help_requests w).1 with [] => false | _ :: _ => true end
            = true) as Hsome.
    { destruct (active_help_requests w).1 eqn:E; [|done].
      exfalso. apply Hne. unfold options, request_options.
      by destruct (Agent.position self). }
    assert (1 <= policy_give_min w) by (unfold policy_give_min; lia).
    unfold choose_help. cbv zeta. rewrite Hsome. fold options. rewrite Hsort.
    replace (policy_give_min w <=? shareable_energy self w) with true by lia.
    destruct (Agent.position self) as [x y]. cbn [andb fst snd].
    destruct (opt_chebyshev best <=? 1); [|by destruct (best_move_towards _ _ _ _)].
    by replace (0 <? _) with true by lia. }
  split_and!; [done|done| | | |].
  - intros o Ho Hm. specialize (Hmin o Ho). unfold option_le, key_le in Hmin.
    simpl in Hmin. rewrite (Hneg o Ho), (Hneg best Hbest) in Hmin. lia.
  - intros o Ho [Hm Hn].
    assert (o ∈ options) as Ho'.
    { rewrite Hsplit. apply elem_of_app. by left. }
    specialize (Hbefore o Ho). unfold option_le, key_le in Hbefore.
    simpl in Hbefore. rewrite (Hneg o Ho'), (Hneg best Hbest) in Hbefore. lia.
  - intros Hadj. apply Hchoose. rewrite Hhelp.
    by replace (opt_chebyshev best <=? 1) with true by lia.
  - intros Hfar.
    destruct (best_move_towards_Some (Agent.position self).1
                (Agent.position self).2 (available_moves w self) (opt_pos best))
      as (d & Hd).
    + apply available_moves_nonempty.
    + intros Heq. apply request_options_spec in Hbest as (_ & _ & _ & _ & Hc & _).
      unfold chebyshev in Hc. rewrite Heq in Hc.
      destruct (Agent.position self). simpl in Hc. lia.
    + exists d. destruct (Hchoose (move_action self d)) as (w' & Hw').
      * rewrite Hhelp. replace (opt_chebyshev best <=? 1) with false by lia.
        by rewrite Hd.
      * eauto.
Qed.

(** C7 as stated fails: with two requests tied on Manhattan distance
    and amount, the policy acts on the one filed first even though it is
    at Chebyshev distance 2 and the other at 1.  It moves right, towards
    (7, 5), instead of giving to its diagonal neighbour. *)
Lemma chebyshev_does_not_break_ties :
  request_options trio_helper (active_help_requests trio_world).1 =
    [mkOption 2 (-10) 2 10 "far" (7, 5); mkOption 2 (-10) 1 10 "near" (6, 6)] /\
  policy_give_min trio_world <= shareable_energy trio_helper trio_world /\
  (choose trio_helper trio_world zero_rng ≫= fun r => Ok r.1.1) =
    Ok (move_action trio_helper (1, 0)) /\
  move_action trio_helper (1, 0) <>
    give_action "helper" "near" (Z.min 110 (Z.max 5 10)).
Proof. split_and!; [vm_compute; reflexivity|vm_compute; discriminate|vm_compute; reflexivity|discriminate]. Qed.

(** ** Gathering and respawn *)

Lemma stored_grid_set {A} c (g g' : list (list A)) x y v :
  rows_wf c g -> 0 <= x < width c -> 0 <= y < height c ->
  grid_set g x y v = Ok g' ->
  forall x' y', 0 <= x' -> 0 <= y' ->
    stored g' x' y' =
    if decide ((x', y') = (x, y)) then Some v else stored g x' y'.
Proof.
  intros Hwf Hx Hy Hset x' y' Hx' Hy'.
  destruct (grid_set_in_range c g x y v Hwf Hx Hy) as (row & Hrow & Hs).
  rewrite Hs in Hset. injection Hset as <-.
  destruct Hwf as [Hlen Hrows].
  pose proof (Forall_lookup_1 _ _ _ _ Hrows Hrow) as Hrl. simpl in Hrl.
  unfold stored.
  destruct (decide (Z.to_nat y' = Z.to_nat y)) as [Ey|Ey].
  - rewrite Ey, list_lookup_insert_eq by lia. simpl.
    destruct (decide (Z.to_nat x' = Z.to_nat x)) as [Ex|Ex].
    + rewrite Ex, list_lookup_insert_eq by lia.
      rewrite decide_True; [done|]. f_equal; lia.
    + rewrite list_lookup_insert_ne by done.
      rewrite decide_False by (intros [= ? ?]; lia).
      by rewrite Hrow.
  - rewrite list_lookup_insert_ne by done.
    by rewrite decide_False by (intros [= ? ?]; lia).
Qed.

Lemma res_filterM_Ok {A} (f : A -> Res bool) (f' : A -> bool) l :
  (forall x, x ∈ l -> f x = Ok (f' x)) ->
  res_filterM f l = Ok (List.filter f' l).
Proof.
  induction l as [|x l IH]; intros H; simpl; [done|].
  rewrite (H x) by by left. simpl.
  rewrite IH by (intros ? ?; apply H; by right). simpl.
  by destruct (f' x).
Qed.

Lemma NoDup_scan_cells wd ht : NoDup (scan_cells wd ht).
Proof.
  unfold scan_cells, py_range.
  apply NoDup_bind; [| |apply NoDup_seqZ].
  - intros y1 y2 c _ _ H1 H2.
    apply list_elem_of_bind in H1 as (x1 & H1 & _).
    apply list_elem_of_bind in H2 as (x2 & H2 & _).
    apply list_elem_of_singleton in H1, H2. congruence.
  - intros y _. apply NoDup_bind; [| |apply NoDup_seqZ].
    + intros x1 x2 c _ _ H1 H2.
      apply list_elem_of_singleton in H1, H2. congruence.
    + intros x _. apply NoDup_singleton.
Qed.

Lemma random_choice_drawn {A} (l : list A) g :
  l <> [] ->
  exists x, random_choice l g = Ok (x, (rng_next g).2) /\ drawn g l = Some x.
Proof.
  intros Hl. unfold random_choice, drawn, rng_next.
  destruct l as [|a l]; [done|]. cbn [snd].
  set (i := (draws g (cursor g) mod length (a :: l))%nat).
  assert (i < length (a :: l))%nat as Hi.
  { apply Nat.mod_upper_bound. simpl. lia. }
  destruct (lookup_lt_is_Some_2 (a :: l) i Hi) as [x Hx].
  exists x. split; [|done]. by rewrite (nth_lookup_Some _ _ _ _ Hx).
Qed.

Lemma _respawn_resource_ok w p g :
  grid_wf w -> in_bounds w p.1 p.2 = true ->
  let cands := respawn_candidates w p in
  exists target w' g',
    _respawn_resource w p g = Ok (w', g') /\
    (cands = [] -> target = p /\ g' = g) /\
    (cands <> [] -> drawn g cands = Some target /\ g' = (rng_next g).2) /\
    in_bounds w target.1 target.2 = true /\
    agents w' = agents w /\
    (forall c, 0 <= c.1 -> 0 <= c.2 ->
       stored (energy_grid w') c.1 c.2 =
         (if decide (c = target) then Some (max_energy (cfg w))
          else stored (energy_grid w) c.1 c.2) /\
       stored (resource_grid w') c.1 c.2 =
         (if decide (c = target) then Some true
          else stored (resource_grid w) c.1 c.2)).
Proof.
  intros [Heg Hrg] Hp cands. unfold _respawn_resource.
  rewrite (res_filterM_Ok _
             (fun c => free_cell w c && negb (bool_decide (c = p)))).
  2:{ intros c Hc. apply elem_of_scan_cells in Hc as [Hx Hy].
      destruct (rows_wf_stored (cfg w) (resource_grid w) c.1 c.2 Hrg Hx Hy)
        as (flag & Hst & ->).
      simpl. unfold free_cell. rewrite Hst. by destruct flag. }
  fold (respawn_candidates w p). fold cands. rewrite bind_Ok_l.
  assert (exists target g',
            match cands with
            | [] => Ok (p, g)
            | _ :: _ => random_choice cands g
            end = Ok (target, g') /\
            (cands = [] -> target = p /\ g' = g) /\
            (cands <> [] -> drawn g cands = Some target /\ g' = (rng_next g).2) /\
            in_bounds w target.1 target.2 = true)
    as (target & g' & -> & Hnil & Hcons & Hin).
  { destruct cands as [|c0 cs] eqn:Ec.
    - exists p, g. by split_and!.
    - destruct (random_choice_drawn (c0 :: cs) g) as (t & Hr & Hd); [done|].
      exists t, (rng_next g).2. split_and!; [done|done|done|].
      unfold drawn in Hd. apply list_elem_of_lookup_2 in Hd.
      rewrite <- Ec in Hd. unfold cands, respawn_candidates in Hd.
      apply list_elem_of_In, filter_In in Hd as [Hd _].
      apply list_elem_of_In, elem_of_scan_cells in Hd.
      by apply in_bounds_iff. }
  rewrite bind_Ok_l. destruct target as [tx ty]. simpl in Hin.
  apply in_bounds_iff in Hin as [Htx Hty].
  destruct (grid_set_in_range (cfg w) (resource_grid w) tx ty true Hrg Htx Hty)
    as (? & _ & Hset1).
  destruct (grid_set_in_range (cfg w) (energy_grid w) tx ty (max_energy (cfg w))
              Heg Htx Hty) as (? & _ & Hset2).
  rewrite Hset1, bind_Ok_l, Hset2, bind_Ok_l.
  eexists (tx, ty), _, g'. split; [reflexivity|].
  split_and!; [done|done|by apply in_bounds_iff|done|].
  intros [cx cy] Hcx Hcy. simpl in *. split.
  - rewrite (stored_grid_set (cfg w) _ _ tx ty _ Heg Htx Hty Hset2) by done.
    done.
  - rewrite (stored_grid_set (cfg w) _ _ tx ty _ Hrg Htx Hty Hset1) by done.
    done.
Qed.

Lemma respawn_candidates_ext w w' p :
  cfg w' = cfg w ->
  (forall c, in_bounds w c.1 c.2 = true -> c <> p ->
     stored (resource_grid w') c.1 c.2 = stored (resource_grid w) c.1 c.2) ->
  respawn_candidates w' p = respawn_candidates w p.
Proof.
  intros Hc Hst. unfold respawn_candidates. rewrite Hc.
  apply filter_ext_in. intros c Hin.
  apply list_elem_of_In, elem_of_scan_cells, in_bounds_iff in Hin.
  destruct (bool_decide (c = p)) eqn:Hcp.
  - by rewrite !andb_false_r.
  - apply bool_decide_eq_false in Hcp. unfold free_cell.
    by rewrite Hst.
Qed.

Lemma respawn_candidates_spec w p c :
  c ∈ respawn_candidates w p <->
  in_bounds w c.1 c.2 = true /\ free_cell w c = true /\ c <> p.
Proof.
  unfold respawn_candidates. rewrite list_elem_of_In, filter_In.
  rewrite <- list_elem_of_In, elem_of_scan_cells, <- in_bounds_iff.
  rewrite andb_true_iff, negb_true_iff, bool_decide_eq_false. tauto.
Qed.

Lemma _maybe_clear_help_request_agents w a :
  agents (_maybe_clear_help_request w a) = agents w.
Proof. unfold _maybe_clear_help_request. by repeat case_match. Qed.

Lemma _deplete_resource_ok w p g :
  grid_wf w -> in_bounds w p.1 p.2 = true ->
  let cands := respawn_candidates w p in
  exists target w' g',
    _deplete_resource w p g = Ok (w', g') /\
    (cands = [] -> target = p /\ g' = g) /\
    (cands <> [] -> drawn g cands = Some target /\ g' = (rng_next g).2) /\
    agents w' = agents w /\
    (forall c, in_bounds w c.1 c.2 = true ->
       stored (energy_grid w') c.1 c.2 =
         (if decide (c = target) then Some (max_energy (cfg w))
          else if decide (c = p) then Some 0
          else stored (energy_grid w) c.1 c.2) /\
       stored (resource_grid w') c.1 c.2 =
         (if decide (c = target) then Some true
          else if decide (c = p) then Some false
          else stored (resource_grid w) c.1 c.2)).
Proof.
  intros [Heg Hrg] Hp cands. unfold _deplete_resource.
  destruct p as [x y]. simpl in Hp. pose proof Hp as Hb.
  apply in_bounds_iff in Hb as [Hx Hy].
  destruct (grid_set_in_range (cfg w) (energy_grid w) x y 0 Heg Hx Hy)
    as (? & _ & Hset1).
  destruct (grid_set_in_range (cfg w) (resource_grid w) x y false Hrg Hx Hy)
    as (? & _ & Hset2).
  rewrite Hset1, bind_Ok_l. cbv zeta. simpl resource_grid.
  rewrite Hset2, bind_Ok_l.
  match goal with |- context [_respawn_resource ?w0 _ _] => set (w5 := w0) end.
  assert (grid_wf w5) as Hwf5.
  { split; simpl; eapply grid_set_rows_wf; eauto. }
  assert (forall c, 0 <= c.1 -> 0 <= c.2 ->
            stored (energy_grid w5) c.1 c.2 =
              (if decide (c = (x, y)) then Some 0 else stored (energy_grid w) c.1 c.2) /\
            stored (resource_grid w5) c.1 c.2 =
              (if decide (c = (x, y)) then Some false
               else stored (resource_grid w) c.1 c.2)) as Hst5.
  { intros [cx cy] Hcx Hcy. simpl in *. split.
    - by rewrite (stored_grid_set (cfg w) _ _ x y _ Heg Hx Hy Hset1).
    - by rewrite (stored_grid_set (cfg w) _ _ x y _ Hrg Hx Hy Hset2). }
  assert (respawn_candidates w5 (x, y) = cands) as Hcands.
  { apply respawn_candidates_ext; [done|]. intros c Hc Hne.
    apply in_bounds_iff in Hc. destruct (Hst5 c) as [_ ->]; [lia..|].
    by rewrite decide_False. }
  destruct (_respawn_resource_ok w5 (x, y) g Hwf5 Hp)
    as (target & w' & g' & Hres & Hnil & Hcons & _ & Hag & Hst).
  rewrite Hcands in Hnil, Hcons.
  exists target, w', g'. split_and!; [done..|].
  intros c Hc. apply in_bounds_iff in Hc.
  destruct (Hst c) as [-> ->]; [lia..|].
  destruct (Hst5 c) as [-> ->]; [lia..|]. done.
Qed.

Lemma _gather_energy_positive w aid agent E g :
  grid_wf w ->
  OD.get aid (agents w) = Some agent ->
  let p := Agent.position agent in
  cell_energy w p.1 p.2 = Ok E -> 0 < E ->
  let cands := respawn_candidates w p in
  exists target w' g',
    _gather_energy w aid g = Ok (w', g') /\
    (cands = [] -> target = p /\ g' = g) /\
    (cands <> [] -> drawn g cands = Some target /\ g' = (rng_next g).2) /\
    OD.get aid (agents w') =
      Some (Agent.set_energy (Agent.energy agent + E) agent) /\
    (forall k, k <> aid -> OD.get k (agents w') = OD.get k (agents w)) /\
    (forall c, in_bounds w c.1 c.2 = true ->
       stored (energy_grid w') c.1 c.2 =
         (if decide (c = target) then Some (max_energy (cfg w))
          else if decide (c = p) then Some 0
          else stored (energy_grid w) c.1 c.2) /\
       stored (resource_grid w') c.1 c.2 =
         (if decide (c = target) then Some true
          else if decide (c = p) then Some false
          else stored (resource_grid w) c.1 c.2)).
Proof.
  intros Hwf Hget p HE Hpos.
  unfold _gather_energy. rewrite Hget. fold p.
  destruct p as [x y] eqn:Hp. simpl in HE. rewrite HE, bind_Ok_l.
  set (cands := respawn_candidates w (x, y)).
  replace (E <=? 0) with false by lia.
  assert (in_bounds w x y = true) as Hb.
  { unfold cell_energy in HE. destruct (in_bounds w x y); [done|].
    simpl in HE. injection HE as <-. lia. }
  pose proof Hb as Hxy. apply in_bounds_iff in Hxy as [Hx Hy].
  destruct Hwf as [Heg Hrg].
  destruct (grid_set_in_range (cfg w) (energy_grid w) x y 0 Heg Hx Hy)
    as (? & _ & Hset1).
  rewrite Hset1, bind_Ok_l. cbv zeta.
  match goal with |- context [_deplete_resource ?w0 _ _] => set (w3 := w0) end.
  assert (agents w3 =
          agents (update_agent aid
                    (fun a => Agent.set_energy (Agent.energy a + E) a) w)) as Hag3.
  { unfold w3. rewrite _maybe_clear_help_request_agents.
    unfold update_agent. simpl. by rewrite Hget. }
  assert (cfg w3 = cfg w /\ resource_grid w3 = resource_grid w /\
          grid_set (energy_grid w) x y 0 = Ok (energy_grid w3)) as (Hc3 & Hr3 & He3).
  { unfold w3.
    match goal with
    | |- context [_maybe_clear_help_request ?w0 aid] =>
        destruct (_maybe_clear_help_request_frame w0 aid) as ((-> & -> & ->) & _)
    end.
    autorewrite with upd. by rewrite Hset1. }
  assert (grid_wf w3) as Hwf3.
  { split; rewrite Hc3; [|by rewrite Hr3]. eapply grid_set_rows_wf; eauto. }
  assert (in_bounds w3 x y = true) as Hb3.
  { unfold in_bounds. by rewrite Hc3. }
  destruct (_deplete_resource_ok w3 (x, y) g Hwf3 Hb3)
    as (target & w' & g' & Hres & Hnil & Hcons & Hag & Hst).
  assert (respawn_candidates w3 (x, y) = cands) as Hcands.
  { apply respawn_candidates_ext; [done|]. intros c _ _. by rewrite Hr3. }
  rewrite Hcands in Hnil, Hcons.
  exists target, w', g'. split_and!; [done..| | |].
  - rewrite Hag, Hag3, update_agent_get, decide_True by done. by rewrite Hget.
  - intros k Hk. by rewrite Hag, Hag3, update_agent_get, decide_False.
  - intros c Hc. assert (in_bounds w3 c.1 c.2 = true) as Hc'.
    { unfold in_bounds. by rewrite Hc3. }
    destruct (Hst c Hc') as [-> ->]. rewrite Hc3, Hr3.
    apply in_bounds_iff in Hc.
    rewrite (stored_grid_set (cfg w) _ _ x y _ Heg Hx Hy He3) by lia.
    split; [|done].
    destruct (decide (c = target)); [done|].
    destruct (decide (c = (x, y))) as [->|Hne]; [done|].
    rewrite decide_False; [done|]. destruct c. simpl. congruence.
Qed.

(** C5.  GATHER on a cell holding [E > 0] adds exactly [E] to the agent,
    empties the cell and clears its resource flag, and then turns one
    cell into a resource holding [max_energy]: the cell [random.choice]
    draws from the cells without a resource other than the emptied one,
    each of which is listed once, or the emptied cell itself when there
    is no such cell.  On a cell without energy GATHER does nothing. *)
Theorem gather_collects_and_respawns (w : World) (aid : AgentID)
    (agent : Agent.t) (E : Z) (g : RNG) :
  grid_wf w ->
  OD.get aid (agents w) = Some agent ->
  let p := Agent.position agent in
  cell_energy w p.1 p.2 = Ok E ->
  (E <= 0 -> apply w (gather_action aid) g = Ok (w, g)) /\
  (0 < E ->
   let cands := respawn_candidates w p in
   NoDup cands /\
   (forall c, c ∈ cands <->
      in_bounds w c.1 c.2 = true /\ free_cell w c = true /\ c <> p) /\
   exists target w' g',
     apply w (gather_action aid) g = Ok (w', g') /\
     (cands = [] -> target = p /\ g' = g) /\
     (cands <> [] -> drawn g cands = Some target /\ g' = (rng_next g).2) /\
     OD.get aid (agents w') =
       Some (Agent.set_energy (Agent.energy agent + E) agent) /\
     (forall k, k <> aid -> OD.get k (agents w') = OD.get k (agents w)) /\
     (forall c, in_bounds w c.1 c.2 = true ->
        stored (energy_grid w') c.1 c.2 =
          (if decide (c = target) then Some (max_energy (cfg w))
           else if decide (c = p) then Some 0
           else stored (energy_grid w) c.1 c.2) /\
        stored (resource_grid w') c.1 c.2 =
          (if decide (c = target) then Some true
           else if decide (c = p) then Some false
           else stored (resource_grid w) c.1 c.2))).
Proof.
  intros Hwf Hget p HE.
  assert (apply w (gather_action aid) g = _gather_energy w aid g) as ->.
  { unfold apply, gather_action. simpl. by rewrite Hget. }
  split.
  { intros Hle. unfold _gather_energy. rewrite Hget. fold p.
    destruct p as [x y]. simpl in HE. rewrite HE, bind_Ok_l.
    by replace (E <=? 0) with true by lia. }
  intros Hpos cands. split_and!.
  - unfold cands, respawn_candidates.
    apply NoDup_ListNoDup, List.NoDup_filter, NoDup_ListNoDup, NoDup_scan_cells.
  - apply respawn_candidates_spec.
  - by apply _gather_energy_positive.
Qed.

(** ** The policy and the gathering theorem on concrete worlds *)

Lemma constructed_grid_wf c spawn d : grid_wf (from_Ok d (__post_init__ c spawn)).
Proof.
  destruct (__post_init___spec c spawn) as (w & -> & _ & _ & _ & _ & Hwf & _).
  exact Hwf.
Qed.

Lemma gather_collects_and_respawns_witness :
  exists w' g',
    apply gather_world (gather_action "a") zero_rng = Ok (w', g') /\
    Agent.energy <$> OD.get "a" (agents w') = Some 230 /\
    stored (energy_grid w') 1 1 = Some 0 /\
    stored (resource_grid w') 1 1 = Some false /\
    stored (energy_grid w') 0 0 = Some 200 /\
    stored (resource_grid w') 0 0 = Some true.
Proof.
  destruct (gather_collects_and_respawns gather_world "a"
              (new_agent "a" (1, 1) 30) 200 zero_rng) as [_ H].
  - eapply grid_wf_eq_grid; [|apply constructed_grid_wf]. done.
  - reflexivity.
  - vm_compute. reflexivity.
  - destruct H as (_ & _ & target & w' & g' & Happ & _ & Hdraw & Hme & _ & Hst);
      [reflexivity|].
    destruct Hdraw as [Hdraw _]; [vm_compute; discriminate|].
    assert (target = (0, 0)) as ->.
    { vm_compute in Hdraw. by injection Hdraw as <-. }
    exists w', g'. split; [exact Happ|]. split.
    { etrans; [exact (f_equal (fmap Agent.energy) Hme)|reflexivity]. }
    destruct (Hst (1, 1)) as [He1 Hr1]; [vm_compute; reflexivity|].
    destruct (Hst (0, 0)) as [He0 Hr0]; [vm_compute; reflexivity|].
    split_and!.
    + etrans; [exact He1|]. reflexivity.
    + etrans; [exact Hr1|]. reflexivity.
    + etrans; [exact He0|]. reflexivity.
    + etrans; [exact Hr0|]. reflexivity.
Defined.


(** ** A well-formed world can always take a step *)

Lemma choose_total self w g :
  grid_wf w -> exists act w' g', choose self w g = Ok (act, w', g').
Proof.
  intros Hwf. unfold choose.
  destruct (visible_energy_Ok w (Agent.position self)
              (Agent.vision_radius self) Hwf) as (cells & Hcells).
  assert (forall w', eq_grid w w' ->
            visible_energy w' (Agent.position self) (Agent.vision_radius self)
            = Ok cells) as Hvis.
  { intros w' (Hc & He & _). rewrite <- Hcells.
    unfold visible_energy, in_bounds. by rewrite Hc, He. }
  destruct (Agent.position self) as [x y].
  destruct (0 <? Agent.pending_report self); [eauto|].
  destruct (cell_energy_grid_wf w x y Hwf) as (ce & Hce & _).
  rewrite Hce, bind_Ok_l.
  unfold active_help_requests, has_active_request. cbv beta iota zeta.
  pose proof (_prune_help_requests_frame w) as (Hg1 & _).
  pose proof (_prune_help_requests_frame (_prune_help_requests w)) as (Hg2 & _).
  rewrite (Hvis _ (transitivity Hg1 Hg2)), bind_Ok_l.
  match goal with
  | |- context [if ?c then (false, cancel_help_request ?w2 _) else _] =>
      destruct c
  end; cbv beta iota;
    (destruct (choose_help _ _ _ _); [eauto|]);
    (destruct (choose_sustain _ _ _ _ _ _); [eauto|]);
    (destruct (choose_deposit _ _ _); [eauto|]);
    (destruct (0 <? ce); [eauto|]);
    match goal with
    | |- context [random_choice ?l g] =>
        destruct (random_choice_drawn l g) as (d & -> & _);
          [by repeat case_match|rewrite bind_Ok_l; eauto]
    end.
Qed.

Lemma _gather_energy_total w aid g :
  grid_wf w -> exists w' g', _gather_energy w aid g = Ok (w', g').
Proof.
  intros Hwf. destruct (OD.get aid (agents w)) as [agent|] eqn:Hget.
  2:{ unfold _gather_energy. rewrite Hget. eauto. }
  destruct (cell_energy_grid_wf w (Agent.position agent).1
              (Agent.position agent).2 Hwf) as (E & HE & _).
  destruct (decide (E <= 0)) as [Hle|Hgt].
  - unfold _gather_energy. rewrite Hget.
    destruct (Agent.position agent) as [x y]. simpl in HE.
    rewrite HE, bind_Ok_l. replace (E <=? 0) with true by lia. eauto.
  - destruct (_gather_energy_positive w aid agent E g Hwf Hget HE)
      as (_ & w' & g' & -> & _); [lia|]. eauto.
Qed.

Lemma apply_total w action g :
  grid_wf w -> exists w' g', apply w action g = Ok (w', g').
Proof.
  intros Hwf. unfold apply. destruct (OD.get _ _); [|eauto].
  destruct (kind action); eauto using _gather_energy_total.
  destruct (p_target _); eauto.
Qed.

Lemma dwindle_row_total c amount y row : forall x rg,
  rows_wf c rg -> 0 <= y < height c -> 0 <= x ->
  (0 < Z.of_nat (length row) -> x + Z.of_nat (length row) <= width c) ->
  exists row' rg', dwindle_row amount y x row rg = Ok (row', rg').
Proof.
  induction row as [|v row IH]; simpl; intros x rg Hrg Hy Hx Hlen; [eauto|].
  destruct (v <=? 0).
  - destruct (IH (x + 1) rg) as (row' & rg' & ->); [done|done|lia..|].
    simpl. eauto.
  - assert (exists rg1,
              (if Z.max 0 (v - amount) <=? 0
               then flag ← grid_get rg x y;
                    if flag : bool then grid_set rg x y false else Ok rg
               else Ok rg) = Ok rg1 /\ rows_wf c rg1) as (rg1 & -> & Hrg1).
    { destruct (_ <=? 0); [|eauto].
      destruct (rows_wf_stored c rg x y Hrg) as (flag & _ & ->); [lia..|].
      rewrite bind_Ok_l. destruct flag; [|eauto].
      destruct (grid_set_in_range c rg x y false Hrg) as (? & _ & Hs); [lia..|].
      rewrite Hs. eexists. split; [done|]. eapply grid_set_rows_wf; eauto. }
    rewrite bind_Ok_l.
    destruct (IH (x + 1) rg1) as (row' & rg' & ->); [done|done|lia..|].
    simpl. eauto.
Qed.

Lemma dwindle_rows_total c amount eg : forall y rg,
  rows_wf c rg -> 0 <= y ->
  (0 < Z.of_nat (length eg) -> y + Z.of_nat (length eg) <= height c) ->
  Forall (fun row => length row = Z.to_nat (width c)) eg ->
  exists eg' rg', dwindle_rows amount y eg rg = Ok (eg', rg').
Proof.
  induction eg as [|row eg IH]; simpl; intros y rg Hrg Hy Hlen Hall; [eauto|].
  apply Forall_cons in Hall as [Hrow Hall].
  destruct (dwindle_row_total c amount y row 0 rg) as (row' & rg1 & Hr);
    [done|lia..|].
  rewrite Hr, bind_Ok_l.
  apply (dwindle_row_spec c) in Hr as [_ Hrg1].
  destruct (IH (y + 1) rg1) as (eg' & rg' & ->); [auto|lia..|done|].
  simpl. eauto.
Qed.

Lemma _apply_reactor_consequences_total w :
  grid_wf w -> exists w', _apply_reactor_consequences w = Ok w'.
Proof.
  intros [[Hlen Hall] Hrg]. unfold _apply_reactor_consequences, _dwindle_resources.
  destruct (negb _); [eauto|]. destruct (_ <=? 0); [eauto|].
  destruct (dwindle_rows_total (cfg w) (reactor_dwindle_rate (cfg w))
              (energy_grid w) 0 (resource_grid w)) as (eg & rg & ->);
    [done|lia..|done|].
  simpl. eauto.
Qed.

Lemma foldM_total (f : World * RNG -> AgentID -> Res (World * RNG)) l :
  (forall w g aid, grid_wf w -> exists w' g', f (w, g) aid = Ok (w', g')) ->
  (forall w g aid w' g', f (w, g) aid = Ok (w', g') -> rtc prim w w') ->
  forall w g, grid_wf w ->
    exists w' g', res_foldM f (w, g) l = Ok (w', g') /\ grid_wf w'.
Proof.
  intros Htot Hprims. induction l as [|aid l IH]; simpl; intros w g Hwf; [eauto|].
  destruct (Htot w g aid Hwf) as (w1 & g1 & H1). rewrite H1, bind_Ok_l.
  apply IH. apply Hprims in H1.
  eapply (prims_preserve grid_wf); eauto using prim_grid_wf.
Qed.

Lemma decide_one_total w g aid :
  grid_wf w -> exists w' g', decide_one (w, g) aid = Ok (w', g').
Proof.
  intros Hwf. unfold decide_one. destruct (OD.get _ _) as [agent|]; [|eauto].
  destruct (choose_total agent (_auto_deposit w aid) g) as (act & w' & g' & ->).
  - eapply grid_wf_eq_grid; [apply _auto_deposit_frame|done].
  - simpl. eauto.
Qed.

Lemma apply_one_total w g aid :
  grid_wf w -> exists w' g', apply_one (w, g) aid = Ok (w', g').
Proof.
  intros Hwf. unfold apply_one. destruct (OD.get _ _) as [agent|]; [|eauto].
  destruct (Agent.pending_action agent) as [action|]; [|eauto].
  destruct (apply_total w action g Hwf) as (w' & g' & ->). simpl. eauto.
Qed.

(** [step] never raises on a world whose grids have the configured
    shape, in particular on any reachable world. *)
Lemma step_total w g :
  grid_wf w -> exists w' g', step w g = Ok (w', g').
Proof.
  intros Hwf. unfold step.
  set (w0 := _decay_helper_signals _).
  assert (grid_wf w0) as Hwf0.
  { eapply grid_wf_eq_grid; [apply _decay_helper_signals_frame|].
    eapply grid_wf_eq_grid; [apply _prune_help_requests_frame|].
    eapply grid_wf_eq_grid; [apply set_tick_frame|done]. }
  destruct (foldM_total decide_one (OD.keys (agents w0)) decide_one_total
              decide_one_prims w0 g Hwf0) as (w1 & g1 & -> & Hwf1).
  rewrite bind_Ok_l.
  destruct (foldM_total apply_one (OD.keys (agents w1)) apply_one_total
              apply_one_prims w1 g1 Hwf1) as (w2 & g2 & -> & Hwf2).
  rewrite bind_Ok_l. cbv zeta.
  destruct (_apply_reactor_consequences_total
              (_consume_reactor_energy (_decay_agent_energy w2))) as (w3 & ->).
  - eapply grid_wf_eq_grid; [apply _consume_reactor_energy_frame|].
    eapply grid_wf_eq_grid; [apply _decay_agent_energy_frame|done].
  - simpl. eauto.
Qed.

(** X24.  A tick of a world a client can obtain never raises: [step]
    returns, whatever the random source draws, and the world it returns
    is again one a client can obtain. *)
Theorem reachable_step_total (c : Config) (w : World) (g : RNG) :
  reachable c w -> exists w' g', step w g = Ok (w', g') /\ reachable c w'.
Proof.
  intros Hr. destruct (step_total w g) as (w' & g' & Hs).
  - by apply reachable_world_inv in Hr as [? _].
  - exists w', g'. split; [done|]. eapply reach_step; eauto.
Qed.

(** ** The tick counter and the ledger *)

#[global] Instance eq_log_refl : Reflexive eq_log.
Proof. by intros w. Qed.
#[global] Instance eq_log_trans : Transitive eq_log.
Proof. intros a b c (?&?) (?&?). unfold eq_log. split; congruence. Qed.

Ltac logs := unfold eq_log; split; crush_frame.

Lemma update_agent_log w a f : eq_log w (update_agent a f w).
Proof. logs. Qed.

Lemma _prune_help_requests_log w : eq_log w (_prune_help_requests w).
Proof. unfold _prune_help_requests. logs. Qed.

Lemma _clear_help_request_log w a : eq_log w (_clear_help_request w a).
Proof. unfold _clear_help_request. logs. Qed.

Lemma _decay_helper_signals_log w : eq_log w (_decay_helper_signals w).
Proof. unfold _decay_helper_signals. logs. Qed.

Lemma _register_help_request_log w a n : eq_log w (_register_help_request w a n).
Proof. unfold _register_help_request. logs. Qed.

Lemma _maybe_clear_help_request_log w a : eq_log w (_maybe_clear_help_request w a).
Proof. unfold _maybe_clear_help_request. logs. Qed.

Lemma _update_request_position_log w a : eq_log w (_update_request_position w a).
Proof. unfold _update_request_position. logs. Qed.

Lemma _deposit_energy_log w a : eq_log w (_deposit_energy w a).
Proof. unfold _deposit_energy. logs. Qed.

Lemma _auto_deposit_log w a : eq_log w (_auto_deposit w a).
Proof.
  unfold _auto_deposit. repeat case_match; try done. apply _deposit_energy_log.
Qed.

Lemma _consume_reactor_energy_log w : eq_log w (_consume_reactor_energy w).
Proof. unfold _consume_reactor_energy. logs. Qed.

Lemma _record_deposit_report_tick w a n :
  tick (_record_deposit_report w a n) = tick w.
Proof. unfold _record_deposit_report. crush_frame. Qed.

Lemma set_help_requests_log w h : eq_log w (set_help_requests h w).
Proof. done. Qed.

Lemma set_helper_signals_log w s : eq_log w (set_helper_signals s w).
Proof. done. Qed.

Lemma _give_energy_log w a b n : eq_log w (_give_energy w a b n).
Proof.
  unfold _give_energy.
  destruct (OD.get a (agents w)) as [donor|]; [|reflexivity].
  destruct (OD.get b (agents w)) as [recipient|]; [|reflexivity].
  do 4 early_return.
  etrans; [|apply set_helper_signals_log].
  etrans; [|apply _maybe_clear_help_request_log].
  match goal with
  | |- context [update_agent b ?f (update_agent a ?f' w)] =>
      set (w1 := update_agent a f' w); set (w2 := update_agent b f w1)
  end.
  assert (eq_log w w2) as Hw2.
  { trans w1; apply update_agent_log. }
  destruct (_request_entry w (Agent.id recipient)) as [[[? ?] ?]|]; [|done].
  etrans; [exact Hw2|].
  match goal with |- _ _ (if ?c then _ else _) => destruct c end;
    [apply set_help_requests_log | apply _clear_help_request_log].
Qed.

Lemma _move_log w a dx dy : eq_log w (_move w a dx dy).
Proof.
  unfold _move.
  destruct (OD.get a (agents w)) as [agent|]; [|done].
  destruct (Agent.position agent) as [x y].
  match goal with
  | |- context [let '(nx, ny) := ?t in _] => destruct t as [nx ny]
  end.
  destruct (bool_decide ((nx, ny) = (x, y))); [done|].
  match goal with |- context [if ?c then w else _] => destruct c; [done|] end.
  etrans; [|apply _auto_deposit_log].
  etrans; [|apply _update_request_position_log].
  etrans; [|apply update_agent_log]. done.
Qed.

Lemma _respawn_resource_log w p g w' g' :
  _respawn_resource w p g = Ok (w', g') -> eq_log w w'.
Proof.
  unfold _respawn_resource. intros H.
  apply res_bind_Ok in H as (cands & _ & H).
  apply res_bind_Ok in H as ([[tx ty] g1] & _ & H).
  apply res_bind_Ok in H as (rg & Hrg & H).
  apply res_bind_Ok in H as (eg & Heg & [= <- <-]). done.
Qed.

Lemma _gather_energy_log w a g w' g' :
  _gather_energy w a g = Ok (w', g') -> eq_log w w'.
Proof.
  unfold _gather_energy. destruct (OD.get a (agents w)) as [agent|].
  2:{ by intros [= <- <-]. }
  destruct (Agent.position agent) as [x y]. intros H.
  apply res_bind_Ok in H as (avail & _ & H).
  destruct (avail <=? 0). { by injection H as <- <-. }
  apply res_bind_Ok in H as (eg & Heg & H).
  unfold _deplete_resource in H.
  apply res_bind_Ok in H as (eg2 & _ & H).
  apply res_bind_Ok in H as (rg2 & _ & H).
  apply _respawn_resource_log in H.
  etrans; [|exact H].
  match goal with
  | |- eq_log _ (set_resource_grid _ (set_energy_grid _ ?w3)) =>
      trans w3; [|done]
  end.
  etrans; [|apply _maybe_clear_help_request_log].
  etrans; [|apply update_agent_log]. done.
Qed.

Lemma _apply_reactor_consequences_log w w' :
  _apply_reactor_consequences w = Ok w' -> eq_log w w'.
Proof.
  unfold _apply_reactor_consequences, _dwindle_resources.
  destruct (negb _). { by intros [= <-]. }
  destruct (_ <=? 0). { by intros [= <-]. }
  intros H. apply res_bind_Ok in H as ([eg rg] & _ & [= <-]). done.
Qed.

Lemma _decay_agent_energy_log w : eq_log w (_decay_agent_energy w).
Proof.
  unfold _decay_agent_energy. destruct (_ <=? 0); [done|].
  match goal with |- context [foldl ?f ?w0 ?l] => generalize l; set (w1 := w0) end.
  assert (eq_log w w1) as Hw1 by done.
  clearbody w1. intros l. revert w1 Hw1.
  induction l as [|k l IH]; simpl; intros w1 Hw1; [done|].
  apply IH. destruct (OD.get k (agents w1)); [|done].
  etrans; [exact Hw1|]. done.
Qed.

(** Every operation of [step] leaves the counter alone, but for the
    increment itself. *)
Lemma choose_quiet self w g act w' g' :
  choose self w g = Ok (act, w', g') -> rtc quiet w w'.
Proof.
  intros H. apply choose_world in H as [->|[->| ->]].
  - done.
  - eapply rtc_l; [split; [apply prim_prune|apply _prune_help_requests_log]|].
    apply rtc_once. split; [apply prim_prune|apply _prune_help_requests_log].
  - eapply rtc_l; [split; [apply prim_prune|apply _prune_help_requests_log]|].
    eapply rtc_l; [split; [apply prim_prune|apply _prune_help_requests_log]|].
    apply rtc_once. split; [apply prim_cancel|apply _clear_help_request_log].
Qed.

Lemma apply_quiet w action g w' g' :
  apply w action g = Ok (w', g') -> rtc quiet w w'.
Proof.
  unfold apply. destruct (OD.get (actor action) (agents w)).
  2:{ by intros [= <- <-]. }
  destruct (kind action).
  - intros [= <- <-]. apply rtc_once. split; [apply prim_move|apply _move_log].
  - intros H. apply rtc_once. split; [eapply prim_gather, H|].
    eapply _gather_energy_log, H.
  - intros [= <- <-]. apply rtc_once.
    split; [apply prim_deposit|apply _deposit_energy_log].
  - intros [= <- <-]. apply rtc_once.
    split; [apply prim_report|apply _record_deposit_report_tick].
  - intros [= <- <-]. apply rtc_once.
    split; [apply prim_request|apply _register_help_request_log].
  - destruct (p_target (params action)); intros [= <- <-]; [|done].
    apply rtc_once. split; [apply prim_give|apply _give_energy_log].
Qed.

Lemma decide_one_quiet w g aid w' g' :
  decide_one (w, g) aid = Ok (w', g') -> rtc quiet w w'.
Proof.
  unfold decide_one.
  destruct (OD.get aid (agents (_auto_deposit w aid))) as [agent|].
  2:{ intros [= <- <-]. apply rtc_once.
      split; [apply prim_auto|apply _auto_deposit_log]. }
  intros H. apply res_bind_Ok in H as ([[act w1] g1] & Hc & [= <- <-]).
  eapply rtc_l; [split; [apply prim_auto|apply _auto_deposit_log]|].
  etrans; [eapply choose_quiet, Hc|]. apply rtc_once.
  split; [apply prim_pending|apply update_agent_log].
Qed.

Lemma apply_one_quiet w g aid w' g' :
  apply_one (w, g) aid = Ok (w', g') -> rtc quiet w w'.
Proof.
  unfold apply_one. destruct (OD.get aid (agents w)) as [agent|].
  2:{ by intros [= <- <-]. }
  destruct (Agent.pending_action agent) as [action|].
  2:{ by intros [= <- <-]. }
  intros H. apply res_bind_Ok in H as ([w1 g1] & Hc & [= <- <-]).
  etrans; [eapply apply_quiet, Hc|]. apply rtc_once.
  split; [apply prim_pending|apply update_agent_log].
Qed.

Lemma foldM_quiet (f : World * RNG -> AgentID -> Res (World * RNG)) l :
  (forall w g aid w' g', f (w, g) aid = Ok (w', g') -> rtc quiet w w') ->
  forall w g w' g', res_foldM f (w, g) l = Ok (w', g') -> rtc quiet w w'.
Proof.
  intros Hf. induction l as [|aid l IH]; simpl; intros w g w' g' H.
  - by injection H as <- <-.
  - apply res_bind_Ok in H as ([w1 g1] & H1 & H2).
    etrans; [eapply Hf, H1 | eapply IH, H2].
Qed.

Lemma step_quiet w g w' g' :
  step w g = Ok (w', g') -> rtc quiet (set_tick (tick w + 1) w) w'.
Proof.
  unfold step. intros H.
  apply res_bind_Ok in H as ([w1 g1] & H1 & H).
  apply res_bind_Ok in H as ([w2 g2] & H2 & H).
  apply res_bind_Ok in H as (w3 & H3 & [= <- <-]).
  eapply rtc_l; [split; [apply prim_prune|apply _prune_help_requests_log]|].
  eapply rtc_l; [split; [apply prim_signals|apply _decay_helper_signals_log]|].
  etrans; [eapply (foldM_quiet decide_one), H1; apply decide_one_quiet|].
  etrans; [eapply (foldM_quiet apply_one), H2; apply apply_one_quiet|].
  eapply rtc_l; [split; [apply prim_decay|apply _decay_agent_energy_log]|].
  eapply rtc_l;
    [split; [apply prim_consume|apply _consume_reactor_energy_log]|].
  apply rtc_once. split; [eapply prim_dwindle, H3|].
  eapply _apply_reactor_consequences_log, H3.
Qed.

Lemma quiet_preserve (P : World -> Prop) :
  (forall w w', quiet w w' -> P w -> P w') ->
  forall w w', rtc quiet w w' -> P w -> P w'.
Proof. intros HP w w' H. induction H; eauto. Qed.

(** X1.  A successful [step] advances the tick counter by exactly one
    and leaves every configured knob as it was. *)
Theorem step_advances_tick (w : World) (g : RNG) (w' : World) (g' : RNG) :
  step w g = Ok (w', g') -> tick w' = tick w + 1 /\ cfg w' = cfg w.
Proof.
  intros H. split; [|by eapply step_cfg].
  apply step_quiet in H.
  apply (quiet_preserve (fun w0 => tick w0 = tick w + 1)) in H; [done| |done].
  intros w1 w2 [_ Ht] Hw1. congruence.
Qed.

Lemma ledger_push_length ledger entry :
  (length ledger <= 50)%nat -> (length (ledger_push ledger entry) <= 50)%nat.
Proof.
  intros Hl. unfold ledger_push. case_match eqn:E.
  - rewrite length_drop, length_app. simpl. lia.
  - apply Nat.ltb_ge in E. done.
Qed.

Lemma _record_deposit_report_ledger w a n :
  deposit_reports (_record_deposit_report w a n) = deposit_reports w \/
  exists entry,
    deposit_reports (_record_deposit_report w a n) =
    ledger_push (deposit_reports w) entry.
Proof.
  unfold _record_deposit_report. destruct (OD.get a (agents w)); [|by left].
  destruct (_ && _); [by left|]. right.
  destruct (0 <? Agent.pending_report t); eexists; unfold ledger_push; simpl;
    autorewrite with upd; reflexivity.
Qed.

Lemma prim_ledger w w' :
  prim w w' ->
  (length (deposit_reports w) <= 50)%nat ->
  (length (deposit_reports w') <= 50)%nat.
Proof.
  intros H Hl.
  assert (forall w1 w2, eq_log w1 w2 ->
            (length (deposit_reports w1) <= 50)%nat ->
            (length (deposit_reports w2) <= 50)%nat) as Heq.
  { by intros w1 w2 (_ & ->). }
  destruct H.
  - done.
  - eapply Heq; [apply _prune_help_requests_log|done].
  - eapply Heq; [apply _clear_help_request_log|done].
  - eapply Heq; [apply _decay_helper_signals_log|done].
  - eapply Heq; [apply _auto_deposit_log|done].
  - eapply Heq; [apply update_agent_log|done].
  - eapply Heq; [apply _move_log|done].
  - eapply Heq; [eapply _gather_energy_log; eauto|done].
  - eapply Heq; [apply _deposit_energy_log|done].
  - destruct (_record_deposit_report_ledger w a n) as [->|[entry ->]]; [done|].
    by apply ledger_push_length.
  - eapply Heq; [apply _register_help_request_log|done].
  - eapply Heq; [apply _give_energy_log|done].
  - eapply Heq; [apply _decay_agent_energy_log|done].
  - eapply Heq; [apply _consume_reactor_energy_log|done].
  - eapply Heq; [eapply _apply_reactor_consequences_log; eauto|done].
Qed.

(** X2.  The report ledger of a reachable world never holds more than 50
    entries. *)
Theorem deposit_history_bounded (c : Config) (w : World) :
  reachable c w -> (length (deposit_reports w) <= 50)%nat.
Proof.
  induction 1 as [spawn w H|w agent w' _ IH _ H|w g w' g' _ IH H].
  - unfold __post_init__ in H. simpl in H.
    destruct (in_bounds _ _ _); inv_res; simpl; lia.
  - apply add_agent_spec in H as (p & _ & ->). done.
  - apply step_prims in H.
    eapply (prims_preserve (fun w => (length (deposit_reports w) <= 50)%nat));
      [|exact H|exact IH].
    intros w1 w2. apply prim_ledger.
Qed.

(** ** Agents stay on the grid *)

Lemma agents_in_bounds_places w w' :
  cfg w' = cfg w ->
  (forall k, place_of w' k = place_of w k) ->
  agents_in_bounds w -> agents_in_bounds w'.
Proof.
  intros Hc Hp Hin k a Ha.
  pose proof (place_of_Some _ _ _ Ha) as Hpl. rewrite Hp in Hpl.
  apply place_of_inv in Hpl as (a0 & Ha0 & _ & Hpos).
  rewrite <- Hpos. specialize (Hin _ _ Ha0).
  apply in_bounds_iff. apply in_bounds_iff in Hin. by rewrite Hc.
Qed.

Lemma _clamp_in_bounds w x y :
  0 < width (cfg w) -> 0 < height (cfg w) ->
  in_bounds w (_clamp w x y).1 (_clamp w x y).2 = true.
Proof. intros. apply in_bounds_iff. unfold _clamp. simpl. lia. Qed.

Lemma _move_in_bounds w aid dx dy :
  0 < width (cfg w) -> 0 < height (cfg w) ->
  agents_in_bounds w -> agents_in_bounds (_move w aid dx dy).
Proof.
  intros Hw Hh Hin. unfold _move.
  destruct (OD.get aid (agents w)) as [agent|] eqn:Hget; [|done].
  destruct (Agent.position agent) as [x y] eqn:Hpos.
  set (target := if negb (in_bounds w (x + dx) (y + dy))
                 then _clamp w (x + dx) (y + dy) else (x + dx, y + dy)).
  assert (in_bounds w target.1 target.2 = true) as Ht.
  { unfold target. destruct (in_bounds w (x + dx) (y + dy)) eqn:E; simpl;
      [done|by apply _clamp_in_bounds]. }
  cbv beta iota zeta. fold target. destruct target as [nx ny]. simpl in Ht.
  destruct (bool_decide ((nx, ny) = (x, y))); [done|].
  match goal with |- context [if ?c then w else _] => destruct c; [done|] end.
  match goal with
  | |- agents_in_bounds (_auto_deposit (_update_request_position ?w1 _) _) =>
      assert (agents_in_bounds w1) as Hw1
  end.
  { intros k a. unfold update_agent. simpl. rewrite Hget. simpl.
    destruct (decide (aid = k)) as [<-|Hne].
    - rewrite od_get_set_eq. intros [= <-]. done.
    - rewrite od_get_set_ne by done. apply Hin. }
  eapply agents_in_bounds_places; [| |exact Hw1].
  - etrans; [apply _auto_deposit_frame|apply _update_request_position_frame].
  - intros k. etrans; [apply _auto_deposit_frame|].
    apply _update_request_position_frame.
Qed.

Lemma od_get_pop_Some {V} (d : OD.t V) k k' v :
  OD.get k' (OD.pop k d) = Some v -> OD.get k' d = Some v.
Proof.
  destruct (decide (k = k')) as [<-|Hne].
  - by rewrite od_get_pop_eq.
  - by rewrite od_get_pop_ne.
Qed.

Lemma _decay_agent_energy_in_bounds w :
  agents_in_bounds w -> agents_in_bounds (_decay_agent_energy w).
Proof.
  unfold _decay_agent_energy. destruct (agent_energy_decay (cfg w) <=? 0); [done|].
  intros Hinv.
  match goal with |- context [foldl ?f ?w0 ?l] => generalize l; set (w1 := w0) end.
  assert (agents_in_bounds w1) as Hw1.
  { eapply agents_in_bounds_places; [| |exact Hinv]; [done|].
    set (f := fun a : Agent.t =>
                Agent.set_energy
                  (Z.max 0 (Agent.energy a - agent_energy_decay (cfg w))) a).
    intros k. unfold w1, place_of. simpl. rewrite (od_get_map f).
    by destruct (OD.get k (agents w)). }
  clearbody w1. clear Hinv. intros l. revert w1 Hw1.
  induction l as [|k l IH]; simpl; intros w1 Hw1; [done|].
  apply IH. destruct (OD.get k (agents w1)) eqn:Hget; [|done].
  intros k' a Ha. simpl in Ha. apply od_get_pop_Some in Ha.
  apply (Hw1 _ _ Ha).
Qed.

Lemma prim_in_bounds w w' :
  0 < width (cfg w) -> 0 < height (cfg w) ->
  prim w w' -> agents_in_bounds w -> agents_in_bounds w'.
Proof.
  intros Hw Hh H Hin.
  assert (forall w2, cfg w2 = cfg w -> eq_places w w2 -> agents_in_bounds w2)
    as Hframe.
  { intros w2 Hc (_ & _ & Hp). by eapply agents_in_bounds_places. }
  pose proof (prim_cfg _ _ H) as Hc.
  destruct H.
  - apply Hframe; [done|]. apply set_tick_frame.
  - apply Hframe; [done|]. apply _prune_help_requests_frame.
  - apply Hframe; [done|]. apply cancel_help_request_frame.
  - apply Hframe; [done|]. apply _decay_helper_signals_frame.
  - apply Hframe; [done|]. apply _auto_deposit_frame.
  - apply Hframe; [done|]. apply set_pending_action_frame.
  - by apply _move_in_bounds.
  - apply Hframe; [done|]. eapply _gather_energy_spec; eauto.
  - apply Hframe; [done|]. apply _deposit_energy_frame.
  - apply Hframe; [done|]. apply _record_deposit_report_frame.
  - apply Hframe; [done|]. apply _register_help_request_frame.
  - apply Hframe; [done|]. apply _give_energy_frame.
  - by apply _decay_agent_energy_in_bounds.
  - apply Hframe; [done|]. apply _consume_reactor_energy_frame.
  - apply Hframe; [done|]. eapply _apply_reactor_consequences_spec; eauto.
Qed.

Lemma _ensure_free_position_in_bounds w p q :
  in_bounds w p.1 p.2 = true ->
  _ensure_free_position w p = Ok q -> in_bounds w q.1 q.2 = true.
Proof.
  unfold _ensure_free_position. destruct p as [x y]. intros Hp.
  destruct (negb (is_occupied w x y)); [by intros [= <-]|].
  destruct (List.find _ _) as [c|] eqn:Hf; [|done].
  intros [= <-]. apply find_some in Hf as [Hc _].
  apply list_elem_of_In, elem_of_scan_cells in Hc.
  apply in_bounds_iff. lia.
Qed.

(** X3.  On a grid with at least one cell, every agent of a reachable
    world stands on a cell of the grid. *)
Theorem agents_stay_in_bounds (c : Config) (w : World) :
  0 < width c -> 0 < height c ->
  reachable c w ->
  forall k a, OD.get k (agents w) = Some a ->
    0 <= (Agent.position a).1 < width c /\
    0 <= (Agent.position a).2 < height c.
Proof.
  intros Hw Hh Hr.
  assert (agents_in_bounds w) as Hin.
  2:{ intros k a Ha. apply Hin, in_bounds_iff in Ha.
      by rewrite (reachable_cfg _ _ Hr) in Ha. }
  induction Hr as [spawn w H|w agent w' Hr IH _ H|w g w' g' Hr IH H].
  - destruct (__post_init___spec c spawn) as (w0 & H0 & _ & _ & Hag & _).
    rewrite H in H0. injection H0 as <-. intros k a. by rewrite Hag.
  - pose proof (reachable_cfg _ _ Hr) as Hc.
    apply add_agent_spec in H as (p & Hp & ->).
    apply _ensure_free_position_in_bounds in Hp;
      [|apply _clamp_in_bounds; by rewrite Hc].
    intros k a. simpl.
    destruct (decide (Agent.id agent = k)) as [<-|Hne].
    + rewrite od_get_set_eq. intros [= <-]. exact Hp.
    + rewrite od_get_set_ne by done. apply IH.
  - pose proof (reachable_cfg _ _ Hr) as Hc.
    apply step_prims in H.
    eapply (prims_preserve
              (fun w => cfg w = c /\ agents_in_bounds w)); [|exact H|done].
    intros w1 w2 Hp [Hc1 Hin1]. split.
    + by rewrite (prim_cfg _ _ Hp).
    + eapply prim_in_bounds; [| |exact Hp|exact Hin1]; by rewrite Hc1.
Qed.

(** ** Energy decay and the removal of depleted agents *)

Lemma _decay_agent_energy_unfold w :
  _decay_agent_energy w =
  if agent_energy_decay (cfg w) <=? 0 then w
  else
    foldl purge
      (set_agents (List.map (fun kv => (kv.1, decayed (cfg w) kv.2)) (agents w)) w)
      (List.map fst
         (List.filter (fun kv : AgentID * Agent.t => Agent.energy kv.2 <=? 0)
            (List.map (fun kv => (kv.1, decayed (cfg w) kv.2)) (agents w)))).
Proof. reflexivity. Qed.

Lemma purge_other w k0 k :
  k0 <> k ->
  OD.get k (agents (purge w k0)) = OD.get k (agents w) /\
  OD.get k (help_requests (purge w k0)) = OD.get k (help_requests w) /\
  helper_signals (purge w k0) !! k = helper_signals w !! k.
Proof.
  intros Hne. unfold purge. destruct (OD.get k0 (agents w)); [|done]. simpl.
  rewrite !od_get_pop_ne by done. by rewrite lookup_delete_ne.
Qed.

Lemma purge_gone w k0 k p :
  (OD.get k (agents w) = None -> OD.get k (agents (purge w k0)) = None) /\
  (occupancy w !! p = None -> occupancy (purge w k0) !! p = None) /\
  (OD.get k (help_requests w) = None ->
   OD.get k (help_requests (purge w k0)) = None) /\
  (helper_signals w !! k = None -> helper_signals (purge w k0) !! k = None).
Proof.
  unfold purge. destruct (OD.get k0 (agents w)); [|done]. simpl.
  split_and!; intros H.
  - rewrite od_get_pop. by destruct (decide _).
  - by apply lookup_delete_None; right.
  - rewrite od_get_pop. by destruct (decide _).
  - by apply lookup_delete_None; right.
Qed.

Lemma purge_self w k a :
  OD.get k (agents w) = Some a ->
  OD.get k (agents (purge w k)) = None /\
  occupancy (purge w k) !! Agent.position a = None /\
  OD.get k (help_requests (purge w k)) = None /\
  helper_signals (purge w k) !! k = None.
Proof.
  intros H. unfold purge. rewrite H. simpl.
  by rewrite !od_get_pop_eq, !lookup_delete_eq.
Qed.

Lemma foldl_purge_other l w k :
  k ∉ l ->
  OD.get k (agents (foldl purge w l)) = OD.get k (agents w) /\
  OD.get k (help_requests (foldl purge w l)) = OD.get k (help_requests w) /\
  helper_signals (foldl purge w l) !! k = helper_signals w !! k.
Proof.
  revert w. induction l as [|k0 l IH]; simpl; intros w Hk; [done|].
  apply not_elem_of_cons in Hk as [Hne Hk].
  destruct (IH (purge w k0) Hk) as (-> & -> & ->).
  by apply purge_other.
Qed.

Lemma foldl_purge_gone l w k p :
  (OD.get k (agents w) = None -> OD.get k (agents (foldl purge w l)) = None) /\
  (occupancy w !! p = None -> occupancy (foldl purge w l) !! p = None) /\
  (OD.get k (help_requests w) = None ->
   OD.get k (help_requests (foldl purge w l)) = None) /\
  (helper_signals w !! k = None ->
   helper_signals (foldl purge w l) !! k = None).
Proof.
  revert w. induction l as [|k0 l IH]; simpl; intros w; [done|].
  destruct (IH (purge w k0)) as (H1 & H2 & H3 & H4).
  destruct (purge_gone w k0 k p) as (G1 & G2 & G3 & G4).
  split_and!; auto.
Qed.

Lemma foldl_purge_self l w k a :
  k ∈ l -> OD.get k (agents w) = Some a ->
  OD.get k (agents (foldl purge w l)) = None /\
  occupancy (foldl purge w l) !! Agent.position a = None /\
  OD.get k (help_requests (foldl purge w l)) = None /\
  helper_signals (foldl purge w l) !! k = None.
Proof.
  revert w. induction l as [|k0 l IH]; simpl; intros w Hk Ha.
  - by apply elem_of_nil in Hk.
  - destruct (decide (k0 = k)) as [->|Hne].
    + destruct (purge_self w k a Ha) as (P1 & P2 & P3 & P4).
      destruct (foldl_purge_gone l (purge w k) k (Agent.position a))
        as (G1 & G2 & G3 & G4). auto.
    + apply elem_of_cons in Hk as [->|Hk]; [done|].
      apply IH; [done|]. destruct (purge_other w k0 k Hne) as (-> & _). done.
Qed.

Lemma od_elem_pop {V} (d : OD.t V) k kv :
  kv ∈ OD.pop k d -> kv ∈ d /\ kv.1 <> k.
Proof.
  induction d as [|[k' v'] d IHd]; simpl; intros H.
  - by apply elem_of_nil in H.
  - destruct (decide (k' = k)) as [->|Hk'].
    + destruct (IHd H) as [? ?]. split; [by right|done].
    + apply elem_of_cons in H as [->|H]; [split; [left|done]|].
      destruct (IHd H) as [? ?]. split; [by right|done].
Qed.

(** The entries that are left after the removals. *)
Lemma foldl_purge_elem l w kv :
  kv ∈ agents (foldl purge w l) -> kv ∈ agents w /\ kv.1 ∉ l.
Proof.
  revert w. induction l as [|k0 l IH]; simpl; intros w H.
  - split; [done|]. apply not_elem_of_nil.
  - apply IH in H as [H Hl].
    assert (kv ∈ agents w /\ kv.1 <> k0) as [Hin Hne].
    { unfold purge in H. destruct (OD.get k0 (agents w)) eqn:E; simpl in H.
      - by apply od_elem_pop in H.
      - split; [done|]. intros <-. apply od_get_None in E. apply E.
        unfold OD.keys. apply list_elem_of_fmap. by exists kv. }
    split; [done|]. by apply not_elem_of_cons.
Qed.

Lemma _decay_agent_energy_alive w :
  0 < agent_energy_decay (cfg w) ->
  forall kv, kv ∈ agents (_decay_agent_energy w) -> 0 < Agent.energy kv.2.
Proof.
  intros Hd kv. rewrite _decay_agent_energy_unfold.
  replace (agent_energy_decay (cfg w) <=? 0) with false by lia.
  intros H. apply foldl_purge_elem in H as [Hin Hout]. simpl in Hin.
  destruct (decide (0 < Agent.energy kv.2)) as [|Hle]; [done|].
  exfalso. apply Hout. apply list_elem_of_In, in_map.
  apply filter_In. split; [by apply list_elem_of_In|]. lia.
Qed.

(** X4.  [_decay_agent_energy] with a positive decay: an agent that holds
    more than the decay loses exactly the decay and keeps everything
    else, its request and its helper signal included; an agent that
    holds no more than the decay is removed from the agents, its cell is
    freed, and its help request and helper signal are dropped.  No agent
    appears. *)
Theorem decay_drains_or_removes (w : World) :
  0 < agent_energy_decay (cfg w) ->
  NoDup (OD.keys (agents w)) ->
  let w' := _decay_agent_energy w in
  (forall k a, OD.get k (agents w) = Some a ->
     (agent_energy_decay (cfg w) < Agent.energy a ->
        OD.get k (agents w') =
          Some (Agent.set_energy
                  (Agent.energy a - agent_energy_decay (cfg w)) a) /\
        OD.get k (help_requests w') = OD.get k (help_requests w) /\
        helper_signals w' !! k = helper_signals w !! k) /\
     (Agent.energy a <= agent_energy_decay (cfg w) ->
        OD.get k (agents w') = None /\
        occupancy w' !! Agent.position a = None /\
        OD.get k (help_requests w') = None /\
        helper_signals w' !! k = None)) /\
  (forall k, OD.get k (agents w) = None -> OD.get k (agents w') = None).
Proof.
  intros Hd Hnd w'. unfold w'. rewrite _decay_agent_energy_unfold.
  replace (agent_energy_decay (cfg w) <=? 0) with false by lia.
  set (D := List.map (fun kv => (kv.1, decayed (cfg w) kv.2)) (agents w)).
  set (l := List.map fst (List.filter _ D)).
  assert (forall k, OD.get k D = decayed (cfg w) <$> OD.get k (agents w)) as HD.
  { intros k. apply (od_get_map (decayed (cfg w))). }
  assert (forall k, k ∈ l <->
            exists a, OD.get k (agents w) = Some a /\
                      Agent.energy a <= agent_energy_decay (cfg w)) as Hl.
  { intros k. unfold l. rewrite list_elem_of_In, in_map_iff. split.
    - intros ([k' a'] & <- & Hin). apply filter_In in Hin as [Hin He].
      simpl in *. apply list_elem_of_In in Hin.
      apply od_elem_get in Hin.
      2:{ unfold D. by rewrite (od_keys_map (decayed (cfg w))). }
      rewrite HD in Hin. destruct (OD.get k' (agents w)) as [a|]; [|done].
      injection Hin as <-. exists a. split; [done|]. simpl in He. lia.
    - intros (a & Ha & He). exists (k, decayed (cfg w) a). split; [done|].
      apply filter_In. split; [|simpl; lia].
      apply list_elem_of_In, od_get_Some_elem. by rewrite HD, Ha. }
  split.
  - intros k a Ha. split; intros He.
    + destruct (foldl_purge_other l (set_agents D w) k) as (-> & -> & ->).
      { rewrite Hl. intros (a' & Ha' & He'). rewrite Ha in Ha'.
        injection Ha' as <-. lia. }
      simpl. rewrite HD, Ha. simpl. unfold decayed.
      split_and!; [|done..]. do 2 f_equal. lia.
    + destruct (foldl_purge_self l (set_agents D w) k (decayed (cfg w) a))
        as (P1 & P2 & P3 & P4); [apply Hl; eauto|simpl; by rewrite HD, Ha|].
      done.
  - intros k Hk.
    apply (foldl_purge_gone l (set_agents D w) k (0, 0)). simpl.
    by rewrite HD, Hk.
Qed.

Lemma _consume_reactor_energy_agents w :
  agents (_consume_reactor_energy w) = agents w.
Proof. unfold _consume_reactor_energy. by destruct (_ <=? 0). Qed.

Lemma _apply_reactor_consequences_agents w w' :
  _apply_reactor_consequences w = Ok w' -> agents w' = agents w.
Proof.
  unfold _apply_reactor_consequences, _dwindle_resources.
  destruct (negb _). { by intros [= <-]. }
  destruct (_ <=? 0). { by intros [= <-]. }
  intros H. apply res_bind_Ok in H as ([eg rg] & _ & [= <-]). done.
Qed.

(** X5.  With a positive decay, every agent that is left after a tick
    holds a positive amount of energy: the depleted ones are gone. *)
Theorem step_leaves_no_depleted_agent
    (w : World) (g : RNG) (w' : World) (g' : RNG) :
  0 < agent_energy_decay (cfg w) ->
  step w g = Ok (w', g') ->
  forall k a, OD.get k (agents w') = Some a -> 0 < Agent.energy a.
Proof.
  intros Hd H k a Ha. unfold step in H.
  apply res_bind_Ok in H as ([w1 g1] & H1 & H).
  apply res_bind_Ok in H as ([w2 g2] & H2 & H).
  apply res_bind_Ok in H as (w3 & H3 & [= <- <-]).
  apply _apply_reactor_consequences_agents in H3.
  rewrite H3, _consume_reactor_energy_agents in Ha.
  assert (cfg w2 = cfg w) as Hc.
  { apply (foldM_prims decide_one) in H1; [|apply decide_one_prims].
    apply (foldM_prims apply_one) in H2; [|apply apply_one_prims].
    apply (prims_preserve (fun w0 => cfg w0 = cfg w)) in H1.
    - apply (prims_preserve (fun w0 => cfg w0 = cfg w)) in H2; [done| |done].
      intros ? ? Hp <-. by apply prim_cfg.
    - intros ? ? Hp <-. by apply prim_cfg.
    - unfold _decay_helper_signals, _prune_help_requests.
      by destruct (_ <? 0). }
  apply od_get_Some_elem in Ha.
  apply (_decay_agent_energy_alive w2) in Ha; [done|by rewrite Hc].
Qed.

(** ** The resource field, cell by cell *)

Lemma dwindle_row_stored c amount y row : forall x rg row' rg',
  rows_wf c rg -> 0 <= y < height c -> 0 <= x ->
  (0 < Z.of_nat (length row) -> x + Z.of_nat (length row) <= width c) ->
  dwindle_row amount y x row rg = Ok (row', rg') ->
  row' = List.map (dwindled amount) row /\
  forall x' y', 0 <= x' -> 0 <= y' ->
    stored rg' x' y' =
    match (if decide (y' = y /\ x <= x') then row !! Z.to_nat (x' - x)
           else None) with
    | Some e => dwindled_flag amount e <$> stored rg x' y'
    | None => stored rg x' y'
    end.
Proof.
  induction row as [|v row IH]; simpl; intros x rg row' rg' Hrg Hy Hx Hlen H.
  { injection H as <- <-. split; [done|]. intros x' y' _ _.
    by destruct (decide _). }
  assert (exists rg1,
            (if Z.max 0 (v - amount) <=? 0
             then flag ← grid_get rg x y;
                  if flag : bool then grid_set rg x y false else Ok rg
             else Ok rg) = Ok rg1 /\ rows_wf c rg1 /\
            forall x' y', 0 <= x' -> 0 <= y' ->
              stored rg1 x' y' =
              if decide ((x', y') = (x, y))
              then (fun flag => if Z.max 0 (v - amount) <=? 0 then false else flag)
                     <$> stored rg x' y'
              else stored rg x' y') as (rg1 & Hrg1 & Hwf1 & Hst1).
  { clear H IH. destruct (Z.max 0 (v - amount) <=? 0).
    - destruct (rows_wf_stored c rg x y Hrg) as (flag & Hst & ->); [lia..|].
      rewrite bind_Ok_l. destruct flag.
      + destruct (grid_set_in_range c rg x y false Hrg) as (? & _ & Hs); [lia..|].
        rewrite Hs. eexists. split; [reflexivity|].
        split; [eapply grid_set_rows_wf; eauto|].
        intros x' y' Hx' Hy'.
        rewrite (stored_grid_set c rg _ x y false Hrg) by (done || lia).
        destruct (decide _) as [[= -> ->]|]; [by rewrite Hst|done].
      + exists rg. split_and!; [done..|]. intros x' y' _ _.
        destruct (decide _) as [[= -> ->]|]; [by rewrite Hst|done].
    - exists rg. split_and!; [done..|]. intros x' y' _ _.
      destruct (decide _); [|done]. by destruct (stored rg x' y'). }
  assert (forall x' y', 0 <= x' -> 0 <= y' ->
            (if decide (y' = y /\ x <= x')
             then (v :: row) !! Z.to_nat (x' - x) else None) =
            if decide ((x', y') = (x, y)) then Some v
            else if decide (y' = y /\ x + 1 <= x')
                 then row !! Z.to_nat (x' - (x + 1)) else None) as Hsel.
  { intros x' y' Hx' Hy'.
    destruct (decide ((x', y') = (x, y))) as [[= -> ->]|Hne].
    - rewrite decide_True by lia. by replace (x - x) with 0 by lia.
    - destruct (decide (y' = y /\ x <= x')) as [[-> Hle]|Hn].
      + assert (x' <> x) by congruence.
        rewrite decide_True by lia.
        replace (Z.to_nat (x' - x)) with (S (Z.to_nat (x' - (x + 1)))) by lia.
        done.
      + by rewrite decide_False by lia. }
  destruct (v <=? 0) eqn:Hv.
  - apply res_bind_Ok in H as ([rest' rg2] & Hrest & [= <- <-]).
    destruct (IH (x + 1) rg rest' rg2) as (-> & Hst); [done|done|lia..|done|].
    split. { simpl. f_equal. unfold dwindled. by rewrite Hv. }
    intros x' y' Hx' Hy'. rewrite Hst, Hsel by done.
    destruct (decide ((x', y') = (x, y))) as [[= -> ->]|Hne]; [|done].
    rewrite decide_False by lia. unfold dwindled_flag.
    replace (0 <? v) with false by lia. simpl.
    by destruct (stored rg x y).
  - rewrite Hrg1, bind_Ok_l in H.
    apply res_bind_Ok in H as ([rest' rg2] & Hrest & [= <- <-]).
    destruct (IH (x + 1) rg1 rest' rg2) as (-> & Hst); [done|done|lia..|done|].
    split. { simpl. f_equal. unfold dwindled. by rewrite Hv. }
    intros x' y' Hx' Hy'. rewrite Hst, Hsel, Hst1 by done.
    destruct (decide ((x', y') = (x, y))) as [[= -> ->]|Hne].
    + rewrite decide_False by lia. unfold dwindled_flag.
      replace (0 <? v) with true by lia. done.
    + done.
Qed.

Lemma dwindle_rows_stored c amount eg : forall y rg eg' rg',
  rows_wf c rg -> 0 <= y ->
  (0 < Z.of_nat (length eg) -> y + Z.of_nat (length eg) <= height c) ->
  Forall (fun row => length row = Z.to_nat (width c)) eg ->
  dwindle_rows amount y eg rg = Ok (eg', rg') ->
  eg' = List.map (List.map (dwindled amount)) eg /\
  forall x' y', 0 <= x' -> 0 <= y' ->
    stored rg' x' y' =
    match (if decide (y <= y')
           then row ← eg !! Z.to_nat (y' - y); row !! Z.to_nat x'
           else None) with
    | Some e => dwindled_flag amount e <$> stored rg x' y'
    | None => stored rg x' y'
    end.
Proof.
  induction eg as [|row eg IH]; simpl; intros y rg eg' rg' Hrg Hy Hlen Hall H.
  { injection H as <- <-. split; [done|]. intros x' y' _ _.
    by destruct (decide _). }
  apply Forall_cons in Hall as [Hrow Hall].
  apply res_bind_Ok in H as ([row' rg1] & Hr & H).
  apply res_bind_Ok in H as ([rows' rg2] & Hrs & [= <- <-]).
  pose proof (dwindle_row_spec c _ _ _ _ _ _ _ Hr) as [_ Hwf1].
  apply (dwindle_row_stored c) in Hr as (-> & Hst1); [|done|lia..].
  apply IH in Hrs as (-> & Hst2); [|auto|lia..|done].
  split; [done|]. intros x' y' Hx' Hy'. rewrite Hst2, Hst1 by done.
  destruct (decide (y' = y)) as [->|Hne].
  - rewrite (decide_False (P := y + 1 <= y)) by lia.
    rewrite (decide_True (P := y <= y)) by lia.
    rewrite (decide_True (P := y = y /\ 0 <= x')) by lia.
    replace (y - y) with 0 by lia. simpl.
    by replace (x' - 0) with x' by lia.
  - rewrite (decide_False (P := y' = y /\ 0 <= x')) by lia.
    destruct (decide (y <= y')) as [Hle|Hgt].
    + rewrite decide_True by lia.
      replace (Z.to_nat (y' - y)) with (S (Z.to_nat (y' - (y + 1)))) by lia.
      done.
    + by rewrite decide_False by lia.
Qed.

Lemma _dwindle_resources_cells w amount :
  grid_wf w ->
  (amount <= 0 -> _dwindle_resources w amount = Ok w) /\
  (0 < amount ->
   exists w',
     _dwindle_resources w amount = Ok w' /\
     eq_reactor w w' /\ eq_places w w' /\
     help_requests w' = help_requests w /\
     forall x y e flag,
       in_bounds w x y = true ->
       stored (energy_grid w) x y = Some e ->
       stored (resource_grid w) x y = Some flag ->
       stored (energy_grid w') x y =
         Some (if 0 <? e then Z.max 0 (e - amount) else e) /\
       stored (resource_grid w') x y =
         Some (if (0 <? e) && (e <=? amount) then false else flag)).
Proof.
  intros [[Hlen Hall] Hrg]. unfold _dwindle_resources. split.
  { intros Ha. by replace (amount <=? 0) with true by lia. }
  intros Ha. replace (amount <=? 0) with false by lia.
  destruct (dwindle_rows_total (cfg w) amount (energy_grid w) 0 (resource_grid w))
    as (eg & rg & Hd); [done|lia..|done|].
  rewrite Hd. simpl. eexists. split; [done|].
  apply (dwindle_rows_stored (cfg w)) in Hd as (-> & Hst); [|done|lia..|done].
  split_and!; [done..|].
  intros x y e flag Hb He Hf. apply in_bounds_iff in Hb. simpl. split.
  - unfold stored in *. rewrite list_lookup_fmap.
    destruct (energy_grid w !! Z.to_nat y) as [row|]; [|done]. simpl in *.
    rewrite list_lookup_fmap, He. simpl. unfold dwindled.
    do 2 f_equal. destruct (e <=? 0) eqn:E1, (0 <? e) eqn:E2; lia.
  - rewrite Hst by lia. rewrite decide_True by lia.
    replace (y - 0) with y by lia. fold (stored (energy_grid w) x y).
    rewrite He, Hf. simpl. unfold dwindled_flag. f_equal.
    destruct (0 <? e) eqn:E1; simpl; [|done].
    destruct (Z.max 0 (e - amount) <=? 0) eqn:E2, (e <=? amount) eqn:E3;
      try done; lia.
Qed.

(** X6.  [_dwindle_resources] on well-formed grids: every cell that holds
    energy loses [amount], never going below zero, and loses its resource
    flag when it reaches zero; empty cells keep energy and flag.  Nothing
    but the two grids changes: the agents' records, the occupancy, the
    reactor, the requests, the helper signals, the ledger, the tick and
    the knobs are the same afterwards.  A non-positive amount changes
    nothing. *)
Theorem dwindle_resources_cellwise (w : World) (amount : Z) :
  grid_wf w ->
  (amount <= 0 -> _dwindle_resources w amount = Ok w) /\
  (0 < amount ->
   exists w',
     _dwindle_resources w amount = Ok w' /\
     cfg w' = cfg w /\ tick w' = tick w /\
     agents w' = agents w /\ occupancy w' = occupancy w /\
     reactor w' = reactor w /\ deposit_reports w' = deposit_reports w /\
     help_requests w' = help_requests w /\
     helper_signals w' = helper_signals w /\
     forall x y e flag,
       in_bounds w x y = true ->
       stored (energy_grid w) x y = Some e ->
       stored (resource_grid w) x y = Some flag ->
       stored (energy_grid w') x y =
         Some (if 0 <? e then Z.max 0 (e - amount) else e) /\
       stored (resource_grid w') x y =
         Some (if (0 <? e) && (e <=? amount) then false else flag)).
Proof.
  intros Hwf. destruct (_dwindle_resources_cells w amount Hwf) as [Hidle Hcut].
  split; [done|]. intros Ha.
  destruct (Hcut Ha) as (w' & Hw & _ & _ & _ & Hcells).
  exists w'. split; [done|].
  assert (exists eg rg, w' = set_resource_grid rg (set_energy_grid eg w))
    as (eg & rg & ->).
  { unfold _dwindle_resources in Hw.
    replace (amount <=? 0) with false in Hw by lia.
    destruct (dwindle_rows amount 0 (energy_grid w) (resource_grid w))
      as [[eg rg]|]; [|done].
    injection Hw as <-. eauto. }
  by split_and!.
Qed.

Lemma stored_init {A} (f : Z -> Z -> A) wd ht x y :
  0 <= x < wd -> 0 <= y < ht ->
  stored (List.map (fun y => List.map (fun x => f x y) (py_range 0 wd))
            (py_range 0 ht)) x y = Some (f x y).
Proof.
  intros Hx Hy. unfold stored, py_range.
  rewrite list_lookup_fmap, lookup_seqZ_lt by lia. simpl.
  rewrite list_lookup_fmap, lookup_seqZ_lt by lia. simpl.
  do 2 f_equal; lia.
Qed.

Lemma stored_map {A B} (f : A -> B) (g : list (list A)) x y :
  stored (List.map (List.map f) g) x y = f <$> stored g x y.
Proof.
  unfold stored. rewrite list_lookup_fmap.
  destruct (g !! Z.to_nat y) as [row|]; [|done]. simpl.
  by rewrite list_lookup_fmap.
Qed.

Lemma __post_init___cells c spawn w :
  __post_init__ c spawn = Ok w ->
  forall x y, 0 <= x < width c -> 0 <= y < height c ->
    let has :=
      spawn x y &&
      negb (bool_decide ((x, y) = (width c `div` 2, height c `div` 2))) in
    stored (resource_grid w) x y = Some has /\
    stored (energy_grid w) x y = Some (if has then max_energy c else 0).
Proof.
  unfold __post_init__.
  set (rg := List.map _ (py_range 0 (height c))).
  set (eg := List.map _ rg).
  assert (rows_wf c rg) as Hrg.
  { unfold rows_wf, rg, py_range. split.
    - rewrite length_map, length_seqZ. lia.
    - apply Forall_map, Forall_forall. intros y _. simpl.
      rewrite length_map, length_seqZ. lia. }
  assert (rows_wf c eg) as Heg.
  { destruct Hrg as [Hl Hr]. unfold rows_wf, eg. split.
    - by rewrite length_map.
    - apply Forall_map. eapply Forall_impl; [exact Hr|]. intros row Hrow.
      simpl. by rewrite length_map. }
  assert (forall x y, 0 <= x < width c -> 0 <= y < height c ->
            stored rg x y = Some (spawn x y) /\
            stored eg x y = Some (if spawn x y then max_energy c else 0))
    as Hinit.
  { intros x y Hx Hy. unfold eg. rewrite stored_map. unfold rg.
    by rewrite (stored_init spawn) by done. }
  set (w0 := mkWorld _ _ _ _ _ _ _ _ _ _).
  destruct (in_bounds w0 (width c `div` 2) (height c `div` 2)) eqn:Hb.
  - apply in_bounds_iff in Hb. simpl in Hb. intros H.
    apply res_bind_Ok in H as (rg' & Hs1 & H).
    apply res_bind_Ok in H as (eg' & Hs2 & [= <-]).
    intros x y Hx Hy. simpl.
    rewrite (stored_grid_set c rg rg' (width c `div` 2) (height c `div` 2)
               false Hrg) by (done || lia).
    rewrite (stored_grid_set c eg eg' (width c `div` 2) (height c `div` 2)
               0 Heg) by (done || lia).
    destruct (Hinit x y Hx Hy) as [-> ->].
    destruct (decide _) as [E|E].
    + rewrite bool_decide_eq_true_2 by done. by rewrite andb_false_r.
    + rewrite bool_decide_eq_false_2 by done. by rewrite andb_true_r.
  - intros [= <-] x y Hx Hy. simpl.
    destruct (Hinit x y Hx Hy) as [-> ->].
    rewrite bool_decide_eq_false_2; [by rewrite andb_true_r|].
    intros [= -> ->]. unfold in_bounds in Hb. simpl in Hb. lia.
Qed.

(** X7.  The constructor always succeeds.  It starts at tick 0 without
    agents, with the reactor on the middle cell holding the initial
    energy clamped into [0, capacity]; a cell is a resource holding
    [max_energy] exactly when its draw succeeded and it is not the
    reactor's cell, and holds nothing otherwise. *)
Theorem post_init_lays_out_world (c : Config) (spawn : Z -> Z -> bool) :
  exists w,
    __post_init__ c spawn = Ok w /\
    cfg w = c /\ tick w = 0 /\ agents w = [] /\ occupancy w = ∅ /\
    reactor w =
      Reactor.mk (width c `div` 2, height c `div` 2) (reactor_capacity c)
        (Z.max 0 (Z.min (reactor_initial_energy c) (reactor_capacity c))) /\
    forall x y, 0 <= x < width c -> 0 <= y < height c ->
      let has :=
        spawn x y &&
        negb (bool_decide ((x, y) = (width c `div` 2, height c `div` 2))) in
      stored (resource_grid w) x y = Some has /\
      stored (energy_grid w) x y = Some (if has then max_energy c else 0).
Proof.
  destruct (__post_init___spec c spawn) as (w & H & Hc & Ht & Ha & Ho & _ & Hr).
  exists w. split_and!; [done..|]. by apply __post_init___cells.
Qed.

(** ** Flags and energy agree *)

Lemma cells_ok_eq_grid w w' : eq_grid w w' -> cells_ok w -> cells_ok w'.
Proof.
  intros (Hc & He & Hr) Hok x y Hb. unfold cell_ok. rewrite He, Hr, Hc.
  apply Hok. apply in_bounds_iff. apply in_bounds_iff in Hb. by rewrite <- Hc.
Qed.

Lemma _gather_energy_cells w a g w' g' :
  0 < max_energy (cfg w) -> grid_wf w ->
  _gather_energy w a g = Ok (w', g') -> cells_ok w -> cells_ok w'.
Proof.
  intros Hmax Hwf H Hok.
  pose proof (_gather_energy_spec _ _ _ _ _ H) as ((Hc & _) & _).
  destruct (OD.get a (agents w)) as [agent|] eqn:Hget.
  2:{ unfold _gather_energy in H. rewrite Hget in H. by injection H as <- <-. }
  destruct (cell_energy_grid_wf w (Agent.position agent).1
              (Agent.position agent).2 Hwf) as (E & HE & _).
  destruct (decide (E <= 0)) as [Hle|Hgt].
  { unfold _gather_energy in H. rewrite Hget in H.
    destruct (Agent.position agent) as [x y]. simpl in HE.
    rewrite HE, bind_Ok_l in H. replace (E <=? 0) with true in H by lia.
    by injection H as <- <-. }
  destruct (_gather_energy_positive w a agent E g Hwf Hget HE)
    as (target & w1 & g1 & H1 & _ & _ & _ & _ & Hcells); [lia|].
  rewrite H in H1. injection H1 as <- <-.
  intros x y Hb.
  assert (in_bounds w x y = true) as Hb0.
  { apply in_bounds_iff. apply in_bounds_iff in Hb. by rewrite <- Hc. }
  destruct (Hcells (x, y) Hb0) as [He Hf]. simpl in He, Hf. unfold cell_ok.
  rewrite He, Hf, Hc.
  destruct (decide _); [|destruct (decide _)].
  - exists (max_energy (cfg w)), true. split_and!; [done|done|lia|lia|].
    split; [lia|done].
  - exists 0, false. split_and!; [done|done|lia|lia|]. split; [done|lia].
  - apply Hok, Hb0.
Qed.

Lemma _apply_reactor_consequences_cells w w' :
  grid_wf w ->
  _apply_reactor_consequences w = Ok w' -> cells_ok w -> cells_ok w'.
Proof.
  intros Hwf H Hok.
  pose proof (_apply_reactor_consequences_spec _ _ H) as ((Hc & _) & _).
  unfold _apply_reactor_consequences in H.
  destruct (negb _). { by injection H as <-. }
  destruct (_dwindle_resources_cells w (reactor_dwindle_rate (cfg w)) Hwf)
    as [Hle Hgt].
  destruct (decide (reactor_dwindle_rate (cfg w) <= 0)) as [Hr|Hr].
  { rewrite Hle in H by done. by injection H as <-. }
  destruct Hgt as (w1 & H1 & _ & _ & _ & Hcells); [lia|].
  rewrite H in H1. injection H1 as <-.
  intros x y Hb.
  assert (in_bounds w x y = true) as Hb0.
  { apply in_bounds_iff. apply in_bounds_iff in Hb. by rewrite <- Hc. }
  destruct (Hok x y Hb0) as (e & flag & He & Hf & Hrange & Hflag).
  destruct (Hcells x y e flag Hb0 He Hf) as [He' Hf']. unfold cell_ok.
  rewrite He', Hf', Hc. eexists _, _.
  split_and!; [reflexivity|reflexivity| | |].
  - destruct (0 <? e); lia.
  - destruct (0 <? e); lia.
  - destruct (0 <? e) eqn:E1; simpl.
    + destruct (e <=? reactor_dwindle_rate (cfg w)) eqn:E2.
      * split; [done|lia].
      * split; [lia|]. intros _. apply Hflag. lia.
    + done.
Qed.

Lemma prim_cells_ok w w' :
  0 < max_energy (cfg w) -> grid_wf w ->
  prim w w' -> cells_ok w -> cells_ok w'.
Proof.
  intros Hmax Hwf H Hok. destruct H.
  - eapply cells_ok_eq_grid; [apply set_tick_frame|done].
  - eapply cells_ok_eq_grid; [apply _prune_help_requests_frame|done].
  - eapply cells_ok_eq_grid; [apply cancel_help_request_frame|done].
  - eapply cells_ok_eq_grid; [apply _decay_helper_signals_frame|done].
  - eapply cells_ok_eq_grid; [apply _auto_deposit_frame|done].
  - eapply cells_ok_eq_grid; [apply set_pending_action_frame|done].
  - eapply cells_ok_eq_grid; [apply _move_grid|done].
  - eapply _gather_energy_cells; eauto.
  - eapply cells_ok_eq_grid; [apply _deposit_energy_frame|done].
  - eapply cells_ok_eq_grid; [apply _record_deposit_report_frame|done].
  - eapply cells_ok_eq_grid; [apply _register_help_request_frame|done].
  - eapply cells_ok_eq_grid; [apply _give_energy_frame|done].
  - eapply cells_ok_eq_grid; [apply _decay_agent_energy_frame|done].
  - eapply cells_ok_eq_grid; [apply _consume_reactor_energy_frame|done].
  - eapply _apply_reactor_consequences_cells; eauto.
Qed.

(** X8.  When a node holds a positive amount ([0 < max_energy]), every
    cell of a reachable world holds between 0 and [max_energy] units,
    and it is flagged as a resource exactly when it holds energy. *)
Theorem resource_flags_match_energy (c : Config) (w : World) :
  0 < max_energy c ->
  reachable c w ->
  forall x y, 0 <= x < width c -> 0 <= y < height c ->
    exists e flag,
      cell_energy w x y = Ok e /\
      stored (resource_grid w) x y = Some flag /\
      0 <= e <= max_energy c /\ (flag = true <-> 0 < e).
Proof.
  intros Hmax Hr.
  assert (cells_ok w) as Hok.
  { induction Hr as [spawn w H|w agent w' Hr IH _ H|w g w' g' Hr IH H].
    - intros x y Hb. apply in_bounds_iff in Hb.
      destruct (__post_init___spec c spawn) as (w0 & H0 & Hc & _).
      rewrite H in H0. injection H0 as <-. rewrite Hc in Hb.
      destruct (__post_init___cells c spawn w H x y) as [Hf He]; [lia..|].
      unfold cell_ok. rewrite He, Hf, Hc. eexists _, _.
      split_and!; [reflexivity|reflexivity| | |];
        destruct (_ && _); try lia; done.
    - eapply cells_ok_eq_grid; [eapply add_agent_frame, H|done].
    - pose proof (reachable_cfg _ _ Hr) as Hc.
      pose proof (reachable_world_inv _ _ Hr) as [Hwf _].
      apply step_prims in H.
      eapply (prims_preserve
                (fun w => cfg w = c /\ grid_wf w /\ cells_ok w));
        [|exact H|done].
      intros w1 w2 Hp (Hc1 & Hwf1 & Hok1). split_and!.
      + by rewrite (prim_cfg _ _ Hp).
      + by eapply prim_grid_wf.
      + eapply prim_cells_ok; [|done|exact Hp|done]. by rewrite Hc1. }
  intros x y Hx Hy.
  pose proof (reachable_cfg _ _ Hr) as Hc.
  pose proof (reachable_world_inv _ _ Hr) as [Hwf _].
  assert (in_bounds w x y = true) as Hb.
  { apply in_bounds_iff. by rewrite Hc. }
  destruct (Hok x y Hb) as (e & flag & He & Hf & Hrange & Hflag).
  destruct (cell_energy_grid_wf w x y Hwf) as (e' & He' & Hst & _).
  rewrite (Hst Hb) in He. injection He as ->.
  exists e, flag. by rewrite <- Hc.
Qed.

(** ** Moves: what is offered, what is chosen, what is carried out *)

Lemma elem_of_CARDINAL_MOVES (d : Move) :
  d ∈ CARDINAL_MOVES <->
  d = (0, 0) \/ d = (1, 0) \/ d = (-1, 0) \/ d = (0, 1) \/ d = (0, -1).
Proof.
  unfold CARDINAL_MOVES. rewrite !elem_of_cons, elem_of_nil. tauto.
Qed.

Lemma available_moves_facts (w : World) (agent : Agent.t) :
  let x := (Agent.position agent).1 in
  let y := (Agent.position agent).2 in
  let moves := available_moves w agent in
  moves <> [] /\
  (forall d, d ∈ moves -> d ∈ CARDINAL_MOVES) /\
  (forall d, d ∈ CARDINAL_MOVES -> d <> (0, 0) ->
     (d ∈ moves <->
      in_bounds w (x + d.1) (y + d.2) = true /\
      occupancy w !! (x + d.1, y + d.2) = None)) /\
  ((0, 0) ∈ moves <->
   in_bounds w x y = true \/ forall d, d ∈ moves -> d = (0, 0)).
Proof.
  intros x y moves. unfold moves, available_moves, x, y.
  destruct (Agent.position agent) as [ax ay]. cbn [fst snd]. clear x y moves.
  match goal with
  | |- context [List.filter ?k CARDINAL_MOVES] =>
      set (keep := k); set (l := List.filter keep CARDINAL_MOVES)
  end.
  assert (forall d, d ∈ l <-> d ∈ CARDINAL_MOVES /\ keep d = true) as Hl.
  { intros d. unfold l. rewrite !list_elem_of_In, filter_In. tauto. }
  assert (forall d, d <> (0, 0) ->
            (keep d = true <->
             in_bounds w (ax + d.1) (ay + d.2) = true /\
             occupancy w !! (ax + d.1, ay + d.2) = None)) as Hkeep.
  { intros [dx dy] Hd. unfold keep, _occupant. simpl.
    assert ((dx =? 0) && (dy =? 0) = false) as ->.
    { apply andb_false_iff.
      destruct (decide (dx = 0)) as [->|]; [right|left; lia].
      destruct (decide (dy = 0)) as [->|]; [done|lia]. }
    simpl. destruct (in_bounds w (ax + dx) (ay + dy)); simpl.
    - destruct (occupancy w !! (ax + dx, ay + dy)); [|done].
      split; [done|by intros [_ ?]].
    - split; [done|by intros [? _]]. }
  assert (keep (0, 0) = in_bounds w ax ay) as Hzero.
  { unfold keep. simpl. replace (ax + 0) with ax by lia.
    replace (ay + 0) with ay by lia. by rewrite andb_true_r. }
  assert (forall d, d ∈ match l with [] => [(0, 0)] | _ :: _ => l end <->
                    d ∈ l \/ (l = [] /\ d = (0, 0))) as Hres.
  { intros d. destruct l as [|d0 l0].
    - rewrite list_elem_of_singleton, elem_of_nil.
      split; [by right|by intros [?|[_ ?]]].
    - split; [by left|by intros [?|[? _]]]. }
  split_and!.
  - by destruct l.
  - intros d. rewrite Hres, Hl. intros [[? _]|[_ ->]]; [done|].
    apply elem_of_CARDINAL_MOVES. auto.
  - intros d Hc Hd. rewrite Hres, Hl, <- (Hkeep d Hd).
    split; [by intros [[_ ?]|[_ ?]]|by left].
  - rewrite Hres, Hl, Hzero. split.
    + intros [[_ ?]|[Hnil _]]; [by left|right].
      intros d. rewrite Hres, Hnil, elem_of_nil. by intros [?|[_ ?]].
    + intros [Hb|Hall].
      * left. split; [|done]. apply elem_of_CARDINAL_MOVES. auto.
      * destruct l as [|d0 l0] eqn:El; [by right|left].
        assert (d0 = (0, 0)) as ->.
        { apply Hall. apply Hres. left. left. }
        rewrite <- Hzero. apply Hl. left.
Qed.

(** The score of a step. *)
Lemma best_move_fold x y (target : Position) moves :
  let score := fun d : Move =>
    Z.abs (x + d.1 - target.1) + Z.abs (y + d.2 - target.2) in
  let f := fun (best : option Move * option Z) (d : Move) =>
    let '(nx, ny) := (x + d.1, y + d.2) in
    let score := Z.abs (nx - target.1) + Z.abs (ny - target.2) in
    match best.2 with
    | None => (Some d, Some score)
    | Some best_score =>
        if score <? best_score then (Some d, Some score) else best
    end in
  forall acc,
    (acc = (None, None) \/ exists b, acc = (Some b, Some (score b))) ->
    (exists d, (foldl f acc moves).1 = Some d /\
       (d ∈ moves \/ acc.1 = Some d) /\
       (forall m, m ∈ moves -> score d <= score m) /\
       (forall b, acc.1 = Some b -> score d <= score b)) \/
    ((foldl f acc moves).1 = None /\ moves = [] /\ acc.1 = None).
Proof.
  intros score f. induction moves as [|m moves IH]; simpl; intros acc Hacc.
  - destruct Hacc as [->|(b & ->)]; [by right|left].
    exists b. split_and!; [done|by right| |].
    + intros m Hm. by apply elem_of_nil in Hm.
    + by intros ? [= <-].
  - left.
    assert (exists b, f acc m = (Some b, Some (score b)) /\
              (b = m \/ acc.1 = Some b) /\ score b <= score m /\
              (forall b', acc.1 = Some b' -> score b <= score b'))
      as (b & Hb & Hfrom & Hle & Hacc').
    { destruct Hacc as [->|(b & ->)]; unfold f; simpl.
      - exists m. split_and!; [done|by left|lia|done].
      - fold (score m). destruct (score m <? score b) eqn:E.
        + exists m. split_and!; [done|by left|lia|]. intros ? [= <-]. lia.
        + exists b. split_and!; [done|by right|lia|]. by intros ? [= <-]. }
    destruct (IH (f acc m)) as [(d & Hd & Hin & Hmin & Hprev)|(Hn & _ & Hc)].
    + right. by exists b.
    + exists d. rewrite Hb in Hin, Hprev. simpl in Hin, Hprev.
      specialize (Hprev b eq_refl).
      split_and!; [done| | |].
      * destruct Hin as [Hin|[= <-]]; [left; by right|].
        destruct Hfrom as [->|Hfrom]; [left; left|by right].
      * intros m' Hm'. apply elem_of_cons in Hm' as [->|Hm']; [lia|auto].
      * intros b' Hb'. specialize (Hacc' b' Hb'). lia.
    + by rewrite Hb in Hc.
Qed.

Lemma best_move_towards_facts
    (x y : Z) (moves : list Move) (target : Position) :
  (best_move_towards x y moves target = None <->
   target = (x, y) \/ moves = []) /\
  (forall d, best_move_towards x y moves target = Some d ->
     d ∈ moves /\
     ((forall m, m ∈ moves -> m ∈ CARDINAL_MOVES) ->
      forall m, m ∈ moves ->
        manhattan (x + d.1, y + d.2) target <=
        manhattan (x + m.1, y + m.2) target)).
Proof.
  unfold best_move_towards.
  destruct (bool_decide (target = (x, y))) eqn:Ht.
  { apply bool_decide_eq_true in Ht. split; [|done]. split; [by left|done]. }
  apply bool_decide_eq_false in Ht. destruct target as [tx ty]. simpl.
  set (cands := if Z.abs (ty - y) <=? Z.abs (tx - x) then _ else _).
  assert (forall c, c ∈ cands ->
            manhattan (x + c.1, y + c.2) (tx, ty) = manhattan (x, y) (tx, ty) - 1)
    as Hcands.
  { intros c Hc. unfold manhattan, sign. simpl.
    assert (c ∈ (if tx - x =? 0 then [] else [(sign (tx - x), 0)]) \/
            c ∈ (if ty - y =? 0 then [] else [(0, sign (ty - y))])) as [H|H].
    { unfold cands in Hc. destruct (_ <=? _);
        apply elem_of_app in Hc; tauto. }
    - destruct (tx - x =? 0) eqn:E; [by apply elem_of_nil in H|].
      apply list_elem_of_singleton in H as ->. unfold sign. simpl.
      destruct (0 <? tx - x) eqn:E'; lia.
    - destruct (ty - y =? 0) eqn:E; [by apply elem_of_nil in H|].
      apply list_elem_of_singleton in H as ->. unfold sign. simpl.
      destruct (0 <? ty - y) eqn:E'; lia. }
  destruct (List.find _ cands) as [c|] eqn:Hf.
  - apply find_some in Hf as [Hc Hm].
    apply list_elem_of_In in Hc. apply bool_decide_eq_true in Hm.
    split; [split; [done|intros [?| ->]; [done|by apply elem_of_nil in Hm]]|].
    intros d [= <-]. split; [done|]. intros Hcard m Hmm.
    rewrite (Hcands c Hc). apply Hcard, elem_of_CARDINAL_MOVES in Hmm.
    unfold manhattan. simpl.
    destruct Hmm as [->|[->|[->|[->| ->]]]]; simpl; lia.
  - clear Hf.
    destruct (best_move_fold x y (tx, ty) moves (None, None))
      as [(d & Hd & Hin & Hmin & _)|(Hn & -> & _)]; [by left| |].
    + simpl in Hd, Hin, Hmin. rewrite Hd. split.
      * split; [done|]. intros [?| ->]; [done|].
        destruct Hin as [Hin|?]; [by apply elem_of_nil in Hin|done].
      * intros ? [= <-]. destruct Hin as [Hin|?]; [|done]. split; [done|].
        intros _ m Hm. specialize (Hmin m Hm). unfold manhattan. simpl.
        lia.
    + simpl. split; [tauto|done].
Qed.

(** X9.  [available_moves] never returns an empty list and only offers
    cardinal steps; a step other than staying put is offered exactly when
    it leads to a cell of the grid that no agent occupies, and staying
    put exactly when the agent stands on the grid or nothing else is
    on offer. *)
Theorem available_moves_spec (w : World) (agent : Agent.t) :
  let x := (Agent.position agent).1 in
  let y := (Agent.position agent).2 in
  let moves := available_moves w agent in
  moves <> [] /\
  (forall d, d ∈ moves -> d ∈ CARDINAL_MOVES) /\
  (forall d, d ∈ CARDINAL_MOVES -> d <> (0, 0) ->
     (d ∈ moves <->
      in_bounds w (x + d.1) (y + d.2) = true /\
      occupancy w !! (x + d.1, y + d.2) = None)) /\
  ((0, 0) ∈ moves <->
   in_bounds w x y = true \/ forall d, d ∈ moves -> d = (0, 0)).
Proof. apply available_moves_facts. Qed.

(** X10.  [best_move_towards] answers [None] exactly when the agent is on
    the target or has no move; otherwise it picks one of the moves it
    was given, and when those are cardinal steps no other of them ends
    closer to the target in Manhattan distance. *)
Theorem best_move_towards_optimal
    (x y : Z) (moves : list Move) (target : Position) :
  (best_move_towards x y moves target = None <->
   target = (x, y) \/ moves = []) /\
  (forall d, best_move_towards x y moves target = Some d ->
     d ∈ moves /\
     ((forall m, m ∈ moves -> m ∈ CARDINAL_MOVES) ->
      forall m, m ∈ moves ->
        manhattan (x + d.1, y + d.2) target <=
        manhattan (x + m.1, y + m.2) target)).
Proof. apply best_move_towards_facts. Qed.

(** ** Carrying out a move *)

Lemma _deposit_energy_others w aid k :
  k <> aid ->
  OD.get k (agents (_deposit_energy w aid)) = OD.get k (agents w).
Proof.
  intros Hne. unfold _deposit_energy.
  destruct (OD.get aid (agents w)); [|done].
  destruct (negb _); [done|]. destruct (_ <=? 0); [done|].
  destruct (Reactor.deposit _ _) as [deposited r].
  destruct (deposited <=? 0); [done|].
  rewrite update_agent_get. by rewrite decide_False by done.
Qed.

Lemma _auto_deposit_others w aid k :
  k <> aid ->
  OD.get k (agents (_auto_deposit w aid)) = OD.get k (agents w).
Proof.
  intros Hne. unfold _auto_deposit.
  destruct (OD.get aid (agents w)); [|done].
  destruct (negb _); [done|]. by apply _deposit_energy_others.
Qed.

Lemma _deposit_energy_requests w aid :
  help_requests (_deposit_energy w aid) = help_requests w /\
  helper_signals (_deposit_energy w aid) = helper_signals w.
Proof. unfold _deposit_energy. split; crush_frame. Qed.

Lemma _auto_deposit_requests w aid :
  help_requests (_auto_deposit w aid) = help_requests w /\
  helper_signals (_auto_deposit w aid) = helper_signals w.
Proof.
  unfold _auto_deposit. destruct (OD.get aid (agents w)); [|done].
  destruct (negb _); [done|]. apply _deposit_energy_requests.
Qed.

Lemma _move_unfold w aid agent dx dy :
  OD.get aid (agents w) = Some agent ->
  _move w aid dx dy =
  let p := Agent.position agent in
  let q := move_target w p dx dy in
  if bool_decide (q = p) then w
  else if match occupancy w !! q with
          | Some o => negb (bool_decide (o = Agent.id agent))
          | None => false
          end
       then w
       else
         _auto_deposit
           (_update_request_position
              (update_agent aid (Agent.set_position q)
                 (set_occupancy
                    (<[q := Agent.id agent]> (delete p (occupancy w))) w))
              aid) aid.
Proof.
  intros Hget. unfold _move, move_target, _occupant, _clamp. rewrite Hget.
  destruct (Agent.position agent) as [x y]. cbn [fst snd].
  by destruct (in_bounds w (x + dx) (y + dy)).
Qed.

Lemma _move_facts w aid agent dx dy :
  OD.get aid (agents w) = Some agent ->
  let p := Agent.position agent in
  let q := move_target w p dx dy in
  let w' := _move w aid dx dy in
  (q = p \/ (exists o, occupancy w !! q = Some o /\ o <> Agent.id agent) ->
   w' = w) /\
  (q <> p ->
   occupancy w !! q = None \/ occupancy w !! q = Some (Agent.id agent) ->
   occupancy w' = <[q := Agent.id agent]> (delete p (occupancy w)) /\
   place_of w' aid = Some (Agent.id agent, q) /\
   (forall k, k <> aid -> OD.get k (agents w') = OD.get k (agents w)) /\
   OD.get (Agent.id agent) (help_requests w') =
     (fun e : Request => (q, e.1.2, e.2))
       <$> OD.get (Agent.id agent) (help_requests w) /\
   (forall k, k <> Agent.id agent ->
      OD.get k (help_requests w') = OD.get k (help_requests w))).
Proof.
  intros Hget p q w'. unfold w'. rewrite (_move_unfold w aid agent dx dy Hget).
  cbv zeta. fold p. fold q. clearbody q. clear w'. split.
  - intros [->|(o & Ho & Hne)].
    + by rewrite bool_decide_eq_true_2.
    + destruct (bool_decide (q = p)); [done|]. rewrite Ho.
      by rewrite bool_decide_eq_false_2.
  - intros Hqp Hfree. rewrite bool_decide_eq_false_2 by done.
    assert (match occupancy w !! q with
            | Some o => negb (bool_decide (o = Agent.id agent))
            | None => false
            end = false) as ->.
    { destruct Hfree as [-> | ->]; [done|].
      by rewrite bool_decide_eq_true_2. }
    set (w1 := update_agent aid _ _).
    assert (OD.get aid (agents w1) = Some (Agent.set_position q agent))
      as Hget1.
    { unfold w1. rewrite update_agent_get, decide_True by done.
      simpl. by rewrite Hget. }
    assert (forall k, k <> aid -> OD.get k (agents w1) = OD.get k (agents w))
      as Hoth1.
    { intros k Hk. unfold w1. by rewrite update_agent_get, decide_False. }
    assert (help_requests w1 = help_requests w) as Hreq1.
    { unfold w1. by rewrite update_agent_help_requests. }
    assert (occupancy w1 = <[q := Agent.id agent]> (delete p (occupancy w)))
      as Hocc1.
    { unfold w1. by rewrite update_agent_occupancy. }
    clearbody w1.
    destruct (_auto_deposit_frame (_update_request_position w1 aid) aid)
      as (_ & Ho2 & _ & Hp2).
    destruct (_update_request_position_frame w1 aid)
      as (_ & _ & Ho3 & _ & Hp3).
    destruct (_auto_deposit_requests (_update_request_position w1 aid) aid)
      as [Hr2 _].
    assert (agents (_update_request_position w1 aid) = agents w1) as Hag3.
    { unfold _update_request_position. rewrite Hget1.
      by destruct (OD.get _ (help_requests w1)) as [[[? ?] ?]|]. }
    split_and!.
    + by rewrite Ho2, Ho3, Hocc1.
    + rewrite Hp2, Hp3. unfold place_of. by rewrite Hget1.
    + intros k Hk. rewrite _auto_deposit_others, Hag3 by done. by apply Hoth1.
    + rewrite Hr2. unfold _update_request_position. rewrite Hget1. simpl.
      rewrite Hreq1.
      destruct (OD.get (Agent.id agent) (help_requests w))
        as [[[? ?] ?]|] eqn:E; simpl.
      * by rewrite od_get_set_eq.
      * by rewrite Hreq1, E.
    + intros k Hk. rewrite Hr2. unfold _update_request_position.
      rewrite Hget1. simpl. rewrite Hreq1.
      destruct (OD.get (Agent.id agent) (help_requests w))
        as [[[? ?] ?]|]; simpl.
      * by rewrite od_get_set_ne.
      * by rewrite Hreq1.
Qed.


(** ** The actions the policy emits *)

Lemma insert_sorted_elem {A} (le : A -> A -> bool) x l y :
  y ∈ insert_sorted le x l <-> y = x \/ y ∈ l.
Proof.
  induction l as [|z l IH]; simpl.
  - rewrite list_elem_of_singleton, elem_of_nil. tauto.
  - destruct (le x z); rewrite !elem_of_cons; [tauto|]. rewrite IH. tauto.
Qed.

Lemma sort_by_elem {A} (le : A -> A -> bool) l y :
  y ∈ sort_by le l <-> y ∈ l.
Proof.
  unfold sort_by. induction l as [|x l IH]; simpl; [done|].
  rewrite insert_sorted_elem, IH, elem_of_cons. tauto.
Qed.

Lemma first_some_Some {A B} (f : A -> option B) l b :
  first_some f l = Some b -> exists x, x ∈ l /\ f x = Some b.
Proof.
  induction l as [|x l IH]; simpl; [done|].
  destruct (f x) as [b'|] eqn:E.
  - intros [= <-]. exists x. split; [left|done].
  - intros H. destruct (IH H) as (x' & ? & ?). exists x'. split; [by right|done].
Qed.

Lemma move_action_legal self w moves x y target d :
  best_move_towards x y moves target = Some d ->
  legal_action self w moves (move_action self d).
Proof.
  intros H. apply best_move_towards_facts in H as [H _].
  split; [done|]. simpl. by exists d.
Qed.

Lemma legal_action_frame self w w' moves a :
  eq_all w w' -> legal_action self w' moves a -> legal_action self w moves a.
Proof.
  intros ((Hc & He & _) & (_ & Hr) & _).
  unfold legal_action, cell_energy, in_bounds, reactor_position,
    reactor_needs_energy, policy_request_threshold, shareable_energy,
    policy_reserve, policy_give_buffer, policy_decay.
  by rewrite Hc, He, Hr.
Qed.

Lemma choose_help_legal self w moves reqs a :
  choose_help self w moves reqs = Some a -> legal_action self w moves a.
Proof.
  unfold choose_help. destruct (Agent.position self) as [x y] eqn:Hpos.
  destruct (_ && _); [|done].
  destruct (sort_by option_le (request_options self reqs)) as [|best rest] eqn:Es;
    [done|].
  assert (best ∈ request_options self reqs) as Hbest.
  { apply (sort_by_elem option_le). rewrite Es. left. }
  apply request_options_spec in Hbest as (_ & Hne & _).
  destruct (opt_chebyshev best <=? 1).
  - destruct (0 <? _) eqn:Ht; [|done]. intros [= <-].
    split; [done|]. simpl. eexists _, _. split_and!; [done| | |reflexivity]; lia.
  - destruct (best_move_towards _ _ _ _) eqn:Em; [|done]. intros [= <-].
    eapply move_action_legal, Em.
Qed.

Lemma choose_sustain_legal self w moves ce vis already a :
  cell_energy w (Agent.position self).1 (Agent.position self).2 = Ok ce ->
  choose_sustain self w moves ce vis already = Some a ->
  legal_action self w moves a.
Proof.
  unfold choose_sustain. destruct (Agent.position self) as [x y] eqn:Hpos.
  simpl. intros Hce. destruct (_ || _); [|done].
  destruct (first_some _ _) as [a'|] eqn:Ef.
  { intros [= <-]. apply first_some_Some in Ef as (entry & _ & Ef).
    destruct (_ && _) eqn:Eg.
    - injection Ef as <-. split; [done|]. simpl. split; [done|].
      exists ce. rewrite Hpos. simpl. split; [done|]. lia.
    - destruct (best_move_towards _ _ _ _) eqn:Em; [|done].
      injection Ef as <-. eapply move_action_legal, Em. }
  destruct (_ && _) eqn:Er.
  { intros [= <-]. split; [done|]. simpl.
    assert (0 < policy_request_threshold w - Agent.energy self) by lia.
    split; [done|]. do 3 f_equal. lia. }
  destruct (sort_by helper_le _) as [|[[[? cheb] ?] hpos] ?]; [done|].
  destruct (1 <? cheb); [|done].
  destruct (best_move_towards _ _ _ _) eqn:Em; [|done].
  intros [= <-]. eapply move_action_legal, Em.
Qed.

Lemma choose_deposit_legal self w moves a :
  choose_deposit self w moves = Some a -> legal_action self w moves a.
Proof.
  unfold choose_deposit. destruct (Agent.position self) as [x y] eqn:Hpos.
  destruct (reactor_needs_energy w) eqn:En; [|done]. simpl.
  destruct (0 <? _) eqn:Ex; [|done].
  destruct (bool_decide _) eqn:Ep.
  - apply bool_decide_eq_true in Ep. intros [= <-]. split; [done|]. simpl.
    rewrite Hpos.
    assert (0 < Agent.energy self - policy_reserve w) by lia.
    split_and!; [done..|]. do 3 f_equal. lia.
  - destruct (best_move_towards _ _ _ _) eqn:Em; [|done].
    intros [= <-]. eapply move_action_legal, Em.
Qed.

Lemma choose_legal self w g act w' g' :
  choose self w g = Ok (act, w', g') ->
  legal_action self w (available_moves w self) act.
Proof.
  unfold choose, active_help_requests, has_active_request.
  destruct (Agent.position self) as [x y] eqn:Hpos.
  destruct (0 <? Agent.pending_report self) eqn:Hrep.
  { intros [= <- <- <-]. split; [done|]. simpl. split; [lia|done]. }
  intros H. apply res_bind_Ok in H as (ce & Hce & H).
  apply res_bind_Ok in H as (vis & _ & H).
  set (w2 := _prune_help_requests (_prune_help_requests w)) in *.
  assert (eq_all w w2) as Hw2.
  { etrans; apply _prune_help_requests_frame. }
  assert (forall w3, eq_all w w3 ->
            cell_energy w3 (Agent.position self).1 (Agent.position self).2
            = Ok ce) as Hcell.
  { intros w3 ((Hc & He & _) & _). rewrite Hpos. simpl. rewrite <- Hce.
    unfold cell_energy, in_bounds. by rewrite Hc, He. }
  match type of H with
  | (let '(_, _) := (if ?c then _ else _) in _) = _ => destruct c
  end.
  all: match type of H with
       | context [choose_help _ ?w3 _ _] =>
           assert (eq_all w w3) as Hw3
             by first [exact Hw2
                      |etrans; [exact Hw2|]; apply cancel_help_request_frame];
           set (w3' := w3) in *; clearbody w3'
       end.
  all: apply (legal_action_frame self w w3' _ act Hw3).
  all: destruct (choose_help _ _ _ _) as [a1|] eqn:E1;
    [injection H as <- <- <-; eapply choose_help_legal, E1|].
  all: destruct (choose_sustain _ _ _ _ _ _) as [a2|] eqn:E2;
    [injection H as <- <- <-;
     eapply choose_sustain_legal; [apply Hcell, Hw3|exact E2]|].
  all: destruct (choose_deposit _ _ _) as [a3|] eqn:E3;
    [injection H as <- <- <-; eapply choose_deposit_legal, E3|].
  all: destruct (0 <? ce) eqn:Ece;
    [injection H as <- <- <-; split; [done|]; simpl; split; [done|];
     exists ce; split; [apply Hcell, Hw3|lia]|].
  all: apply res_bind_Ok in H as ([d g1] & Hd & [= <- <- <-]).
  all: split; [done|]; simpl; exists d; split; [|done].
  all: pose proof (available_moves_nonempty w self) as Hne.
  all: match type of Hd with
       | random_choice ?l ?g0 = _ =>
           assert (forall m, m ∈ l -> m ∈ available_moves w self) as Hsub;
             [|destruct (random_choice_drawn l g0) as (d' & Hd' & Hdr)]
       end.
  all: try (intros m; destruct (List.filter _ _) as [|m0 l0] eqn:Ef;
            [destruct (available_moves w self); done|];
            rewrite <- Ef, list_elem_of_In, filter_In, <- list_elem_of_In;
            tauto).
  all: try (destruct (List.filter _ _);
            [destruct (available_moves w self)|]; done).
  all: rewrite Hd in Hd'; injection Hd' as <-; apply Hsub;
    unfold drawn in Hdr; by eapply list_elem_of_lookup_2.
Qed.

(** X12.  Whatever [choose] returns names the agent itself as actor and
    is well-founded in the world it was chosen in: MOVE takes one of the
    steps [available_moves] offers; GATHER is chosen only on a cell that
    holds energy; DEPOSIT only on the reactor's cell, when the reactor
    is not full, for exactly the energy above the reserve; REPORT only
    with a pending balance, and claims exactly that balance; REQUEST
    asks for exactly the shortfall below the request threshold; GIVE
    names another agent and a positive amount the agent can spare. *)
Theorem choose_emits_legal_action
    (self : Agent.t) (w : World) (g : RNG)
    (act : Action) (w' : World) (g' : RNG) :
  choose self w g = Ok (act, w', g') ->
  legal_action self w (available_moves w self) act.
Proof. apply choose_legal. Qed.

(** ** The request table *)

Lemma od_get_foldl_pop {V} (l : list string) (d : OD.t V) k :
  OD.get k (foldl (fun h a => OD.pop a h) d l) =
  if bool_decide (k ∈ l) then None else OD.get k d.
Proof.
  revert d. induction l as [|a l IH]; cbn [foldl]; intros d.
  - case_bool_decide as E; [by apply elem_of_nil in E|done].
  - rewrite IH. rewrite od_get_pop.
    destruct (decide (a = k)) as [->|Hne].
    + rewrite (bool_decide_eq_true_2 (k ∈ k :: l)) by left.
      by case_bool_decide.
    + case_bool_decide as E.
      * by rewrite bool_decide_eq_true_2 by (by right).
      * rewrite bool_decide_eq_false_2; [done|].
        intros [?|?]%elem_of_cons; [by subst|done].
Qed.

Lemma _request_entry_None_get w k :
  OD.get k (help_requests w) = None -> _request_entry w k = None.
Proof. unfold _request_entry. by intros ->. Qed.

Lemma _request_entry_Some w k e :
  _request_entry w k = Some e ->
  OD.get k (help_requests w) = Some e /\ 0 < e.1.2 /\
  is_Some (OD.get k (agents w)) /\
  (0 < aid_request_lifetime (cfg w) ->
   tick w - e.2 <= aid_request_lifetime (cfg w)).
Proof.
  unfold _request_entry.
  destruct (OD.get k (help_requests w)) as [[[p amt] t]|]; [|done].
  destruct (amt <=? 0) eqn:Ea; [done|].
  destruct (bool_decide _) eqn:Eb; [|done]. apply bool_decide_eq_true in Eb.
  destruct (_ && _) eqn:Et; [done|]. intros [= <-]. simpl.
  split_and!; [done|lia|done|lia].
Qed.

Lemma _prune_help_requests_get w k :
  OD.get k (help_requests (_prune_help_requests w)) =
  match _request_entry w k with
  | Some _ => OD.get k (help_requests w)
  | None => None
  end.
Proof.
  unfold _prune_help_requests. simpl. rewrite od_get_foldl_pop.
  destruct (bool_decide _) eqn:E.
  - apply bool_decide_eq_true, list_elem_of_In, filter_In in E as [_ E].
    by destruct (_request_entry w k).
  - apply bool_decide_eq_false in E.
    destruct (_request_entry w k) eqn:Er; [done|].
    destruct (OD.get k (help_requests w)) eqn:Eg; [|done].
    exfalso. apply E. apply list_elem_of_In, filter_In. split.
    + apply list_elem_of_In, od_get_is_Some. by rewrite Eg.
    + by rewrite Er.
Qed.

Lemma _prune_help_requests_entry w k :
  _request_entry (_prune_help_requests w) k = _request_entry w k.
Proof.
  destruct (_request_entry w k) as [e|] eqn:Er.
  - pose proof (_prune_help_requests_get w k) as Hg. rewrite Er in Hg.
    unfold _request_entry in *. rewrite Hg.
    destruct (OD.get k (help_requests w)) as [[[p amt] t]|]; [|done].
    done.
  - apply _request_entry_None_get. by rewrite _prune_help_requests_get, Er.
Qed.

Lemma _prune_help_requests_idem w :
  _prune_help_requests (_prune_help_requests w) = _prune_help_requests w.
Proof.
  set (w1 := _prune_help_requests w).
  unfold _prune_help_requests at 1.
  rewrite (filter_ext_in _ (fun _ => false)).
  - rewrite filter_false. simpl. unfold w1, _prune_help_requests.
    by destruct w.
  - intros a Ha. apply list_elem_of_In, od_get_is_Some in Ha as [e He].
    unfold w1 in *. rewrite _prune_help_requests_entry.
    rewrite _prune_help_requests_get in He.
    by destruct (_request_entry w a).
Qed.

Lemma active_requests_fold w l k : forall acc : OD.t (Position * Z),
  OD.get k
    (foldl (fun (requests : OD.t (Position * Z)) agent_id =>
              match _request_entry w agent_id with
              | None => requests
              | Some (position, amount, _) =>
                  OD.set agent_id (position, amount) requests
              end) acc l) =
  if bool_decide (k ∈ l)
  then match _request_entry w k with
       | Some e => Some (e.1.1, e.1.2)
       | None => OD.get k acc
       end
  else OD.get k acc.
Proof.
  induction l as [|a l IH]; cbn [foldl]; intros acc.
  - case_bool_decide as E; [by apply elem_of_nil in E|done].
  - rewrite IH. clear IH.
    assert (OD.get k
              match _request_entry w a with
              | Some (position, amount, _) => OD.set a (position, amount) acc
              | None => acc
              end =
            if decide (a = k)
            then match _request_entry w k with
                 | Some e => Some (e.1.1, e.1.2)
                 | None => OD.get k acc
                 end
            else OD.get k acc) as ->.
    { destruct (decide (a = k)) as [->|Hne].
      - destruct (_request_entry w k) as [[[p amt] t]|]; [|done].
        by rewrite od_get_set_eq.
      - destruct (_request_entry w a) as [[[p amt] t]|]; [|done].
        by rewrite od_get_set_ne. }
    destruct (decide (a = k)) as [->|Hne].
    + rewrite (bool_decide_eq_true_2 (k ∈ k :: l)) by left.
      case_bool_decide; by destruct (_request_entry w k).
    + case_bool_decide as E.
      * by rewrite bool_decide_eq_true_2 by (by right).
      * rewrite bool_decide_eq_false_2; [done|].
        intros [?|?]%elem_of_cons; [by subst|done].
Qed.

Lemma active_help_requests_get w k :
  OD.get k (active_help_requests w).1 =
  (fun e : Request => (e.1.1, e.1.2)) <$> _request_entry w k.
Proof.
  unfold active_help_requests. cbn [fst].
  rewrite active_requests_fold.
  set (w1 := _prune_help_requests w).
  replace (_request_entry w1 k) with (_request_entry w k)
    by (symmetry; apply _prune_help_requests_entry).
  case_bool_decide as E.
  - by destruct (_request_entry w k).
  - destruct (_request_entry w k) as [e|] eqn:Er; [|done].
    exfalso. apply E, od_get_is_Some. unfold w1.
    rewrite _prune_help_requests_get, Er.
    apply _request_entry_Some in Er as [-> _]. eauto.
Qed.

(** X13.  [_prune_help_requests] keeps exactly the entries
    [_request_entry] accepts (a positive amount, a live agent, not past a
    positive lifetime), with their values, and pruning twice is pruning
    once.  [active_help_requests] lists the position and amount of
    exactly those entries and [has_active_request] tells whether an
    agent has one; both leave the table pruned. *)
Theorem active_requests_are_the_valid_entries (w : World) (k : AgentID) :
  let pruned := _prune_help_requests w in
  (forall e, _request_entry w k = Some e <->
     OD.get k (help_requests w) = Some e /\ 0 < e.1.2 /\
     is_Some (OD.get k (agents w)) /\
     (0 < aid_request_lifetime (cfg w) ->
      tick w - e.2 <= aid_request_lifetime (cfg w))) /\
  OD.get k (help_requests pruned) = _request_entry w k /\
  _prune_help_requests pruned = pruned /\
  (active_help_requests w).2 = pruned /\
  OD.get k (active_help_requests w).1 =
    (fun e : Request => (e.1.1, e.1.2)) <$> _request_entry w k /\
  has_active_request w k =
    (bool_decide (is_Some (_request_entry w k)), pruned).
Proof.
  intros pruned. split_and!.
  - intros e. split; [apply _request_entry_Some|].
    intros (Hg & Ha & Hl & Ht). unfold _request_entry. rewrite Hg.
    destruct e as [[p amt] t]. simpl in *.
    replace (amt <=? 0) with false by lia.
    rewrite bool_decide_eq_true_2 by done. simpl.
    destruct (0 <? aid_request_lifetime (cfg w)) eqn:E; [|done].
    simpl. by replace (_ <? _) with false by lia.
  - unfold pruned. rewrite _prune_help_requests_get.
    destruct (_request_entry w k) eqn:E; [|done].
    by apply _request_entry_Some in E as [? _].
  - apply _prune_help_requests_idem.
  - done.
  - apply active_help_requests_get.
  - unfold has_active_request. fold pruned. f_equal.
    unfold pruned. rewrite _prune_help_requests_entry.
    destruct (_request_entry w k).
    + by rewrite bool_decide_eq_true_2.
    + rewrite bool_decide_eq_false_2; [done|]. by intros [? ?].
Qed.

(** ** Requests follow their agents *)

Lemma requests_ok_frame w w' :
  help_requests w' = help_requests w ->
  (forall k, place_of w' k = place_of w k) ->
  tick w <= tick w' ->
  requests_ok w -> requests_ok w'.
Proof.
  intros Hh Hp Ht Hok k p amount logged Hget. rewrite Hh in Hget.
  destruct (Hok _ _ _ _ Hget) as (Ha & Hl & a & Hk & Hpos).
  split_and!; [done|lia|].
  pose proof (place_of_Some _ _ _ Hk) as Hpl. rewrite <- Hp in Hpl.
  apply place_of_inv in Hpl as (a' & Ha' & _ & Hpos'). exists a'.
  split; [done|congruence].
Qed.

(** Dropping entries keeps the requests in order. *)
Lemma requests_ok_sub w w' :
  (forall k e, OD.get k (help_requests w') = Some e ->
               OD.get k (help_requests w) = Some e) ->
  (forall k, place_of w' k = place_of w k) ->
  tick w <= tick w' ->
  requests_ok w -> requests_ok w'.
Proof.
  intros Hh Hp Ht Hok k p amount logged Hget. apply Hh in Hget.
  destruct (Hok _ _ _ _ Hget) as (Ha & Hl & a & Hk & Hpos).
  split_and!; [done|lia|].
  pose proof (place_of_Some _ _ _ Hk) as Hpl. rewrite <- Hp in Hpl.
  apply place_of_inv in Hpl as (a' & Ha' & _ & Hpos'). exists a'.
  split; [done|congruence].
Qed.

(** Filing an entry for an agent at its own cell. *)
Lemma requests_ok_set w k a amount :
  OD.get k (agents w) = Some a -> 0 < amount ->
  requests_ok w ->
  requests_ok
    (set_help_requests
       (OD.set k (Agent.position a, amount, tick w) (help_requests w)) w).
Proof.
  intros Ha Hpos Hok k' p amount' logged. simpl. rewrite od_get_set.
  destruct (decide (k = k')) as [<-|Hne].
  - intros [= <- <- <-]. split_and!; [done|lia|]. by exists a.
  - apply Hok.
Qed.

Lemma _prune_help_requests_requests w :
  requests_ok w -> requests_ok (_prune_help_requests w).
Proof.
  apply requests_ok_sub; [|done..].
  intros k e. rewrite _prune_help_requests_get.
  by destruct (_request_entry w k).
Qed.

Lemma _clear_help_request_requests w a :
  requests_ok w -> requests_ok (_clear_help_request w a).
Proof.
  apply requests_ok_sub; [|done..].
  intros k e. simpl. apply od_get_pop_Some.
Qed.

Lemma _maybe_clear_help_request_requests w aid :
  agents_wf w -> requests_ok w -> requests_ok (_maybe_clear_help_request w aid).
Proof.
  intros [_ Hid] Hok. unfold _maybe_clear_help_request.
  destruct (OD.get aid (agents w)) as [agent|] eqn:Hget; [|done].
  rewrite (Hid _ _ Hget).
  destruct (OD.get aid (help_requests w)) as [[[p amt] t]|] eqn:Hreq; [|done].
  destruct (Hok _ _ _ _ Hreq) as (_ & _ & a & Ha & Hpos).
  rewrite Hget in Ha. injection Ha as <-.
  assert (requests_ok (set_help_requests (OD.pop aid (help_requests w)) w))
    as Hpop by apply (_clear_help_request_requests w aid Hok).
  destruct (_ <? Agent.energy agent); [done|].
  match goal with |- context [if ?c <=? 0 then _ else _] =>
    destruct (c <=? 0) eqn:Hd; [done|] end.
  rewrite <- Hpos. apply requests_ok_set; [done|lia|done].
Qed.

Lemma _register_help_request_requests w aid n :
  agents_wf w -> requests_ok w -> requests_ok (_register_help_request w aid n).
Proof.
  intros [_ Hid] Hok. unfold _register_help_request.
  destruct (OD.get aid (agents w)) as [agent|] eqn:Hget; [|done].
  rewrite (Hid _ _ Hget).
  match goal with |- context [if ?c <=? 0 then _ else _] =>
    destruct (c <=? 0) eqn:Hd; [done|] end.
  apply requests_ok_set; [done|lia|done].
Qed.

Lemma _move_requests w aid dx dy :
  agents_wf w -> requests_ok w -> requests_ok (_move w aid dx dy).
Proof.
  intros [_ Hid] Hok.
  destruct (OD.get aid (agents w)) as [agent|] eqn:Hget.
  2:{ unfold _move. by rewrite Hget. }
  pose proof (Hid _ _ Hget) as Hself.
  destruct (_move_facts w aid agent dx dy Hget) as [Hstay Hgo].
  destruct (_move_log w aid dx dy) as [Htick _].
  set (q := move_target w (Agent.position agent) dx dy) in *.
  assert (q <> Agent.position agent ->
          occupancy w !! q = None \/ occupancy w !! q = Some (Agent.id agent) ->
          requests_ok (_move w aid dx dy)) as Hmoved.
  { intros Hq Hfree.
    destruct (Hgo Hq Hfree) as (_ & Hpl & Hoth & Hmine & Hrest).
    rewrite Hself in Hmine, Hrest.
    intros k p amount logged Hk. rewrite Htick.
    destruct (decide (k = aid)) as [->|Hne].
    - rewrite Hmine in Hk.
      destruct (OD.get aid (help_requests w)) as [[[p0 a0] t0]|] eqn:E;
        [|done].
      injection Hk as <- <- <-.
      destruct (Hok _ _ _ _ E) as (? & ? & _).
      split_and!; [done..|].
      apply place_of_inv in Hpl as (a' & ? & _ & ?). by exists a'.
    - rewrite Hrest in Hk by done.
      destruct (Hok _ _ _ _ Hk) as (? & ? & a & ? & ?).
      split_and!; [done..|]. exists a. by rewrite Hoth. }
  destruct (decide (q = Agent.position agent)) as [Hq|Hq].
  { rewrite Hstay by (by left). done. }
  destruct (occupancy w !! q) as [o|] eqn:Hocc.
  - destruct (decide (o = Agent.id agent)) as [->|Ho].
    + apply Hmoved; [done|by right].
    + rewrite Hstay; [done|]. right. by exists o.
  - apply Hmoved; [done|by left].
Qed.

Lemma agents_wf_eq_places w w' : eq_places w w' -> agents_wf w -> agents_wf w'.
Proof.
  intros (_ & Hk & Hp) [Hnd Hid]. split; [by rewrite Hk|].
  intros k a Ha. pose proof (place_of_Some _ _ _ Ha) as Hpl.
  rewrite Hp in Hpl. apply place_of_inv in Hpl as (a0 & Ha0 & Hi & _).
  rewrite <- Hi. eauto.
Qed.

Lemma requests_ok_eq_all w w' :
  help_requests w' = help_requests w -> tick w' = tick w ->
  eq_places w w' -> requests_ok w -> requests_ok w'.
Proof.
  intros Hh Ht (_ & _ & Hp). apply requests_ok_frame; [done..|lia].
Qed.

Lemma _give_energy_requests w a b n :
  agents_wf w -> requests_ok w -> requests_ok (_give_energy w a b n).
Proof.
  intros Hwf Hok. unfold _give_energy.
  destruct (OD.get a (agents w)) as [donor|] eqn:Hdonor; [|done].
  destruct (OD.get b (agents w)) as [recipient|] eqn:Hrec; [|done].
  destruct (bool_decide _); [done|]. destruct (1 <? _); [done|].
  destruct (_ <=? 0); [done|].
  match goal with |- context [if ?c <=? 0 then w else _] =>
    destruct (c <=? 0); [done|]; generalize c; intros transfer end.
  match goal with
  | |- context [update_agent b ?f (update_agent a ?f' w)] =>
      set (w1 := update_agent a f' w); set (w2 := update_agent b f w1)
  end.
  assert (eq_all w w2) as Hw2.
  { trans w1; by apply update_agent_frame. }
  assert (help_requests w2 = help_requests w /\ tick w2 = tick w) as [Hh2 Ht2].
  { unfold w2, w1. by autorewrite with upd. }
  assert (agents_wf w2) as Hwf2.
  { eapply agents_wf_eq_places; [apply Hw2|done]. }
  assert (requests_ok w2) as Hok2.
  { eapply requests_ok_eq_all; [done..|apply Hw2|done]. }
  assert (exists r2, OD.get (Agent.id recipient) (agents w2) = Some r2 /\
                     Agent.position r2 = Agent.position recipient)
    as (r2 & Hr2 & Hpos2).
  { destruct Hwf as [_ Hid]. rewrite (Hid _ _ Hrec).
    pose proof (place_of_Some _ _ _ Hrec) as Hpl.
    destruct Hw2 as (_ & _ & _ & _ & Hp). rewrite <- Hp in Hpl.
    apply place_of_inv in Hpl as (r2 & ? & _ & ?). by exists r2. }
  clearbody w2. clear w1.
  apply (requests_ok_eq_all
           (_maybe_clear_help_request
              match _request_entry w (Agent.id recipient) with
              | Some (_, outstanding, _) =>
                  if 0 <? Z.max 0 (outstanding - transfer)
                  then
                    set_help_requests
                      (OD.set (Agent.id recipient)
                         (Agent.position recipient,
                          Z.max 0 (outstanding - transfer), tick w2)
                         (help_requests w2)) w2
                  else _clear_help_request w2 (Agent.id recipient)
              | None => w2
              end b)); [done|done|apply set_helper_signals_frame|].
  assert (forall w3, eq_places w2 w3 -> requests_ok w3 ->
            requests_ok (_maybe_clear_help_request w3 b)) as Hclear.
  { intros w3 Hp3 Hok3. apply _maybe_clear_help_request_requests; [|done].
    by eapply agents_wf_eq_places. }
  destruct (_request_entry w (Agent.id recipient)) as [[[? outstanding] ?]|].
  - destruct (0 <? Z.max 0 (outstanding - transfer)) eqn:Hu.
    + apply Hclear; [apply set_help_requests_frame|].
      rewrite <- Hpos2. apply requests_ok_set; [done|lia|done].
    + apply Hclear; [apply _clear_help_request_frame|].
      by apply _clear_help_request_requests.
  - by apply Hclear.
Qed.

Lemma _gather_energy_requests w a g w' g' :
  agents_wf w -> _gather_energy w a g = Ok (w', g') ->
  requests_ok w -> requests_ok w'.
Proof.
  intros Hwf H Hok. unfold _gather_energy in H.
  destruct (OD.get a (agents w)) as [agent|] eqn:Hget.
  2:{ by injection H as <- <-. }
  destruct (Agent.position agent) as [x y].
  apply res_bind_Ok in H as (avail & _ & H).
  destruct (avail <=? 0). { by injection H as <- <-. }
  apply res_bind_Ok in H as (eg & Heg & H).
  match type of H with
  | _deplete_resource (_maybe_clear_help_request ?w1 a) _ _ = _ =>
      set (w2 := w1) in *;
      assert (eq_places w w2) as Hp2
        by (trans (set_energy_grid eg w);
            [apply (set_grids_frame w eg [])
            |apply eq_all_places, update_agent_frame; done]);
      assert (help_requests w2 = help_requests w /\ tick w2 = tick w)
        as [Hh2 Ht2] by (unfold w2; by autorewrite with upd)
  end.
  assert (requests_ok (_maybe_clear_help_request w2 a)) as Hok3.
  { apply _maybe_clear_help_request_requests.
    - by eapply agents_wf_eq_places.
    - eapply requests_ok_eq_all; [done..|]. done. }
  clearbody w2.
  pose proof (_deplete_resource_spec _ _ _ _ _ H) as (_ & Hp4 & _).
  revert Hok3. apply requests_ok_eq_all; [| |done].
  - unfold _deplete_resource in H.
    apply res_bind_Ok in H as (eg2 & _ & H).
    apply res_bind_Ok in H as (rg2 & _ & H).
    unfold _respawn_resource in H.
    apply res_bind_Ok in H as (cands & _ & H).
    apply res_bind_Ok in H as ([[tx ty] g1] & _ & H).
    apply res_bind_Ok in H as (rg & _ & H).
    apply res_bind_Ok in H as (eg3 & _ & [= <- <-]). done.
  - unfold _deplete_resource in H.
    apply res_bind_Ok in H as (eg2 & _ & H).
    apply res_bind_Ok in H as (rg2 & _ & H).
    apply _respawn_resource_log in H as [-> _]. done.
Qed.

Lemma _decay_agent_energy_requests w :
  agents_wf w -> requests_ok w -> requests_ok (_decay_agent_energy w).
Proof.
  intros [Hnd _] Hok. rewrite _decay_agent_energy_unfold.
  destruct (agent_energy_decay (cfg w) <=? 0) eqn:Hd; [done|].
  set (D := List.map (fun kv => (kv.1, decayed (cfg w) kv.2)) (agents w)).
  set (l := List.map fst (List.filter _ D)).
  assert (forall k, OD.get k D = decayed (cfg w) <$> OD.get k (agents w)) as HD.
  { intros k. apply (od_get_map (decayed (cfg w))). }
  assert (tick (foldl purge (set_agents D w) l) = tick w) as Ht.
  { pose proof (_decay_agent_energy_log w) as [Ht _].
    by rewrite _decay_agent_energy_unfold, Hd in Ht. }
  intros k p amount logged Hk. rewrite Ht.
  destruct (decide (k ∈ l)) as [Hin|Hout].
  - exfalso.
    assert (is_Some (OD.get k D)) as [a Ha].
    { apply od_get_is_Some. unfold l in Hin.
      apply list_elem_of_In, in_map_iff in Hin as (kv & <- & Hin).
      apply filter_In in Hin as [Hin _]. unfold OD.keys.
      apply list_elem_of_fmap. exists kv. by rewrite list_elem_of_In. }
    destruct (foldl_purge_self l (set_agents D w) k a Hin Ha)
      as (_ & _ & Hnone & _).
    by rewrite Hnone in Hk.
  - destruct (foldl_purge_other l (set_agents D w) k Hout) as (Ha & Hh & _).
    rewrite Hh in Hk. simpl in Hk, Ha.
    destruct (Hok _ _ _ _ Hk) as (? & ? & a & Hka & Hpos).
    split_and!; [done..|]. exists (decayed (cfg w) a).
    by rewrite Ha, HD, Hka.
Qed.

Lemma quiet_requests_ok w w' :
  quiet w w' -> agents_wf w -> requests_ok w -> requests_ok w'.
Proof.
  intros [H Ht] Hwf Hok. destruct H.
  - eapply (requests_ok_eq_all w); [done|done|apply set_tick_frame|done].
  - by apply _prune_help_requests_requests.
  - by apply _clear_help_request_requests.
  - eapply (requests_ok_eq_all w);
      [|done|apply _decay_helper_signals_frame|done].
    unfold _decay_helper_signals. by destruct (_ <? 0).
  - eapply (requests_ok_eq_all w);
      [apply _auto_deposit_requests|done|apply _auto_deposit_frame|done].
  - eapply (requests_ok_eq_all w);
      [apply update_agent_help_requests|done
      |apply set_pending_action_frame|done].
  - by apply _move_requests.
  - eapply _gather_energy_requests; eauto.
  - eapply (requests_ok_eq_all w);
      [apply _deposit_energy_requests|done|apply _deposit_energy_frame|done].
  - eapply (requests_ok_eq_all w);
      [|done|apply _record_deposit_report_frame|done].
    unfold _record_deposit_report. crush_frame.
  - by apply _register_help_request_requests.
  - by apply _give_energy_requests.
  - by apply _decay_agent_energy_requests.
  - eapply (requests_ok_eq_all w);
      [|done|apply _consume_reactor_energy_frame|done].
    unfold _consume_reactor_energy. by destruct (_ <=? 0).
  - eapply (requests_ok_eq_all w);
      [|done|eapply _apply_reactor_consequences_spec; eauto|done].
    unfold _apply_reactor_consequences, _dwindle_resources in H.
    destruct (negb _); [by injection H as <-|].
    destruct (_ <=? 0); [by injection H as <-|].
    apply res_bind_Ok in H as ([eg rg] & _ & [= <-]). done.
Qed.

Lemma quiet_places_inv w w' : quiet w w' -> places_inv w -> places_inv w'.
Proof. intros [H _]. by apply prim_places_inv. Qed.

(** X14.  In every reachable world each help request belongs to an agent
    that is alive, is filed at the cell that agent stands on, asks for a
    positive amount and carries a tick that is not in the future. *)
Theorem help_requests_follow_agents (c : Config) (w : World) :
  reachable c w ->
  forall k p amount logged,
    OD.get k (help_requests w) = Some (p, amount, logged) ->
    0 < amount /\ logged <= tick w /\
    exists a, OD.get k (agents w) = Some a /\ Agent.position a = p.
Proof.
  intros Hr. change (requests_ok w).
  induction Hr as [spawn w H|w agent w' Hr IH Hfresh H|w g w' g' Hr IH H].
  - unfold __post_init__ in H. simpl in H.
    intros k p amount logged.
    destruct (in_bounds _ _ _); inv_res; simpl; done.
  - apply add_agent_spec in H as (q & _ & ->).
    intros k p amount logged Hk. simpl in *.
    destruct (IH _ _ _ _ Hk) as (? & ? & a & Ha & ?).
    split_and!; [done..|]. exists a. split; [|done].
    rewrite od_get_set_ne; [done|]. intros <-. congruence.
  - apply reachable_world_inv in Hr as [_ Hinv].
    apply step_quiet in H.
    eapply (quiet_preserve (fun w => places_inv w /\ requests_ok w));
      [|exact H|].
    + intros w1 w2 Hq [Hp1 Hok1]. split.
      * by eapply quiet_places_inv.
      * eapply quiet_requests_ok; [done|apply Hp1|done].
    + split.
      * eapply places_inv_eq_places; [apply set_tick_frame|done].
      * apply (requests_ok_frame w); [done|done|simpl; lia|done].
Qed.

(** ** Filing and cancelling a request *)

(** X15.  A REQUEST files the larger of the agent's shortfall below the
    request threshold and the amount asked for (bounded by the room the
    agent has left); when that is positive the request is active at
    once, listed at the agent's cell with that amount, and cancelling it
    makes it inactive again; when it is not, nothing is filed. *)
Theorem request_is_active_until_cancelled
    (w : World) (aid : AgentID) (agent : Agent.t) (amount : Z) :
  OD.get aid (agents w) = Some agent ->
  Agent.id agent = aid ->
  let requested := requested_amount w agent amount in
  let w' := _register_help_request w aid amount in
  (requested <= 0 -> w' = w) /\
  (0 < requested ->
   OD.get aid (help_requests w') =
     Some (Agent.position agent, requested, tick w) /\
   (has_active_request w' aid).1 = true /\
   OD.get aid (active_help_requests w').1 =
     Some (Agent.position agent, requested) /\
   (has_active_request (cancel_help_request w' aid) aid).1 = false /\
   OD.get aid (active_help_requests (cancel_help_request w' aid)).1 = None).
Proof.
  intros Hget Hid requested w'.
  assert (w' = if requested <=? 0 then w
               else set_help_requests
                      (OD.set aid (Agent.position agent, requested, tick w)
                         (help_requests w)) w) as Hw'.
  { unfold w', _register_help_request. rewrite Hget, Hid. done. }
  split.
  { intros Hle. rewrite Hw'. by replace (requested <=? 0) with true by lia. }
  intros Hpos. replace (requested <=? 0) with false in Hw' by lia.
  clearbody w' requested.
  assert (_request_entry w' aid =
          Some (Agent.position agent, requested, tick w)) as Hentry.
  { unfold _request_entry. rewrite Hw'. simpl. rewrite od_get_set_eq.
    replace (requested <=? 0) with false by lia.
    rewrite Hget. rewrite bool_decide_eq_true_2 by done. simpl.
    replace (tick w - tick w) with 0 by lia.
    by destruct (0 <? aid_request_lifetime (cfg w)) eqn:E;
      simpl; [replace (_ <? 0) with false by lia|]. }
  assert (_request_entry (cancel_help_request w' aid) aid = None) as Hgone.
  { apply _request_entry_None_get. simpl. apply od_get_pop_eq. }
  split_and!.
  - rewrite Hw'. simpl. apply od_get_set_eq.
  - unfold has_active_request. cbn [fst].
    by rewrite _prune_help_requests_entry, Hentry.
  - by rewrite active_help_requests_get, Hentry.
  - unfold has_active_request. cbn [fst].
    by rewrite _prune_help_requests_entry, Hgone.
  - by rewrite active_help_requests_get, Hgone.
Qed.

(** ** Helper signals *)

(** X16.  [_decay_helper_signals] drops exactly the signals older than a
    non-negative [help_signal_duration] and nothing when the duration is
    negative; either way [is_recent_helper] answers the same before and
    after. *)
Theorem decay_helper_signals_keeps_answers (w : World) (k : AgentID) :
  let w' := _decay_helper_signals w in
  is_recent_helper w' k = is_recent_helper w k /\
  (help_signal_duration (cfg w) < 0 -> w' = w) /\
  (0 <= help_signal_duration (cfg w) ->
   forall t, helper_signals w' !! k = Some t <->
     helper_signals w !! k = Some t /\
     tick w - t <= help_signal_duration (cfg w)).
Proof.
  intros w'. unfold w', _decay_helper_signals.
  destruct (help_signal_duration (cfg w) <? 0) eqn:Hd.
  { split_and!; [done|done|lia]. }
  assert (forall t,
            filter (fun kv : AgentID * Z =>
                      ~ Z.max 0 (help_signal_duration (cfg w)) < tick w - kv.2)
                   (helper_signals w) !! k = Some t <->
            helper_signals w !! k = Some t /\
            tick w - t <= help_signal_duration (cfg w)) as Hflt.
  { intros t. rewrite map_lookup_filter_Some. simpl.
    split; intros [? ?]; (split; [done|lia]). }
  split_and!; [|lia|by intros _].
  unfold is_recent_helper. simpl.
  destruct (helper_signals w !! k) as [t|] eqn:E'.
  - destruct (decide (tick w - t <= help_signal_duration (cfg w))) as [Hle|Hgt].
    + by rewrite (proj2 (Hflt t) (conj eq_refl Hle)).
    + match goal with
      | |- context [filter ?P ?m !! k] =>
          assert (filter P m !! k = None) as ->
      end.
      { apply eq_None_not_Some. intros [t0 H0].
        apply Hflt in H0 as [[= <-] ?]. lia. }
      symmetry. apply Z.leb_gt. lia.
  - match goal with
    | |- context [filter ?P ?m !! k] =>
        assert (filter P m !! k = None) as ->; [|done]
    end.
    apply eq_None_not_Some. intros [t0 H0]. by apply Hflt in H0 as [? _].
Qed.

(** ** Deposits *)

Lemma agent_unchanged agent :
  Agent.set_pending_report (Agent.pending_report agent + 0)
    (Agent.set_energy (Agent.energy agent - 0) agent) = agent.
Proof.
  destruct agent. unfold Agent.set_pending_report, Agent.set_energy. simpl.
  f_equal; lia.
Qed.

Lemma _auto_deposit_eq w aid : _auto_deposit w aid = _deposit_energy w aid.
Proof.
  unfold _auto_deposit, _deposit_energy.
  destruct (OD.get aid (agents w)); [|done]. by destruct (negb _).
Qed.

Lemma deposit_formula r n :
  Reactor.deposit r n =
  (Z.max 0 (Z.min n (Reactor.capacity r - Reactor.energy r)),
   Reactor.mk (Reactor.position r) (Reactor.capacity r)
     (Reactor.energy r
      + Z.max 0 (Z.min n (Reactor.capacity r - Reactor.energy r)))).
Proof.
  unfold Reactor.deposit, Reactor.is_full. destruct r as [p c e].
  cbn [Reactor.position Reactor.capacity Reactor.energy].
  destruct (n <=? 0) eqn:Hn; [|destruct (c <=? e) eqn:Hf];
    cbn [orb]; repeat f_equal; lia.
Qed.

Lemma set_reactor_same w : set_reactor (reactor w) w = w.
Proof. by destruct w. Qed.

Lemma _deposit_energy_unfold w aid agent :
  OD.get aid (agents w) = Some agent ->
  let d := deposit_amount w agent in
  _deposit_energy w aid =
  if d <=? 0 then w
  else
    update_agent aid
      (fun a =>
         Agent.set_pending_report (Agent.pending_report a + d)
           (Agent.set_energy (Agent.energy a - d) a))
      (set_reactor
         (Reactor.mk (Reactor.position (reactor w))
            (Reactor.capacity (reactor w)) (Reactor.energy (reactor w) + d))
         w).
Proof.
  intros Hget d. unfold d, deposit_amount, _deposit_energy. rewrite Hget.
  destruct (bool_decide _); cbn [negb]; [|done].
  set (ex := Z.max 0 (Agent.energy agent - reactor_agent_reserve (cfg w))).
  set (room := Reactor.capacity (reactor w) - Reactor.energy (reactor w)).
  destruct (ex <=? 0) eqn:Hex.
  { by replace (Z.max 0 _ <=? 0) with true by lia. }
  cbn [andb]. rewrite deposit_formula. fold room.
  replace (Z.max 0 (Z.min ex room))
    with (Z.max 0
            (Z.min (Agent.energy agent - reactor_agent_reserve (cfg w)) room))
    by lia.
  destruct (Z.max 0 _ <=? 0) eqn:Hd; [|done].
  replace (Z.max 0 _) with 0 by lia.
  replace (Reactor.energy (reactor w) + 0) with (Reactor.energy (reactor w))
    by lia.
  trans (set_reactor (reactor w) w); [|apply set_reactor_same].
  f_equal. by destruct (reactor w).
Qed.

(** X17.  A deposit moves [deposit_amount] units from the agent to the
    reactor and to the agent's pending-report balance: the energy above
    the reserve, as far as the reactor has room, and nothing off the
    reactor's cell.  Energy is conserved, the agent keeps its reserve,
    the reactor does not exceed its capacity, nobody else is touched,
    and the automatic deposit after a move is the same operation. *)
Theorem deposit_moves_surplus_to_reactor
    (w : World) (aid : AgentID) (agent : Agent.t) :
  OD.get aid (agents w) = Some agent ->
  let d := deposit_amount w agent in
  let w' := _deposit_energy w aid in
  0 <= d /\
  reactor w' =
    Reactor.mk (Reactor.position (reactor w)) (Reactor.capacity (reactor w))
      (Reactor.energy (reactor w) + d) /\
  OD.get aid (agents w') =
    Some (Agent.set_pending_report (Agent.pending_report agent + d)
            (Agent.set_energy (Agent.energy agent - d) agent)) /\
  (forall k, k <> aid -> OD.get k (agents w') = OD.get k (agents w)) /\
  (0 < d ->
   reactor_agent_reserve (cfg w) <= Agent.energy agent - d /\
   Reactor.energy (reactor w) + d <= Reactor.capacity (reactor w)) /\
  _auto_deposit w aid = w'.
Proof.
  intros Hget d w'.
  assert (0 <= d) as Hd.
  { unfold d, deposit_amount. destruct (bool_decide _); lia. }
  split_and!; [done| | |by apply _deposit_energy_others| |apply _auto_deposit_eq].
  - unfold w'. rewrite (_deposit_energy_unfold w aid agent Hget). fold d.
    destruct (d <=? 0) eqn:E.
    + replace d with 0 by lia. destruct (reactor w). simpl. f_equal. lia.
    + by rewrite update_agent_reactor.
  - unfold w'. rewrite (_deposit_energy_unfold w aid agent Hget). fold d.
    destruct (d <=? 0) eqn:E.
    + replace d with 0 by lia. by rewrite agent_unchanged.
    + rewrite update_agent_get, decide_True by done. simpl. by rewrite Hget.
  - unfold d, deposit_amount. destruct (bool_decide _); lia.
Qed.

(** ** What an agent sees *)

Lemma res_mapM_map {A B} (f : A -> Res B) (g : A -> B) l :
  (forall x, x ∈ l -> f x = Ok (g x)) -> res_mapM f l = Ok (List.map g l).
Proof.
  induction l as [|x l IH]; intros H; simpl; [done|].
  rewrite (H x) by left. rewrite bind_Ok_l.
  rewrite IH by (intros ? ?; apply H; by right). done.
Qed.

Lemma NoDup_offsets r :
  NoDup (dx ← py_range (- r) (r + 1); dy ← py_range (- r) (r + 1); [(dx, dy)]).
Proof.
  unfold py_range.
  apply NoDup_bind; [| |apply NoDup_seqZ].
  - intros x1 x2 c _ _ H1 H2.
    apply list_elem_of_bind in H1 as (y1 & H1 & _).
    apply list_elem_of_bind in H2 as (y2 & H2 & _).
    apply list_elem_of_singleton in H1, H2. congruence.
  - intros x _. apply NoDup_bind; [| |apply NoDup_seqZ].
    + intros y1 y2 c _ _ H1 H2.
      apply list_elem_of_singleton in H1, H2. congruence.
    + intros y _. apply NoDup_singleton.
Qed.

Lemma elem_of_offsets r (d : Z * Z) :
  d ∈ (dx ← py_range (- r) (r + 1); dy ← py_range (- r) (r + 1); [(dx, dy)])
  <-> - r <= d.1 <= r /\ - r <= d.2 <= r.
Proof.
  unfold py_range. split.
  - intros Hin.
    apply list_elem_of_bind in Hin as (dx & Hin & Hdx).
    apply list_elem_of_bind in Hin as (dy & Hin & Hdy).
    apply list_elem_of_singleton in Hin as ->. simpl.
    apply elem_of_seqZ in Hdx, Hdy. lia.
  - intros [Hx Hy]. destruct d as [dx dy]. simpl in *.
    apply list_elem_of_bind. exists dx. split; [|apply elem_of_seqZ; lia].
    apply list_elem_of_bind. exists dy. split; [|apply elem_of_seqZ; lia].
    by apply list_elem_of_singleton.
Qed.

Lemma fst_map_pair {A B} (h : A -> B) (l : list A) :
  (List.map (fun c => (c, h c)) l).*1 = l.
Proof. induction l as [|c l IH]; simpl; [done|]. by f_equal. Qed.

(** X18.  On well-formed grids [visible_energy] returns, each once, the
    cells of the grid within Manhattan distance [radius] of the centre,
    paired with the energy stored on them; a negative radius shows
    nothing. *)
Theorem visible_energy_spec (w : World) (center : Position) (radius : Z) :
  grid_wf w ->
  exists cells,
    visible_energy w center radius = Ok cells /\
    NoDup cells.*1 /\
    (forall p e, (p, e) ∈ cells <->
       in_bounds w p.1 p.2 = true /\
       manhattan center p <= radius /\
       stored (energy_grid w) p.1 p.2 = Some e) /\
    (radius < 0 -> cells = []).
Proof.
  intros [Hwf _]. unfold visible_energy. destruct center as [cx cy].
  set (offsets := dx ← py_range (- radius) (radius + 1);
                  dy ← py_range (- radius) (radius + 1); [(dx, dy)]).
  set (in_disk := List.filter _ offsets).
  set (cells := List.map (fun d : Z * Z => (cx + d.1, cy + d.2)) in_disk).
  set (inside := List.filter (fun c : Z * Z => in_bounds w c.1 c.2) cells).
  set (g := fun c : Position =>
              (c, default 0 (stored (energy_grid w) c.1 c.2))).
  assert (forall c, c ∈ inside <->
            in_bounds w c.1 c.2 = true /\ manhattan (cx, cy) c <= radius)
    as Hinside.
  { intros c. unfold inside, cells, in_disk.
    rewrite list_elem_of_In, filter_In, in_map_iff. split.
    - intros [([dx dy] & <- & Hd) Hb]. split; [done|].
      apply filter_In in Hd as [_ Hd]. unfold manhattan. simpl in *. lia.
    - intros [Hb Hm]. split; [|done].
      exists (c.1 - cx, c.2 - cy). split.
      { destruct c. simpl. f_equal; lia. }
      apply filter_In. unfold manhattan in Hm. simpl in *. split; [|lia].
      apply list_elem_of_In, elem_of_offsets. simpl. lia. }
  assert (NoDup inside) as Hnd.
  { unfold inside. apply NoDup_ListNoDup, List.NoDup_filter.
    unfold cells. apply NoDup_ListNoDup.
    assert (Inj (=) (=) (fun d : Z * Z => (cx + d.1, cy + d.2))) as Hinj.
    { intros [a b] [a' b'] [= ? ?]. f_equal; lia. }
    apply (NoDup_fmap_2 _).
    unfold in_disk. apply NoDup_ListNoDup, List.NoDup_filter, NoDup_ListNoDup.
    apply NoDup_offsets. }
  exists (List.map g inside). split_and!.
  - apply res_mapM_map. intros c Hc. apply Hinside in Hc as [Hb _].
    apply in_bounds_iff in Hb.
    destruct (rows_wf_stored (cfg w) (energy_grid w) c.1 c.2) as (e & He & ->);
      [done|lia..|].
    unfold g. by rewrite He.
  - unfold g. by rewrite fst_map_pair.
  - intros p e. rewrite list_elem_of_In, in_map_iff. split.
    + intros (c & [= <- <-] & Hc). apply list_elem_of_In, Hinside in Hc as [Hb Hm].
      split_and!; [done..|]. apply in_bounds_iff in Hb.
      destruct (rows_wf_stored (cfg w) (energy_grid w) c.1 c.2) as (e & He & _);
        [done|lia..|].
      by rewrite He.
    + intros (Hb & Hm & He). exists p. split.
      * unfold g. by rewrite He.
      * apply list_elem_of_In, Hinside. done.
  - intros Hr. destruct inside as [|c l] eqn:E; [done|].
    assert (c ∈ c :: l) as Hc by left. apply Hinside in Hc as [_ Hm].
    unfold manhattan in Hm. simpl in Hm. lia.
Qed.

(** ** No agent appears, none changes its identity *)

#[global] Instance same_agents_refl : Reflexive same_agents.
Proof. intros w k a Ha. by exists a. Qed.
#[global] Instance same_agents_trans : Transitive same_agents.
Proof.
  intros w1 w2 w3 H12 H23 k a3 Ha3.
  destruct (H23 _ _ Ha3) as (a2 & Ha2 & E23).
  destruct (H12 _ _ Ha2) as (a1 & Ha1 & E12).
  exists a1. split; [done|congruence].
Qed.

Lemma same_agents_eq w w' : agents w' = agents w -> same_agents w w'.
Proof. intros H k a Ha. rewrite H in Ha. by exists a. Qed.

Lemma same_agents_update w aid f :
  (forall a, identity (f a) = identity a) ->
  same_agents w (update_agent aid f w).
Proof.
  intros Hf k a'. rewrite update_agent_get.
  destruct (decide (aid = k)) as [->|Hne]; [|by exists a'].
  destruct (OD.get k (agents w)) as [a|]; [|done].
  intros [= <-]. by exists a.
Qed.

Lemma _deposit_energy_stable w aid : same_agents w (_deposit_energy w aid).
Proof.
  unfold _deposit_energy.
  destruct (OD.get aid (agents w)); [|done]. destruct (negb _); [done|].
  destruct (_ <=? 0); [done|]. destruct (Reactor.deposit _ _) as [d r].
  destruct (d <=? 0); [by apply same_agents_eq|].
  trans (set_reactor r w); [by apply same_agents_eq|].
  apply same_agents_update. by intros [].
Qed.

Lemma _auto_deposit_stable w aid : same_agents w (_auto_deposit w aid).
Proof. rewrite _auto_deposit_eq. apply _deposit_energy_stable. Qed.

Lemma _record_deposit_report_stable w aid n :
  same_agents w (_record_deposit_report w aid n).
Proof.
  unfold _record_deposit_report.
  destruct (OD.get aid (agents w)); [|done]. destruct (_ && _); [done|].
  destruct (0 <? _).
  - etrans; [|apply same_agents_eq; reflexivity].
    apply same_agents_update. by intros [].
  - by apply same_agents_eq.
Qed.

Lemma _maybe_clear_help_request_stable w aid :
  same_agents w (_maybe_clear_help_request w aid).
Proof. apply same_agents_eq, _maybe_clear_help_request_agents. Qed.

Lemma _update_request_position_agents w a :
  agents (_update_request_position w a) = agents w.
Proof. unfold _update_request_position. by repeat case_match. Qed.

Lemma _move_stable w aid dx dy : same_agents w (_move w aid dx dy).
Proof.
  destruct (OD.get aid (agents w)) as [agent|] eqn:Hget.
  2:{ unfold _move. by rewrite Hget. }
  rewrite (_move_unfold w aid agent dx dy Hget). cbv zeta.
  destruct (bool_decide _); [done|].
  match goal with |- context [if ?c then w else _] => destruct c; [done|] end.
  etrans; [|apply _auto_deposit_stable].
  etrans; [|apply same_agents_eq, _update_request_position_agents].
  etrans; [|apply same_agents_update; by intros []].
  by apply same_agents_eq.
Qed.

Lemma _gather_energy_stable w aid g w' g' :
  _gather_energy w aid g = Ok (w', g') -> same_agents w w'.
Proof.
  destruct (OD.get aid (agents w)) as [agent|] eqn:Hget.
  2:{ unfold _gather_energy. rewrite Hget. by intros [= <- <-]. }
  unfold _gather_energy. rewrite Hget.
  destruct (Agent.position agent) as [x y]. intros H.
  apply res_bind_Ok in H as (avail & _ & H).
  destruct (avail <=? 0). { by injection H as <- <-. }
  apply res_bind_Ok in H as (eg & _ & H).
  unfold _deplete_resource in H.
  apply res_bind_Ok in H as (eg2 & _ & H).
  apply res_bind_Ok in H as (rg2 & _ & H).
  unfold _respawn_resource in H.
  apply res_bind_Ok in H as (cands & _ & H).
  apply res_bind_Ok in H as ([[tx ty] g1] & _ & H).
  apply res_bind_Ok in H as (rg & _ & H).
  apply res_bind_Ok in H as (eg3 & _ & [= <- <-]).
  etrans; [|apply same_agents_eq; reflexivity].
  etrans; [|apply _maybe_clear_help_request_stable].
  etrans; [|apply same_agents_update; by intros []].
  by apply same_agents_eq.
Qed.

Lemma _give_energy_stable w a b n : same_agents w (_give_energy w a b n).
Proof.
  unfold _give_energy.
  destruct (OD.get a (agents w)) as [donor|]; [|reflexivity].
  destruct (OD.get b (agents w)) as [recipient|]; [|reflexivity].
  do 4 early_return.
  etrans; [|apply same_agents_eq; reflexivity].
  etrans; [|apply _maybe_clear_help_request_stable].
  match goal with
  | |- context [update_agent b ?f (update_agent a ?f' w)] =>
      set (w1 := update_agent a f' w); set (w2 := update_agent b f w1)
  end.
  assert (same_agents w w2) as Hw2.
  { trans w1; apply same_agents_update; by intros []. }
  destruct (_request_entry w (Agent.id recipient)) as [[[? ?] ?]|]; [|done].
  etrans; [exact Hw2|].
  match goal with |- _ _ (if ?c then _ else _) => destruct c end;
    by apply same_agents_eq.
Qed.

Lemma foldl_purge_stable l w : same_agents w (foldl purge w l).
Proof.
  revert w. induction l as [|k l IH]; simpl; intros w; [done|].
  etrans; [|apply IH]. unfold purge.
  destruct (OD.get k (agents w)); [|done].
  intros k' a' Ha'. simpl in Ha'. apply od_get_pop_Some in Ha'. by exists a'.
Qed.

Lemma _decay_agent_energy_stable w : same_agents w (_decay_agent_energy w).
Proof.
  rewrite _decay_agent_energy_unfold. destruct (_ <=? 0); [done|].
  etrans; [|apply foldl_purge_stable].
  intros k a'. simpl. rewrite (od_get_map (decayed (cfg w))).
  destruct (OD.get k (agents w)) as [a|]; [|done].
  intros [= <-]. exists a. split; [done|]. by destruct a.
Qed.

Lemma prim_same_agents w w' : prim w w' -> same_agents w w'.
Proof.
  destruct 1.
  - by apply same_agents_eq.
  - by apply same_agents_eq.
  - by apply same_agents_eq.
  - apply same_agents_eq. unfold _decay_helper_signals. by destruct (_ <? 0).
  - apply _auto_deposit_stable.
  - apply same_agents_update. by intros [].
  - apply _move_stable.
  - eapply _gather_energy_stable; eauto.
  - apply _deposit_energy_stable.
  - apply _record_deposit_report_stable.
  - apply same_agents_eq. unfold _register_help_request. by repeat case_match.
  - apply _give_energy_stable.
  - apply _decay_agent_energy_stable.
  - apply same_agents_eq, _consume_reactor_energy_agents.
  - by eapply same_agents_eq, _apply_reactor_consequences_agents.
Qed.

(** X19.  A tick creates no agent: whoever is there afterwards was there
    before, under the same key, with the same id, name, capacity and
    vision radius. *)
Theorem step_keeps_identities
    (w : World) (g : RNG) (w' : World) (g' : RNG) :
  step w g = Ok (w', g') ->
  forall k a', OD.get k (agents w') = Some a' ->
    exists a, OD.get k (agents w) = Some a /\
      Agent.id a' = Agent.id a /\ Agent.name a' = Agent.name a /\
      Agent.max_capacity a' = Agent.max_capacity a /\
      Agent.vision_radius a' = Agent.vision_radius a.
Proof.
  intros H k a' Ha'. apply step_prims in H.
  assert (same_agents w w') as Hs.
  { eapply (prims_preserve (fun w0 => same_agents w w0)); [|exact H|done].
    intros w1 w2 Hp Hw1. etrans; [exact Hw1|by apply prim_same_agents]. }
  destruct (Hs _ _ Ha') as (a & Ha & [= ? ? ? ?]). by exists a.
Qed.

(** ** Seeding a world *)

Lemma pretty_N_go_head x : forall s,
  (0 < x)%N ->
  exists c rest, pretty_N_go x s = String c rest /\ c <> "0"%char.
Proof.
  induction (N.lt_wf_0 x) as [x _ IH]. intros s Hx.
  rewrite pretty_N_go_step by done.
  destruct (decide (x < 10)%N) as [Hlt|Hge].
  - rewrite N.div_small, pretty_N_go_0 by done.
    rewrite N.mod_small by done. eexists _, _. split; [done|].
    assert (x = 1 \/ x = 2 \/ x = 3 \/ x = 4 \/ x = 5 \/ x = 6 \/ x = 7 \/
            x = 8 \/ x = 9)%N as Hcases by lia.
    destruct Hcases as [->|[->|[->|[->|[->|[->|[->|[->| ->]]]]]]]]; done.
  - apply IH.
    + apply N.div_lt; lia.
    + apply N.div_str_pos. lia.
Qed.

Lemma pretty_N_head (x : N) :
  (0 < x)%N -> exists c rest, pretty x = String c rest /\ c <> "0"%char.
Proof.
  intros Hx. unfold pretty, pretty_N. rewrite decide_False by lia.
  by apply pretty_N_go_head.
Qed.

Lemma format_02d_inj i j :
  0 <= i -> 0 <= j -> format_02d i = format_02d j -> i = j.
Proof.
  assert (forall a b : N,
            (String.length (pretty a) <? 2)%nat = true ->
            (String.length (pretty b) <? 2)%nat = false ->
            "0" +:+ pretty a <> pretty b) as Hmixed.
  { intros a b Ha Hb E. destruct (decide (b = 0%N)) as [->|Hne].
    - by vm_compute in Hb.
    - destruct (pretty_N_head b) as (c & rest & Hc & Hz); [lia|].
      rewrite Hc in E.
      change ("0" +:+ pretty a) with (String "0"%char (pretty a)) in E.
      injection E as E1 E2. by apply Hz. }
  intros Hi Hj. unfold format_02d. cbv zeta.
  destruct (String.length (pretty (Z.to_N i)) <? 2)%nat eqn:Ei,
           (String.length (pretty (Z.to_N j)) <? 2)%nat eqn:Ej; intros E.
  - change (String "0"%char (pretty (Z.to_N i)) =
            String "0"%char (pretty (Z.to_N j))) in E.
    injection E as E. apply (inj pretty) in E. lia.
  - by apply Hmixed in E.
  - symmetry in E. by apply Hmixed in E.
  - apply (inj pretty) in E. lia.
Qed.

Lemma elem_of_free_cells (width height : Z) occupied (c : Position) :
  c ∈ free_cells width height occupied <->
  (0 <= c.1 < width /\ 0 <= c.2 < height) /\ c ∉ occupied.
Proof.
  unfold free_cells, py_range. split.
  - intros Hin.
    apply list_elem_of_bind in Hin as (x & Hin & Hx).
    apply list_elem_of_bind in Hin as (y & Hin & Hy).
    apply elem_of_seqZ in Hx, Hy.
    destruct (bool_decide ((x, y) ∈ occupied)) eqn:Hocc;
      [by apply elem_of_nil in Hin|].
    apply bool_decide_eq_false in Hocc.
    apply list_elem_of_singleton in Hin as ->. simpl. split; [lia|done].
  - intros [[Hx Hy] Hocc]. destruct c as [x y]. simpl in *.
    apply list_elem_of_bind. exists x. split; [|apply elem_of_seqZ; lia].
    apply list_elem_of_bind. exists y. split; [|apply elem_of_seqZ; lia].
    rewrite bool_decide_eq_false_2 by done. by apply list_elem_of_singleton.
Qed.

(** The cell a one-cell comprehension yields. *)
Ltac the_cell H :=
  match type of H with
  | context [if bool_decide ?P then _ else _] =>
      destruct (bool_decide P);
        [by apply elem_of_nil in H|apply list_elem_of_singleton in H]
  end.

Lemma NoDup_free_cells (width height : Z) occupied :
  NoDup (free_cells width height occupied).
Proof.
  unfold free_cells, py_range.
  apply NoDup_bind; [| |apply NoDup_seqZ].
  - intros x1 x2 c _ _ H1 H2.
    apply list_elem_of_bind in H1 as (y1 & H1 & _).
    apply list_elem_of_bind in H2 as (y2 & H2 & _).
    the_cell H1. the_cell H2. congruence.
  - intros x _. apply NoDup_bind; [| |apply NoDup_seqZ].
    + intros y1 y2 c _ _ H1 H2. the_cell H1. the_cell H2. congruence.
    + intros y _. destruct (bool_decide _);
        [apply NoDup_nil_2|apply NoDup_singleton].
Qed.

Lemma _random_empty_cell_facts (width height : Z) occupied g :
  let cells := free_cells width height occupied in
  (cells = [] -> _random_empty_cell width height occupied g = Ok ((0, 0), g)) /\
  (cells <> [] ->
   exists p,
     _random_empty_cell width height occupied g = Ok (p, (rng_next g).2) /\
     drawn g cells = Some p /\ p ∈ cells).
Proof.
  intros cells. unfold _random_empty_cell. fold cells. split.
  - by intros ->.
  - intros Hne. destruct (random_choice_drawn cells g Hne) as (p & Hp & Hd).
    exists p. split_and!; [by destruct cells|done|].
    unfold drawn in Hd. by eapply list_elem_of_lookup_2.
Qed.

(** X20.  [_random_empty_cell] lists each cell of the grid that is not
    occupied once; it returns one of them, the one at the drawn index,
    when there is any, and the cell (0, 0) without drawing when there is
    none. *)
Theorem random_empty_cell_spec
    (width height : Z) (occupied : gset Position) (g : RNG) :
  let cells := free_cells width height occupied in
  NoDup cells /\
  (forall c, c ∈ cells <->
     (0 <= c.1 < width /\ 0 <= c.2 < height) /\ c ∉ occupied) /\
  (cells = [] -> _random_empty_cell width height occupied g = Ok ((0, 0), g)) /\
  (cells <> [] ->
   exists p,
     _random_empty_cell width height occupied g = Ok (p, (rng_next g).2) /\
     drawn g cells = Some p /\ p ∈ cells).
Proof.
  intros cells. split_and!.
  - apply NoDup_free_cells.
  - intros c. apply elem_of_free_cells.
  - apply _random_empty_cell_facts.
  - apply _random_empty_cell_facts.
Qed.

Lemma res_foldM_app {S A} (f : S -> A -> Res S) (s : S) (l1 l2 : list A) :
  res_foldM f s (l1 ++ l2) = (s' ← res_foldM f s l1; res_foldM f s' l2).
Proof.
  revert s. induction l1 as [|x l1 IH]; simpl; intros s; [done|].
  destruct (f s x) as [s1|e]; simpl; [apply IH|done].
Qed.

Lemma length_scan_cells wd ht :
  length (scan_cells wd ht) = (Z.to_nat wd * Z.to_nat ht)%nat.
Proof.
  unfold scan_cells, py_range.
  assert (forall (l : list Z) (k : nat) (f : Z -> list Position),
            (forall y, length (f y) = k) ->
            length (l ≫= f) = (length l * k)%nat) as Hbind.
  { intros l k f Hf. induction l as [|y l IH]; [done|].
    rewrite bind_cons, length_app, IH, Hf. simpl. lia. }
  rewrite (Hbind _ (Z.to_nat wd)).
  - rewrite length_seqZ. lia.
  - intros y. rewrite (Hbind _ 1%nat); [|done].
    rewrite length_seqZ. lia.
Qed.

(** More occupied cells than the grid has mean a free cell is left. *)
Lemma free_cells_nonempty (width height : Z) (occupied : gset Position) :
  (size occupied < Z.to_nat width * Z.to_nat height)%nat ->
  free_cells width height occupied <> [].
Proof.
  intros Hsize Hnil.
  assert (list_to_set (C := gset Position) (scan_cells width height)
            ⊆ occupied) as Hsub.
  { intros c Hc. apply elem_of_list_to_set, elem_of_scan_cells in Hc.
    destruct (decide (c ∈ occupied)) as [|Hout]; [done|].
    assert (c ∈ free_cells width height occupied) as Hin
      by by apply elem_of_free_cells.
    rewrite Hnil in Hin. by apply elem_of_nil in Hin. }
  apply subseteq_size in Hsub.
  rewrite size_list_to_set, length_scan_cells in Hsub
    by apply NoDup_scan_cells.
  lia.
Qed.

(** When the occupied cells of the grid are as many as the grid has,
    every cell is occupied. *)
Lemma grid_exhausted (width height : Z) (occupied : gset Position) :
  (forall p, p ∈ occupied -> 0 <= p.1 < width /\ 0 <= p.2 < height) ->
  (Z.to_nat width * Z.to_nat height <= size occupied)%nat ->
  forall c : Position, 0 <= c.1 < width /\ 0 <= c.2 < height -> c ∈ occupied.
Proof.
  intros Hin Hsize c Hc.
  assert (occupied ≡
          list_to_set (C := gset Position) (scan_cells width height)) as Heq.
  { apply set_subseteq_size_equiv.
    - intros p Hp. by apply elem_of_list_to_set, elem_of_scan_cells, Hin.
    - rewrite size_list_to_set, length_scan_cells by apply NoDup_scan_cells.
      done. }
  apply Heq. by apply elem_of_list_to_set, elem_of_scan_cells.
Qed.

Lemma add_agent_free w agent :
  in_bounds w (Agent.position agent).1 (Agent.position agent).2 = true ->
  occupancy w !! Agent.position agent = None ->
  add_agent w agent = Ok (placed w agent (Agent.position agent)).
Proof.
  intros Hb Hfree. unfold add_agent.
  destruct (Agent.position agent) as [x y] eqn:Hpos. simpl in Hb.
  assert (_clamp w x y = (x, y)) as ->.
  { apply in_bounds_iff in Hb. unfold _clamp. f_equal; lia. }
  unfold _ensure_free_position. cbn [Agent.position Agent.set_position].
  unfold is_occupied, _occupant. rewrite Hfree. cbn [negb]. simpl.
  done.
Qed.

Lemma add_agent_full w agent :
  0 < width (cfg w) -> 0 < height (cfg w) ->
  (forall c : Position,
     0 <= c.1 < width (cfg w) /\ 0 <= c.2 < height (cfg w) ->
     is_Some (occupancy w !! c)) ->
  add_agent w agent = Raise RuntimeError.
Proof.
  intros Hw Hh Hfull. unfold add_agent.
  destruct (Agent.position agent) as [x y].
  cbn [Agent.position Agent.set_position].
  destruct (_clamp w x y) as [cx cy] eqn:Hc.
  assert (0 <= cx < width (cfg w) /\ 0 <= cy < height (cfg w)) as Hin.
  { unfold _clamp in Hc. injection Hc as <- <-. lia. }
  unfold _ensure_free_position, is_occupied, _occupant.
  destruct (Hfull (cx, cy) Hin) as [o ->]. cbn [negb].
  destruct (List.find _ _) as [c|] eqn:Hf; [|done].
  apply find_some in Hf as [Hc' Hfree].
  apply list_elem_of_In, elem_of_scan_cells in Hc'.
  destruct c as [nx ny]. destruct (Hfull (nx, ny) Hc') as [o' Ho'].
  simpl in Hfree. by rewrite Ho' in Hfree.
Qed.

Lemma seed_one_places (width height : Z) id_prefix (n : nat) s :
  0 < width -> 0 < height ->
  Z.of_nat n < width * height ->
  seeded width height id_prefix n s ->
  exists s',
    seed_one width height id_prefix s (Z.of_nat n) = Ok s' /\
    seeded width height id_prefix (S n) s'.
Proof.
  intros Hw Hh Hroom. destruct s as [[w occupied] g].
  intros (Hreach & Htick & Hdom & Hsize & Hgrid & Hkeys & Hagents).
  pose proof (reachable_cfg _ _ Hreach) as Hcfg.
  unfold seed_one.
  destruct (_random_empty_cell_facts width height occupied g) as [_ Hdraw].
  destruct Hdraw as (p & -> & _ & Hp).
  { apply free_cells_nonempty. rewrite Hsize. nia. }
  apply elem_of_free_cells in Hp as [Hin Hout].
  rewrite bind_Ok_l. cbv beta iota.
  set (agent := seeded_agent id_prefix (Z.of_nat n) p).
  assert (OD.get (Agent.id agent) (agents w) = None) as Hfresh.
  { apply od_get_None. rewrite Hkeys. intros Hk.
    apply list_elem_of_fmap in Hk as (i & Hi & Hrange).
    apply elem_of_seqZ in Hrange. simpl in Hi.
    apply (inj (String.append id_prefix)) in Hi.
    apply format_02d_inj in Hi; lia. }
  assert (add_agent w agent = Ok (placed w agent p)) as Hadd.
  { apply (add_agent_free w agent).
    - apply in_bounds_iff. rewrite Hcfg. simpl. lia.
    - apply not_elem_of_dom. by rewrite Hdom. }
  rewrite Hadd, bind_Ok_l. eexists. split; [reflexivity|].
  unfold seeded. split_and!.
  - eapply reach_add; [exact Hreach|exact Hfresh|exact Hadd].
  - done.
  - simpl. by rewrite dom_insert_L, Hdom.
  - rewrite size_union by (by apply disjoint_singleton_l).
    rewrite size_singleton. lia.
  - intros q Hq. apply elem_of_union in Hq as [Hq|Hq]; [|by apply Hgrid].
    by apply elem_of_singleton in Hq as ->.
  - simpl. rewrite od_keys_set_notin by (by apply od_get_None).
    rewrite Hkeys, seqZ_S, fmap_app.
    by replace (0 + Z.of_nat n) with (Z.of_nat n) by lia.
  - intros i Hi. simpl.
    destruct (decide (i = Z.of_nat n)) as [->|Hne].
    + exists p. split; [|done]. apply od_get_set_eq.
    + destruct (Hagents i) as (q & Hq & Hqin); [lia|].
      exists q. split; [|done]. rewrite od_get_set_ne; [done|].
      simpl. intros E. apply (inj (String.append id_prefix)) in E.
      apply format_02d_inj in E; lia.
Qed.

Lemma seed_one_fails (width height : Z) id_prefix (n : nat) s index :
  0 < width -> 0 < height ->
  width * height <= Z.of_nat n ->
  seeded width height id_prefix n s ->
  seed_one width height id_prefix s index = Raise RuntimeError.
Proof.
  intros Hw Hh Hroom. destruct s as [[w occupied] g].
  intros (Hreach & Htick & Hdom & Hsize & Hgrid & Hkeys & Hagents).
  pose proof (reachable_cfg _ _ Hreach) as Hcfg.
  assert (forall c : Position,
            0 <= c.1 < width /\ 0 <= c.2 < height -> c ∈ occupied) as Hfull.
  { apply grid_exhausted; [done|]. rewrite Hsize. nia. }
  assert (free_cells width height occupied = []) as Hnil.
  { destruct (free_cells width height occupied) as [|c l] eqn:E; [done|].
    assert (c ∈ free_cells width height occupied) as Hc
      by (rewrite E; left).
    apply elem_of_free_cells in Hc as [Hc Hout]. by apply Hfull in Hc. }
  unfold seed_one.
  destruct (_random_empty_cell_facts width height occupied g) as [Hzero _].
  rewrite (Hzero Hnil), bind_Ok_l. cbv beta iota.
  rewrite add_agent_full; [done|by rewrite Hcfg..|].
  intros c Hc. rewrite Hcfg in Hc. simpl in Hc.
  apply elem_of_dom. rewrite Hdom. by apply Hfull.
Qed.

Lemma seed_loop (width height : Z) id_prefix (n : nat) s0 :
  0 < width -> 0 < height ->
  Z.of_nat n <= width * height ->
  seeded width height id_prefix 0 s0 ->
  exists s,
    res_foldM (seed_one width height id_prefix) s0 (seqZ 0 (Z.of_nat n))
      = Ok s /\
    seeded width height id_prefix n s.
Proof.
  intros Hw Hh Hn H0. induction n as [|n IH].
  - exists s0. done.
  - destruct IH as (s & Hs & Hseeded); [lia|].
    destruct (seed_one_places width height id_prefix n s) as (s' & Hs' & Hn');
      [done|done|lia|done|].
    exists s'. split; [|done].
    rewrite seqZ_S, res_foldM_app, Hs, bind_Ok_l.
    replace (0 + Z.of_nat n) with (Z.of_nat n) by lia.
    cbn [res_foldM]. by rewrite Hs', bind_Ok_l.
Qed.

(** X21.  On a grid with cells, [seed_world] succeeds exactly when it is
    asked for no more agents than the grid has cells, and raises
    [RuntimeError] otherwise.  The world it returns is at tick 0 and is
    one a client can obtain by [add_agent] with fresh ids; it holds
    one agent per index, in the order of the indices, with the id
    [prefix + index] (two digits at least), the name, 30 units of energy
    and a cell of the grid of its own. *)
Theorem seed_world_places_agents
    (agent_count width height : Z) (id_prefix : string)
    (spawn : Z -> Z -> bool) (g : RNG) :
  0 < width -> 0 < height ->
  (agent_count <= width * height ->
   exists w g',
     seed_world agent_count width height id_prefix spawn g = Ok (w, g') /\
     reachable (seed_config width height) w /\
     tick w = 0 /\
     OD.keys (agents w) =
       (fun i => id_prefix +:+ format_02d i) <$> py_range 0 agent_count /\
     size (dom (occupancy w)) = Z.to_nat agent_count /\
     forall i, 0 <= i < agent_count ->
       exists p,
         OD.get (id_prefix +:+ format_02d i) (agents w) =
           Some (seeded_agent id_prefix i p) /\
         occupancy w !! p = Some (id_prefix +:+ format_02d i) /\
         0 <= p.1 < width /\ 0 <= p.2 < height) /\
  (width * height < agent_count ->
   seed_world agent_count width height id_prefix spawn g =
     Raise RuntimeError).
Proof.
  intros Hw Hh. unfold seed_world.
  destruct (__post_init___spec (seed_config width height) spawn)
    as (w0 & Hinit & Hcfg0 & Htick0 & Hag0 & Hocc0 & _).
  rewrite Hinit, bind_Ok_l.
  assert (seeded width height id_prefix 0 (w0, ∅, g)) as Hs0.
  { split_and!; try done.
    - by eapply reach_init.
    - by rewrite Hocc0, dom_empty_L.
    - by rewrite Hag0.
    - intros i Hi. lia. }
  assert (forall n : Z, py_range 0 n = seqZ 0 (Z.of_nat (Z.to_nat n))) as Hrange.
  { intros n. unfold py_range. destruct (decide (0 <= n)).
    - f_equal. lia.
    - by rewrite !seqZ_nil by lia. }
  split.
  - intros Hroom. rewrite Hrange.
    destruct (seed_loop width height id_prefix (Z.to_nat agent_count)
                (w0, ∅, g)) as ([[w occupied] g'] & -> & Hseeded);
      [done|done|lia|done|].
    rewrite bind_Ok_l. exists w, g'. split; [done|].
    destruct Hseeded as (Hreach & Htick & Hdom & Hsize & Hgrid & Hkeys & Hagents).
    split_and!; [done|done|done|by rewrite Hdom|].
    intros i Hi. destruct (Hagents i) as (p & Hp & Hin); [lia|].
    exists p. split_and!; [done| |lia..].
    apply reachable_world_inv in Hreach as (_ & _ & Hocc & _).
    by apply (Hocc _ _ Hp).
  - intros Hmany. rewrite Hrange.
    set (m := Z.to_nat (width * height)).
    replace (Z.of_nat (Z.to_nat agent_count))
      with (Z.of_nat m + (agent_count - Z.of_nat m)) by lia.
    rewrite seqZ_app by lia.
    rewrite (seqZ_cons _ (agent_count - Z.of_nat m)) by lia.
    rewrite res_foldM_app.
    destruct (seed_loop width height id_prefix m (w0, ∅, g))
      as (s & -> & Hseeded); [done|done|lia|done|].
    rewrite bind_Ok_l. cbn [res_foldM].
    rewrite (seed_one_fails width height id_prefix m); [done..|lia|done].
Qed.

(** ** What deciding and acting leave alone *)

Lemma random_choice_rng {A} (l : list A) g x g' :
  random_choice l g = Ok (x, g') -> g' = (rng_next g).2.
Proof.
  unfold random_choice. destruct l; [done|].
  destruct (rng_next g) as [r g1]. by intros [= _ <-].
Qed.

Lemma choose_rng self w g act w' g' :
  choose self w g = Ok (act, w', g') -> g' = g \/ g' = (rng_next g).2.
Proof.
  unfold choose, active_help_requests, has_active_request.
  destruct (Agent.position self) as [x y].
  destruct (0 <? Agent.pending_report self).
  { intros [= <- <- <-]. by left. }
  intros H. apply res_bind_Ok in H as (ce & _ & H).
  apply res_bind_Ok in H as (vis & _ & H).
  match type of H with
  | (let '(_, _) := (if ?c then _ else _) in _) = _ => destruct c
  end.
  all: destruct (choose_help _ _ _ _); [injection H as <- <- <-; by left|].
  all: destruct (choose_sustain _ _ _ _ _ _);
    [injection H as <- <- <-; by left|].
  all: destruct (choose_deposit _ _ _); [injection H as <- <- <-; by left|].
  all: destruct (0 <? ce); [injection H as <- <- <-; by left|].
  all: apply res_bind_Ok in H as ([d g1] & Hd & [= <- <- <-]).
  all: right; by eapply random_choice_rng.
Qed.

(** X22.  Deciding has one side effect: the request table is pruned, and
    the agent's own request is cancelled once the agent is no longer low
    on energy.  Agents, cells, reactor, counter, ledger and helper
    signals stay as they are, no request is added or altered, every
    request that is dropped was stale or the agent's own, and the random
    source is used at most once. *)
Theorem choose_only_prunes_requests
    (self : Agent.t) (w : World) (g : RNG)
    (act : Action) (w' : World) (g' : RNG) :
  choose self w g = Ok (act, w', g') ->
  eq_all w w' /\ agents w' = agents w /\ eq_log w w' /\
  helper_signals w' = helper_signals w /\
  (forall k e, OD.get k (help_requests w') = Some e ->
               OD.get k (help_requests w) = Some e) /\
  (forall k, OD.get k (help_requests w') = None ->
             k = Agent.id self \/ _request_entry w k = None) /\
  (g' = g \/ g' = (rng_next g).2).
Proof.
  intros H. pose proof (choose_rng _ _ _ _ _ _ H) as Hg.
  apply choose_world in H. cbv zeta in H.
  rewrite _prune_help_requests_idem in H.
  assert (forall k e,
            OD.get k (help_requests (_prune_help_requests w)) = Some e ->
            OD.get k (help_requests w) = Some e) as Hsub.
  { intros k e. rewrite _prune_help_requests_get.
    by destruct (_request_entry w k). }
  assert (forall k,
            OD.get k (help_requests (_prune_help_requests w)) = None ->
            _request_entry w k = None) as Hstale.
  { intros k. rewrite _prune_help_requests_get.
    destruct (_request_entry w k) as [e|] eqn:E; [|done].
    apply _request_entry_Some in E as [-> _]. done. }
  destruct H as [->|[->| ->]].
  - split_and!; try done. intros k Hk. right.
    by apply _request_entry_None_get.
  - split_and!; try done. intros k Hk. right. by apply Hstale.
  - split_and!; try done.
    + intros k e Hk. simpl in Hk. apply od_get_pop_Some in Hk. by apply Hsub.
    + intros k Hk. simpl in Hk. rewrite od_get_pop in Hk.
      destruct (decide (Agent.id self = k)) as [<-|Hne]; [by left|right].
      by apply Hstale.
Qed.

Lemma _record_deposit_report_others w aid n k :
  k <> aid ->
  OD.get k (agents (_record_deposit_report w aid n)) = OD.get k (agents w).
Proof.
  intros Hne. unfold _record_deposit_report.
  destruct (OD.get aid (agents w)); [|done]. destruct (_ && _); [done|].
  simpl. destruct (0 <? _); [|done].
  by rewrite update_agent_get, decide_False.
Qed.

Lemma _gather_energy_others w aid g w' g' k :
  _gather_energy w aid g = Ok (w', g') -> k <> aid ->
  OD.get k (agents w') = OD.get k (agents w).
Proof.
  intros H Hne. unfold _gather_energy in H.
  destruct (OD.get aid (agents w)) as [agent|] eqn:Hget.
  2:{ by injection H as <- <-. }
  destruct (Agent.position agent) as [x y].
  apply res_bind_Ok in H as (avail & _ & H).
  destruct (avail <=? 0). { by injection H as <- <-. }
  apply res_bind_Ok in H as (eg & _ & H).
  unfold _deplete_resource in H.
  apply res_bind_Ok in H as (eg2 & _ & H).
  apply res_bind_Ok in H as (rg2 & _ & H).
  unfold _respawn_resource in H.
  apply res_bind_Ok in H as (cands & _ & H).
  apply res_bind_Ok in H as ([[tx ty] g1] & _ & H).
  apply res_bind_Ok in H as (rg & _ & H).
  apply res_bind_Ok in H as (eg3 & _ & [= <- <-]).
  simpl. rewrite _maybe_clear_help_request_agents.
  by rewrite update_agent_get, decide_False.
Qed.

Lemma _give_energy_others w a b n k :
  k <> a -> k <> b ->
  OD.get k (agents (_give_energy w a b n)) = OD.get k (agents w).
Proof.
  intros Ha Hb. unfold _give_energy.
  destruct (OD.get a (agents w)) as [donor|]; [|done].
  destruct (OD.get b (agents w)) as [recipient|]; [|done].
  destruct (bool_decide _); [done|]. destruct (1 <? _); [done|].
  destruct (_ <=? 0); [done|].
  match goal with |- context [if ?c <=? 0 then w else _] =>
    destruct (c <=? 0); [done|] end.
  simpl. rewrite _maybe_clear_help_request_agents.
  match goal with
  | |- context [update_agent b ?f (update_agent a ?f' w)] =>
      set (w2 := update_agent b f (update_agent a f' w));
      assert (OD.get k (agents w2) = OD.get k (agents w)) as Hw2
        by (unfold w2; by rewrite !update_agent_get, !decide_False)
  end.
  clearbody w2.
  destruct (_request_entry w (Agent.id recipient)) as [[[? ?] ?]|]; [|done].
  by destruct (0 <? _).
Qed.

Lemma _move_others w aid dx dy k :
  k <> aid -> OD.get k (agents (_move w aid dx dy)) = OD.get k (agents w).
Proof.
  intros Hne.
  destruct (OD.get aid (agents w)) as [agent|] eqn:Hget.
  2:{ unfold _move. by rewrite Hget. }
  rewrite (_move_unfold w aid agent dx dy Hget). cbv zeta.
  destruct (bool_decide _); [done|].
  match goal with |- context [if ?c then w else _] => destruct c; [done|] end.
  rewrite _auto_deposit_others, _update_request_position_agents by done.
  by rewrite update_agent_get, decide_False.
Qed.

(** X23.  Applying an action of an agent that is not there changes
    nothing, and so does a GIVE without a target.  An action changes no
    agent but its actor and, for GIVE, the target. *)
Theorem apply_touches_actor_and_target
    (w : World) (action : Action) (g : RNG) (w' : World) (g' : RNG) :
  apply w action g = Ok (w', g') ->
  (OD.get (actor action) (agents w) = None -> w' = w /\ g' = g) /\
  (kind action = GIVE -> p_target (params action) = None ->
   w' = w /\ g' = g) /\
  (forall k, k <> actor action ->
     (kind action = GIVE -> p_target (params action) <> Some k) ->
     OD.get k (agents w') = OD.get k (agents w)).
Proof.
  unfold apply. intros H. split_and!.
  - intros Hnone. rewrite Hnone in H. by injection H as <- <-.
  - intros Hk Ht. destruct (OD.get _ _); [|by injection H as <- <-].
    rewrite Hk, Ht in H. by injection H as <- <-.
  - intros k Hne Htarget.
    destruct (OD.get (actor action) (agents w)); [|by injection H as <- <-].
    destruct (kind action).
    + injection H as <- <-. by apply _move_others.
    + by eapply _gather_energy_others.
    + injection H as <- <-. by apply _deposit_energy_others.
    + injection H as <- <-. by apply _record_deposit_report_others.
    + injection H as <- <-. unfold _register_help_request.
      by repeat case_match.
    + destruct (p_target (params action)) as [target|]; injection H as <- <-;
        [|done].
      apply _give_energy_others; [done|]. intros ->. by apply Htarget.
Qed.

(** ** The help step and the order of the request table *)

Lemma od_pop_filter {V} (d : OD.t V) k :
  OD.pop k d = List.filter (fun kv => negb (bool_decide (kv.1 = k))) d.
Proof.
  induction d as [|[k' v] d IH]; [done|]. cbn [OD.pop List.filter fst].
  destruct (decide (k' = k)) as [->|Hne].
  - by rewrite bool_decide_eq_true_2.
  - rewrite bool_decide_eq_false_2 by done. cbn [negb]. by rewrite IH.
Qed.

Lemma od_foldl_pop_filter {V} (l : list string) (d : OD.t V) :
  foldl (fun h a => OD.pop a h) d l =
  List.filter (fun kv => negb (bool_decide (kv.1 ∈ l))) d.
Proof.
  revert d. induction l as [|a l IH]; intros d; cbn [foldl].
  - induction d as [|kv d IHd]; [done|]. cbn [List.filter].
    rewrite bool_decide_eq_false_2 by apply not_elem_of_nil.
    cbn [negb]. by rewrite <- IHd.
  - rewrite IH, od_pop_filter. clear IH.
    induction d as [|kv d IHd]; [done|]. cbn [List.filter].
    destruct (decide (kv.1 = a)) as [Ha|Ha].
    + rewrite (bool_decide_eq_true_2 (kv.1 = a)) by done.
      rewrite (bool_decide_eq_true_2 (kv.1 ∈ a :: l)) by (rewrite Ha; left).
      cbn [negb]. apply IHd.
    + rewrite (bool_decide_eq_false_2 (kv.1 = a)) by done. cbn [negb List.filter].
      case_bool_decide as E.
      * rewrite (bool_decide_eq_true_2 (kv.1 ∈ a :: l)) by (by right).
        cbn [negb]. apply IHd.
      * rewrite (bool_decide_eq_false_2 (kv.1 ∈ a :: l)).
        -- cbn [negb]. by rewrite IHd.
        -- intros [?|?]%elem_of_cons; done.
Qed.

(** Pruning keeps the entries [_request_entry] accepts, in their order. *)
Lemma _prune_help_requests_table w :
  help_requests (_prune_help_requests w) =
  List.filter (fun kv => bool_decide (is_Some (_request_entry w kv.1)))
    (help_requests w).
Proof.
  unfold _prune_help_requests. simpl. rewrite od_foldl_pop_filter.
  apply filter_ext_in. intros kv Hkv.
  assert (kv.1 ∈ OD.keys (help_requests w)) as Hk.
  { apply list_elem_of_fmap. exists kv. split; [done|]. by apply list_elem_of_In. }
  destruct (_request_entry w kv.1) as [e|] eqn:E.
  - rewrite (bool_decide_eq_true_2 (is_Some _)) by eauto.
    rewrite bool_decide_eq_false_2; [done|].
    intros [_ H]%list_elem_of_In%filter_In. by rewrite E in H.
  - rewrite (bool_decide_eq_false_2 (is_Some _)) by (by intros [? ?]).
    rewrite bool_decide_eq_true_2; [done|].
    apply list_elem_of_In, filter_In. split; [by apply list_elem_of_In|].
    by rewrite E.
Qed.

Lemma omap_cons {A B} (f : A -> option B) x l :
  omap f (x :: l) =
  match f x with Some y => y :: omap f l | None => omap f l end.
Proof. reflexivity. Qed.

Lemma od_keys_cons {V} (k : string) (v : V) (d : OD.t V) :
  OD.keys ((k, v) :: d) = k :: OD.keys d.
Proof. reflexivity. Qed.

Lemma od_set_fresh {V} (d : OD.t V) k v :
  k ∉ OD.keys d -> OD.set k v d = d ++ [(k, v)].
Proof.
  induction d as [|[k' v'] d IH]; [done|]. cbn [OD.set]. intros Hk.
  rewrite decide_False.
  - rewrite IH; [done|]. intros ?. apply Hk. by right.
  - intros ->. apply Hk. left.
Qed.

Lemma active_requests_fold_table w (d : OD.t Request) :
  NoDup (OD.keys d) ->
  forall acc : OD.t (Position * Z),
  (forall k, k ∈ OD.keys d -> k ∉ OD.keys acc) ->
  foldl (fun (requests : OD.t (Position * Z)) agent_id =>
           match _request_entry w agent_id with
           | None => requests
           | Some (position, amount, _) =>
               OD.set agent_id (position, amount) requests
           end) acc (OD.keys d) =
  acc ++ omap (listed w) d.
Proof.
  induction d as [|[k v] d IH]; intros Hnd acc Hacc.
  { simpl. by rewrite app_nil_r. }
  rewrite od_keys_cons in Hnd. apply NoDup_cons in Hnd as [Hk Hnd].
  rewrite od_keys_cons, omap_cons. cbn [foldl].
  unfold listed at 1. cbn [fst].
  destruct (_request_entry w k) as [[[p amt] t]|] eqn:E; cbn [fmap option_fmap option_map].
  - rewrite IH; [|done|].
    + rewrite od_set_fresh by (apply Hacc; left).
      by rewrite <- app_assoc.
    + intros k' Hk'. rewrite od_set_fresh by (apply Hacc; left).
      unfold OD.keys. rewrite fmap_app. intros [?|Hin]%elem_of_app.
      * eapply Hacc; [right; exact Hk'|done].
      * apply list_elem_of_singleton in Hin. simpl in Hin. by subst.
  - apply IH; [done|]. intros k' Hk'. apply Hacc. by right.
Qed.

Lemma NoDup_keys_filter {V} (f : string * V -> bool) (d : OD.t V) :
  NoDup (OD.keys d) -> NoDup (OD.keys (List.filter f d)).
Proof.
  induction d as [|[k v] d IH]; [done|]. rewrite od_keys_cons.
  intros [Hk Hnd]%NoDup_cons.
  cbn [List.filter]. destruct (f (k, v)); [|auto].
  rewrite od_keys_cons. apply NoDup_cons. split; [|auto].
  intros (kv' & Heq & Hin)%list_elem_of_fmap.
  apply list_elem_of_In, filter_In in Hin as [Hin _].
  apply Hk. apply list_elem_of_fmap. exists kv'. split; [done|].
  by apply list_elem_of_In.
Qed.

(** With each key once in the table, [active_help_requests] lists the
    active entries in the order of the table. *)
Lemma active_help_requests_table w :
  NoDup (OD.keys (help_requests w)) ->
  (active_help_requests w).1 = omap (listed w) (help_requests w).
Proof.
  intros Hnd. unfold active_help_requests. cbn [fst].
  rewrite (active_requests_fold_table (_prune_help_requests w)
             (help_requests (_prune_help_requests w))).
  - rewrite app_nil_l, _prune_help_requests_table.
    induction (help_requests w) as [|kv d IH]; [done|].
    destruct kv as [k v]. rewrite od_keys_cons in Hnd.
    apply NoDup_cons in Hnd as [_ Hnd]. cbn [List.filter]. rewrite omap_cons.
    assert (listed (_prune_help_requests w) (k, v) = listed w (k, v)) as Hl.
    { unfold listed. by rewrite _prune_help_requests_entry. }
    unfold listed at 2. cbn [fst].
    destruct (_request_entry w k) as [e|] eqn:E.
    + rewrite bool_decide_eq_true_2 by eauto. rewrite omap_cons, Hl.
      unfold listed at 1. cbn [fst]. rewrite E.
      cbn [fmap option_fmap option_map]. f_equal. by apply IH.
    + rewrite bool_decide_eq_false_2 by (by intros [? ?]).
      cbn [fmap option_fmap option_map]. by apply IH.
  - rewrite _prune_help_requests_table. by apply NoDup_keys_filter.
  - intros k _. apply not_elem_of_nil.
Qed.

Lemma omap_split {A B} (f : A -> option B) l : forall l1 y l2,
  omap f l = l1 ++ y :: l2 ->
  exists m1 a m2,
    l = m1 ++ a :: m2 /\ omap f m1 = l1 /\ f a = Some y /\ omap f m2 = l2.
Proof.
  induction l as [|x l IH]; intros l1 y l2 H.
  { by destruct l1. }
  rewrite omap_cons in H. destruct (f x) as [b|] eqn:E.
  - destruct l1 as [|b1 l1].
    + injection H as -> H. by exists [], x, l.
    + injection H as -> H. apply IH in H as (m1 & a & m2 & -> & <- & Ha & <-).
      exists (x :: m1), a, m2. by rewrite omap_cons, E.
  - apply IH in H as (m1 & a & m2 & -> & <- & Ha & <-).
    exists (x :: m1), a, m2. by rewrite omap_cons, E.
Qed.

Lemma omap_omap {A B C} (f : A -> option B) (g : B -> option C) (l : list A) :
  omap g (omap f l) = omap (fun a => f a ≫= g) l.
Proof.
  induction l as [|x l IH]; [done|]. rewrite !omap_cons.
  destruct (f x) as [b|]; cbn [mbind option_bind]; [|done].
  rewrite omap_cons. destruct (g b); by rewrite IH.
Qed.

(** ** Each key once in the request table *)

Lemma _prune_help_requests_NoDup w :
  NoDup (OD.keys (help_requests w)) ->
  NoDup (OD.keys (help_requests (_prune_help_requests w))).
Proof. rewrite _prune_help_requests_table. apply NoDup_keys_filter. Qed.

Lemma _maybe_clear_help_request_NoDup w aid :
  NoDup (OD.keys (help_requests w)) ->
  NoDup (OD.keys (help_requests (_maybe_clear_help_request w aid))).
Proof.
  intros Hnd. unfold _maybe_clear_help_request.
  destruct (OD.get aid (agents w)) as [agent|]; [|done].
  destruct (OD.get (Agent.id agent) (help_requests w)) as [[[p amt] t]|];
    [|done].
  destruct (_ <? Agent.energy agent); [by apply od_NoDup_pop|].
  match goal with |- context [if ?c <=? 0 then _ else _] =>
    destruct (c <=? 0) end.
  - by apply od_NoDup_pop.
  - by apply od_NoDup_set.
Qed.

Lemma _register_help_request_NoDup w aid n :
  NoDup (OD.keys (help_requests w)) ->
  NoDup (OD.keys (help_requests (_register_help_request w aid n))).
Proof.
  intros Hnd. unfold _register_help_request.
  destruct (OD.get aid (agents w)) as [agent|]; [|done].
  match goal with |- context [if ?c <=? 0 then _ else _] =>
    destruct (c <=? 0); [done|] end.
  by apply od_NoDup_set.
Qed.

Lemma _update_request_position_NoDup w aid :
  NoDup (OD.keys (help_requests w)) ->
  NoDup (OD.keys (help_requests (_update_request_position w aid))).
Proof.
  intros Hnd. unfold _update_request_position.
  destruct (OD.get aid (agents w)) as [agent|]; [|done].
  destruct (OD.get (Agent.id agent) (help_requests w)) as [[[p amt] t]|];
    [|done].
  by apply od_NoDup_set.
Qed.

Lemma _move_NoDup w aid dx dy :
  NoDup (OD.keys (help_requests w)) ->
  NoDup (OD.keys (help_requests (_move w aid dx dy))).
Proof.
  intros Hnd.
  destruct (OD.get aid (agents w)) as [agent|] eqn:Hget.
  2:{ unfold _move. by rewrite Hget. }
  rewrite (_move_unfold w aid agent dx dy Hget). cbv zeta.
  destruct (bool_decide _); [done|].
  match goal with |- context [if ?c then w else _] => destruct c; [done|] end.
  rewrite (proj1 (_auto_deposit_requests _ _)).
  apply _update_request_position_NoDup.
  by rewrite update_agent_help_requests.
Qed.

Lemma _give_energy_NoDup w a b n :
  NoDup (OD.keys (help_requests w)) ->
  NoDup (OD.keys (help_requests (_give_energy w a b n))).
Proof.
  intros Hnd. unfold _give_energy.
  destruct (OD.get a (agents w)) as [donor|]; [|done].
  destruct (OD.get b (agents w)) as [recipient|]; [|done].
  destruct (bool_decide _); [done|]. destruct (1 <? _); [done|].
  destruct (_ <=? 0); [done|].
  match goal with |- context [if ?c <=? 0 then w else _] =>
    destruct (c <=? 0); [done|]; generalize c; intros transfer end.
  match goal with
  | |- context [update_agent b ?f (update_agent a ?f' w)] =>
      set (w2 := update_agent b f (update_agent a f' w))
  end.
  assert (NoDup (OD.keys (help_requests w2))) as Hnd2.
  { unfold w2. by rewrite !update_agent_help_requests. }
  clearbody w2. cbn [help_requests set_helper_signals].
  apply _maybe_clear_help_request_NoDup.
  destruct (_request_entry w (Agent.id recipient)) as [[[? outstanding] ?]|];
    [|done].
  destruct (0 <? Z.max 0 (outstanding - transfer)).
  - by apply od_NoDup_set.
  - by apply od_NoDup_pop.
Qed.

Lemma _gather_energy_NoDup w a g w' g' :
  _gather_energy w a g = Ok (w', g') ->
  NoDup (OD.keys (help_requests w)) -> NoDup (OD.keys (help_requests w')).
Proof.
  intros H Hnd. unfold _gather_energy in H.
  destruct (OD.get a (agents w)) as [agent|] eqn:Hget.
  2:{ by injection H as <- <-. }
  destruct (Agent.position agent) as [x y].
  apply res_bind_Ok in H as (avail & _ & H).
  destruct (avail <=? 0). { by injection H as <- <-. }
  apply res_bind_Ok in H as (eg & Heg & H).
  match type of H with
  | _deplete_resource (_maybe_clear_help_request ?w1 a) _ _ = _ =>
      set (w2 := w1) in *;
      assert (help_requests w2 = help_requests w) as Hh2
        by (unfold w2; by autorewrite with upd)
  end.
  clearbody w2.
  assert (help_requests w' = help_requests (_maybe_clear_help_request w2 a))
    as ->.
  { unfold _deplete_resource in H.
    apply res_bind_Ok in H as (eg2 & _ & H).
    apply res_bind_Ok in H as (rg2 & _ & H).
    unfold _respawn_resource in H.
    apply res_bind_Ok in H as (cands & _ & H).
    apply res_bind_Ok in H as ([[tx ty] g1] & _ & H).
    apply res_bind_Ok in H as (rg & _ & H).
    apply res_bind_Ok in H as (eg3 & _ & [= <- <-]). done. }
  apply _maybe_clear_help_request_NoDup. by rewrite Hh2.
Qed.

Lemma foldl_purge_NoDup l : forall w,
  NoDup (OD.keys (help_requests w)) ->
  NoDup (OD.keys (help_requests (foldl purge w l))).
Proof.
  induction l as [|k l IH]; intros w Hnd; cbn [foldl]; [done|].
  apply IH. unfold purge. destruct (OD.get k (agents w)); [|done].
  by apply od_NoDup_pop.
Qed.

Lemma prim_requests_NoDup w w' :
  prim w w' ->
  NoDup (OD.keys (help_requests w)) -> NoDup (OD.keys (help_requests w')).
Proof.
  intros H Hnd. destruct H.
  - done.
  - by apply _prune_help_requests_NoDup.
  - by apply od_NoDup_pop.
  - unfold _decay_helper_signals. by destruct (_ <? 0).
  - by rewrite (proj1 (_auto_deposit_requests _ _)).
  - by rewrite update_agent_help_requests.
  - by apply _move_NoDup.
  - eapply _gather_energy_NoDup; eauto.
  - by rewrite (proj1 (_deposit_energy_requests _ _)).
  - assert (help_requests (_record_deposit_report w a n) = help_requests w)
      as -> by (unfold _record_deposit_report; crush_frame).
    done.
  - by apply _register_help_request_NoDup.
  - by apply _give_energy_NoDup.
  - rewrite _decay_agent_energy_unfold.
    destruct (_ <=? 0); [done|]. by apply foldl_purge_NoDup.
  - unfold _consume_reactor_energy. by destruct (_ <=? 0).
  - unfold _apply_reactor_consequences, _dwindle_resources in H.
    destruct (negb _); [by injection H as <-|].
    destruct (_ <=? 0); [by injection H as <-|].
    by apply res_bind_Ok in H as ([eg rg] & _ & [= <-]).
Qed.

(** The request table of a world a client can obtain holds each key
    once, as the dict it stands for. *)
Lemma reachable_requests_NoDup c w :
  reachable c w -> NoDup (OD.keys (help_requests w)).
Proof.
  induction 1 as [spawn w H|w agent w' _ IH Hfresh H|w g w' g' _ IH H].
  - unfold __post_init__ in H. simpl in H.
    destruct (in_bounds _ _ _); inv_res; simpl; apply NoDup_nil_2.
  - by apply add_agent_spec in H as (q & _ & ->).
  - apply step_prims in H.
    by apply (prims_preserve _ prim_requests_NoDup) in H.
Qed.

Lemma request_options_omap self :
  exists f : AgentID * (Position * Z) -> option RequestOption,
    forall reqs : list (AgentID * (Position * Z)),
      request_options self reqs = omap f reqs.
Proof.
  unfold request_options. destruct (Agent.position self) as [x y].
  eexists. intros reqs. reflexivity.
Qed.

(** The option the policy makes of a request it may answer. *)
Lemma answerable_option self w k p n :
  answerable self w k p n ->
  mkOption (manhattan (Agent.position self) p) (- n)
    (chebyshev (Agent.position self) p) n k p
  ∈ request_options self (active_help_requests w).1.
Proof.
  intros ((t & He) & Hk & Hv). apply request_options_spec.
  cbn [opt_target opt_pos opt_need opt_manhattan opt_chebyshev opt_neg_need].
  split_and!; try done.
  apply od_get_Some_elem. by rewrite active_help_requests_get, He.
Qed.

(** C7, as the code has it.  [answerable] spells out which requests
    count: active, of another agent, within vision.  When the
    agent has nothing to report, can spare at least the minimum gift and
    some request is answerable, the policy acts on an answerable entry
    [(k, (p, n, t))] of the table [help_requests] that is nearest by
    Manhattan distance; among the nearest it asks for the most; and no
    answerable request that ties with it on both stands earlier in the
    table, whatever ticks the entries carry.  The table is a dict, so
    each key occurs once; [reachable_requests_NoDup] shows it of every
    world a client can obtain.  At Chebyshev distance at most 1 the
    agent emits GIVE for [min shareable (max give_min n)], otherwise it
    moves towards [p]. *)
Theorem choose_serves_nearest_request (self : Agent.t) (w : World) (g : RNG) :
  grid_wf w ->
  NoDup (OD.keys (help_requests w)) ->
  Agent.pending_report self <= 0 ->
  policy_give_min w <= shareable_energy self w ->
  (exists k p n, answerable self w k p n) ->
  exists earlier later k p n t,
    help_requests w = earlier ++ (k, (p, n, t)) :: later /\
    _request_entry w k = Some (p, n, t) /\
    answerable self w k p n /\
    (forall k' p' n', answerable self w k' p' n' ->
       manhattan (Agent.position self) p <= manhattan (Agent.position self) p' /\
       (manhattan (Agent.position self) p' = manhattan (Agent.position self) p ->
        n' <= n /\
        (n' = n -> k' ∉ OD.keys earlier))) /\
    (chebyshev (Agent.position self) p <= 1 ->
       exists w',
         choose self w g =
           Ok (give_action (Agent.id self) k
                 (Z.min (shareable_energy self w)
                        (Z.max (policy_give_min w) n)),
               w', g)) /\
    (1 < chebyshev (Agent.position self) p ->
       exists d w',
         best_move_towards (Agent.position self).1 (Agent.position self).2
           (available_moves w self) p = Some d /\
         choose self w g = Ok (move_action self d, w', g)).
Proof.
  intros Hwf Hnd Hpend Hshare (k0 & p0 & n0 & Hsome).
  destruct (request_options_omap self) as (f & Hf).
  assert (forall item o, f item = Some o <-> o ∈ request_options self [item])
    as Hitem.
  { intros item o. rewrite Hf, omap_cons. destruct (f item) as [o'|].
    - rewrite list_elem_of_singleton. split; [by intros [= ->]|by intros ->].
    - split; [done|]. by intros ?%elem_of_nil. }
  destruct (choose_help_first_least_option self w g Hwf Hpend Hshare)
    as (best & before & after & Hsplit & H1 & H2 & H3 & Hgive & Hmove).
  { intros Hnil. apply answerable_option in Hsome. rewrite Hnil in Hsome.
    by apply elem_of_nil in Hsome. }
  assert (request_options self (active_help_requests w).1 =
          omap (fun kv => listed w kv ≫= f) (help_requests w)) as Hopts.
  { by rewrite Hf, active_help_requests_table, omap_omap. }
  pose proof Hsplit as Hsplit'. rewrite Hopts in Hsplit'.
  apply omap_split in Hsplit'
    as (earlier & [k [[p n] t]] & later & Htable & Hbefore & Hbest & _).
  (* the entry of the table the chosen option was made of *)
  unfold listed in Hbest. cbn [fst] in Hbest.
  destruct (_request_entry w k) as [e|] eqn:He; [|done].
  cbn [fmap option_fmap option_map mbind option_bind] in Hbest.
  assert (e = (p, n, t)) as ->.
  { apply _request_entry_Some in He as [Hget _].
    assert (OD.get k (help_requests w) = Some (p, n, t)) as Hget'.
    { apply od_elem_get; [done|]. rewrite Htable.
      apply elem_of_app. right. left. }
    congruence. }
  cbn [fst snd] in Hbest.
  apply Hitem, request_options_spec in Hbest
    as (Hin & Hid & Hm & Hv & Hc & _).
  apply list_elem_of_singleton in Hin. injection Hin as Hk Hp Hn.
  rewrite Hk, Hp in *. rewrite Hn in *. clear Hk Hp Hn.
  assert (answerable self w k p n) as Hans.
  { split_and!; [by exists t|done|lia]. }
  exists earlier, later, k, p, n, t.
  split_and!; [done|done|done| | |].
  - intros k' p' n' Hans'.
    pose proof (answerable_option self w k' p' n' Hans') as Ho'.
    pose proof (H1 _ Ho') as Hd. pose proof (H2 _ Ho') as Hnn.
    cbn [opt_manhattan opt_need] in Hd, Hnn. rewrite Hm in Hd, Hnn.
    split; [done|]. intros Htie. split; [auto|].
    intros Hneed (kv & Hkv & Hin)%list_elem_of_fmap.
    apply (H3 (mkOption (manhattan (Agent.position self) p') (- n')
                 (chebyshev (Agent.position self) p') n' k' p')).
    + rewrite <- Hbefore. apply list_elem_of_omap. exists kv. split; [done|].
      destruct Hans' as ((t' & He') & Hid' & Hv').
      unfold listed. rewrite <- Hkv, He'.
      cbn [fmap option_fmap option_map mbind option_bind fst snd].
      apply Hitem, request_options_spec.
      cbn [opt_target opt_pos opt_need opt_manhattan opt_chebyshev opt_neg_need].
      split_and!; try done. by apply list_elem_of_singleton.
    + cbn [opt_manhattan opt_need]. rewrite Hm. done.
  - intros Hadj. apply Hgive. by rewrite Hc.
  - intros Hfar. apply Hmove. by rewrite Hc.
Qed.

(** ** The further theorems at work on concrete worlds *)

Lemma duo_first_step :
  step (duo_world 0) (duo_rng 0) = Ok (duo_world 1, duo_rng 1).
Proof. vm_compute. reflexivity. Qed.

Lemma step_advances_tick_witness : tick (duo_world 1) = 1.
Proof.
  destruct (step_advances_tick (duo_world 0) (duo_rng 0) (duo_world 1)
              (duo_rng 1) duo_first_step) as [H _].
  etrans; [exact H|]. vm_compute. reflexivity.
Defined.

Lemma deposit_history_bounded_witness :
  (length (deposit_reports (duo_world 1)) <= 50)%nat.
Proof.
  exact (deposit_history_bounded default_config (duo_world 1) duo_reachable).
Defined.

Lemma agents_stay_in_bounds_witness :
  OD.get "donor" (agents (duo_world 1)) =
    Some (Agent.set_energy 199 (new_agent "donor" (0, 1) 200)) /\
  0 <= (Agent.position (Agent.set_energy 199 (new_agent "donor" (0, 1) 200))).1
    < 16 /\
  0 <= (Agent.position (Agent.set_energy 199 (new_agent "donor" (0, 1) 200))).2
    < 12.
Proof.
  assert (OD.get "donor" (agents (duo_world 1)) =
          Some (Agent.set_energy 199 (new_agent "donor" (0, 1) 200))) as Hget
    by (vm_compute; reflexivity).
  split; [exact Hget|].
  exact (agents_stay_in_bounds default_config (duo_world 1) eq_refl eq_refl
           duo_reachable "donor" _ Hget).
Defined.

Lemma decay_drains_or_removes_witness :
  Agent.energy
    <$> OD.get "donor" (agents (_decay_agent_energy (pair_world 200 1 20)))
    = Some 199 /\
  OD.get "needy" (agents (_decay_agent_energy (pair_world 200 1 20))) = None /\
  occupancy (_decay_agent_energy (pair_world 200 1 20)) !! (1, 0) = None /\
  OD.get "needy" (help_requests (_decay_agent_energy (pair_world 200 1 20)))
    = None.
Proof.
  destruct (decay_drains_or_removes (pair_world 200 1 20)) as [H _].
  - reflexivity.
  - apply (bool_decide_unpack _). vm_compute. exact I.
  - destruct (H "donor" (new_agent "donor" (0, 0) 200)) as [Hd _];
      [reflexivity|].
    destruct Hd as (Hd & _); [reflexivity|].
    destruct (H "needy" (new_agent "needy" (1, 0) 1)) as [_ Hn];
      [reflexivity|].
    destruct Hn as (Hn1 & Hn2 & Hn3 & _); [vm_compute; discriminate|].
    split_and!; [|exact Hn1|exact Hn2|exact Hn3].
    etrans; [exact (f_equal (fmap Agent.energy) Hd)|reflexivity].
Defined.

Lemma step_leaves_no_depleted_agent_witness :
  OD.get "needy" (agents (duo_world 1)) =
    Some (Agent.set_energy 4 (new_agent "needy" (1, 0) 5)) /\
  0 < Agent.energy (Agent.set_energy 4 (new_agent "needy" (1, 0) 5)).
Proof.
  assert (OD.get "needy" (agents (duo_world 1)) =
          Some (Agent.set_energy 4 (new_agent "needy" (1, 0) 5))) as Hget
    by (vm_compute; reflexivity).
  split; [exact Hget|].
  exact (step_leaves_no_depleted_agent (duo_world 0) (duo_rng 0) (duo_world 1)
           (duo_rng 1) eq_refl duo_first_step "needy" _ Hget).
Defined.

Lemma gather_world_grid_wf : grid_wf gather_world.
Proof. eapply grid_wf_eq_grid; [|apply constructed_grid_wf]. done. Qed.

Lemma dwindle_resources_cellwise_witness :
  exists w',
    _dwindle_resources gather_world 50 = Ok w' /\
    agents w' = [("a", new_agent "a" (1, 1) 30)] /\
    stored (energy_grid w') 1 1 = Some 150 /\
    stored (resource_grid w') 1 1 = Some true.
Proof.
  destruct (dwindle_resources_cellwise gather_world 50 gather_world_grid_wf)
    as [_ H].
  destruct H as (w' & Hw & _ & _ & Hag & _ & _ & _ & _ & _ & Hc);
    [reflexivity|].
  destruct (Hc 1 1 200 true) as [He Hf]; [vm_compute; reflexivity..|].
  exists w'. split_and!; [exact Hw|etrans; [exact Hag|reflexivity]|exact He|exact Hf].
Defined.

Lemma post_init_lays_out_world_witness :
  exists w,
    __post_init__ default_config (fun _ _ => true) = Ok w /\
    stored (resource_grid w) 8 6 = Some false /\
    stored (energy_grid w) 8 6 = Some 0 /\
    stored (energy_grid w) 0 0 = Some 200.
Proof.
  destruct (post_init_lays_out_world default_config (fun _ _ => true))
    as (w & Hw & _ & _ & _ & _ & _ & Hc).
  destruct (Hc 8 6) as [Hr He]; [split; [discriminate|reflexivity]..|].
  destruct (Hc 0 0) as [_ He0]; [split; [discriminate|reflexivity]..|].
  exists w. split_and!; [exact Hw|exact Hr|exact He|exact He0].
Defined.

Lemma resource_flags_match_energy_witness :
  exists e flag,
    cell_energy (duo_world 1) 3 2 = Ok e /\
    stored (resource_grid (duo_world 1)) 3 2 = Some flag /\
    0 <= e <= 200 /\ (flag = true <-> 0 < e).
Proof.
  apply (resource_flags_match_energy default_config (duo_world 1));
    [reflexivity|exact duo_reachable
    |split; [discriminate|reflexivity]|split; [discriminate|reflexivity]].
Defined.

Lemma available_moves_spec_witness :
  available_moves (duo_world 0) (new_agent "donor" (0, 0) 200) <> [] /\
  (0, 1) ∈ available_moves (duo_world 0) (new_agent "donor" (0, 0) 200).
Proof.
  destruct (available_moves_spec (duo_world 0) (new_agent "donor" (0, 0) 200))
    as (Hne & _ & Hfree & _).
  split; [exact Hne|].
  apply (proj2 (Hfree (0, 1) ltac:(vm_compute; do 3 right; left)
                  ltac:(discriminate))).
  split; vm_compute; reflexivity.
Defined.

Lemma best_move_towards_optimal_witness :
  best_move_towards 0 0 [(0, 0); (0, 1); (-1, 0)] (3, 2) = Some (0, 1) /\
  manhattan (0 + 0, 0 + 1) (3, 2) <= manhattan (0 + -1, 0 + 0) (3, 2).
Proof.
  destruct (best_move_towards_optimal 0 0 [(0, 0); (0, 1); (-1, 0)] (3, 2))
    as [_ H].
  assert (best_move_towards 0 0 [(0, 0); (0, 1); (-1, 0)] (3, 2) = Some (0, 1))
    as Hbest by (vm_compute; reflexivity).
  destruct (H (0, 1) Hbest) as [_ Hopt].
  split; [exact Hbest|].
  apply (Hopt
           ltac:(intros m Hm; apply elem_of_CARDINAL_MOVES;
                 apply elem_of_cons in Hm as [->|Hm]; [by left|];
                 apply elem_of_cons in Hm as [->|Hm]; [by do 3 right; left|];
                 apply elem_of_cons in Hm as [->|Hm]; [by do 2 right; left|];
                 by apply elem_of_nil in Hm)
           (-1, 0) ltac:(do 2 right; left)).
Defined.


Lemma pair_choice_eq :
  choose (new_agent "donor" (0, 0) 200) (pair_world 200 5 20) zero_rng =
  Ok (pair_choice.1.1, pair_choice.1.2, pair_choice.2).
Proof. vm_compute. reflexivity. Qed.

Lemma choose_emits_legal_action_witness :
  legal_action (new_agent "donor" (0, 0) 200) (pair_world 200 5 20)
    (available_moves (pair_world 200 5 20) (new_agent "donor" (0, 0) 200))
    pair_choice.1.1.
Proof.
  exact (choose_emits_legal_action _ _ _ _ _ _ pair_choice_eq).
Defined.

Lemma active_requests_are_the_valid_entries_witness :
  OD.get "needy" (active_help_requests (pair_world 200 5 20)).1 =
  Some ((1, 0), 20).
Proof.
  destruct (active_requests_are_the_valid_entries (pair_world 200 5 20) "needy")
    as (_ & _ & _ & _ & H & _).
  etrans; [exact H|]. vm_compute. reflexivity.
Defined.

Lemma help_requests_follow_agents_witness :
  OD.get "needy" (help_requests (duo_world 1)) = Some ((1, 0), 35, 1) /\
  0 < 35 /\ 1 <= tick (duo_world 1) /\
  exists a, OD.get "needy" (agents (duo_world 1)) = Some a /\
            Agent.position a = (1, 0).
Proof.
  assert (OD.get "needy" (help_requests (duo_world 1)) = Some ((1, 0), 35, 1))
    as Hget by (vm_compute; reflexivity).
  split; [exact Hget|].
  exact (help_requests_follow_agents default_config (duo_world 1)
           duo_reachable "needy" (1, 0) 35 1 Hget).
Defined.

Lemma request_is_active_until_cancelled_witness :
  (has_active_request (_register_help_request (duo_world 0) "needy" 0)
     "needy").1 = true.
Proof.
  destruct (request_is_active_until_cancelled (duo_world 0) "needy"
              (new_agent "needy" (1, 0) 5) 0) as [_ H];
    [vm_compute; reflexivity|reflexivity|].
  destruct H as (_ & H & _); [vm_compute; reflexivity|]. exact H.
Defined.

Lemma decay_helper_signals_keeps_answers_witness :
  helper_signals (_decay_helper_signals stale_signal_world) !! "donor" = None /\
  is_recent_helper (_decay_helper_signals stale_signal_world) "donor" =
    is_recent_helper stale_signal_world "donor".
Proof.
  destruct (decay_helper_signals_keeps_answers stale_signal_world "donor")
    as (H1 & _ & H3).
  split; [|exact H1].
  apply eq_None_not_Some. intros [t Ht].
  apply H3 in Ht as [Hs Hle]; [|vm_compute; discriminate].
  vm_compute in Hs. injection Hs as <-. vm_compute in Hle. by apply Hle.
Defined.

Lemma deposit_moves_surplus_to_reactor_witness :
  Reactor.energy (reactor (_deposit_energy surplus_world "a")) = 220 /\
  Agent.energy <$> OD.get "a" (agents (_deposit_energy surplus_world "a"))
    = Some 80.
Proof.
  destruct (deposit_moves_surplus_to_reactor surplus_world "a"
              (new_agent "a" (8, 6) 100)) as (_ & Hr & Ha & _);
    [reflexivity|].
  split.
  - etrans; [exact (f_equal Reactor.energy Hr)|]. vm_compute. reflexivity.
  - etrans; [exact (f_equal (fmap Agent.energy) Ha)|]. vm_compute. reflexivity.
Defined.

Lemma visible_energy_spec_witness :
  exists cells,
    visible_energy gather_world (0, 0) 2 = Ok cells /\
    ((1, 1), 200) ∈ cells.
Proof.
  destruct (visible_energy_spec gather_world (0, 0) 2 gather_world_grid_wf)
    as (cells & H & _ & Hin & _).
  exists cells. split; [exact H|]. apply Hin.
  split_and!; [vm_compute; reflexivity|vm_compute; discriminate
              |vm_compute; reflexivity].
Defined.

Lemma step_keeps_identities_witness :
  exists a, OD.get "donor" (agents (duo_world 0)) = Some a /\
    Agent.id (Agent.set_energy 199 (new_agent "donor" (0, 1) 200)) = Agent.id a /\
    Agent.name (Agent.set_energy 199 (new_agent "donor" (0, 1) 200))
      = Agent.name a /\
    Agent.max_capacity (Agent.set_energy 199 (new_agent "donor" (0, 1) 200))
      = Agent.max_capacity a /\
    Agent.vision_radius (Agent.set_energy 199 (new_agent "donor" (0, 1) 200))
      = Agent.vision_radius a.
Proof.
  assert (OD.get "donor" (agents (duo_world 1)) =
          Some (Agent.set_energy 199 (new_agent "donor" (0, 1) 200))) as Hget
    by (vm_compute; reflexivity).
  exact (step_keeps_identities (duo_world 0) (duo_rng 0) (duo_world 1)
           (duo_rng 1) duo_first_step "donor" _ Hget).
Defined.

Lemma random_empty_cell_spec_witness :
  exists p,
    _random_empty_cell 2 1 {[(0, 0)]} zero_rng = Ok (p, (rng_next zero_rng).2) /\
    p ∉ ({[(0, 0)]} : gset Position).
Proof.
  destruct (random_empty_cell_spec 2 1 {[(0, 0)]} zero_rng)
    as (_ & Hchar & _ & Hdraw).
  destruct Hdraw as (p & Hp & _ & Hin); [vm_compute; discriminate|].
  exists p. split; [exact Hp|]. by apply Hchar in Hin as [_ ?].
Defined.

Lemma seed_world_places_agents_witness :
  (exists w g',
     seed_world 2 3 2 "A" barren zero_rng = Ok (w, g') /\
     tick w = 0 /\ OD.keys (agents w) = ["A00"; "A01"]) /\
  seed_world 7 3 2 "A" barren zero_rng = Raise RuntimeError.
Proof.
  split.
  - destruct (seed_world_places_agents 2 3 2 "A" barren zero_rng)
      as [H _]; [reflexivity..|].
    destruct H as (w & g' & Hw & _ & Ht & Hk & _); [discriminate|].
    exists w, g'. split_and!; [exact Hw|exact Ht|].
    etrans; [exact Hk|]. vm_compute. reflexivity.
  - destruct (seed_world_places_agents 7 3 2 "A" barren zero_rng)
      as [_ H]; [reflexivity..|].
    apply H. reflexivity.
Defined.

Lemma choose_only_prunes_requests_witness :
  agents pair_choice.1.2 = agents (pair_world 200 5 20) /\
  (pair_choice.2 = zero_rng \/ pair_choice.2 = (rng_next zero_rng).2).
Proof.
  destruct (choose_only_prunes_requests _ _ _ _ _ _ pair_choice_eq)
    as (_ & Ha & _ & _ & _ & _ & Hg).
  split; [exact Ha|exact Hg].
Defined.

Lemma trio_gift_eq :
  apply trio_world (give_action "helper" "near" 10) zero_rng =
  Ok (trio_gift.1, trio_gift.2).
Proof. vm_compute. reflexivity. Qed.

Lemma apply_touches_actor_and_target_witness :
  OD.get "far" (agents trio_gift.1) = OD.get "far" (agents trio_world).
Proof.
  destruct (apply_touches_actor_and_target _ _ _ _ _ trio_gift_eq)
    as (_ & _ & H).
  apply (H "far"); [discriminate|]. intros _. discriminate.
Defined.

Lemma reachable_step_total_witness :
  exists w' g',
    step (duo_world 1) (duo_rng 1) = Ok (w', g') /\
    reachable default_config w'.
Proof.
  exact (reachable_step_total default_config (duo_world 1) (duo_rng 1)
           duo_reachable).
Defined.

Lemma crowd_world_grid_wf : grid_wf crowd_world.
Proof. eapply grid_wf_eq_grid; [|apply constructed_grid_wf]. done. Qed.

Lemma crowd_ahead_answerable :
  answerable crowd_helper crowd_world "ahead" (6, 6) 10.
Proof.
  split_and!; [exists 3; vm_compute; reflexivity|discriminate|
               vm_compute; discriminate].
Qed.

Lemma choose_serves_nearest_request_witness :
  exists w',
    choose crowd_helper crowd_world zero_rng =
      Ok (give_action "helper" "ahead" 10, w', zero_rng).
Proof.
  destruct (choose_serves_nearest_request crowd_helper crowd_world zero_rng)
    as (earlier & later & k & p & n & t & Htable & _ & _ & Hbest & Hgive & _).
  - exact crowd_world_grid_wf.
  - apply (bool_decide_unpack _). vm_compute. exact I.
  - vm_compute. discriminate.
  - vm_compute. discriminate.
  - exists "ahead", (6, 6), 10. exact crowd_ahead_answerable.
  - destruct (Hbest _ _ _ crowd_ahead_answerable) as [Hnear Htie].
    assert (help_requests crowd_world =
            [("distant", ((8, 5), 50, 1)); ("modest", ((5, 7), 5, 1));
             ("ahead", ((6, 6), 10, 3)); ("behind", ((7, 5), 10, 2))])
      as Hreqs by reflexivity.
    rewrite Hreqs in Htable. clear Hreqs Hbest.
    destruct earlier as [|e1 [|e2 [|e3 [|e4 earlier]]]];
      cbn [app] in Htable.
    + (* the distant request is farther away *)
      injection Htable as <- <- <- <- <-. exfalso.
      vm_compute in Hnear. by apply Hnear.
    + (* the modest request asks for less *)
      injection Htable as <- <- <- <- <- <-. exfalso.
      destruct Htie as [Hle _]; [vm_compute; reflexivity|].
      vm_compute in Hle. by apply Hle.
    + injection Htable as <- <- <- <- <- <- <-.
      destruct Hgive as (w' & Hw'); [vm_compute; discriminate|].
      exists w'. etrans; [exact Hw'|]. vm_compute. reflexivity.
    + (* the request behind comes later in the table *)
      injection Htable as <- <- <- <- <- <- <- <-. exfalso.
      destruct Htie as [_ Hord]; [vm_compute; reflexivity|].
      apply Hord; [reflexivity|]. right. right. left.
    + injection Htable as _ _ _ _ Habs. by destruct earlier.
Defined.
